(* ===== verification/_CoqProject ===== *)
-Q . S2P
Prelude.v
GoStd.v
Text.v
Tables.v
Driver.v
Json.v
Schema.v
Changes.v
MessageStore.v
MessageService.v
Sending.v
Numerals.v
ConversationSync.v
Encoding.v
JsonText.v
JsonRaw.v
MessageHistory.v
Outbox.v
Events.v
EventsOk.v
Hub.v
HubOk.v
HubPromises.v
Redis.v
RateLimit.v
RateLimitOk.v
Presence.v
PresenceOk.v
PresencePromises.v
Router.v
RouterPromises.v
OutboxRows.v
Delivery.v
Settling.v
ClientStore.v
Client.v
ClientLog.v
ClientPromises.v
ClientSync.v
ClientServer.v
Realtime.v
ClientExamples.v
RealtimeExamples.v
AuthTables.v
Credentials.v
AuthQueries.v
Auth.v
AuthOk.v
CredentialsOk.v
AuthSpec.v
AuthLogin.v
AuthHandlers.v
AuthPromises.v
AuthWorks.v
AuthExamples.v
Handshake.v
HandshakePromises.v
HandshakeWorks.v
HandshakeExamples.v
Packets.v
PacketsOk.v
PacketRuns.v
PacketWorks.v
PacketPromises.v
Fence.v
Cache.v
CachePromises.v
LoadTracker.v
LoadTrackerOk.v
LoadSend.v
LoadSendOk.v
LoadSync.v
LoadPromises.v
SqlScript.v
SqlSplitting.v
Migrate.v
MigrateRun.v
MigratePromises.v
MigrateCommand.v
Startup.v
