(* ===== verification/Prelude.v ===== *)
(** * A verification development of im-backend

    im-backend is a chat server: an HTTP API over PostgreSQL, a transactional outbox
    whose events go to websocket connections on any instance by way of Redis,
    accounts with rotating tokens, a migration runner, a headless client that mirrors
    conversations in a sealed file, and two experiments: a reliability lab and a load
    test.  This library models that code as executable definitions and proves what
    makes each part, and their composition, correct.  This file holds the shared
    vocabulary: results, the effect monad, list lemmas and tactics.

    ** The program and where it is modelled

    A request to send enters [message_handler.go], is checked and run by
    [message_service.go] in a transaction of [message_store.go], which stores the
    message and its event together.  [outbox.go] leases due events and publishes them
    through the publisher of [websocket.go]: each participant's envelope goes to
    [realtime_router.go], which delivers it on the instance's own hub ([websocket.go])
    and asks [redis_presence.go] which other instances hold connections, to which it
    sends commands.  A client that was away reads [conversation_sync.go] and
    [message_history.go] and acknowledges by [sync_ack.go]; the headless client
    ([internal/headlessclient]) does both.  [auth.go] registers, logs in, rotates
    tokens and authenticates every other request, with the cryptography of
    [auth_crypto.go]; [rate_limit.go] guards its endpoints; a websocket request passes
    the accounts, the hub and presence before its connection runs, and a revocation
    closes it again.  [internal/migrate] brings the tables there, told by
    [cmd/im-migrate]; [main.go] starts all of it from its environment, and
    [cmd/im-loadtest] puts it under load and judges what arrived.

    - Vocabulary: [Prelude] (results, procedures), [GoStd] (integers, UTF-8, sorting,
      durations, SHA-256 as an interface), [Text], [Numerals] (strconv), [Json]
      (parsing, struct decoding), [JsonText] (json.Marshal), [JsonRaw]
      (json.RawMessage), [Encoding] (base64, query strings, bodies).
    - Database: [Tables] (rows, keys), [Driver] (statements, transactions, lost
      connections and replies), [Schema] (the tables of [migrations/] and their
      invariants), [Changes] (what one committed change does).
    - Messages: [MessageStore], [MessageService] (message_store.go,
      message_service.go, message_handler.go) and their theorems in [Sending].
    - Reading: [ConversationSync] (conversation_sync.go, sync_ack.go),
      [MessageHistory] (message_history.go), definitions and theorems.
    - Outbox: [Outbox] (outbox.go); [OutboxRows], [Delivery] and [Settling] prove.
    - Realtime: [Events] (the event's payload, the envelope and the outbox publisher
      of websocket.go), [EventsOk]; [Hub] (its hub and clients), [HubOk],
      [HubPromises]; [Redis] (the commands the scripts use, and the network);
      [Presence] (redis_presence.go), [PresenceOk], [PresencePromises]; [Router]
      (realtime_router.go), [RouterPromises]; [Realtime] composes all of them, [RealtimeExamples] runs it.
    - Rate limiting: [RateLimit] (rate_limit.go), [RateLimitOk].
    - Client: [ClientStore], [Client] (store.go and client.go of
      internal/headlessclient), [ClientLog], [ClientPromises], [ClientSync];
      [ClientServer] puts it against this server's handlers; [ClientExamples].
    - Accounts: [AuthTables] (users, sessions, tokens, remembered answers),
      [Credentials] (auth_crypto.go, password hashes and tokens of auth.go),
      [AuthQueries] (its SQL), [Auth] (its handlers and the bearer check); [AuthOk]
      (invariant, evolution), [CredentialsOk], [AuthSpec] (postconditions over the
      rely, and each statement's), [AuthLogin] (login and rotation), [AuthHandlers]
      (what each handler does), [AuthPromises], [AuthWorks], [AuthExamples].
    - Handshake: [Handshake] (serveWebSocket, the session and presence watches of
      websocket.go, over accounts, hub, presence and router), [HandshakePromises],
      [HandshakeWorks], [HandshakeExamples].
    - Reliability lab: [Packets] (packet.go, packet_http.go), [PacketsOk],
      [PacketRuns], [PacketWorks], [PacketPromises]; [Fence] (fence.go); [Cache]
      (cache.go), [CachePromises].
    - Load test (cmd/im-loadtest): [LoadTracker] (what is expected and what arrived),
      [LoadTrackerOk]; [LoadSend] (configuration, one message, all of them, the users
      and the readers), [LoadSendOk]; [LoadSync] (verification, report, exit status),
      [LoadPromises].
    - Migrations: [SqlScript] (the splitter of migrate.go), [SqlSplitting]; [Migrate]
      (migrate.go, schema.go, readiness.go), [MigrateRun], [MigratePromises];
      [MigrateCommand] (cmd/im-migrate).
    - Process: [Startup] (the environment, the checks before serving and the routes of
      main.go).

    A file named after a part holds its definitions, with the source's names; the
    files after it, or the rest of a small file, hold its lemmas, the properties and
    the concrete runs.

    ** How code is modelled

    A function that may fail returns a [result]; one that has effects is a
    [proc W E A], a state transformer whose state [W] is all that it can change: the
    tables and the schedule of the connection for database code, the keyspace and the
    schedule of the network for Redis code, the file and the server for the client.
    Schedules say for each call whether it fails, whether its effect took place
    before the failure, and what others did in between; a theorem that quantifies
    over them covers every interleaving of that kind.  Beyond a schedule's end a call
    fails for the tables ([Driver]) and the client's file ([ClientStore]), and is
    answered, undisturbed, by Redis ([Redis]) and the hub ([Router]).  The hub is a state machine: its goroutine's inputs and the
    connections' own steps are events, clients are objects of a heap because the
    registry compares pointers.  Integers are [Z] with wrap-around where Go wraps,
    times are microseconds in the tables, nanoseconds in durations, milliseconds in
    Redis.  Strings are byte strings.

    Code outside the repository enters as interfaces whose laws are what the program
    relies on, each with an instance that runs: [TimeText] (RFC 3339), [AEAD],
    [StateCodec], [SHA256], [Postgres] (what a migration's statements do),
    [MapOrder], [range_order] and [instance_order] (Go's map iteration), [NetIP],
    [URLSyntax], [LoadTarget] and [LoadUsers] (the server under load);
    the token check and the rotation that the client's server needs are parameters
    of [ClientServer].

    ** What is shown

    - Sending: every table invariant is kept whatever fails, a success is stored
      exactly once under its key, a retry answers with the same message, refusals
      change nothing when no reply is lost, and the handler's reply for each outcome.
    - Reading: pages hold exactly the specified messages in order; cursors round-trip;
      an acknowledgement stores the maximum, so that none goes back.
    - Outbox: no event is lost, leases exclude each other, marks need the lease, and a
      run settles every due event.
    - Realtime: the hub's registry is consistent and a connection reads its user's
      payloads in order; presence respects the connection that holds a session; a
      payload reaches every instance that presence has a connection of the user for,
      and so does a session's disconnection, which closes the recorded connection; the event of a stored message arrives at its participants' connections as
      what the headless client applies.
    - Rate limiting: no window admits more than its limit; a client cannot forge the
      address it is limited by.
    - Client: its log has no gap whatever happens, updates are atomic, and a
      synchronisation against this server ends and mirrors the conversation.
    - Accounts: every handler keeps the tables; a login is answered alike when it is
      repeated; a refresh token has one successor, also when two refreshes overlap, and
      its reuse ends the session; what
      was revoked authenticates nobody any more; an issued token works; a sealed answer
      survives a change of keys.
    - Handshake: only a session that stands comes to a running connection, a revoked
      one loses it, by the disconnection or at the watch's next check; on working calls
      a live session gets its connection.
    - Reliability lab: a packet's credits never exceed its total and reach it when it
      is exhausted, claims agree, a delivery pays once (one that begins before its
      credit is committed may lose it), and claimants are served in the order they come; a superseded lease owner cannot write; a stale cached value has
      an intent that deletes it, or was carried there by a read that overlapped the
      update, less than its time to live ago.
    - Load test: sending ends within its slots with one result for each message, the
      wait loses no signal, the report accounts for every expected delivery although it
      is read while deliveries come, and an exit status of 0 means that every message
      was stored, found by the users its reply names and delivered to every device.
    - Migrations: the splitter agrees with a reference grammar, whose block comments do
      not nest; history grows in the
      chain's order, readiness means a complete history, and the command's exit status
      says what became of the database.
    - Process: a server only starts with a well-formed configuration on a database that
      is ready, and only four routes are open.

    ** Fuel

    JSON parsing has twice the text's length, enough because a call consumes a byte or
    is the first of two on it; splitting a script has the text's length.  A client's
    synchronisation takes the number of pages as fuel, and [ClientSync] shows that
    one more than the messages up to the first page's snapshot suffices, however many
    calls are still to come.  The running loops of the outbox worker and the router take
    a list of turns, one for each time round, as does the load test's wait.  Its page
    loops have the 10,000 pages of the source and one message the four operations it
    has at most; its sending and the cache are step relations.

    ** Not modelled

    - Accounts: the time that a failed password check takes, and the Cache-Control
      header.  argon2, AES-GCM and Unicode lower case are interfaces ([Argon2], [GCM],
      [UnicodeLower]); argon2's panic on zero passes is an error; random bytes come
      from a stream; the clock has microseconds.
    - The handshake's context timeouts are failing calls; fresh connection identifiers
      and pointers are hypotheses ([undisturbed], [spares]).  A connection's pumps, its
      pings and the bytes on the socket are not modelled.
    - A fencing statement reads one clock, in microseconds.  The load test's channel of
      results never blocks: there are no more results than it has room for.
    - The cache's Redis may forget keys but does not bring deleted ones back, as a crash
      of a Redis that had not yet written its log may.
    - The catalogue query of [internal/migrate/schema.go]: what PostgreSQL says of a
      schema is an interface.
    - [cmd/im-loadtest]: the metrics it scrapes and their histograms, percentiles and
      rates (floating point), printing and the report's file, its copy of the password
      hash, the HTTP and websocket transport.  Of [main.go], the goroutines' start, the
      shutdown, request identifiers and the HTTP server's own path cleaning; what flag
      prints in [cmd/im-migrate].
    - [metrics.go] and [database_observability.go] only observe. *)
From stdpp Require Export prelude gmap strings pretty list sorting.
From Stdlib Require Export ZArith Lia.
#[global] Open Scope Z_scope.

(** * Results: Go's [(value, error)] pairs. *)

Inductive result (E A : Type) : Type :=
| Err (e : E)
| Ok (a : A).
Arguments Err {E A} _.
Arguments Ok {E A} _.

#[global] Instance result_eq_dec `{EqDecision E, EqDecision A} : EqDecision (result E A).
Proof. solve_decision. Defined.

Definition is_ok {E A} (r : result E A) : bool := match r with Ok _ => true | Err _ => false end.

Definition map_error {E F A} (f : E → F) (r : result E A) : result F A :=
  match r with Err e => Err (f e) | Ok a => Ok a end.

#[global] Instance result_ret {E} : MRet (result E) := λ A a, Ok a.
#[global] Instance result_bind {E} : MBind (result E) :=
  λ A B f r, match r with Err e => Err e | Ok a => f a end.
#[global] Instance result_fmap {E} : FMap (result E) :=
  λ A B f r, match r with Err e => Err e | Ok a => Ok (f a) end.

Lemma ok_bind {E A B} (a : A) (f : A → result E B) : (Ok a ≫= f) = f a.
Proof. done. Qed.

Lemma result_bind_ok {E A B} (r : result E A) (f : A → result E B) b :
  (r ≫= f) = Ok b → ∃ a, r = Ok a ∧ f a = Ok b.
Proof. destruct r as [e|a]; [done|]. eauto. Qed.

Lemma result_bind_err {E A B} (r : result E A) (f : A → result E B) e :
  (r ≫= f) = Err e → r = Err e ∨ ∃ a, r = Ok a ∧ f a = Err e.
Proof. destruct r as [x|a]; intros Hf; [left; by simplify_eq/=|]. eauto. Qed.

(** * Effectful procedures: state passing with early return. *)

Definition proc (W E A : Type) : Type := W → result E A * W.

#[global] Instance proc_ret {W E} : MRet (proc W E) := λ A a w, (Ok a, w).
#[global] Instance proc_bind {W E} : MBind (proc W E) :=
  λ A B f m w, match m w with (Err e, w') => (Err e, w') | (Ok a, w') => f a w' end.
#[global] Instance proc_throw {W E} : MThrow E (proc W E) := λ A e w, (Err e, w).

(** A primitive step, given by its state transformer. *)
Definition atomically {W E A} (f : W → result E A * W) : proc W E A := f.

Definition run_error {W E F A} (f : E → F) (m : proc W E A) : proc W F A :=
  λ w, match m w with (Err e, w') => (Err (f e), w') | (Ok a, w') => (Ok a, w') end.

Definition attempt {W E F A} (m : proc W E A) : proc W F (result E A) :=
  λ w, match m w with (r, w') => (Ok r, w') end.

Lemma proc_bind_inv {W E A B} (m : proc W E A) (f : A → proc W E B) w r w' :
  (m ≫= f) w = (r, w') →
  (∃ e, m w = (Err e, w') ∧ r = Err e) ∨
  (∃ a w1, m w = (Ok a, w1) ∧ f a w1 = (r, w')).
Proof.
  unfold mbind, proc_bind. destruct (m w) as [[e|a] w1]; intros; simplify_eq; eauto.
Qed.

(** Running forward. *)
Lemma proc_bind_run {W E A B} (m : proc W E A) (f : A → proc W E B) w a w1 :
  m w = (Ok a, w1) → (m ≫= f) w = f a w1.
Proof. unfold mbind, proc_bind. by intros ->. Qed.

Lemma run_error_run {W E F A} (f : E → F) (m : proc W E A) w a w1 :
  m w = (Ok a, w1) → run_error f m w = (Ok a, w1).
Proof. unfold run_error. by intros ->. Qed.

Lemma run_error_inv {W E F A} (f : E → F) (m : proc W E A) w r w' :
  run_error f m w = (r, w') → ∃ r0, m w = (r0, w') ∧ r = map_error f r0.
Proof. unfold run_error. destruct (m w) as [[e|a] w1]; intros; simplify_eq; eauto. Qed.

Lemma attempt_inv {W E F A} (m : proc W E A) w (r : result F (result E A)) w' :
  attempt m w = (r, w') → ∃ r0, m w = (r0, w') ∧ r = Ok r0.
Proof. unfold attempt. destruct (m w) as [r0 w1]; intros; simplify_eq; eauto. Qed.

Lemma proc_ret_inv {W E A} (a : A) (w : W) (r : result E A) w' :
  (mret a : proc W E A) w = (r, w') → r = Ok a ∧ w' = w.
Proof. unfold mret, proc_ret. by intros; simplify_eq. Qed.

Lemma proc_throw_inv {W E A} (e : E) (w : W) (r : result E A) w' :
  (mthrow e : proc W E A) w = (r, w') → r = Err e ∧ w' = w.
Proof. unfold mthrow, proc_throw. by intros; simplify_eq. Qed.

(** A pure result inside a procedure. *)
Definition refuse {W E A} (r : result E A) : proc W E A :=
  match r with Ok a => mret a | Err e => mthrow e end.

Lemma refuse_inv {W E A} (x : result E A) (w : W) r w' : refuse x w = (r, w') → w' = w ∧ r = x.
Proof. unfold refuse. destruct x; [intros [-> ->]%proc_throw_inv|intros [-> ->]%proc_ret_inv]; done. Qed.

(** [run_inv H] follows one run of a procedure: it splits every sequencing
    point of [H] into "failed here" and "went on", and reads off returns. *)
Ltac run_inv_step H :=
  lazymatch type of H with
  | (mbind _ _) _ = (_, _) =>
      let Hr := fresh "Hrun" in
      apply proc_bind_inv in H as [(? & Hr & ->)|(? & ? & Hr & H)];
      [try run_inv_step Hr | try run_inv_step Hr; try run_inv_step H]
  | run_error _ _ _ = (_, _) =>
      let Hr := fresh "Hrun" in apply run_error_inv in H as (? & Hr & H); try run_inv_step Hr
  | attempt _ _ = (_, _) =>
      let Hr := fresh "Hrun" in apply attempt_inv in H as (? & Hr & H); try run_inv_step Hr
  | (mret _) _ = (_, _) => apply proc_ret_inv in H as [??]; simplify_eq
  | (mthrow _) _ = (_, _) => apply proc_throw_inv in H as [??]; simplify_eq
  end.
Ltac run_inv H := repeat run_inv_step H.

(** * Lists *)

Lemma bool_filter_Permutation {A} (p : A → bool) (l l' : list A) :
  l ≡ₚ l' → List.filter p l ≡ₚ List.filter p l'.
Proof.
  induction 1 as [|x l l' _ IH|x y l|l1 l2 l3 _ IH1 _ IH2]; simpl.
  - done.
  - destruct (p x); by rewrite IH.
  - destruct (p x), (p y); done || by constructor.
  - by rewrite IH1.
Qed.
