(* ===== verification/GoStd.v ===== *)
(** The part of Go's language and standard library the program computes with:
    int64 wrap-around, strconv, unicode/utf8 and package strings.  A Go string is
    a Rocq [string], one [ascii] per byte. *)
From S2P Require Import Prelude.
From Stdlib Require Import Ascii String.
Open Scope Z_scope.

(** * Machine integers *)

Definition int64_max : Z := 2 ^ 63 - 1.
Definition int64_min : Z := - 2 ^ 63.
Definition wrap64 (z : Z) : Z := (z + 2 ^ 63) mod 2 ^ 64 - 2 ^ 63.

Definition is_int64 (z : Z) : Prop := int64_min ≤ z ≤ int64_max.

Lemma wrap64_id z : is_int64 z → wrap64 z = z.
Proof.
  unfold is_int64, wrap64, int64_min, int64_max. intros H.
  rewrite Z.mod_small; lia.
Qed.

Lemma wrap64_range z : is_int64 (wrap64 z).
Proof.
  unfold is_int64, wrap64, int64_min, int64_max.
  pose proof (Z.mod_pos_bound (z + 2 ^ 63) (2 ^ 64) ltac:(lia)). lia.
Qed.

(** * Bytes *)

Definition byte_of_ascii (a : ascii) : Z := Z.of_N (N_of_ascii a).
Definition ascii_of_byte (b : Z) : ascii := ascii_of_N (Z.to_N b).

Definition bytes_of (s : string) : list Z := byte_of_ascii <$> String.list_ascii_of_string s.
Definition string_of (bs : list Z) : string := String.string_of_list_ascii (ascii_of_byte <$> bs).

(** Go's [len(s)]. *)
Definition len (s : string) : Z := Z.of_nat (String.length s).

Lemma byte_of_ascii_of_byte b : 0 ≤ b < 256 → byte_of_ascii (ascii_of_byte b) = b.
Proof.
  intros H. unfold byte_of_ascii, ascii_of_byte.
  rewrite N_ascii_embedding by lia. lia.
Qed.

Lemma string_of_bytes_of s : string_of (bytes_of s) = s.
Proof.
  unfold string_of, bytes_of. rewrite <-list_fmap_compose.
  rewrite <-(String.string_of_list_ascii_of_string s) at 2. f_equal.
  rewrite <-(list_fmap_id (list_ascii_of_string s)) at 2. apply list_fmap_ext. intros i a _.
  unfold compose, byte_of_ascii, ascii_of_byte. rewrite N2Z.id. apply ascii_N_embedding.
Qed.

Lemma bytes_of_string_of bs : Forall (λ b, 0 ≤ b < 256) bs → bytes_of (string_of bs) = bs.
Proof.
  intros H. unfold bytes_of, string_of.
  rewrite String.list_ascii_of_string_of_list_ascii.
  induction H as [|b bs Hb _ IH]; [done|].
  rewrite !fmap_cons, byte_of_ascii_of_byte by done. by f_equal.
Qed.

(** * unicode/utf8 *)

Definition rune_error : Z := 65533.

Definition in_range (lo hi b : Z) : bool := (lo <=? b) && (b <=? hi).

(** [utf8.DecodeRune]: the first rune and its width; an ill-formed byte is one
    [rune_error] of width 1. *)
Definition decode_rune (bs : list Z) : Z * nat :=
  match bs with
  | [] => (rune_error, 0%nat)
  | b0 :: rest =>
    if b0 <? 128 then (b0, 1%nat)
    else if in_range 194 223 b0 then
      match rest with
      | b1 :: _ =>
        if in_range 128 191 b1 then ((b0 - 192) * 64 + (b1 - 128), 2%nat) else (rune_error, 1%nat)
      | _ => (rune_error, 1%nat)
      end
    else if in_range 224 239 b0 then
      let lo := if b0 =? 224 then 160 else 128 in
      let hi := if b0 =? 237 then 159 else 191 in
      match rest with
      | b1 :: b2 :: _ =>
        if in_range lo hi b1 && in_range 128 191 b2
        then ((b0 - 224) * 4096 + (b1 - 128) * 64 + (b2 - 128), 3%nat) else (rune_error, 1%nat)
      | _ => (rune_error, 1%nat)
      end
    else if in_range 240 244 b0 then
      let lo := if b0 =? 240 then 144 else 128 in
      let hi := if b0 =? 244 then 143 else 191 in
      match rest with
      | b1 :: b2 :: b3 :: _ =>
        if in_range lo hi b1 && in_range 128 191 b2 && in_range 128 191 b3
        then ((b0 - 240) * 262144 + (b1 - 128) * 4096 + (b2 - 128) * 64 + (b3 - 128), 4%nat)
        else (rune_error, 1%nat)
      | _ => (rune_error, 1%nat)
      end
    else (rune_error, 1%nat)
  end.

Fixpoint decode_runes_fuel (fuel : nat) (bs : list Z) : list (Z * nat) :=
  match fuel, bs with
  | S fuel, _ :: _ => let d := decode_rune bs in d :: decode_runes_fuel fuel (drop d.2 bs)
  | _, _ => []
  end.
Definition decode_runes (bs : list Z) : list (Z * nat) := decode_runes_fuel (List.length bs) bs.

(** [[]rune(s)], [utf8.RuneCountInString(s)] and [utf8.ValidString(s)]. *)
Definition runes_of (s : string) : list Z := (decode_runes (bytes_of s)).*1.
Definition RuneCountInString (s : string) : Z := Z.of_nat (List.length (runes_of s)).
Definition ValidString (s : string) : bool :=
  forallb (λ d : Z * nat, negb ((d.1 =? rune_error) && (d.2 =? 1)%nat)) (decode_runes (bytes_of s)).

Definition valid_rune (r : Z) : bool := in_range 0 55295 r || in_range 57344 1114111 r.

(** [utf8.EncodeRune]; what is not a Unicode scalar value becomes U+FFFD. *)
Definition encode_rune (r0 : Z) : list Z :=
  let r := if valid_rune r0 then r0 else rune_error in
  if r <? 128 then [r]
  else if r <? 2048 then [192 + r / 64; 128 + r mod 64]
  else if r <? 65536 then [224 + r / 4096; 128 + (r / 64) mod 64; 128 + r mod 64]
  else [240 + r / 262144; 128 + (r / 4096) mod 64; 128 + (r / 64) mod 64; 128 + r mod 64].

Definition string_of_runes (rs : list Z) : string := string_of (rs ≫= encode_rune).

Ltac destruct_tests :=
  repeat match goal with
  | |- context [if ?b then _ else _] => let E := fresh "E" in destruct b eqn:E
  | H : context [if ?b then _ else _] |- _ => let E := fresh "E" in destruct b eqn:E
  end.

(** Turn the boolean range tests into inequalities. *)
Ltac bool_arith :=
  unfold in_range, valid_rune, rune_error in *;
  repeat match goal with
  | H : _ && _ = true |- _ => apply andb_true_iff in H as [? ?]
  | H : _ && _ = false |- _ => apply andb_false_iff in H
  | H : _ || _ = true |- _ => apply orb_true_iff in H
  | H : _ || _ = false |- _ => apply orb_false_iff in H as [? ?]
  | H : negb _ = true |- _ => apply negb_true_iff in H
  | H : negb _ = false |- _ => apply negb_false_iff in H
  end.

Lemma in_range_spec lo hi b : in_range lo hi b = true ↔ lo ≤ b ≤ hi.
Proof. unfold in_range. rewrite andb_true_iff. lia. Qed.

Lemma valid_rune_error : valid_rune rune_error = true.
Proof. reflexivity. Qed.

Definition scalar_of (r : Z) : Z := if valid_rune r then r else rune_error.

Lemma scalar_of_bounds r : 0 ≤ scalar_of r ≤ 1114111 ∧ ¬ (55296 ≤ scalar_of r ≤ 57343).
Proof. unfold scalar_of, valid_rune, in_range, rune_error. destruct_tests; lia. Qed.

Ltac div_lia := Z.to_euclidean_division_equations; lia.

Lemma encode_rune_bytes r : Forall (λ b, 0 ≤ b < 256) (encode_rune r).
Proof.
  unfold encode_rune. fold (scalar_of r). pose proof (scalar_of_bounds r) as [? _].
  destruct_tests; repeat first [apply Forall_nil_2 | apply Forall_cons_2]; div_lia.
Qed.

Lemma decode_encode_rune r rest :
  decode_rune (encode_rune r ++ rest) = (scalar_of r, List.length (encode_rune r)).
Proof.
  unfold encode_rune. fold (scalar_of r). pose proof (scalar_of_bounds r) as [? ?].
  generalize dependent (scalar_of r). intros v Hv Hs.
  destruct (v <? 128) eqn:E1; [simpl; by rewrite E1|].
  destruct (v <? 2048) eqn:E2; [|destruct (v <? 65536) eqn:E3];
    cbn [app decode_rune length]; unfold in_range;
    repeat (match goal with
      | |- context [if ?b then _ else _] =>
          first [replace b with true by div_lia | replace b with false by div_lia
                |let E := fresh "E" in destruct b eqn:E]
      end; cbn [andb]);
    try (f_equal; div_lia); exfalso; destruct_tests; div_lia.
Qed.

Lemma encode_rune_nonempty r : encode_rune r ≠ [].
Proof. unfold encode_rune. destruct_tests; done. Qed.

Lemma decode_runes_fuel_encode rs fuel :
  (List.length (rs ≫= encode_rune) ≤ fuel)%nat →
  (decode_runes_fuel fuel (rs ≫= encode_rune)).*1 = scalar_of <$> rs.
Proof.
  revert fuel. induction rs as [|r rs IH]; intros fuel Hf; [by destruct fuel|].
  rewrite bind_cons in Hf |- *. rewrite length_app in Hf.
  pose proof (encode_rune_nonempty r) as Hne.
  destruct (encode_rune r) as [|b bs] eqn:Eb; [done|]. simpl in Hf.
  destruct fuel as [|fuel]; [lia|]. cbn [app decode_runes_fuel].
  change (b :: bs ++ (rs ≫= encode_rune)) with ((b :: bs) ++ (rs ≫= encode_rune)).
  rewrite <-Eb, decode_encode_rune. cbn [snd]. rewrite drop_app_length.
  change ((scalar_of r :: (decode_runes_fuel fuel (rs ≫= encode_rune)).*1)
          = scalar_of r :: (scalar_of <$> rs)).
  f_equal. apply IH. lia.
Qed.

(** Encoding and decoding a rune slice gives back the runes, with U+FFFD for
    what is not a Unicode scalar value. *)
Lemma runes_of_string_of_runes rs : runes_of (string_of_runes rs) = scalar_of <$> rs.
Proof.
  unfold runes_of, string_of_runes, decode_runes.
  rewrite bytes_of_string_of; [by apply decode_runes_fuel_encode|].
  induction rs as [|r rs IH]; [done|].
  rewrite bind_cons. apply Forall_app. auto using encode_rune_bytes.
Qed.

(** What is encoded from runes is valid UTF-8. *)
Lemma decode_runes_fuel_valid rs fuel :
  (List.length (rs ≫= encode_rune) ≤ fuel)%nat →
  forallb (λ d : Z * nat, negb ((d.1 =? rune_error) && (d.2 =? 1)%nat))
    (decode_runes_fuel fuel (rs ≫= encode_rune)) = true.
Proof.
  revert fuel. induction rs as [|r rs IH]; intros fuel Hf; [by destruct fuel|].
  rewrite bind_cons in Hf |- *. rewrite length_app in Hf.
  pose proof (encode_rune_nonempty r) as Hne.
  destruct (encode_rune r) as [|b bs] eqn:Eb; [done|]. simpl in Hf.
  destruct fuel as [|fuel]; [lia|]. cbn [app decode_runes_fuel].
  change (b :: bs ++ (rs ≫= encode_rune)) with ((b :: bs) ++ (rs ≫= encode_rune)).
  rewrite <-Eb, decode_encode_rune. cbn [snd fst forallb]. rewrite drop_app_length.
  rewrite IH by lia. rewrite andb_true_r. apply negb_true_iff, andb_false_iff.
  unfold encode_rune. fold (scalar_of r). destruct (scalar_of r =? rune_error) eqn:Er; [right|by left].
  apply Z.eqb_eq in Er. rewrite Er. done.
Qed.

Lemma ValidString_string_of_runes rs : ValidString (string_of_runes rs) = true.
Proof.
  unfold ValidString, string_of_runes, decode_runes.
  rewrite bytes_of_string_of; [by apply decode_runes_fuel_valid|].
  induction rs as [|r rs IH]; [done|].
  rewrite bind_cons. apply Forall_app. auto using encode_rune_bytes.
Qed.

Lemma RuneCount_string_of_runes rs :
  RuneCountInString (string_of_runes rs) = Z.of_nat (List.length rs).
Proof. unfold RuneCountInString. by rewrite runes_of_string_of_runes, length_fmap. Qed.

Lemma decode_rune_scalar b bs : 0 ≤ b → scalar_of (decode_rune (b :: bs)).1 = (decode_rune (b :: bs)).1.
Proof.
  intros Hb. unfold scalar_of.
  assert (valid_rune (decode_rune (b :: bs)).1 = true) as ->; [|done].
  unfold decode_rune, valid_rune. apply orb_true_iff. rewrite !in_range_spec.
  destruct bs as [|b1 [|b2 [|b3 bs]]]; destruct_tests; bool_arith; simpl;
    repeat match goal with
    | H : (_ <=? _) = true |- _ => apply Z.leb_le in H
    | H : (_ <? _) = true |- _ => apply Z.ltb_lt in H
    | H : (_ =? _) = true |- _ => apply Z.eqb_eq in H
    | H : (_ =? _) = false |- _ => apply Z.eqb_neq in H
    end; lia.
Qed.

Lemma bytes_of_bounds s : Forall (λ b, 0 ≤ b < 256) (bytes_of s).
Proof.
  unfold bytes_of. apply Forall_fmap, Forall_true. intros a. unfold byte_of_ascii.
  simpl. pose proof (N_ascii_bounded a). lia.
Qed.

Lemma runes_scalar s : Forall (λ r, scalar_of r = r) (runes_of s).
Proof.
  unfold runes_of, decode_runes. pose proof (bytes_of_bounds s) as Hb. revert Hb.
  generalize (List.length (bytes_of s)). generalize (bytes_of s).
  intros bs fuel. revert bs. induction fuel as [|fuel IH]; intros bs Hb; [constructor|].
  destruct bs as [|b bs]; [constructor|]. cbn [decode_runes_fuel]. rewrite fmap_cons. constructor.
  - apply decode_rune_scalar. apply Forall_cons in Hb. lia.
  - apply IH. by apply Forall_drop.
Qed.

(** Decoding and encoding again: an ill-formed byte becomes U+FFFD. *)
Definition json_text (s : string) : string := string_of_runes (runes_of s).

Lemma json_text_valid s : ValidString (json_text s) = true.
Proof. apply ValidString_string_of_runes. Qed.

(** ASCII text is valid. *)
Lemma encode_ascii bs : Forall (λ b, 0 ≤ b < 128) bs → bs ≫= encode_rune = bs.
Proof.
  induction 1 as [|b bs Hb _ IH]; [done|]. rewrite bind_cons, IH. unfold encode_rune.
  replace (valid_rune b) with true by (unfold valid_rune, in_range; lia). by replace (b <? 128) with true by lia.
Qed.

Lemma ascii_valid s : Forall (λ b, 0 ≤ b < 128) (bytes_of s) → ValidString s = true.
Proof.
  intros Hs. rewrite <-(string_of_bytes_of s), <-(encode_ascii _ Hs). apply ValidString_string_of_runes.
Qed.

(** * strconv *)

Definition digit_value (a : ascii) : option Z :=
  let b := byte_of_ascii a in if in_range 48 57 b then Some (b - 48) else None.

Fixpoint parse_digits (acc : Z) (s : string) : option Z :=
  match s with
  | EmptyString => Some acc
  | String a s' => d ← digit_value a; parse_digits (acc * 10 + d) s'
  end.

Definition int64_check (z : Z) : option Z :=
  if in_range int64_min int64_max z then Some z else None.

(** [strconv.ParseInt(s, 10, 64)], which [strconv.Atoi] agrees with where int has
    64 bits; [None] stands for both ErrSyntax and ErrRange. *)
Definition ParseInt (s : string) : option Z :=
  let '(sign, digits) :=
    match s with
    | String "+" s' => (1, s')
    | String "-" s' => (-1, s')
    | _ => (1, s)
    end%char in
  match digits with
  | EmptyString => None
  | _ => v ← parse_digits 0 digits; int64_check (sign * v)
  end.

(** [strconv.FormatInt(z, 10)]. *)
Definition FormatInt (z : Z) : string := pretty z.

#[global] Instance FormatInt_inj : Inj (=) (=) FormatInt.
Proof. unfold FormatInt. apply _. Qed.

Lemma ParseInt_int64 s z : ParseInt s = Some z → is_int64 z.
Proof.
  unfold ParseInt, int64_check, is_int64. intros H.
  destruct (match s with String "+" s' => _ | String "-" s' => _ | _ => _ end%char) as [sg ds].
  destruct ds as [|a ds]; [done|]. destruct (parse_digits 0 (String a ds)); [|done].
  simpl in H. destruct (in_range _ _ _) eqn:E; [|done]. apply in_range_spec in E. by simplify_eq.
Qed.

(** * strings *)

Fixpoint HasPrefix (prefix s : string) : bool :=
  match prefix, s with
  | EmptyString, _ => true
  | String a p, String b s' => bool_decide (a = b) && HasPrefix p s'
  | String _ _, EmptyString => false
  end.

(** * Durations, in nanoseconds *)

Definition millisecond : Z := 1000000.
Definition second : Z := 1000 * millisecond.

(** [time.Duration.Milliseconds]. *)
Definition Milliseconds (d : Z) : Z := Z.quot d millisecond.

(** * crypto/sha256 and encoding/hex *)

Class SHA256 := {
  Sum256 : list Z → list Z;
  Sum256_length : ∀ bs, List.length (Sum256 bs) = 32%nat
}.

Definition hex_digit (n : Z) : ascii := ascii_of_byte (if n <? 10 then 48 + n else 87 + n).
Fixpoint hex (bs : list Z) : string :=
  match bs with
  | [] => EmptyString
  | b :: bs => String (hex_digit (b / 16)) (String (hex_digit (b mod 16)) (hex bs))
  end.

(** * Time text

    How PostgreSQL renders a timestamptz inside jsonb, and [time.Time]'s JSON
    text, are not the program's; it relies on reading back what was written. *)
Class TimeText := {
  format_time : Z → string;
  parse_time : string → option Z;
  parse_format_time : ∀ t, parse_time (format_time t) = Some t;
  format_time_ascii : ∀ t, Forall (λ b, 0 ≤ b < 128) (bytes_of (format_time t))
}.

(** [time.Time]'s zero, 0001-01-01T00:00:00Z, in microseconds. *)
Definition zero_time : Z := -62135596800000000.

(** An instance of the interface: binary text. *)
Fixpoint pos_text (p : positive) : string :=
  match p with
  | xH => String "h"%char EmptyString
  | xO p => String "0"%char (pos_text p)
  | xI p => String "1"%char (pos_text p)
  end.
Fixpoint text_pos (s : string) : option positive :=
  match s with
  | String "h" EmptyString => Some xH
  | String "0" s => xO <$> text_pos s
  | String "1" s => xI <$> text_pos s
  | _ => None
  end%char.

Lemma text_pos_text p : text_pos (pos_text p) = Some p.
Proof. induction p; simpl; by rewrite ?IHp. Qed.

Lemma pos_text_ascii p : Forall (λ b, 0 ≤ b < 128) (bytes_of (pos_text p)).
Proof. induction p; repeat constructor; done. Qed.

Definition binary_time_text (t : Z) : string :=
  match t with
  | Z0 => String "z"%char EmptyString
  | Zpos p => String "+"%char (pos_text p)
  | Zneg p => String "-"%char (pos_text p)
  end.
Definition parse_binary_time (s : string) : option Z :=
  match s with
  | String "z" EmptyString => Some 0
  | String "+" s => Zpos <$> text_pos s
  | String "-" s => Zneg <$> text_pos s
  | _ => None
  end%char.

Definition binary_time : TimeText.
Proof.
  refine {| format_time := binary_time_text; parse_time := parse_binary_time |}.
  - intros [|p|p]; simpl; by rewrite ?text_pos_text.
  - intros [|p|p]; simpl; repeat constructor; try done; apply pos_text_ascii.
Defined.

(** * crypto/cipher *)

(** An AEAD cipher under a key: what was sealed opens. *)
Class AEAD := {
  NonceSize : nat;
  aead_seal : list Z → list Z → list Z → list Z;
  aead_open : list Z → list Z → list Z → option (list Z);
  open_seal : ∀ nonce plaintext additional, List.length nonce = NonceSize →
    aead_open nonce (aead_seal nonce plaintext additional) additional = Some plaintext
}.
