(* ===== verification/Text.v ===== *)
(** Text as bytes: what [internal/migrate] uses of package strings (Split, Join,
    TrimSpace, HasPrefix, ToUpper against an ASCII word) and the lemmas on them. *)
From Stdlib Require Import Ascii String.
From S2P Require Import Prelude GoStd.
Open Scope Z_scope.

Abbreviation text := (list Z).

Definition newline : Z := 10.

Fixpoint has_prefix (p bs : text) : bool :=
  match p, bs with
  | [], _ => true
  | x :: p, b :: bs => (x =? b) && has_prefix p bs
  | _ :: _, [] => false
  end.

(** [strings.Split] at one byte: never empty. *)
Fixpoint split_at (sep : Z) (bs : text) : list text :=
  match bs with
  | [] => [[]]
  | b :: bs =>
      if b =? sep then [] :: split_at sep bs
      else match split_at sep bs with
           | line :: lines => (b :: line) :: lines
           | [] => [[b]]
           end
  end.

(** [strings.Join]. *)
Fixpoint join (sep : Z) (lines : list text) : text :=
  match lines with
  | [] => []
  | [line] => line
  | line :: lines => line ++ sep :: join sep lines
  end.

(** [unicode.IsSpace]: the White_Space code points. *)
Definition spaces : list Z :=
  [9; 10; 11; 12; 13; 32; 133; 160; 5760; 8192; 8193; 8194; 8195; 8196; 8197; 8198; 8199; 8200; 8201; 8202;
   8232; 8233; 8239; 8287; 12288].

(** A text begins, or ends, with a space when it begins, or ends, with the encoding
    of one. *)
Definition space_encodings : list text := encode_rune <$> spaces.

Fixpoint strip (fuel : nat) (encodings : list text) (bs : text) : text :=
  match fuel with
  | O => bs
  | S fuel =>
      match List.find (λ e, has_prefix e bs) encodings with
      | Some e => strip fuel encodings (drop (List.length e) bs)
      | None => bs
      end
  end.

Definition trim_left (bs : text) : text := strip (List.length bs) space_encodings bs.
Definition trim_right (bs : text) : text := reverse (strip (List.length bs) (reverse <$> space_encodings) (reverse bs)).
Definition TrimSpace (bs : text) : text := trim_right (trim_left bs).

(** [strings.Fields]; the fuel is the text's length. *)
Fixpoint fields_from (fuel : nat) (current bs : text) : list text :=
  let flush := if bool_decide (current = []) then [] else [current] in
  match fuel with
  | O => flush
  | S fuel =>
      match List.find (λ e, has_prefix e bs) space_encodings, bs with
      | Some e, _ => flush ++ fields_from fuel [] (drop (List.length e) bs)
      | None, b :: bs => fields_from fuel (current ++ [b]) bs
      | None, [] => flush
      end
  end.
Definition Fields (bs : text) : list text := fields_from (S (List.length bs)) [] bs.

(** [unicode.ToUpper] where the result is an ASCII letter; any other rune can not
    become one and is left alone. *)
Definition upper_rune (r : Z) : Z :=
  if in_range 97 122 r then r - 32 else if r =? 305 then 73 else if r =? 383 then 83 else r.

(** [strings.ToUpper(s) == word], the word being ASCII. *)
Definition upper_is (word : text) (bs : text) : bool :=
  bool_decide (upper_rune <$> (decode_runes bs).*1 = word).

(** * Lemmas *)

Lemma split_at_nonempty sep bs : split_at sep bs ≠ [].
Proof. destruct bs as [|b bs]; simpl; [done|]. destruct (b =? sep); [done|]. by destruct (split_at sep bs). Qed.

Lemma join_cons sep line lines : lines ≠ [] → join sep (line :: lines) = line ++ sep :: join sep lines.
Proof. by destruct lines. Qed.

(** Splitting and joining are inverse. *)
Lemma join_split_at sep bs : join sep (split_at sep bs) = bs.
Proof.
  induction bs as [|b bs IH]; [done|]. simpl. destruct (b =? sep) eqn:E.
  - apply Z.eqb_eq in E as ->. rewrite join_cons by apply split_at_nonempty. by rewrite IH.
  - pose proof (split_at_nonempty sep bs) as Hne. destruct (split_at sep bs) as [|line lines]; [done|].
    destruct lines as [|line' lines]; simpl in *; [by rewrite IH|]. by rewrite <-IH.
Qed.

Lemma split_at_line sep line : sep ∉ line → split_at sep line = [line].
Proof.
  induction line as [|b line IH]; [done|]. intros Hn. apply not_elem_of_cons in Hn as [Hb Hn]. simpl.
  destruct (b =? sep) eqn:E; [apply Z.eqb_eq in E; congruence|]. by rewrite IH.
Qed.

Lemma split_at_app sep line bs : sep ∉ line → split_at sep (line ++ sep :: bs) = line :: split_at sep bs.
Proof.
  induction line as [|b line IH]; intros Hn; simpl; [by rewrite Z.eqb_refl|].
  apply not_elem_of_cons in Hn as [Hb Hn]. destruct (b =? sep) eqn:E; [apply Z.eqb_eq in E; congruence|].
  by rewrite IH.
Qed.

Lemma split_at_join sep lines :
  lines ≠ [] → Forall (λ line, sep ∉ line) lines → split_at sep (join sep lines) = lines.
Proof.
  intros Hne Hall. induction Hall as [|line lines Hl Hall IH]; [done|].
  destruct lines as [|line' lines]; [by apply split_at_line|].
  rewrite join_cons, split_at_app by done. by rewrite IH.
Qed.

Lemma split_at_no_sep sep bs : Forall (λ line, sep ∉ line) (split_at sep bs).
Proof.
  induction bs as [|b bs IH]; [repeat constructor; by apply not_elem_of_nil|]. simpl.
  destruct (b =? sep) eqn:E; [constructor; [apply not_elem_of_nil|done]|]. apply Z.eqb_neq in E.
  destruct (split_at sep bs) as [|line lines].
  - repeat constructor. apply not_elem_of_cons. split; [done|apply not_elem_of_nil].
  - apply Forall_cons in IH as [? ?]. constructor; [by apply not_elem_of_cons|done].
Qed.

Lemma has_prefix_spec p bs : has_prefix p bs = true ↔ ∃ rest, bs = p ++ rest.
Proof.
  revert bs. induction p as [|x p IH]; intros [|b bs]; simpl; [split; eauto|split; eauto|split; [done|]|].
  - by intros (? & [=]).
  - rewrite andb_true_iff, IH, Z.eqb_eq. split; [by intros [-> (rest & ->)]; exists rest|].
    intros (rest & [= -> ->]). eauto.
Qed.

(** A stripped text has no space left at its end. *)
Lemma strip_done fuel encodings bs :
  Forall (λ e, e ≠ []) encodings → (List.length bs ≤ fuel)%nat →
  Forall (λ e, has_prefix e (strip fuel encodings bs) = false) encodings.
Proof.
  intros Hne. revert bs. induction fuel as [|fuel IH]; intros bs Hf; simpl.
  - destruct bs; [|simpl in Hf; lia]. apply (Forall_impl _ _ _ Hne). by intros [].
  - destruct (List.find _ _) as [e|] eqn:E.
    + apply find_some in E as [He Hp]. apply has_prefix_spec in Hp as (rest & ->).
      rewrite drop_app_length. apply IH. rewrite Forall_forall in Hne.
      assert (e ≠ []) as Hnil by (by apply Hne, list_elem_of_In).
      rewrite length_app in Hf. destruct e; [done|]. simpl in Hf. lia.
    + apply Forall_forall. intros e He. eapply find_none in E; [done|by apply list_elem_of_In].
Qed.

Lemma strip_suffix fuel encodings bs : ∃ spaces_, bs = spaces_ ++ strip fuel encodings bs.
Proof.
  revert bs. induction fuel as [|fuel IH]; intros bs; simpl; [by exists []|].
  destruct (List.find _ _) as [e|] eqn:E; [|by exists []].
  apply find_some in E as [_ Hp]. apply has_prefix_spec in Hp as (rest & ->).
  rewrite drop_app_length. destruct (IH rest) as (s & Hs). exists (e ++ s). by rewrite <-app_assoc, <-Hs.
Qed.

(** What is trimmed lies inside what was given. *)
Lemma TrimSpace_inside bs : ∃ before after, bs = before ++ TrimSpace bs ++ after.
Proof.
  unfold TrimSpace, trim_right. destruct (strip_suffix (List.length bs) space_encodings bs) as (before & Hb).
  fold (trim_left bs) in Hb.
  destruct (strip_suffix (List.length (trim_left bs)) (reverse <$> space_encodings) (reverse (trim_left bs))) as (after & Ha).
  exists before, (reverse after). rewrite Hb at 1. f_equal.
  apply (f_equal reverse) in Ha. by rewrite reverse_involutive, reverse_app in Ha.
Qed.
