(* ===== verification/Tables.v ===== *)
(** Tables as lists of rows, and the SQL the program writes over them: WHERE,
    UPDATE, DELETE, ORDER BY and LIMIT, with the lemmas about row keys. *)
From S2P Require Import Prelude.

Section tables.
Context {A : Type}.
Implicit Types (p q : A → bool) (f : A → A) (l : list A).

Definition sql_where p l : list A := List.filter p l.
Definition sql_exists p l : bool := existsb p l.
Definition sql_update p f l : list A := (λ r, if p r then f r else r) <$> l.
Definition sql_delete p l : list A := List.filter (λ r, negb (p r)) l.
Definition rows_affected p l : Z := Z.of_nat (length (sql_where p l)).
(** A query that expects one row: the first, or pgx.ErrNoRows. *)
Definition sql_first p l : option A := List.find p l.
Definition sql_limit (n : Z) l : list A := take (Z.to_nat n) l.

Lemma elem_of_where p l x : x ∈ sql_where p l ↔ x ∈ l ∧ p x = true.
Proof. unfold sql_where. by rewrite !list_elem_of_In, filter_In. Qed.

Lemma elem_of_delete p l x : x ∈ sql_delete p l ↔ x ∈ l ∧ p x = false.
Proof. unfold sql_delete. by rewrite !list_elem_of_In, filter_In, negb_true_iff. Qed.

Lemma elem_of_update p f l x :
  x ∈ sql_update p f l ↔ ∃ y, y ∈ l ∧ x = if p y then f y else y.
Proof. unfold sql_update. rewrite list_elem_of_fmap. firstorder. Qed.

Lemma sql_exists_true p l : sql_exists p l = true ↔ ∃ x, x ∈ l ∧ p x = true.
Proof.
  unfold sql_exists. rewrite existsb_exists.
  split; intros (x & Hx & ?); exists x; rewrite list_elem_of_In in *; done.
Qed.

Lemma sql_exists_false p l : sql_exists p l = false ↔ ∀ x, x ∈ l → p x = false.
Proof.
  split.
  - intros H x Hx. apply not_true_iff_false. intros Hp.
    apply not_true_iff_false in H. apply H, sql_exists_true. eauto.
  - intros H. apply not_true_iff_false. intros (x & Hx & Hp)%sql_exists_true.
    by rewrite H in Hp.
Qed.

Lemma sql_first_Some p l x : sql_first p l = Some x → x ∈ l ∧ p x = true.
Proof. unfold sql_first. intros H%find_some. by rewrite list_elem_of_In. Qed.

Lemma sql_first_None p l : sql_first p l = None ↔ ∀ x, x ∈ l → p x = false.
Proof.
  unfold sql_first. split.
  - intros H x Hx. eapply find_none; [done|by apply list_elem_of_In].
  - induction l as [|y l IH]; intros H; simpl; [done|].
    rewrite H by apply list_elem_of_here. apply IH. intros x Hx. apply H. by right.
Qed.

Lemma sql_first_app_l p l1 l2 x :
  sql_first p l1 = Some x → sql_first p (l1 ++ l2) = Some x.
Proof. unfold sql_first. induction l1 as [|y l1 IH]; simpl; [done|]. by destruct (p y). Qed.

Lemma sql_first_app_r p l1 l2 :
  sql_first p l1 = None → sql_first p (l1 ++ l2) = sql_first p l2.
Proof. unfold sql_first. induction l1 as [|y l1 IH]; simpl; [done|]. by destruct (p y). Qed.

Lemma where_none p l : (∀ x, x ∈ l → p x = false) → sql_where p l = [].
Proof.
  intros H. induction l as [|y l IH]; simpl; [done|].
  rewrite H by apply list_elem_of_here. apply IH. intros x Hx. apply H. by right.
Qed.

Lemma update_none p f l : (∀ x, x ∈ l → p x = false) → sql_update p f l = l.
Proof.
  intros H. induction l as [|y l IH]; simpl; [done|].
  rewrite H by apply list_elem_of_here. f_equal. apply IH. intros x Hx. apply H. by right.
Qed.

Lemma rows_affected_0 p l : rows_affected p l = 0 ↔ ∀ x, x ∈ l → p x = false.
Proof.
  unfold rows_affected. split.
  - intros H x Hx. destruct (p x) eqn:E; [|done].
    assert (x ∈ sql_where p l) as Hw by (by apply elem_of_where).
    destruct (sql_where p l); [by apply elem_of_nil in Hw|simpl in H; lia].
  - intros H. by rewrite where_none.
Qed.

(** ** Row keys *)
Section keys.
Context {K : Type} (key : A → K).

Definition unique_key l : Prop := NoDup (key <$> l).

Lemma unique_key_inj l x y : unique_key l → x ∈ l → y ∈ l → key x = key y → x = y.
Proof.
  unfold unique_key. induction l as [|z l IH]; intros Hnd Hx Hy Hk; [set_solver|].
  rewrite fmap_cons, NoDup_cons in Hnd. destruct Hnd as [Hz Hnd].
  apply elem_of_cons in Hx as [->|Hx], Hy as [->|Hy]; [done|..|eauto]; exfalso; apply Hz.
  - rewrite Hk. by apply list_elem_of_fmap_2.
  - rewrite <-Hk. by apply list_elem_of_fmap_2.
Qed.

Lemma update_keys p f l : (∀ x, key (f x) = key x) → key <$> sql_update p f l = key <$> l.
Proof.
  intros Hf. unfold sql_update. rewrite <-list_fmap_compose.
  apply list_fmap_ext. intros i x _. simpl. by destruct (p x).
Qed.

Lemma unique_key_update p f l :
  (∀ x, key (f x) = key x) → unique_key l → unique_key (sql_update p f l).
Proof. intros Hf. unfold unique_key. by rewrite update_keys. Qed.

Lemma unique_key_sublist l l' : l' `sublist_of` l → unique_key l → unique_key l'.
Proof.
  intros Hs H. eapply sublist_NoDup; [exact H|]. clear H.
  induction Hs; rewrite ?fmap_cons; by constructor.
Qed.

Lemma unique_key_app l x :
  unique_key l → (∀ y, y ∈ l → key y ≠ key x) → unique_key (l ++ [x]).
Proof.
  unfold unique_key. intros Hnd Hx. rewrite fmap_app, NoDup_app.
  split; [done|split; [|apply NoDup_singleton]].
  intros k (y & -> & Hy)%list_elem_of_fmap [= Hk]%list_elem_of_singleton. by eapply Hx.
Qed.

Lemma sql_first_key p l x :
  unique_key l → x ∈ l → p x = true → (∀ y, p y = true → key y = key x) →
  sql_first p l = Some x.
Proof.
  intros Hnd Hx Hp Hk. destruct (sql_first p l) as [y|] eqn:E.
  - apply sql_first_Some in E as [Hy Hpy]. f_equal. eapply unique_key_inj; eauto.
  - rewrite sql_first_None in E. by rewrite E in Hp.
Qed.

Lemma where_key p l x :
  unique_key l → x ∈ l → p x = true → (∀ y, y ∈ l → p y = true → key y = key x) →
  sql_where p l = [x].
Proof.
  unfold unique_key. induction l as [|y l IH]; intros Hnd Hx Hp Hk; [set_solver|].
  rewrite fmap_cons, NoDup_cons in Hnd. destruct Hnd as [Hy Hnd]. simpl.
  apply elem_of_cons in Hx as [->|Hx].
  - rewrite Hp. f_equal. apply where_none. intros z Hz. destruct (p z) eqn:E; [|done].
    exfalso. apply Hy. rewrite <-(Hk z) by (done || by right). by apply list_elem_of_fmap_2.
  - destruct (p y) eqn:E.
    + exfalso. apply Hy. rewrite (Hk y) by (done || by left). by apply list_elem_of_fmap_2.
    + apply IH; auto. intros z Hz. apply Hk. by right.
Qed.
End keys.

Lemma where_sublist p l : sql_where p l `sublist_of` l.
Proof.
  induction l as [|y l IH]; simpl; [constructor|].
  destruct (p y); by constructor.
Qed.

Lemma delete_sublist p l : sql_delete p l `sublist_of` l.
Proof. apply where_sublist. Qed.
End tables.

(** ** ORDER BY an integer column *)
Section order_by.
Context {A : Type} (key : A → Z).

Definition key_le (x y : A) : Prop := key x ≤ key y.
#[global] Instance key_le_dec x y : Decision (key_le x y).
Proof. unfold key_le. apply _. Defined.
#[global] Instance key_le_total : Total key_le.
Proof. intros x y. unfold key_le. lia. Qed.
#[global] Instance key_le_trans : Transitive key_le.
Proof. intros x y z. unfold key_le. lia. Qed.

Definition sql_order_by (l : list A) : list A := merge_sort key_le l.

Lemma order_by_Permutation l : sql_order_by l ≡ₚ l.
Proof. apply merge_sort_Permutation. Qed.

Lemma elem_of_order_by l x : x ∈ sql_order_by l ↔ x ∈ l.
Proof. by rewrite order_by_Permutation. Qed.

Lemma order_by_sorted l : StronglySorted key_le (sql_order_by l).
Proof. apply StronglySorted_merge_sort; apply _. Qed.
End order_by.
Arguments sql_order_by {A} _ _ : simpl never.

Definition sql_order_by_desc {A} (key : A → Z) : list A → list A := sql_order_by (λ x, - key x).

Lemma order_by_keys_sorted {A} (key : A → Z) l : StronglySorted Z.le (key <$> sql_order_by key l).
Proof.
  induction (order_by_sorted key l) as [|x l' _ IH Hall]; [constructor|].
  rewrite fmap_cons. constructor; [exact IH|]. by apply Forall_fmap.
Qed.

Lemma seqZ_sorted lo n : StronglySorted Z.le (seqZ lo n).
Proof.
  destruct (decide (0 ≤ n)) as [Hn|Hn]; [|rewrite seqZ_nil by lia; constructor].
  revert lo. pattern n. apply natlike_ind; [intros lo; rewrite seqZ_nil by lia; constructor| |done].
  intros k Hk IH lo. rewrite seqZ_cons by lia. constructor; [rewrite Z.pred_succ; apply IH|].
  apply Forall_seqZ. lia.
Qed.

(** A sorted duplicate-free column is determined by its range. *)
Lemma order_by_range {A} (key : A → Z) (l : list A) lo n :
  NoDup (key <$> l) → (∀ k, k ∈ key <$> l ↔ lo ≤ k < lo + n) → key <$> sql_order_by key l = seqZ lo n.
Proof.
  intros Hnd Hin. apply (StronglySorted_unique Z.le).
  - apply order_by_keys_sorted.
  - apply seqZ_sorted.
  - apply NoDup_Permutation.
    + by rewrite order_by_Permutation.
    + apply NoDup_seqZ.
    + intros k. by rewrite order_by_Permutation, elem_of_seqZ, Hin.
Qed.

(** The first rows of a keyed order: strictly increasing, and nothing before the
    last of them is left out. *)
Section first_rows.
Context {A : Type} (key : A → Z).

Lemma order_by_keys_strict l :
  NoDup (key <$> l) → StronglySorted Z.lt (key <$> sql_order_by key l).
Proof.
  intros Hnd. assert (NoDup (key <$> sql_order_by key l)) as Hnd' by (by rewrite order_by_Permutation).
  pose proof (order_by_keys_sorted key l) as Hs. revert Hnd' Hs.
  induction (key <$> sql_order_by key l) as [|k ks IH]; intros Hnd' Hs; [constructor|].
  apply NoDup_cons in Hnd' as [Hk Hnd']. apply StronglySorted_inv in Hs as [Hs Hall].
  constructor; [auto|]. rewrite Forall_forall in Hall |- *. intros k' Hk'.
  specialize (Hall k' Hk'). destruct (decide (k = k')) as [->|]; [done|lia].
Qed.

Lemma sorted_take_drop (l : list Z) n k :
  StronglySorted Z.lt l → k ∈ drop n l → Forall (λ j, j < k) (take n l).
Proof.
  revert n. induction l as [|j l IH]; intros n Hs Hk.
  { rewrite drop_nil in Hk. by apply elem_of_nil in Hk. }
  destruct n as [|n]; [constructor|]. simpl in *. apply StronglySorted_inv in Hs as [Hs Hall].
  constructor; [|auto]. rewrite Forall_forall in Hall. apply Hall.
  rewrite <-(take_drop n l), elem_of_app. by right.
Qed.

Lemma first_rows_complete l n x :
  NoDup (key <$> l) → x ∈ l →
  x ∈ take n (sql_order_by key l) ∨
  (n < List.length (sql_order_by key l))%nat ∧
    ∀ y, y ∈ take n (sql_order_by key l) → key y < key x.
Proof.
  intros Hnd Hx. rewrite <-(elem_of_order_by key) in Hx.
  rewrite <-(take_drop n (sql_order_by key l)), elem_of_app in Hx. destruct Hx as [Hx|Hx]; [by left|right].
  split.
  - destruct (decide (n < List.length (sql_order_by key l))%nat); [done|].
    rewrite drop_ge in Hx by lia. by apply elem_of_nil in Hx.
  - intros y Hy. pose proof (sorted_take_drop _ n (key x) (order_by_keys_strict l Hnd)) as Hall.
    rewrite <-fmap_drop, <-fmap_take in Hall.
    specialize (Hall ltac:(by apply list_elem_of_fmap_2)). rewrite Forall_fmap, Forall_forall in Hall.
    by apply Hall.
Qed.
End first_rows.
