(* ===== verification/Driver.v ===== *)
(** The database driver as the handlers see it: transactions over a committed
    state, calls that fail before or after the server acted, server-generated
    values, and other connections that commit between two calls.  The second half
    is the rely/guarantee argument every handler proof uses. *)
From S2P Require Import Prelude.

(** * The database driver.

    A run of a handler consumes a schedule of [event]s, one per driver call.
    An event fixes what the environment decides at that call: the wall clock,
    the values the server generates (identity columns, and the UUID of each row a
    statement writes), the rows that SKIP LOCKED passes over, whether the call
    fails, and what other connections committed since the previous call (they see
    which uncommitted rows this transaction holds). *)

Inductive db_error : Type :=
| PgError (sqlstate : string)
| ConnError
| NoRows.
#[global] Instance db_error_eq_dec : EqDecision db_error.
Proof. solve_decision. Defined.

(** A call may fail before the server acts, or after it acted, the reply lost. *)
Inductive fault : Type := NoFault | LostBefore | LostAfter.

Record event (D U : Type) : Type := Event {
  ev_now : Z;
  ev_id : Z;
  ev_uuid : nat → string;
  ev_held : string → bool;
  ev_fault : fault;
  ev_env : list U → D → D
}.
Arguments Event {D U} _ _ _ _ _ _.
Arguments ev_now {D U} _.
Arguments ev_id {D U} _.
Arguments ev_uuid {D U} _ _.
Arguments ev_held {D U} _ _.
Arguments ev_fault {D U} _.
Arguments ev_env {D U} _ _ _.

(** [w_db] is the committed state, [w_tx] the uncommitted row changes of the
    transaction in progress, [w_start] its CURRENT_TIMESTAMP. *)
Record world (D U : Type) : Type := World {
  w_db : D;
  w_tx : list U;
  w_start : Z;
  w_events : list (event D U)
}.
Arguments World {D U} _ _ _ _.
Arguments w_db {D U} _.
Arguments w_tx {D U} _.
Arguments w_start {D U} _.
Arguments w_events {D U} _.

(** What one row change does to the tables. *)
Class RowChange (D U : Type) := apply_change : U → D → D.

(** What a statement can read besides the tables. *)
Record stmt_env : Type := StmtEnv {
  current_timestamp : Z;
  clock_timestamp : Z;
  generated_id : Z;
  generated_uuid : nat → string;
  row_held : string → bool
}.

Section driver.
Context {D U : Type} `{!RowChange D U}.
Implicit Types (d : D) (us : list U) (w : world D U).

Definition apply_changes us d : D := foldl (λ d u, apply_change u d) d us.

(** What a statement of the current transaction sees. *)
Definition tx_view w : D := apply_changes (w_tx w) (w_db w).

(** A statement reads the view and yields a value and its row changes. *)
Definition statement (A : Type) : Type := stmt_env → D → result db_error (A * list U).

Definition next_event : proc (world D U) db_error (event D U) := λ w,
  match w_events w with
  | [] => (Err ConnError, w)
  | e :: es => (Ok e, World (ev_env e (w_tx w) (w_db w)) (w_tx w) (w_start w) es)
  end.

Definition begin_tx : proc (world D U) db_error unit :=
  e ← next_event;
  match ev_fault e with
  | NoFault => atomically (λ w, (Ok tt, World (w_db w) [] (ev_now e) (w_events w)))
  | _ => mthrow ConnError
  end.

Definition tx_statement {A} (st : statement A) : proc (world D U) db_error A :=
  e ← next_event;
  match ev_fault e with
  | NoFault => atomically (λ w,
      match st (StmtEnv (w_start w) (ev_now e) (ev_id e) (ev_uuid e) (ev_held e)) (tx_view w) with
      | Err x => (Err x, w)
      | Ok (a, us) => (Ok a, World (w_db w) (w_tx w ++ us) (w_start w) (w_events w))
      end)
  | _ => mthrow ConnError
  end.

(** A statement outside a transaction commits by itself. *)
Definition auto_statement {A} (st : statement A) : proc (world D U) db_error A :=
  e ← next_event;
  match ev_fault e with
  | LostBefore => mthrow ConnError
  | f => atomically (λ w,
      match st (StmtEnv (ev_now e) (ev_now e) (ev_id e) (ev_uuid e) (ev_held e)) (w_db w) with
      | Err x => (Err x, w)
      | Ok (a, us) =>
          (if f is NoFault then Ok a else Err ConnError,
           World (apply_changes us (w_db w)) (w_tx w) (w_start w) (w_events w))
      end)
  end.

Definition discard_tx : proc (world D U) db_error unit := λ w,
  (Ok tt, World (w_db w) [] (w_start w) (w_events w)).

Definition commit_tx : proc (world D U) db_error unit :=
  e ← next_event;
  match ev_fault e with
  | LostBefore => discard_tx ≫= λ _, mthrow ConnError
  | f => atomically (λ w,
      (if f is NoFault then Ok tt else Err ConnError,
       World (tx_view w) [] (w_start w) (w_events w)))
  end.

Definition rollback_tx : proc (world D U) db_error unit :=
  e ← next_event;
  discard_tx ≫= λ _, if ev_fault e is NoFault then mret tt else mthrow ConnError.

(** [defer tx.Rollback(ctx)]: whatever the body returned, the transaction's
    uncommitted changes are gone afterwards. *)
Definition deferring_rollback {E A} (m : proc (world D U) E A) : proc (world D U) E A := λ w,
  match m w with (r, w') => (r, World (w_db w') [] (w_start w') (w_events w')) end.
End driver.

Arguments statement : clear implicits.

(** * Rely/guarantee

    [C] is what every committed state satisfies, [V] what a transaction's view
    satisfies between its statements, and [ext us] how the tables may evolve under
    a transaction that has written [us]: other connections commit states that
    satisfy [C] again, and leave alone the rows that [us] holds locked. *)
Section rely_guarantee.
Context {D U : Type} `{!RowChange D U}.
Context (C V : D → Prop) (ext : list U → D → D → Prop).
Implicit Types (d : D) (us : list U) (w : world D U) (e : event D U).

Definition respects e : Prop :=
  ∀ us d, C d → V (apply_changes us d) →
    (C (ev_env e us d) ∧ ext us d (ev_env e us d)) ∧
    (V (apply_changes us (ev_env e us d)) ∧
     ext us (apply_changes us d) (apply_changes us (ev_env e us d))).

Record world_ok w : Prop := WorldOk {
  ok_db : C (w_db w);
  ok_view : V (tx_view w);
  ok_events : Forall respects (w_events w)
}.

(** The environment ran: same transaction, evolved states. *)
Record drift w w' : Prop := Drift {
  drift_tx : w_tx w' = w_tx w;
  drift_db : ext (w_tx w) (w_db w) (w_db w');
  drift_view : ext (w_tx w) (tx_view w) (tx_view w');
  drift_start : w_start w' = w_start w;
  drift_events : w_events w' `suffix_of` w_events w
}.

(** A statement's row changes join the transaction. *)
Definition push us w : world D U := World (w_db w) (w_tx w ++ us) (w_start w) (w_events w).

Lemma apply_changes_app us1 us2 d :
  apply_changes (us1 ++ us2) d = apply_changes us2 (apply_changes us1 d).
Proof. apply foldl_app. Qed.

Lemma view_push us w : tx_view (push us w) = apply_changes us (tx_view w).
Proof. unfold tx_view, push. simpl. apply apply_changes_app. Qed.

Lemma world_ok_push us w : world_ok w → V (apply_changes us (tx_view w)) → world_ok (push us w).
Proof. intros [Hd Hv He] H. constructor; [done|by rewrite view_push|done]. Qed.

Context (HCV : ∀ d, C d → V d) `{Hpre : !∀ us, PreOrder (ext us)}.

#[export] Instance drift_preorder : PreOrder drift.
Proof.
  split.
  - intros w. by constructor.
  - intros w1 w2 w3 [Ht1 ? ? ? ?] [? Hd2 Hv2 ? ?]. rewrite Ht1 in Hd2, Hv2.
    constructor; [congruence|by etrans|by etrans|congruence|by etrans].
Qed.

Lemma next_event_spec w r w' :
  world_ok w → next_event w = (r, w') →
  world_ok w' ∧ drift w w' ∧
    match r with Ok e => e ∈ w_events w | Err x => x = ConnError end.
Proof.
  destruct w as [d us st es]. intros [Hd Hv He] H. unfold next_event in H; simpl in *.
  destruct es as [|e es]; simplify_eq; [done|].
  apply Forall_cons in He as [He Hes]. destruct (He us d Hd Hv) as [[? ?] [? ?]].
  split; [by constructor|]. split; [|by left].
  constructor; simpl; [done|done|done|done|]. by exists [e].
Qed.

Lemma begin_tx_spec w r w' :
  world_ok w → begin_tx w = (r, w') →
  world_ok w' ∧ ext (w_tx w) (w_db w) (w_db w') ∧
    match r with Ok _ => w_tx w' = [] | Err x => w_tx w' = w_tx w ∧ x = ConnError end.
Proof.
  intros Hw H. apply proc_bind_inv in H as [(x & Hr & ->)|(e & w1 & Hr & H)];
    apply next_event_spec in Hr as (Hw1 & [Htx Hdb _ _ _] & Hx); [|done|..|done]; [by subst|].
  destruct (ev_fault e).
  - unfold atomically in H; simplify_eq. destruct Hw1. split; [constructor; simpl; auto|done].
  - by apply proc_throw_inv in H as [-> ->].
  - by apply proc_throw_inv in H as [-> ->].
Qed.

(** One statement of a transaction: an error leaves the transaction as it was,
    a success adds the statement's row changes, computed on a drifted view. *)
Lemma tx_statement_spec {A} (st : statement D U A) w r w' :
  world_ok w → tx_statement st w = (r, w') →
  match r with
  | Err x => world_ok w' ∧ drift w w' ∧ (x = ConnError ∨ ∃ env, st env (tx_view w') = Err x)
  | Ok a => ∃ w1 env us, world_ok w1 ∧ drift w w1 ∧ current_timestamp env = w_start w ∧
      (∃ e, e ∈ w_events w ∧ generated_id env = ev_id e) ∧
      st env (tx_view w1) = Ok (a, us) ∧ w' = push us w1
  end.
Proof.
  intros Hw H. apply proc_bind_inv in H as [(x & Hr & ->)|(e & w1 & Hr & H)];
    apply next_event_spec in Hr as (Hw1 & Hdr & Hx); [|done|..|done]; [by subst; eauto|].
  destruct (ev_fault e); [|apply proc_throw_inv in H as [-> ->]; by eauto..].
  unfold atomically in H. destruct (st _ _) as [x|[a us]] eqn:E; simplify_eq; [by eauto|].
  pose proof (drift_start _ _ Hdr). exists w1. eexists. exists us.
  split_and!; [| | | |exact E|]; [done..| |done]. exists e. done.
Qed.

(** A statement that commits by itself. *)
Lemma auto_statement_spec {A} (st : statement D U A) w r w' :
  (∀ w1 env a us, world_ok w1 → drift w w1 → st env (w_db w1) = Ok (a, us) →
     C (apply_changes us (w_db w1))) →
  world_ok w → w_tx w = [] → auto_statement st w = (r, w') →
  world_ok w' ∧ w_tx w' = [] ∧
  ∃ w1, world_ok w1 ∧ drift w w1 ∧
    ((w' = w1 ∧ (r = Err ConnError ∨ ∃ env x, st env (w_db w1) = Err x ∧ r = Err x)) ∨
     ∃ env a us, st env (w_db w1) = Ok (a, us) ∧ w_db w' = apply_changes us (w_db w1) ∧
       (r = Ok a ∨ r = Err ConnError)).
Proof.
  intros Hst Hw Htx H. apply proc_bind_inv in H as [(x & Hr & ->)|(e & w1 & Hr & H)];
    apply next_event_spec in Hr as (Hw1 & Hdr & Hx); [|done|..|done]; pose proof (drift_tx _ _ Hdr).
  { subst. split; [done|]. split; [congruence|]. exists w'. eauto 7. }
  assert (w_tx w1 = []) as Htx1 by congruence.
  assert (∀ env x us, st env (w_db w1) = Ok (x, us) →
    world_ok (World (apply_changes us (w_db w1)) (w_tx w1) (w_start w1) (w_events w1))) as Hok.
  { intros env x us Hx'. assert (C (apply_changes us (w_db w1))) by eauto.
    destruct Hw1 as [Hd Hv He]. rewrite Htx1. constructor; simpl; [done|by apply HCV|done]. }
  destruct (ev_fault e); [|apply proc_throw_inv in H as [-> ->]; by eauto 10|];
    unfold atomically in H; destruct (st _ _) as [x|[x us]] eqn:E; injection H as <- <-;
    (split; [by eauto|]); (split; [done|]); exists w1; (split; [done|]); (split; [done|]);
    [left|right|left|right]; eauto 10.
Qed.

Lemma discard_tx_ok w : world_ok w → world_ok (World (w_db w) [] (w_start w) (w_events w)).
Proof. intros [Hd Hv He]. constructor; simpl; auto. Qed.

(** COMMIT: the view becomes the committed state, or it is lost; an error
    leaves open which. *)
Lemma commit_tx_spec w r w' :
  (∀ w1, world_ok w1 → drift w w1 → C (tx_view w1)) →
  world_ok w → commit_tx w = (r, w') →
  world_ok w' ∧ ∃ w1, world_ok w1 ∧ drift w w1 ∧
    match r with
    | Ok _ => w_db w' = tx_view w1 ∧ w_tx w' = []
    | Err x => x = ConnError ∧ (w_db w' = tx_view w1 ∧ w_tx w' = [] ∨ w_db w' = w_db w1)
    end.
Proof.
  intros HC Hw H. apply proc_bind_inv in H as [(x & Hr & ->)|(e & w1 & Hr & H)];
    apply next_event_spec in Hr as (Hw1 & Hdr & Hx); [|done|..|done].
  { subst. split; [done|]. exists w'. auto. }
  specialize (HC w1 Hw1 Hdr). pose proof (HCV _ HC).
  destruct (ev_fault e);
    [|apply proc_bind_inv in H as [(? & Hd & ->)|([] & w2 & Hd & H)]; [done|];
      apply proc_throw_inv in H as [-> ->]; injection Hd as <-|];
    try (injection H as <- <-); (split; [destruct Hw1; constructor; simpl; auto|]);
    exists w1; (split; [done|]); (split; [done|]); simpl; auto.
Qed.

(** ROLLBACK, failed or not, leaves an evolved committed state. *)
Lemma rollback_tx_spec w r w' :
  world_ok w → rollback_tx w = (r, w') →
  world_ok w' ∧ ext (w_tx w) (w_db w) (w_db w') ∧
    match r with Ok _ => w_tx w' = [] | Err x => x = ConnError end.
Proof.
  intros Hw H. apply proc_bind_inv in H as [(x & Hr & ->)|(e & w1 & Hr & H)];
    apply next_event_spec in Hr as (Hw1 & [Htx Hdb _ _ _] & Hx); [|done|..|done]; [by subst|].
  apply proc_bind_inv in H as [(? & Hd & ->)|([] & w2 & Hd & H)]; [done|].
  injection Hd as <-. apply discard_tx_ok in Hw1.
  destruct (ev_fault e);
    [apply proc_ret_inv in H as [-> ->]|apply proc_throw_inv in H as [-> ->]..]; done.
Qed.

(** [defer tx.Rollback]: a proof about the body carries over. *)
Lemma deferring_rollback_spec {E A} (m : proc (world D U) E A) w r w' :
  deferring_rollback m w = (r, w') →
  ∃ w1, m w = (r, w1) ∧ w' = World (w_db w1) [] (w_start w1) (w_events w1).
Proof. unfold deferring_rollback. destruct (m w); intros; simplify_eq; eauto. Qed.
End rely_guarantee.

(** An environment that lets the tables evolve more strictly. *)
Lemma respects_weaken {D U} `{!RowChange D U} (C V : D → Prop) (ext ext' : list U → D → D → Prop) e :
  (∀ us d d', ext us d d' → ext' us d d') → respects C V ext e → respects C V ext' e.
Proof. intros H He us d Hd Hv. destruct (He us d Hd Hv) as [[? ?] [? ?]]. auto. Qed.

(** * Quiet schedules

    A call that succeeds with nobody else writing. *)
Section quiet.
Context {D U : Type} `{!RowChange D U}.
Implicit Types (e : event D U) (w : world D U).

Definition quiet e : Prop := ev_fault e = NoFault ∧ ∀ us d, ev_env e us d = d.

Definition stmt_env_of (start : Z) e : stmt_env :=
  StmtEnv start (ev_now e) (ev_id e) (ev_uuid e) (ev_held e).

Lemma quiet_respects (C V : D → Prop) ext e :
  (∀ us, Reflexive (ext us)) → quiet e → respects C V ext e.
Proof. intros Hr [_ He] us d Hd Hv. rewrite !He. repeat split; auto; apply Hr. Qed.

Lemma begin_tx_quiet d us st e es :
  quiet e → begin_tx (World d us st (e :: es)) = (Ok tt, World d [] (ev_now e) es).
Proof.
  intros [Hf He]. unfold begin_tx, mbind, proc_bind, next_event; simpl. by rewrite Hf, He.
Qed.

Lemma tx_statement_quiet {A} (st : statement D U A) d us start e es a us' :
  quiet e → st (stmt_env_of start e) (apply_changes us d) = Ok (a, us') →
  tx_statement st (World d us start (e :: es)) = (Ok a, World d (us ++ us') start es).
Proof.
  intros [Hf He] Hst. unfold tx_statement, mbind, proc_bind, next_event; simpl.
  rewrite Hf, He. unfold atomically, tx_view; simpl. unfold stmt_env_of in Hst. by rewrite Hst.
Qed.

Lemma tx_statement_quiet_error {A} (st : statement D U A) d us start e es x :
  quiet e → st (stmt_env_of start e) (apply_changes us d) = Err x →
  tx_statement st (World d us start (e :: es)) = (Err x, World d us start es).
Proof.
  intros [Hf He] Hst. unfold tx_statement, mbind, proc_bind, next_event; simpl.
  rewrite Hf, He. unfold atomically, tx_view; simpl. unfold stmt_env_of in Hst. by rewrite Hst.
Qed.

Lemma auto_statement_quiet {A} (st : statement D U A) d us start e es a us' :
  quiet e → st (stmt_env_of (ev_now e) e) d = Ok (a, us') →
  auto_statement st (World d us start (e :: es)) =
    (Ok a, World (apply_changes us' d) us start es).
Proof.
  intros [Hf He] Hst. unfold auto_statement, mbind, proc_bind, next_event; simpl.
  rewrite Hf, He. unfold atomically; simpl. unfold stmt_env_of in Hst. by rewrite Hst.
Qed.

Lemma commit_tx_quiet d us start e es :
  quiet e → commit_tx (World d us start (e :: es)) = (Ok tt, World (apply_changes us d) [] start es).
Proof.
  intros [Hf He]. unfold commit_tx, mbind, proc_bind, next_event; simpl. by rewrite Hf, He.
Qed.
End quiet.

(** How a statement outside a transaction ends: without an event, without effect, or
    with its changes committed to the tables that it found, answered or not. *)
Lemma auto_statement_cases {D U} `{!RowChange D U} {A} (st : statement D U A) (w : world D U) r w' :
  auto_statement st w = (r, w') →
  (w' = w ∧ is_ok r = false) ∨
  ∃ e, w_events w = e :: w_events w' ∧ w_tx w' = w_tx w ∧
    let found := ev_env e (w_tx w) (w_db w) in
    (w_db w' = found ∧ is_ok r = false) ∨
    ∃ a us, st (stmt_env_of (ev_now e) e) found = Ok (a, us) ∧ w_db w' = apply_changes us found ∧
      (r = Ok a ∨ is_ok r = false).
Proof.
  unfold auto_statement, next_event, mbind, proc_bind. destruct (w_events w) as [|e es]; [by intros [= <- <-]; left|].
  intros Hrun. right. exists e. revert Hrun. unfold stmt_env_of.
  destruct (ev_fault e); unfold atomically; simpl; [|intros [= <- <-]; by auto|];
    (destruct (st _ _) as [x|[a us]] eqn:E; intros [= <- <-]; simpl; [by auto|]);
    (split_and!; [done..|]); right; exists a, us; auto.
Qed.

(** One that answered took one event. *)
Lemma auto_statement_answered {D U} `{!RowChange D U} {A} (st : statement D U A) (w : world D U) a w' :
  auto_statement st w = (Ok a, w') →
  ∃ e us, w_events w = e :: w_events w' ∧ w_tx w' = w_tx w ∧
    st (stmt_env_of (ev_now e) e) (ev_env e (w_tx w) (w_db w)) = Ok (a, us) ∧
    w_db w' = apply_changes us (ev_env e (w_tx w) (w_db w)).
Proof.
  intros [[_ ?]|(e & He & Htx & [[_ ?]|(b & us & Hst & Hdb & [[= <-]|?])])]%auto_statement_cases; try done. by exists e, us.
Qed.

Lemma push_nil {D U} (w : world D U) : push [] w = w.
Proof. unfold push. rewrite app_nil_r. by destruct w. Qed.

(** Composing facts about procedures built from driver calls. *)
Create HintDb driver discriminated.
