(* ===== verification/Json.v ===== *)
(** encoding/json as the program uses it: values, the parser with Go's
    leniencies (invalid UTF-8 and lone surrogates become U+FFFD) and limits, and
    struct decoding with case-folded field names, duplicate keys and null. *)
From S2P Require Import Prelude GoStd.
From Stdlib Require Import Ascii String.
Open Scope Z_scope.

(** A number keeps its literal text, which strconv reads when the target is an
    integer. *)
Inductive json : Type :=
| JNull
| JBool (b : bool)
| JNumber (literal : string)
| JText (s : string)
| JArray (vs : list json)
| JObject (fields : list (string * json)).

(** * Parsing *)

Definition is_space (b : Z) : bool := (b =? 32) || (b =? 9) || (b =? 10) || (b =? 13).
Definition is_digit (b : Z) : bool := in_range 48 57 b.

Fixpoint skip_space (bs : list Z) : list Z :=
  match bs with
  | b :: bs' => if is_space b then skip_space bs' else bs
  | [] => []
  end.

(** The longest prefix of digits, and what follows. *)
Fixpoint span_digits (bs : list Z) : list Z * list Z :=
  match bs with
  | b :: bs' => if is_digit b then let '(ds, rest) := span_digits bs' in (b :: ds, rest) else ([], bs)
  | [] => ([], [])
  end.

Definition hex_value (b : Z) : option Z :=
  if in_range 48 57 b then Some (b - 48)
  else if in_range 97 102 b then Some (b - 87)
  else if in_range 65 70 b then Some (b - 55)
  else None.

Definition parse_u4 (bs : list Z) : option (Z * list Z) :=
  match bs with
  | a :: b :: c :: d :: rest =>
      x ← hex_value a; y ← hex_value b; z ← hex_value c; w ← hex_value d;
      Some (((x * 16 + y) * 16 + z) * 16 + w, rest)
  | _ => None
  end.

(** [\uXXXX] after the backslash-u; a surrogate pair is one rune. *)
Definition parse_unicode_escape (bs : list Z) : option (Z * list Z) :=
  '(r, rest) ← parse_u4 bs;
  if in_range 55296 57343 r then
    match rest with
    | 92 :: 117 :: rest' =>
        match parse_u4 rest' with
        | Some (r2, rest2) =>
            if in_range 55296 56319 r && in_range 56320 57343 r2
            then Some ((r - 55296) * 1024 + (r2 - 56320) + 65536, rest2)
            else Some (rune_error, rest)
        | None => Some (rune_error, rest)
        end
    | _ => Some (rune_error, rest)
    end
  else Some (r, rest).

Definition simple_escape (b : Z) : option Z :=
  if b =? 34 then Some 34 else if b =? 92 then Some 92 else if b =? 47 then Some 47
  else if b =? 98 then Some 8 else if b =? 102 then Some 12 else if b =? 110 then Some 10
  else if b =? 114 then Some 13 else if b =? 116 then Some 9 else None.

(** The runes of a string literal, from after its opening quote. *)
Fixpoint parse_string (fuel : nat) (bs : list Z) : option (list Z * list Z) :=
  match fuel, bs with
  | S fuel, b :: rest =>
      if b =? 34 then Some ([], rest)
      else if b <? 32 then None
      else if b =? 92 then
        match rest with
        | e :: rest1 =>
            '(r, rest2) ← (if e =? 117 then parse_unicode_escape rest1
                           else r ← simple_escape e; Some (r, rest1));
            '(rs, rest3) ← parse_string fuel rest2; Some (r :: rs, rest3)
        | [] => None
        end
      else
        let '(r, n) := decode_rune bs in
        '(rs, rest1) ← parse_string fuel (drop n bs); Some (r :: rs, rest1)
  | _, _ => None
  end.

Definition parse_fraction (bs : list Z) : option (list Z * list Z) :=
  match bs with
  | 46 :: rest =>
      match span_digits rest with
      | ([], _) => None
      | (ds, rest') => Some (46 :: ds, rest')
      end
  | _ => Some ([], bs)
  end.

Definition parse_exponent (bs : list Z) : option (list Z * list Z) :=
  match bs with
  | e :: rest =>
      if (e =? 101) || (e =? 69) then
        let '(sign, rest1) :=
          match rest with
          | s :: rest' => if (s =? 43) || (s =? 45) then ([s], rest') else ([], rest)
          | [] => ([], [])
          end in
        match span_digits rest1 with
        | ([], _) => None
        | (ds, rest') => Some (e :: sign ++ ds, rest')
        end
      else Some ([], bs)
  | [] => Some ([], [])
  end.

Definition parse_number (bs : list Z) : option (string * list Z) :=
  let '(sign, rest) := match bs with 45 :: rest => ([45], rest) | _ => ([], bs) end in
  '(ds, rest1) ← match rest with
    | 48 :: rest' => Some ([48], rest')
    | _ => match span_digits rest with ([], _) => None | p => Some p end
    end;
  '(frac, rest2) ← parse_fraction rest1;
  '(ex, rest3) ← parse_exponent rest2;
  Some (string_of (sign ++ ds ++ frac ++ ex), rest3).

Definition max_nesting_depth : nat := N.to_nat 10000.

(** [fuel] bounds the number of bytes; [depth] is what is left of the nesting
    limit. *)
Fixpoint parse_value (fuel : nat) (depth : nat) (bs0 : list Z) : option (json * list Z) :=
  match fuel with
  | O => None
  | S fuel =>
    let bs := skip_space bs0 in
    match bs with
    | 123 :: rest =>
        match depth with
        | O => None
        | S depth =>
            match skip_space rest with
            | 125 :: rest' => Some (JObject [], rest')
            | rest' => '(fs, r) ← parse_members fuel depth rest'; Some (JObject fs, r)
            end
        end
    | 91 :: rest =>
        match depth with
        | O => None
        | S depth =>
            match skip_space rest with
            | 93 :: rest' => Some (JArray [], rest')
            | rest' => '(vs, r) ← parse_elements fuel depth rest'; Some (JArray vs, r)
            end
        end
    | 34 :: rest => '(rs, r) ← parse_string fuel rest; Some (JText (string_of_runes rs), r)
    | 110 :: 117 :: 108 :: 108 :: rest => Some (JNull, rest)
    | 116 :: 114 :: 117 :: 101 :: rest => Some (JBool true, rest)
    | 102 :: 97 :: 108 :: 115 :: 101 :: rest => Some (JBool false, rest)
    | _ => '(lit, r) ← parse_number bs; Some (JNumber lit, r)
    end
  end
with parse_members (fuel : nat) (depth : nat) (bs : list Z) : option (list (string * json) * list Z) :=
  match fuel with
  | O => None
  | S fuel =>
    match bs with
    | 34 :: rest =>
        '(rs, r1) ← parse_string fuel rest;
        match skip_space r1 with
        | 58 :: r2 =>
            '(v, r3) ← parse_value fuel depth r2;
            match skip_space r3 with
            | 44 :: r4 =>
                '(fs, r5) ← parse_members fuel depth (skip_space r4);
                Some ((string_of_runes rs, v) :: fs, r5)
            | 125 :: r4 => Some ([(string_of_runes rs, v)], r4)
            | _ => None
            end
        | _ => None
        end
    | _ => None
    end
  end
with parse_elements (fuel : nat) (depth : nat) (bs : list Z) : option (list json * list Z) :=
  match fuel with
  | O => None
  | S fuel =>
    '(v, r1) ← parse_value fuel depth bs;
    match skip_space r1 with
    | 44 :: r2 => '(vs, r3) ← parse_elements fuel depth r2; Some (v :: vs, r3)
    | 93 :: r2 => Some ([v], r2)
    | _ => None
    end
  end.

(** Each call consumes a byte before it recurses or is the first of two calls on
    the same byte, so twice the length is enough fuel. *)
Definition parse_document (bs : list Z) : option json :=
  match parse_value (S (2 * List.length bs)) max_nesting_depth bs with
  | Some (v, rest) => match skip_space rest with [] => Some v | _ => None end
  | None => None
  end.

(** * Struct decoding *)

(** [strings.EqualFold] against an ASCII name: letters fold, and so do the long
    s and the Kelvin sign. *)
Definition fold_rune (r : Z) : Z :=
  if in_range 97 122 r then r - 32
  else if r =? 383 then 83 else if r =? 8490 then 75 else r.
Definition fold_name (s : string) : list Z := fold_rune <$> runes_of s.

(** A struct's fields: the key and what its value does to the struct. *)
Definition field_setter (S : Type) : Type := string * (json → S → option S).

Definition find_field {V} (fields : list (string * V)) (key : string) : option V :=
  match List.find (λ f, bool_decide (f.1 = key)) fields with
  | Some f => Some f.2
  | None => snd <$> List.find (λ f, bool_decide (fold_name f.1 = fold_name key)) fields
  end.

Section decode.
Context {S : Type} (fields : list (field_setter S)) (disallow_unknown : bool).

Definition decode_member (s : S) (kv : string * json) : option S :=
  match find_field fields kv.1 with
  | Some set => set kv.2 s
  | None => if disallow_unknown then None else Some s
  end.

Definition decode_struct (v : json) (s : S) : option S :=
  match v with
  | JObject kvs => foldl (λ acc kv, s ← acc; decode_member s kv) (Some s) kvs
  | JNull => Some s
  | _ => None
  end.
End decode.

(** Field decoders: null leaves a scalar as it is and clears a pointer. *)
Definition decode_text {S} (set : string → S → S) (v : json) (s : S) : option S :=
  match v with JText t => Some (set t s) | JNull => Some s | _ => None end.
Definition decode_int64 {S} (set : Z → S → S) (v : json) (s : S) : option S :=
  match v with
  | JNumber lit => z ← ParseInt lit; Some (set z s)
  | JNull => Some s
  | _ => None
  end.
Definition decode_text_pointer {S} (set : option string → S → S) (v : json) (s : S) : option S :=
  match v with JText t => Some (set (Some t) s) | JNull => Some (set None s) | _ => None end.
Definition decode_int64_pointer {S} (set : option Z → S → S) (v : json) (s : S) : option S :=
  match v with
  | JNumber lit => z ← ParseInt lit; Some (set (Some z) s)
  | JNull => Some (set None s)
  | _ => None
  end.

(** [jsonb_build_object]: members by key length, then bytes. *)
Definition jsonb_key_le (a b : string * json) : Prop :=
  (len a.1 < len b.1) ∨ (len a.1 = len b.1 ∧ String.leb a.1 b.1 = true).
#[global] Instance jsonb_key_le_dec a b : Decision (jsonb_key_le a b).
Proof. unfold jsonb_key_le. apply _. Defined.
Definition jsonb_build_object (kvs : list (string * json)) : json :=
  JObject (merge_sort jsonb_key_le kvs).

(** [time.Time]: the text of a time, or null for none. *)
Definition decode_time `{TimeText} {S} (set : Z → S → S) (v : json) (s : S) : option S :=
  match v with
  | JText t => z ← parse_time t; Some (set z s)
  | JNull => Some s
  | _ => None
  end.

(** Find a field by a concrete key, without unfolding the setters. *)
Ltac lookup_fields :=
  unfold find_field; cbn [List.find fst snd];
  repeat (match goal with
    | |- context [@bool_decide (?a = ?b) ?d] =>
        let v := eval vm_compute in (@bool_decide (a = b) d) in
        change (@bool_decide (a = b) d) with v
    end; cbn [List.find fst snd]; cbv iota).
