(* ===== verification/Schema.v ===== *)
(** The PostgreSQL schema of the messaging tables: rows, row changes, the CHECK,
    UNIQUE and FOREIGN KEY constraints of [schema.sql], and the two invariants of
    the development: [schema_ok], which every statement keeps, and
    [conversation_ok], which every committed conversation satisfies. *)
From S2P Require Import Prelude GoStd Tables Driver Json.
Open Scope Z_scope.

(** * Rows.  Times are microseconds since the epoch. *)

Record user_row : Type := UserRow {
  user_id : Z; user_username : string; user_display_name : string; user_password_hash : string
}.

Inductive conversation_kind : Type := Direct (low high : Z) | Group.
#[global] Instance conversation_kind_eq_dec : EqDecision conversation_kind.
Proof. solve_decision. Defined.

Record conversation_row : Type := ConversationRow {
  conversation_id : Z; conversation_kind_of : conversation_kind; conversation_last_seq : Z;
  conversation_created_at : Z; conversation_updated_at : Z
}.

Record member_row : Type := MemberRow {
  member_conversation : Z; member_user : Z; member_joined_at : Z
}.

(** The Go struct [message] has exactly the columns of the table. *)
Record message : Type := Message {
  ID : Z; ConversationID : Z; ConversationSeq : Z; ClientMessageID : string;
  SenderID : Z; ReceiverID : Z; Content : string; CreatedAt : Z
}.
#[global] Instance message_eq_dec : EqDecision message.
Proof. solve_decision. Defined.

Record sync_state_row : Type := SyncStateRow {
  sync_user : Z; sync_device : string; sync_conversation : Z;
  sync_applied_seq : Z; sync_updated_at : Z
}.

Record outbox_row : Type := OutboxRow {
  event_id : string; event_type : string; event_payload_version : Z; event_message_id : Z;
  event_payload : json; event_attempt_count : Z; event_next_attempt_at : Z;
  event_locked_until : option Z; event_lock_token : option string;
  event_ready_at : option Z; event_published_at : option Z; event_dead_at : option Z;
  event_last_error : option string; event_created_at : Z
}.

Record database : Type := Database {
  users : list user_row;
  conversations : list conversation_row;
  members : list member_row;
  messages : list message;
  sync_states : list sync_state_row;
  outbox : list outbox_row
}.

(** * Row changes *)

Inductive change : Type :=
| InsertUser (u : user_row)
| InsertConversation (c : conversation_row)
| InsertMember (m : member_row)
| SetConversation (id last_seq updated_at : Z)
| InsertMessage (m : message)
| PutSyncState (s : sync_state_row)
| InsertEvent (e : outbox_row)
| PutEvent (e : outbox_row)
| DeleteEvent (id : string).

Definition set_last_seq (id seq at_ : Z) (c : conversation_row) : conversation_row :=
  if conversation_id c =? id
  then ConversationRow (conversation_id c) (conversation_kind_of c) seq (conversation_created_at c) at_
  else c.

Definition sync_key (s : sync_state_row) : Z * string * Z :=
  (sync_user s, sync_device s, sync_conversation s).

Definition put_sync_state (s : sync_state_row) (l : list sync_state_row) : list sync_state_row :=
  if sql_exists (λ x, bool_decide (sync_key x = sync_key s)) l
  then sql_update (λ x, bool_decide (sync_key x = sync_key s)) (λ _, s) l
  else l ++ [s].

#[global] Instance apply_row_change : RowChange database change := λ u d,
  match u with
  | InsertUser x => Database (users d ++ [x]) (conversations d) (members d) (messages d) (sync_states d) (outbox d)
  | InsertConversation c => Database (users d) (conversations d ++ [c]) (members d) (messages d) (sync_states d) (outbox d)
  | InsertMember m => Database (users d) (conversations d) (members d ++ [m]) (messages d) (sync_states d) (outbox d)
  | SetConversation id seq at_ =>
      Database (users d) (set_last_seq id seq at_ <$> conversations d) (members d) (messages d) (sync_states d) (outbox d)
  | InsertMessage m => Database (users d) (conversations d) (members d) (messages d ++ [m]) (sync_states d) (outbox d)
  | PutSyncState s =>
      Database (users d) (conversations d) (members d) (messages d) (put_sync_state s (sync_states d)) (outbox d)
  | InsertEvent e => Database (users d) (conversations d) (members d) (messages d) (sync_states d) (outbox d ++ [e])
  | PutEvent e =>
      Database (users d) (conversations d) (members d) (messages d) (sync_states d)
        (sql_update (λ x, bool_decide (event_id x = event_id e)) (λ _, e) (outbox d))
  | DeleteEvent id =>
      Database (users d) (conversations d) (members d) (messages d) (sync_states d)
        (sql_delete (λ x, bool_decide (event_id x = id)) (outbox d))
  end.

(** * SQLSTATE codes *)

Definition foreign_key_violation : string := "23503".
Definition unique_violation : string := "23505".
Definition check_violation : string := "23514".
Definition numeric_value_out_of_range : string := "22003".
Definition character_not_in_repertoire : string := "22021".

(** A text parameter: PostgreSQL takes valid UTF-8 without NUL. *)
Definition valid_text (s : string) : bool :=
  ValidString s && forallb (λ b, negb (b =? 0)) (bytes_of s).

(** [char_length]. *)
Definition char_length (s : string) : Z := RuneCountInString s.

(** The first failing check of a list, as PostgreSQL reports it. *)
Fixpoint first_violation (checks : list (bool * string)) : result db_error unit :=
  match checks with
  | [] => Ok tt
  | (true, _) :: rest => first_violation rest
  | (false, code) :: _ => Err (PgError code)
  end.

Definition user_exists (id : Z) (d : database) : bool := sql_exists (λ u, user_id u =? id) (users d).
Definition member_exists (conversation user : Z) (d : database) : bool :=
  sql_exists (λ m, (member_conversation m =? conversation) && (member_user m =? user)) (members d).
Definition find_conversation (id : Z) (d : database) : option conversation_row :=
  sql_first (λ c, conversation_id c =? id) (conversations d).
Definition direct_pair (low high : Z) (c : conversation_row) : bool :=
  bool_decide (conversation_kind_of c = Direct low high).

(** ** Constraints of an inserted row: CHECK, then UNIQUE, then FOREIGN KEY. *)

Definition check_conversation (c : conversation_row) : list (bool * string) :=
  [(match conversation_kind_of c with Direct l h => l <=? h | Group => true end, check_violation);
   (0 <=? conversation_last_seq c, check_violation);
   (conversation_created_at c <=? conversation_updated_at c, check_violation)].

Definition reference_conversation (c : conversation_row) (d : database) : list (bool * string) :=
  match conversation_kind_of c with
  | Direct l h => [(user_exists l d, foreign_key_violation); (user_exists h d, foreign_key_violation)]
  | Group => []
  end.

Definition check_member (m : member_row) (d : database) : list (bool * string) :=
  [(negb (member_exists (member_conversation m) (member_user m) d), unique_violation);
   (bool_decide (is_Some (find_conversation (member_conversation m) d)), foreign_key_violation);
   (user_exists (member_user m) d, foreign_key_violation)].

Definition check_message (m : message) : list (bool * string) :=
  [(in_range 16 128 (char_length (ClientMessageID m)), check_violation);
   (in_range 1 4000 (char_length (Content m)), check_violation);
   (0 <? ConversationSeq m, check_violation)].

Definition unique_message (m : message) (d : database) : list (bool * string) :=
  [(negb (sql_exists (λ x, ID x =? ID m) (messages d)), unique_violation);
   (negb (sql_exists (λ x, (ConversationID x =? ConversationID m) &&
                           (ConversationSeq x =? ConversationSeq m)) (messages d)), unique_violation)].

Definition reference_message (m : message) (d : database) : list (bool * string) :=
  [(bool_decide (is_Some (find_conversation (ConversationID m) d)), foreign_key_violation);
   (user_exists (SenderID m) d, foreign_key_violation);
   (user_exists (ReceiverID m) d, foreign_key_violation)].

Definition opt_ge (o : option Z) (t : Z) : bool := if o is Some x then t <=? x else true.
Definition opt_none {A} (o : option A) : bool := if o is None then true else false.

Definition is_message_created (e : outbox_row) : bool :=
  bool_decide (event_type e = "message.created"%string).

(** The CHECK constraints of [outbox_events]. *)
Definition check_event (e : outbox_row) : list (bool * string) :=
  [(in_range 1 100 (char_length (event_type e)), check_violation);
   (0 <? event_payload_version e, check_violation);
   (0 <=? event_attempt_count e, check_violation);
   (event_created_at e <=? event_next_attempt_at e, check_violation);
   (Bool.eqb (opt_none (event_locked_until e)) (opt_none (event_lock_token e)), check_violation);
   (opt_ge (event_ready_at e) (event_created_at e), check_violation);
   (opt_ge (event_published_at e) (event_created_at e), check_violation);
   (opt_ge (event_dead_at e) (event_created_at e), check_violation);
   (opt_none (event_published_at e) || opt_none (event_dead_at e), check_violation);
   (negb (is_message_created e) || opt_none (event_published_at e) ||
    negb (opt_none (event_ready_at e)), check_violation);
   (negb (is_message_created e) || negb (opt_none (event_published_at e)) ||
    negb (opt_none (event_dead_at e)) ||
    ((event_payload_version e =? 4) && negb (opt_none (event_ready_at e))), check_violation);
   (match event_last_error e with Some s => char_length s <=? 2000 | None => true end, check_violation)].

Definition unique_event (e : outbox_row) (d : database) : list (bool * string) :=
  [(negb (sql_exists (λ x, bool_decide (event_id x = event_id e)) (outbox d)), unique_violation);
   (negb (sql_exists (λ x, (event_message_id x =? event_message_id e) &&
                           bool_decide (event_type x = event_type e)) (outbox d)), unique_violation)].

Definition reference_event (e : outbox_row) (d : database) : list (bool * string) :=
  [(sql_exists (λ m, ID m =? event_message_id e) (messages d), foreign_key_violation)].

Lemma first_violation_ok checks :
  first_violation checks = Ok tt ↔ Forall (λ c, c.1 = true) checks.
Proof.
  induction checks as [|[[] code] checks IH]; simpl; [done|..].
  - rewrite IH. rewrite Forall_cons. simpl. tauto.
  - rewrite Forall_cons. simpl. split; [done|by intros [? _]].
Qed.

Lemma first_violation_error checks x :
  first_violation checks = Err x → ∃ code, x = PgError code ∧ (false, code) ∈ checks.
Proof.
  induction checks as [|[[] code] checks IH]; simpl; intros Hx; [done|..].
  - destruct (IH Hx) as (c & -> & ?). exists c. split; [done|by right].
  - simplify_eq. exists code. split; [done|by left].
Qed.

Lemma first_violation_cons b code checks :
  first_violation ((b, code) :: checks) = Ok tt ↔ b = true ∧ first_violation checks = Ok tt.
Proof. rewrite !first_violation_ok, Forall_cons. done. Qed.

Lemma first_violation_app l1 l2 :
  first_violation (l1 ++ l2) = Ok tt ↔ first_violation l1 = Ok tt ∧ first_violation l2 = Ok tt.
Proof. rewrite !first_violation_ok. apply Forall_app. Qed.
Arguments first_violation : simpl never.

(** * The event payload: what [insertMessageAndOutbox] builds with
    [jsonb_build_object]. *)
Section payload.
Context `{TimeText}.
Open Scope string_scope.

Definition message_json (m : message) : json := jsonb_build_object [
  ("id", JNumber (FormatInt (ID m)));
  ("conversationId", JNumber (FormatInt (ConversationID m)));
  ("conversationSeq", JNumber (FormatInt (ConversationSeq m)));
  ("clientMessageId", JText (ClientMessageID m));
  ("senderId", JNumber (FormatInt (SenderID m)));
  ("receiverId", JNumber (FormatInt (ReceiverID m)));
  ("content", JText (Content m));
  ("createdAt", JText (format_time (CreatedAt m)))].

Definition recipient_json (user : Z) : json := jsonb_build_object [("userId", JNumber (FormatInt user))].

Definition recipients_json (m : message) : json :=
  if (SenderID m =? ReceiverID m)%Z then JArray [recipient_json (SenderID m)]
  else JArray [recipient_json (SenderID m); recipient_json (ReceiverID m)].

Definition message_created_payload (m : message) : json :=
  jsonb_build_object [("message", message_json m); ("recipients", recipients_json m)].
End payload.

(** * The statement-level invariant *)

Definition conversation_key (m : message) : Z * Z := (ConversationID m, ConversationSeq m).
Definition idempotency_key (m : message) : Z * string := (SenderID m, ClientMessageID m).
Definition member_key (m : member_row) : Z * Z := (member_conversation m, member_user m).
Definition event_key (e : outbox_row) : Z * string := (event_message_id e, event_type e).

(** The direct conversation of two users. *)
Definition pair_of (a b : Z) : conversation_kind := Direct (a `min` b) (a `max` b).

Definition check_event_ok (e : outbox_row) : Prop := first_violation (check_event e) = Ok tt.

(** What the column types and CHECKs let through. *)
Definition storable (m : message) : Prop :=
  first_violation (check_message m) = Ok tt ∧
  valid_text (ClientMessageID m) = true ∧ valid_text (Content m) = true.

Definition message_ok (d : database) (m : message) : Prop :=
  storable m ∧
  ∃ c, c ∈ conversations d ∧ conversation_id c = ConversationID m ∧
    conversation_kind_of c = pair_of (SenderID m) (ReceiverID m) ∧
    1 ≤ ConversationSeq m ≤ conversation_last_seq c.

Definition sync_state_ok (d : database) (s : sync_state_row) : Prop :=
  0 ≤ sync_applied_seq s ∧
  (∃ m, m ∈ members d ∧ member_key m = (sync_conversation s, sync_user s)) ∧
  ∃ c, c ∈ conversations d ∧ conversation_id c = sync_conversation s ∧
    sync_applied_seq s ≤ conversation_last_seq c.

Section invariant.
Context `{TimeText}.

Definition event_ok (d : database) (e : outbox_row) : Prop :=
  check_event_ok e ∧
  ∃ m, m ∈ messages d ∧ ID m = event_message_id e ∧
    (is_message_created e = true → event_payload_version e = 4 →
     event_payload e = message_created_payload m).

Record schema_ok (d : database) : Prop := SchemaOk {
  so_users : unique_key user_id (users d);
  so_conversations : unique_key conversation_id (conversations d);
  so_pairs : ∀ c1 c2, c1 ∈ conversations d → c2 ∈ conversations d →
    conversation_kind_of c1 = conversation_kind_of c2 → conversation_kind_of c1 ≠ Group → c1 = c2;
  so_pair_users : ∀ c l h, c ∈ conversations d → conversation_kind_of c = Direct l h →
    l ≤ h ∧ (∃ u, u ∈ users d ∧ user_id u = l) ∧ (∃ u, u ∈ users d ∧ user_id u = h);
  so_conversation_rows : ∀ c, c ∈ conversations d → 0 ≤ conversation_last_seq c;
  so_members : unique_key member_key (members d);
  so_member_rows : ∀ x, x ∈ members d → ∃ c, c ∈ conversations d ∧ conversation_id c = member_conversation x;
  so_message_ids : unique_key ID (messages d);
  so_message_seqs : unique_key conversation_key (messages d);
  so_message_keys : unique_key idempotency_key (messages d);
  so_message_rows : ∀ m, m ∈ messages d → message_ok d m;
  so_sync : unique_key sync_key (sync_states d);
  so_sync_rows : ∀ s, s ∈ sync_states d → sync_state_ok d s;
  so_event_ids : unique_key event_id (outbox d);
  so_event_keys : unique_key event_key (outbox d);
  so_event_rows : ∀ e, e ∈ outbox d → event_ok d e
}.
End invariant.

(** * The invariant of a committed conversation: its participants are members and
    its messages are numbered without a gap. *)
Record conversation_ok (d : database) (c : conversation_row) : Prop := ConversationOk {
  co_members : ∀ l h u, conversation_kind_of c = Direct l h → u = l ∨ u = h →
    ∃ m, m ∈ members d ∧ member_key m = (conversation_id c, u);
  co_messages : ∀ n, 1 ≤ n ≤ conversation_last_seq c →
    ∃ m, m ∈ messages d ∧ conversation_key m = (conversation_id c, n)
}.

Definition committed_ok `{TimeText} (d : database) : Prop :=
  schema_ok d ∧ ∀ c, c ∈ conversations d → conversation_ok d c.

(** * How the tables evolve *)

(** The conversations whose row a transaction wrote, so holds locked. *)
Definition touches (id : Z) (u : change) : bool :=
  match u with
  | InsertConversation c => conversation_id c =? id
  | SetConversation i _ _ => i =? id
  | _ => false
  end.
Definition touched (us : list change) (id : Z) : Prop := ∃ u, u ∈ us ∧ touches id u = true.

Definition conversation_evolves (c c' : conversation_row) : Prop :=
  conversation_id c' = conversation_id c ∧ conversation_kind_of c' = conversation_kind_of c ∧
  conversation_last_seq c ≤ conversation_last_seq c' ∧
  conversation_updated_at c ≤ conversation_updated_at c'.

(** Nobody but the transaction itself changes a conversation it holds locked. *)
Record same_conversation (id : Z) (d d' : database) : Prop := SameConversation {
  sc_row : ∀ c, conversation_id c = id → c ∈ conversations d' ↔ c ∈ conversations d;
  sc_messages : ∀ m, ConversationID m = id → m ∈ messages d' ↔ m ∈ messages d;
  sc_members : ∀ m, member_conversation m = id → m ∈ members d' ↔ m ∈ members d
}.

Record evolves (us : list change) (d d' : database) : Prop := Evolves {
  ev_users : ∀ u, u ∈ users d → u ∈ users d';
  ev_conversations : ∀ c, c ∈ conversations d → ∃ c', c' ∈ conversations d' ∧ conversation_evolves c c';
  ev_members : ∀ m, m ∈ members d → m ∈ members d';
  ev_messages : ∀ m, m ∈ messages d → m ∈ messages d';
  ev_sync : ∀ s, s ∈ sync_states d → ∃ s', s' ∈ sync_states d' ∧ sync_key s' = sync_key s ∧
    sync_applied_seq s ≤ sync_applied_seq s';
  ev_locked : ∀ id, touched us id → same_conversation id d d';
  ev_events : ∀ e, InsertEvent e ∈ us → e ∈ outbox d → e ∈ outbox d'
}.

#[global] Instance evolves_preorder us : PreOrder (evolves us).
Proof.
  split.
  - intros d. constructor; try done.
    + intros c Hc. exists c. split; [done|]. by split_and!.
    + intros s Hs. exists s. done.
  - intros d1 d2 d3 [U1 C1 M1 G1 S1 L1 E1] [U2 C2 M2 G2 S2 L2 E2]. constructor; auto.
    + intros c Hc. destruct (C1 c Hc) as (c' & Hc' & ? & ? & ? & ?).
      destruct (C2 c' Hc') as (c'' & Hc'' & ? & ? & ? & ?).
      exists c''. split; [done|]. split_and!; [congruence|congruence|lia|lia].
    + intros s Hs. destruct (S1 s Hs) as (s' & Hs' & ? & ?).
      destruct (S2 s' Hs') as (s'' & ? & ? & ?). exists s''. split_and!; [done|congruence|lia].
    + intros id Hid. destruct (L1 id Hid) as [R1 Q1 P1], (L2 id Hid) as [R2 Q2 P2].
      constructor; intros ? ?; [rewrite R2, R1|rewrite Q2, Q1|rewrite P2, P1]; done.
Qed.

Lemma evolves_nil us d d' : evolves us d d' → evolves [] d d'.
Proof.
  intros [? ? ? ? ? ? ?]. constructor; auto.
  - intros id (u & Hu & _). by apply elem_of_nil in Hu.
  - intros e He. by apply elem_of_nil in He.
Qed.
