(* ===== verification/Changes.v ===== *)
(** What each row change keeps: the statement-level invariant, the evolution
    order, and the invariant of a committed conversation. *)
From S2P Require Import Prelude GoStd Tables Driver Json Schema.
Open Scope Z_scope.

Section changes.
Context `{TimeText}.
Implicit Types (d : database) (c : conversation_row) (m : message) (e : outbox_row).

(** * Row conditions survive evolution *)

Lemma message_ok_evolves us d d' m : evolves us d d' → message_ok d m → message_ok d' m.
Proof.
  intros Hev (Hst & c & Hc & Hid & Hk & Hs).
  destruct (ev_conversations _ _ _ Hev c Hc) as (c' & Hc' & ? & ? & ? & ?). split; [done|].
  exists c'. split_and!; [done|congruence|congruence|lia|lia].
Qed.

Lemma sync_state_ok_evolves us d d' s : evolves us d d' → sync_state_ok d s → sync_state_ok d' s.
Proof.
  intros Hev (Hp & (m & Hm & Hk) & c & Hc & Hid & Hs).
  destruct (ev_conversations _ _ _ Hev c Hc) as (c' & Hc' & ? & ? & ? & ?).
  split_and!; [done| |].
  - exists m. split; [|done]. by eapply ev_members.
  - exists c'. split_and!; [done|congruence|lia].
Qed.

Lemma event_ok_evolves us d d' e : evolves us d d' → event_ok d e → event_ok d' e.
Proof.
  intros Hev (Hc & m & Hm & Hid). split; [done|]. exists m. split; [by eapply ev_messages|done].
Qed.

(** * Every change is an evolution *)

Lemma evolves_intro d d' :
  (∀ u, u ∈ users d → u ∈ users d') →
  (∀ c, c ∈ conversations d → ∃ c', c' ∈ conversations d' ∧ conversation_evolves c c') →
  (∀ x, x ∈ members d → x ∈ members d') →
  (∀ m, m ∈ messages d → m ∈ messages d') →
  (∀ s, s ∈ sync_states d → ∃ s', s' ∈ sync_states d' ∧ sync_key s' = sync_key s ∧
     sync_applied_seq s ≤ sync_applied_seq s') →
  evolves [] d d'.
Proof.
  intros. constructor; auto.
  - intros id (u & Hu & _). by apply elem_of_nil in Hu.
  - intros e He. by apply elem_of_nil in He.
Qed.

Lemma conversation_evolves_refl c : conversation_evolves c c.
Proof. by split_and!. Qed.

(** What a change must not lower. *)
Definition change_grows (u : change) (d : database) : Prop :=
  match u with
  | SetConversation id seq at_ =>
      ∀ c, c ∈ conversations d → conversation_id c = id →
        conversation_last_seq c ≤ seq ∧ conversation_updated_at c ≤ at_
  | PutSyncState s =>
      ∀ x, x ∈ sync_states d → sync_key x = sync_key s → sync_applied_seq x ≤ sync_applied_seq s
  | _ => True
  end.

Lemma elem_of_set_last_seq id seq at_ d c :
  c ∈ set_last_seq id seq at_ <$> conversations d →
  ∃ c0, c0 ∈ conversations d ∧ conversation_id c = conversation_id c0 ∧
    conversation_kind_of c = conversation_kind_of c0 ∧
    (c = c0 ∧ conversation_id c0 ≠ id ∨
     conversation_id c0 = id ∧ conversation_last_seq c = seq ∧ conversation_updated_at c = at_).
Proof.
  intros (c0 & -> & Hc0)%list_elem_of_fmap. exists c0. unfold set_last_seq.
  destruct (conversation_id c0 =? id) eqn:E; split_and!; try done.
  - right. split_and!; [lia|done..].
  - left. split; [done|lia].
Qed.

Lemma elem_of_put_sync s l x :
  x ∈ put_sync_state s l ↔ x = s ∨ (x ∈ l ∧ sync_key x ≠ sync_key s).
Proof.
  unfold put_sync_state. destruct (sql_exists _ l) eqn:E.
  - apply sql_exists_true in E as (y & Hy & Hk%bool_decide_eq_true). rewrite elem_of_update. split.
    + intros (z & Hz & ->). simpl. case_bool_decide; [by left|right; auto].
    + intros [->|[Hx Hne]].
      * exists y. split; [done|]. by rewrite bool_decide_eq_true_2.
      * exists x. split; [done|]. by rewrite bool_decide_eq_false_2.
  - rewrite sql_exists_false in E. rewrite elem_of_app, list_elem_of_singleton. split.
    + intros [Hx| ->]; [right|by left]. split; [done|].
      specialize (E x Hx). by apply bool_decide_eq_false in E.
    + intros [->|[? _]]; [by right|by left].
Qed.

Lemma apply_change_evolves u d : change_grows u d → evolves [] d (apply_change u d).
Proof.
  intros Hg. destruct u; apply evolves_intro; simpl; intros x Hx;
    rewrite ?elem_of_app; eauto using conversation_evolves_refl;
    try (exists x; rewrite ?elem_of_app; by auto using conversation_evolves_refl).
  - exists (set_last_seq id last_seq updated_at x). split; [by apply list_elem_of_fmap_2|].
    unfold set_last_seq. destruct (conversation_id x =? id) eqn:E; [|apply conversation_evolves_refl].
    destruct (Hg x Hx ltac:(lia)). by split_and!.
  - destruct (decide (sync_key x = sync_key s)) as [Hk|Hk].
    + exists s. rewrite elem_of_put_sync. split; [by left|]. split; [done|]. by apply Hg.
    + exists x. rewrite elem_of_put_sync. split; [by right|]. split; [done|lia].
Qed.

(** * Every change keeps the statement-level invariant *)

(** The row conditions that an evolution carries over by itself. *)
Lemma rows_evolve d d' :
  schema_ok d → evolves [] d d' →
  (∀ x, x ∈ messages d → message_ok d' x) ∧
  (∀ x, x ∈ members d → ∃ c, c ∈ conversations d' ∧ conversation_id c = member_conversation x) ∧
  (∀ x, x ∈ sync_states d → sync_state_ok d' x) ∧
  (∀ x, x ∈ outbox d → event_ok d' x).
Proof.
  intros Hok Hev. split_and!; intros x Hx.
  - eapply message_ok_evolves; [done|by apply so_message_rows].
  - destruct (so_member_rows _ Hok x Hx) as (c & Hc & <-).
    destruct (ev_conversations _ _ _ Hev c Hc) as (c' & ? & ? & _). eauto.
  - eapply sync_state_ok_evolves; [done|by apply so_sync_rows].
  - eapply event_ok_evolves; [done|by apply so_event_rows].
Qed.

Local Ltac evolve_rows Hok Hg :=
  let Hm := fresh "Hm" in let Hb := fresh "Hb" in let Hs := fresh "Hs" in let He := fresh "He" in
  destruct (rows_evolve _ _ Hok (apply_change_evolves _ _ Hg)) as (Hm & Hb & Hs & He);
  destruct Hok; constructor; simpl in *; auto.

Lemma insert_conversation_ok c d :
  schema_ok d → 0 ≤ conversation_last_seq c →
  (∀ x, x ∈ conversations d → conversation_id x ≠ conversation_id c) →
  (∀ x, x ∈ conversations d → conversation_kind_of c ≠ Group →
     conversation_kind_of x ≠ conversation_kind_of c) →
  (∀ l h, conversation_kind_of c = Direct l h →
     l ≤ h ∧ (∃ u, u ∈ users d ∧ user_id u = l) ∧ (∃ u, u ∈ users d ∧ user_id u = h)) →
  schema_ok (apply_change (InsertConversation c) d).
Proof.
  intros Hok Hs Hid Hp Hpu. assert (change_grows (InsertConversation c) d) as Hg by done.
  evolve_rows Hok Hg.
  - by apply unique_key_app.
  - intros c1 c2 [?| ->%list_elem_of_singleton]%elem_of_app [?| ->%list_elem_of_singleton]%elem_of_app Hk Hng;
      auto; exfalso; eapply Hp; eauto; congruence.
  - intros x l h [?| ->%list_elem_of_singleton]%elem_of_app Hk; eauto.
  - intros x [?| ->%list_elem_of_singleton]%elem_of_app; auto.
Qed.

Lemma insert_member_ok (x : member_row) d :
  schema_ok d → (∀ y, y ∈ members d → member_key y ≠ member_key x) →
  (∃ c, c ∈ conversations d ∧ conversation_id c = member_conversation x) →
  schema_ok (apply_change (InsertMember x) d).
Proof.
  intros Hok Hk Hc. assert (change_grows (InsertMember x) d) as Hg by done.
  evolve_rows Hok Hg; [by apply unique_key_app|].
  intros y [?| ->%list_elem_of_singleton]%elem_of_app; auto.
Qed.

Lemma set_last_seq_same id seq at_ c :
  conversation_id (set_last_seq id seq at_ c) = conversation_id c ∧
  conversation_kind_of (set_last_seq id seq at_ c) = conversation_kind_of c.
Proof. unfold set_last_seq. by destruct (_ =? _). Qed.

Lemma set_conversation_ok id seq at_ d :
  schema_ok d → change_grows (SetConversation id seq at_) d →
  schema_ok (apply_change (SetConversation id seq at_) d).
Proof.
  intros Hok Hg. pose proof Hg as Hg'. evolve_rows Hok Hg'.
  - unfold unique_key in *. rewrite <-list_fmap_compose.
    erewrite list_fmap_ext; [done|]. intros i x _. apply set_last_seq_same.
  - intros c1 c2 (y1 & -> & Hy1)%list_elem_of_fmap (y2 & -> & Hy2)%list_elem_of_fmap.
    rewrite !(proj2 (set_last_seq_same _ _ _ _)). intros. f_equal. auto.
  - intros c1 l h (y1 & -> & Hy1)%list_elem_of_fmap.
    rewrite (proj2 (set_last_seq_same _ _ _ _)). eauto.
  - intros c (y & Hy & _ & _ & [[-> _]|(Hid & -> & _)])%elem_of_set_last_seq; [auto|].
    destruct (Hg y Hy Hid). etrans; eauto.
Qed.

Lemma insert_message_ok m d :
  schema_ok d → message_ok d m →
  (∀ x, x ∈ messages d → ID x ≠ ID m) →
  (∀ x, x ∈ messages d → conversation_key x ≠ conversation_key m) →
  (∀ x, x ∈ messages d → idempotency_key x ≠ idempotency_key m) →
  schema_ok (apply_change (InsertMessage m) d).
Proof.
  intros Hok Hmok Hid Hseq Hkey. assert (change_grows (InsertMessage m) d) as Hg by done.
  evolve_rows Hok Hg; try by apply unique_key_app.
  intros x [?| ->%list_elem_of_singleton]%elem_of_app; auto.
Qed.

Lemma put_sync_ok s d :
  schema_ok d → sync_state_ok d s → change_grows (PutSyncState s) d →
  schema_ok (apply_change (PutSyncState s) d).
Proof.
  intros Hok Hsok Hg. pose proof Hg as Hg'. evolve_rows Hok Hg'.
  - unfold put_sync_state. destruct (sql_exists _ _) eqn:E.
    + unfold unique_key, sql_update in *. rewrite <-list_fmap_compose.
      erewrite list_fmap_ext; [done|]. intros i x _. simpl.
      destruct (decide (sync_key x = sync_key s)) as [Hk|Hk];
        [by rewrite bool_decide_eq_true_2|by rewrite bool_decide_eq_false_2].
    + apply unique_key_app; [done|]. intros y Hy.
      rewrite sql_exists_false in E. by apply E, bool_decide_eq_false in Hy.
  - intros x [->|[Hx _]]%elem_of_put_sync; [|auto].
    eapply sync_state_ok_evolves; [by apply apply_change_evolves|done].
Qed.

Lemma insert_event_ok e d :
  schema_ok d → event_ok d e →
  (∀ x, x ∈ outbox d → event_id x ≠ event_id e) →
  (∀ x, x ∈ outbox d → event_key x ≠ event_key e) →
  schema_ok (apply_change (InsertEvent e) d).
Proof.
  intros Hok Heok Hid Hkey. assert (change_grows (InsertEvent e) d) as Hg by done.
  evolve_rows Hok Hg; try by apply unique_key_app.
  intros x [?| ->%list_elem_of_singleton]%elem_of_app; auto.
Qed.

(** An event row that is replaced keeps its identity and its payload. *)
Definition same_event (e e' : outbox_row) : Prop :=
  event_id e' = event_id e ∧ event_key e' = event_key e ∧
  event_payload e' = event_payload e ∧ event_payload_version e' = event_payload_version e.

Lemma event_ok_same d e e' : same_event e e' → check_event_ok e' → event_ok d e → event_ok d e'.
Proof.
  intros (Hid & Hk & Hp & Hv) Hc (_ & m & Hm & Hmid & Hpay). injection Hk as Hmsg Hty.
  split; [done|]. exists m. split_and!; [done|congruence|].
  unfold is_message_created in *. rewrite Hty, Hp, Hv. done.
Qed.

Lemma put_event_ok e e0 d :
  schema_ok d → e0 ∈ outbox d → same_event e0 e → check_event_ok e →
  schema_ok (apply_change (PutEvent e) d).
Proof.
  intros Hok He0 Hsame Hc. assert (change_grows (PutEvent e) d) as Hg by done.
  pose proof (so_event_ids _ Hok) as Hids.
  assert (∀ x, x ∈ outbox d → event_id x = event_id e → x = e0) as Heq.
  { intros x Hx Hid. eapply unique_key_inj; [exact Hids|done..|]. destruct Hsame. congruence. }
  assert (∀ {K} (key : outbox_row → K), key e = key e0 →
    key <$> sql_update (λ x, bool_decide (event_id x = event_id e)) (λ _, e) (outbox d) = key <$> outbox d)
    as Hkeys.
  { intros K key Hk. unfold sql_update. rewrite <-list_fmap_compose.
    apply list_fmap_ext. intros i x Hx%list_elem_of_lookup_2. simpl.
    case_bool_decide; [|done]. by rewrite (Heq x). }
  destruct Hsame as (Hid & Hk & Hp & Hv).
  evolve_rows Hok Hg; try by (unfold unique_key in *; rewrite Hkeys).
  intros x (y & Hy & ->)%elem_of_update. simpl. case_bool_decide as Hbd; [|by apply He].
  apply (event_ok_same _ e0); [by split_and!|done|by apply He].
Qed.

Lemma delete_event_ok id d : schema_ok d → schema_ok (apply_change (DeleteEvent id) d).
Proof.
  intros Hok. assert (change_grows (DeleteEvent id) d) as Hg by done.
  evolve_rows Hok Hg.
  - eapply unique_key_sublist; [apply delete_sublist|done].
  - eapply unique_key_sublist; [apply delete_sublist|done].
  - intros x [Hx _]%elem_of_delete. auto.
Qed.
End changes.

(** * Committed conversations *)
Section committed.
Context `{TimeText}.
Implicit Types (d : database) (c : conversation_row).

(** The change writes no conversation row but that of [id]. *)
Definition about (id : Z) (u : change) : Prop :=
  match u with
  | InsertConversation c => conversation_id c = id
  | SetConversation i _ _ => i = id
  | PutSyncState _ => False
  | _ => True
  end.

Lemma conversation_ok_more d d' c :
  (∀ x, x ∈ members d → x ∈ members d') → (∀ m, m ∈ messages d → m ∈ messages d') →
  conversation_ok d c → conversation_ok d' c.
Proof.
  intros Hmem Hmsg [Hm Hs]. split.
  - intros l h u Hk Hu. destruct (Hm l h u Hk Hu) as (x & ? & ?). eauto.
  - intros n Hn. destruct (Hs n Hn) as (m & ? & ?). eauto.
Qed.

Lemma apply_changes_about id us d :
  Forall (about id) us →
  (∀ c, c ∈ conversations (apply_changes us d) → conversation_id c = id ∨ c ∈ conversations d) ∧
  (∀ x, x ∈ members d → x ∈ members (apply_changes us d)) ∧
  (∀ m, m ∈ messages d → m ∈ messages (apply_changes us d)).
Proof.
  intros Hus. revert d. induction Hus as [|u us Hu Hus IH]; intros d; [by auto|].
  change (apply_changes (u :: us) d) with (apply_changes us (apply_change u d)).
  destruct (IH (apply_change u d)) as (Hc & Hx & Hm). split_and!.
  - intros c [?|Hin]%Hc; [by left|]. destruct u; simpl in *; auto.
    + apply elem_of_app in Hin as [?| ->%list_elem_of_singleton]; auto.
    + apply elem_of_set_last_seq in Hin as (c0 & Hc0 & Hid & _ & [[-> _]|(? & _ & _)]); [auto|left; congruence].
  - intros x Hin. apply Hx. destruct u; simpl; rewrite ?elem_of_app; auto.
  - intros x Hin. apply Hm. destruct u; simpl; rewrite ?elem_of_app; auto.
Qed.

Lemma apply_changes_keeps id us d :
  Forall (about id) us →
  (∀ u, u ∈ users d → u ∈ users (apply_changes us d)) ∧
  (∀ c, c ∈ conversations d → conversation_id c ≠ id → c ∈ conversations (apply_changes us d)) ∧
  sync_states (apply_changes us d) = sync_states d.
Proof.
  intros Hus. revert d. induction Hus as [|u us Hu Hus IH]; intros d; [by auto|].
  change (apply_changes (u :: us) d) with (apply_changes us (apply_change u d)).
  destruct (IH (apply_change u d)) as (Hx & Hc & Hs). split_and!.
  - intros x Hin. apply Hx. destruct u; simpl; rewrite ?elem_of_app; auto.
  - intros c Hin Hne. apply Hc; [|done]. destruct u; simpl in *; rewrite ?elem_of_app; auto.
    apply list_elem_of_fmap. exists c. split; [|done]. unfold set_last_seq.
    destruct (_ =? _) eqn:E; [|done]. lia.
  - rewrite Hs. by destruct u.
Qed.

(** A transaction about one conversation only adds, if it does so there. *)
Lemma about_evolves id us d :
  Forall (about id) us →
  (∀ c, c ∈ conversations d → conversation_id c = id →
     ∃ c', c' ∈ conversations (apply_changes us d) ∧ conversation_evolves c c') →
  evolves [] d (apply_changes us d).
Proof.
  intros Hus Hid. destruct (apply_changes_about id us d Hus) as (_ & Hx & Hm).
  destruct (apply_changes_keeps id us d Hus) as (Hu & Hc & Hs).
  apply evolves_intro; auto.
  - intros c Hin. destruct (decide (conversation_id c = id)); [by apply Hid|].
    exists c. split; [auto|apply conversation_evolves_refl].
  - intros s Hin. exists s. rewrite Hs. done.
Qed.

(** A transaction about one conversation may commit once that conversation is
    complete again. *)
Lemma committed_view id us d :
  committed_ok d → schema_ok (apply_changes us d) → Forall (about id) us →
  (∀ c, c ∈ conversations (apply_changes us d) → conversation_id c = id →
     conversation_ok (apply_changes us d) c) →
  committed_ok (apply_changes us d).
Proof.
  intros [_ Hall] Hok Hus Hid. split; [done|]. intros c Hc.
  destruct (apply_changes_about id us d Hus) as (Hc' & Hx & Hm).
  destruct (decide (conversation_id c = id)) as [?|?]; [auto|].
  destruct (Hc' c Hc) as [?|?]; [done|]. eapply conversation_ok_more; eauto.
Qed.

Lemma committed_schema d : committed_ok d → schema_ok d.
Proof. by intros [? _]. Qed.

(** A change that leaves conversations, members and messages alone. *)
Lemma committed_frame u d :
  committed_ok d → schema_ok (apply_change u d) →
  match u with PutSyncState _ | InsertEvent _ | PutEvent _ | DeleteEvent _ => True | _ => False end →
  committed_ok (apply_change u d).
Proof.
  intros [_ Hall] Hok Hu. split; [done|]. intros c Hc.
  eapply (conversation_ok_more d); [by destruct u..|]. apply Hall. by destruct u.
Qed.

Lemma same_conversation_ok id d d' c :
  same_conversation id d d' → conversation_id c = id → conversation_ok d c → conversation_ok d' c.
Proof.
  intros [_ Hm Hx] Hid [Hmem Hmsg]. split.
  - intros l h u Hk Hu. destruct (Hmem l h u Hk Hu) as (x & ? & Heq).
    exists x. split; [|done]. apply Hx; [|done]. injection Heq. congruence.
  - intros n Hn. destruct (Hmsg n Hn) as (m & ? & Heq).
    exists m. split; [|done]. apply Hm; [|done]. injection Heq. congruence.
Qed.
End committed.

(** The development's instance of the rely/guarantee argument. *)
Abbreviation db_world_ok := (world_ok committed_ok schema_ok evolves).
Abbreviation db_respects := (respects committed_ok schema_ok evolves).
Abbreviation db_drift := (drift evolves).

Lemma drift_base `{TimeText} w w' : db_drift w w' → evolves [] (w_db w) (w_db w').
Proof. intros [_ Hd _ _ _]. by eapply evolves_nil. Qed.

(** Follow one driver call of a run: [lem] at this instance. *)
Ltac db_spec lem H :=
  apply lem with (C := committed_ok) (V := schema_ok) (ext := evolves) in H;
  try done; try apply _; try apply committed_schema.

(** A read-only statement outside a transaction. *)
Lemma auto_query_spec `{TimeText} {A} (st : statement database change A) w r w' :
  (∀ env d a us, st env d = Ok (a, us) → us = []) →
  db_world_ok w → w_tx w = [] → auto_statement st w = (r, w') →
  db_world_ok w' ∧ w_tx w' = [] ∧ evolves [] (w_db w) (w_db w') ∧
  match r with
  | Ok a => ∃ env, st env (w_db w') = Ok (a, [])
  | Err x => x = ConnError ∨ ∃ env, st env (w_db w') = Err x
  end.
Proof.
  intros Hst Hw Htx Hrun. db_spec auto_statement_spec Hrun.
  - destruct Hrun as (Hw' & Htx' & w1 & Hw1 & Hd & [[-> Hcase]|(env & a & us & Hq & Hdb & Hr)]).
    + split_and!; [done|done|by apply drift_base|]. destruct Hcase as [->|(env & x & Hx & ->)]; [by left|right; eauto].
    + pose proof (Hst _ _ _ _ Hq) as ->. simpl in Hdb. rewrite Hdb.
      split_and!; [done|done|by apply drift_base|]. destruct Hr as [->| ->]; [by exists env|by left].
  - intros w1 env a us Hw1 _ Hq. rewrite (Hst _ _ _ _ Hq). apply Hw1.
Qed.
