(* ===== verification/MessageStore.v ===== *)
(** [message_store.go]: the SQL statements of message creation and the methods of
    [messageStoreTransaction] over them. *)
From S2P Require Import Prelude GoStd Tables Driver Json Schema Changes.
Open Scope Z_scope.

Abbreviation db_world := (world database change).
Abbreviation db_proc := (proc (world database change) db_error).
Abbreviation db_statement := (statement database change).

(** [errMessageReceiverNotFound], or what the driver reported. *)
Inductive store_error : Type :=
| errMessageReceiverNotFound
| StoreDatabaseError (e : db_error).

Definition isForeignKeyViolation (e : db_error) : bool :=
  bool_decide (e = PgError foreign_key_violation).

(** A query for one row. *)
Definition query_row {D U A} (find : D → option A) : statement D U A := λ _ d,
  match find d with Some a => Ok (a, []) | None => Err NoRows end.

(** Text parameters are checked before the statement runs. *)
Definition with_text {D U A} (texts : list string) (st : statement D U A) : statement D U A := λ env d,
  if forallb valid_text texts then st env d else Err (PgError character_not_in_repertoire).

(** * The statements *)

Definition idempotentMessageQuery (senderID : Z) (clientMessageID : string) : db_statement message :=
  with_text [clientMessageID] (query_row (λ d,
    sql_first (λ m, (SenderID m =? senderID) && bool_decide (ClientMessageID m = clientMessageID))
      (messages d))).

Definition select_direct_conversation (lowUserID highUserID : Z) : db_statement Z :=
  query_row (λ d, conversation_id <$> sql_first (direct_pair lowUserID highUserID) (conversations d)).

(** [INSERT ... ON CONFLICT (direct pair) DO NOTHING RETURNING id]. *)
Definition insert_direct_conversation (lowUserID highUserID : Z) : db_statement Z := λ env d,
  let c := ConversationRow (generated_id env) (Direct lowUserID highUserID) 0
             (current_timestamp env) (current_timestamp env) in
  _ ← first_violation (check_conversation c);
  if sql_exists (direct_pair lowUserID highUserID) (conversations d) then Err NoRows
  else
    _ ← first_violation
      ((bool_decide (find_conversation (conversation_id c) d = None), unique_violation)
       :: reference_conversation c d);
    Ok (conversation_id c, [InsertConversation c]).

(** [SELECT DISTINCT user_id FROM unnest(...)]. *)
Definition distinct_users (ids : list Z) : list Z := remove_dups ids.

Fixpoint insert_member_rows (rows : list member_row) (d : database) : result db_error (list change) :=
  match rows with
  | [] => Ok []
  | m :: rest =>
      _ ← first_violation (check_member m d);
      us ← insert_member_rows rest (apply_change (InsertMember m) d);
      Ok (InsertMember m :: us)
  end.

Definition insert_members_statement (conversationID senderID receiverID : Z) : db_statement unit :=
  λ env d,
    us ← insert_member_rows
      ((λ u, MemberRow conversationID u (current_timestamp env)) <$> distinct_users [senderID; receiverID]) d;
    Ok (tt, us).

Section insert_message.
Context `{TimeText}.

Definition message_created_event (env : stmt_env) (m : message) : outbox_row :=
  OutboxRow (generated_uuid env 0) "message.created" 4 (ID m) (message_created_payload m) 0
    (current_timestamp env) None None (Some (CreatedAt m)) None None None (current_timestamp env).

(** The statement of three CTEs: allocate the sequence number, insert the
    message unless the idempotency key is taken, insert its event.  It returns
    no row when there is no conversation or the key is taken; the allocation
    has then happened all the same. *)
Definition insert_message_statement (conversationID senderID receiverID : Z)
    (clientMessageID content : string) : db_statement (option message) :=
  with_text [clientMessageID; content] (λ env d,
    match find_conversation conversationID d with
    | None => Ok (None, [])
    | Some c =>
        let seq := conversation_last_seq c + 1 in
        let at_ := conversation_updated_at c `max` clock_timestamp env in
        let m := Message (generated_id env) conversationID seq clientMessageID
                   senderID receiverID content at_ in
        let e := message_created_event env m in
        let allocated := SetConversation conversationID seq at_ in
        _ ← first_violation ((seq <=? int64_max, numeric_value_out_of_range) :: check_message m);
        if sql_exists (λ x, bool_decide (idempotency_key x = idempotency_key m)) (messages d)
        then Ok (None, [allocated])
        else
          _ ← first_violation (unique_message m d ++ check_event e ++ unique_event e d ++
                               reference_message m d);
          Ok (Some m, [allocated; InsertMessage m; InsertEvent e])
    end).

(** * The methods *)

Definition scanIdempotentMessage (row : db_proc message) : db_proc (option message) :=
  r ← attempt row;
  match r with
  | Err NoRows => mret None
  | Err e => mthrow e
  | Ok found => mret (Some found)
  end.

Definition findIdempotentMessage (senderID : Z) (clientMessageID : string) : db_proc (option message) :=
  scanIdempotentMessage (tx_statement (idempotentMessageQuery senderID clientMessageID)).

Definition findCommittedIdempotentMessage (senderID : Z) (clientMessageID : string) : db_proc message :=
  found ← scanIdempotentMessage (auto_statement (idempotentMessageQuery senderID clientMessageID));
  match found with Some m => mret m | None => mthrow NoRows end.

(** Continue where a query found no row. *)
Definition on_no_rows {A} (row : db_proc A) (found : A → db_proc (A * bool)) (none : db_proc (A * bool)) :
    db_proc (A * bool) :=
  r ← attempt row;
  match r with
  | Ok a => found a
  | Err NoRows => none
  | Err e => mthrow e
  end.

Definition resolveDirectConversation (lowUserID highUserID : Z) : db_proc (Z * bool) :=
  on_no_rows (tx_statement (select_direct_conversation lowUserID highUserID))
    (λ id, mret (id, false))
    (on_no_rows (tx_statement (insert_direct_conversation lowUserID highUserID))
      (λ id, mret (id, true))
      (id ← tx_statement (select_direct_conversation lowUserID highUserID); mret (id, false))).

Definition classify_foreign_key (e : db_error) : store_error :=
  if isForeignKeyViolation e then errMessageReceiverNotFound else StoreDatabaseError e.

Definition tx_resolveDirectConversation (lowUserID highUserID : Z) :
    proc db_world store_error (Z * bool) :=
  run_error classify_foreign_key (resolveDirectConversation lowUserID highUserID).

Definition insertConversationMembers (conversationID senderID receiverID : Z) :
    proc db_world store_error unit :=
  run_error classify_foreign_key
    (tx_statement (insert_members_statement conversationID senderID receiverID)).

Definition insertMessageAndOutbox (conversationID senderID receiverID : Z)
    (clientMessageID content : string) : db_proc (option message) :=
  tx_statement (insert_message_statement conversationID senderID receiverID clientMessageID content).
End insert_message.

(** * What the statements do *)
Section statements.
Context `{TimeText}.
Implicit Types (d : database) (w : db_world) (m : message) (c : conversation_row).

Lemma with_text_ok {D U A} texts (st : statement D U A) env tables x :
  with_text texts st env tables = Ok x → forallb valid_text texts = true ∧ st env tables = Ok x.
Proof. unfold with_text. by destruct (forallb _ _). Qed.

Lemma query_row_ok {D U A} (find : D → option A) env tables a (us : list U) :
  query_row find env tables = Ok (a, us) → find tables = Some a ∧ us = [].
Proof. unfold query_row. by destruct (find tables); intros; simplify_eq. Qed.

Lemma query_row_none {D U A} (find : D → option A) env tables :
  query_row (U := U) find env tables = Err NoRows → find tables = None.
Proof. unfold query_row. by destruct (find tables). Qed.

Lemma idempotentMessageQuery_ok s k env d m us :
  idempotentMessageQuery s k env d = Ok (m, us) →
  us = [] ∧ m ∈ messages d ∧ idempotency_key m = (s, k).
Proof.
  intros [_ Hq]%with_text_ok. apply query_row_ok in Hq as [Hf ->].
  apply sql_first_Some in Hf as [Hm Hb]. apply andb_true_iff in Hb as [Hs Hk%bool_decide_eq_true].
  split; [done|]. split; [done|]. unfold idempotency_key. f_equal; [lia|done].
Qed.

Lemma idempotentMessageQuery_none s k env d :
  idempotentMessageQuery s k env d = Err NoRows →
  ∀ m, m ∈ messages d → idempotency_key m ≠ (s, k).
Proof.
  unfold idempotentMessageQuery, with_text. destruct (forallb _ _); [|done].
  intros Hf%query_row_none m Hm [= <- <-]. rewrite sql_first_None in Hf. specialize (Hf m Hm).
  apply andb_false_iff in Hf as [?|Hf%bool_decide_eq_false]; [lia|done].
Qed.

Lemma select_direct_ok low high env d id us :
  select_direct_conversation low high env d = Ok (id, us) →
  us = [] ∧ ∃ c, c ∈ conversations d ∧ conversation_id c = id ∧ conversation_kind_of c = Direct low high.
Proof.
  unfold select_direct_conversation. intros [Hf ->]%query_row_ok. split; [done|].
  apply fmap_Some in Hf as (c & E & ->).
  apply sql_first_Some in E as [Hc Hk%bool_decide_eq_true]. eauto.
Qed.

Lemma find_conversation_Some id d c :
  find_conversation id d = Some c → c ∈ conversations d ∧ conversation_id c = id.
Proof. intros [Hc Hk]%sql_first_Some. split; [done|lia]. Qed.

Lemma find_conversation_None id d :
  find_conversation id d = None → ∀ c, c ∈ conversations d → conversation_id c ≠ id.
Proof. unfold find_conversation. rewrite sql_first_None. intros Hf c Hc. specialize (Hf c Hc). lia. Qed.

Lemma insert_direct_ok low high env d id us :
  insert_direct_conversation low high env d = Ok (id, us) → schema_ok d →
  ∃ c, us = [InsertConversation c] ∧ conversation_id c = id ∧ conversation_id c = generated_id env ∧
    conversation_kind_of c = Direct low high ∧ conversation_last_seq c = 0 ∧
    schema_ok (apply_changes us d).
Proof.
  unfold insert_direct_conversation. intros ([] & Hle & Hins)%result_bind_ok Hok.
  apply first_violation_cons in Hle as [Hle _]. simpl in Hle.
  destruct (sql_exists _ _) eqn:Ep; [done|].
  apply result_bind_ok in Hins as ([] & Hc & Hins).
  apply first_violation_cons in Hc as [Hn%bool_decide_eq_true Hu].
  apply first_violation_cons in Hu as [Hl Hu]. apply first_violation_cons in Hu as [Hh _].
  simplify_eq/=. eexists. split; [done|]. split_and!; [done..|].
  apply insert_conversation_ok; simpl; [done|lia|by apply find_conversation_None|..].
  - intros c Hc _ Hk. rewrite sql_exists_false in Ep. specialize (Ep c Hc).
    by apply bool_decide_eq_false in Ep.
  - intros l h [= <- <-]. split; [lia|]. unfold user_exists in *.
    apply sql_exists_true in Hl as (u1 & ? & ?), Hh as (u2 & ? & ?).
    split; [exists u1|exists u2]; (split; [done|lia]).
Qed.

Lemma insert_member_rows_ok rows d us :
  insert_member_rows rows d = Ok us → schema_ok d →
  us = InsertMember <$> rows ∧ schema_ok (apply_changes us d) ∧
  ∀ x, x ∈ rows → x ∈ members (apply_changes us d).
Proof.
  revert d us. induction rows as [|x rows IH]; intros d us Hr Hok.
  { simplify_eq/=. split_and!; [done|done|]. intros y Hy. by apply elem_of_nil in Hy. }
  apply result_bind_ok in Hr as ([] & Hc & Hr). apply first_violation_cons in Hc as [Hnew Hc].
  apply first_violation_cons in Hc as [[c Hc]%bool_decide_eq_true _].
  apply result_bind_ok in Hr as (us' & Hrest & [= <-]).
  assert (schema_ok (apply_change (InsertMember x) d)) as Hok'.
  { apply insert_member_ok; [done| |apply find_conversation_Some in Hc; eauto]. intros y Hy Hk. injection Hk as Hk1 Hk2.
    apply negb_true_iff, sql_exists_false with (x := y) in Hnew; [|done].
    simpl in Hnew. rewrite Hk1, Hk2, !Z.eqb_refl in Hnew. done. }
  destruct (IH _ _ Hrest Hok') as (-> & Hok'' & Hin). split_and!; [done|done|].
  assert (∀ d0 l (y : member_row), y ∈ members d0 →
    y ∈ members (apply_changes (InsertMember <$> l) d0)) as Hkeep.
  { intros d0 l. revert d0. induction l as [|z l IHl]; intros d0 y Hy; [done|].
    apply IHl. simpl. rewrite elem_of_app. by left. }
  intros y [->|Hy]%elem_of_cons; [|by apply Hin].
  apply (Hkeep (apply_change (InsertMember x) d)). simpl. rewrite elem_of_app, list_elem_of_singleton. by right.
Qed.

Lemma insert_members_ok id s r env d us :
  insert_members_statement id s r env d = Ok (tt, us) → schema_ok d →
  ∃ rows, us = InsertMember <$> rows ∧ schema_ok (apply_changes us d) ∧
    ∀ u, u = s ∨ u = r → ∃ x, x ∈ members (apply_changes us d) ∧ member_key x = (id, u).
Proof.
  unfold insert_members_statement. intros Hst Hok.
  apply result_bind_ok in Hst as (us' & Hr & [= <-]).
  destruct (insert_member_rows_ok _ _ _ Hr Hok) as (-> & Hok' & Hin).
  eexists. split_and!; [done|done|]. intros u Hu. eexists; split.
  - apply Hin. apply list_elem_of_fmap. exists u. split; [done|].
    apply elem_of_remove_dups. destruct Hu as [->| ->]; [left|right; left].
  - done.
Qed.

(** The message a successful insert creates, and everything it writes. *)
Record message_inserted (c : conversation_row) (id s r : Z) (k content : string) (env : stmt_env) d m (us : list change) :
  Prop := MessageInserted {
  mi_found : find_conversation id d = Some c;
  mi_message : m = Message (generated_id env) id (conversation_last_seq c + 1) k s r content
    (conversation_updated_at c `max` clock_timestamp env);
  mi_changes : us = [SetConversation id (ConversationSeq m) (CreatedAt m); InsertMessage m;
                     InsertEvent (message_created_event env m)];
  mi_bound : ConversationSeq m ≤ int64_max;
  mi_storable : storable m;
  mi_event : check_event_ok (message_created_event env m);
  mi_key : ∀ x, x ∈ messages d → idempotency_key x ≠ idempotency_key m;
  mi_id : ∀ x, x ∈ messages d → ID x ≠ ID m;
  mi_event_id : ∀ x, x ∈ outbox d → event_id x ≠ generated_uuid env 0;
  mi_event_key : ∀ x, x ∈ outbox d → event_key x ≠ (ID m, "message.created"%string)
}.

Lemma insert_message_inserted id s r k content env d m us :
  insert_message_statement id s r k content env d = Ok (Some m, us) →
  ∃ c, message_inserted c id s r k content env d m us.
Proof.
  intros [Htext Hst]%with_text_ok. destruct (find_conversation id d) as [c|] eqn:Hc; [|done].
  simpl in Htext. rewrite !andb_true_iff in Htext.
  apply result_bind_ok in Hst as ([] & Hchk & Hst).
  apply first_violation_cons in Hchk as [Hmax Hchk].
  destruct (sql_exists _ _) eqn:Hk; [done|].
  apply result_bind_ok in Hst as ([] & Huniq & [= <- <-]).
  rewrite !first_violation_app in Huniq. destruct Huniq as (Hum & Hev & Hue & _).
  apply first_violation_cons in Hum as [Hid _].
  apply first_violation_cons in Hue as [Heid Hue]. apply first_violation_cons in Hue as [Hek _].
  apply negb_true_iff in Hid, Heid, Hek.
  exists c. split; simpl; [done|done|done|lia|destruct Htext as (? & ? & _); by repeat split|..];
    [|intros x Hx..].
  { by apply first_violation_ok, first_violation_ok. }
  - eapply sql_exists_false in Hk; [|exact Hx]. by apply bool_decide_eq_false in Hk.
  - eapply sql_exists_false in Hid; [|exact Hx]. simpl in Hid. lia.
  - eapply sql_exists_false in Heid; [|exact Hx]. by apply bool_decide_eq_false in Heid.
  - eapply sql_exists_false in Hek; [|exact Hx]. unfold event_key. intros [= Hm Ht].
    simpl in Hek. by rewrite Hm, Z.eqb_refl, bool_decide_eq_true_2 in Hek.
Qed.

Lemma set_last_seq_grows c d :
  schema_ok d → c ∈ conversations d → ∀ seq at_,
  conversation_last_seq c ≤ seq → conversation_updated_at c ≤ at_ →
  change_grows (SetConversation (conversation_id c) seq at_) d.
Proof.
  intros Hok Hc seq at_ Hs Ha x Hx Hid.
  by rewrite (unique_key_inj _ _ x c (so_conversations _ Hok) Hx Hc Hid).
Qed.

(** The conversation row after the allocation. *)
Lemma allocated_row c d seq at_ :
  c ∈ conversations d →
  set_last_seq (conversation_id c) seq at_ c
    ∈ conversations (apply_change (SetConversation (conversation_id c) seq at_) d).
Proof. intros Hc. simpl. by apply list_elem_of_fmap_2. Qed.

Lemma set_last_seq_hit c seq at_ :
  conversation_last_seq (set_last_seq (conversation_id c) seq at_ c) = seq.
Proof. unfold set_last_seq. by rewrite Z.eqb_refl. Qed.

Lemma insert_message_none id s r k content env d us :
  insert_message_statement id s r k content env d = Ok (None, us) →
  schema_ok d → is_Some (find_conversation id d) →
  (∃ x, x ∈ messages d ∧ idempotency_key x = (s, k)) ∧
  (∃ seq at_, us = [SetConversation id seq at_]) ∧ schema_ok (apply_changes us d).
Proof.
  intros [_ Hst]%with_text_ok Hok [c Hc]. rewrite Hc in Hst.
  apply result_bind_ok in Hst as ([] & _ & Hst).
  destruct (sql_exists _ _) eqn:Hk; [|by apply result_bind_ok in Hst as ([] & _ & ?)].
  apply sql_exists_true in Hk as (x & Hx & Hk%bool_decide_eq_true). simplify_eq.
  apply find_conversation_Some in Hc as [Hc <-].
  split_and!; [by exists x|eauto|].
  apply set_conversation_ok; [done|]. apply set_last_seq_grows; [done..|lia|lia].
Qed.

Lemma message_inserted_schema c id s r k content env d m us :
  message_inserted c id s r k content env d m us → schema_ok d →
  conversation_kind_of c = pair_of s r → schema_ok (apply_changes us d).
Proof.
  intros [Hf -> -> Hmax Hchk Hev Hk Hid Heid Hek] Hok Hpair. simpl in *.
  apply find_conversation_Some in Hf as [Hc <-].
  pose proof (set_last_seq_grows c d Hok Hc) as Hgrow.
  set (at_ := conversation_updated_at c `max` clock_timestamp env) in *.
  set (m := Message _ _ _ _ _ _ _ _) in *.
  unfold apply_changes; cbn [foldl].
  set (d1 := apply_change (SetConversation (conversation_id c) _ at_) d).
  assert (schema_ok d1) as Hok1 by (apply set_conversation_ok; [done|apply Hgrow; lia]).
  assert (schema_ok (apply_change (InsertMessage m) d1)) as Hok2.
  { apply insert_message_ok; [exact Hok1| |exact Hid| |exact Hk].
    - split; [exact Hchk|]. eexists. split; [by apply allocated_row|]. rewrite set_last_seq_hit.
      rewrite !(proj1 (set_last_seq_same _ _ _ _)), !(proj2 (set_last_seq_same _ _ _ _)).
      pose proof (so_conversation_rows _ Hok c Hc). simpl. split_and!; [done|done|lia|lia].
    - intros x Hx [= Hcid Hseq].
      destruct (so_message_rows _ Hok x Hx) as (_ & c' & Hc' & Hid' & _ & Hle).
      rewrite (unique_key_inj _ _ c' c (so_conversations _ Hok)) in Hle; [lia|done|done|congruence]. }
  apply insert_event_ok; [exact Hok2| |exact Heid|exact Hek]. split; [exact Hev|].
  exists m. split; [|by split]. simpl. rewrite elem_of_app, list_elem_of_singleton. by right.
Qed.

Lemma message_inserted_evolves c id s r k content env d m us :
  message_inserted c id s r k content env d m us → schema_ok d → evolves [] d (apply_changes us d).
Proof.
  intros [Hf -> -> _ _ _ _ _ _ _] Hok. apply find_conversation_Some in Hf as [Hc <-].
  unfold apply_changes; cbn [foldl].
  etrans; [|by apply apply_change_evolves]. etrans; [|by apply apply_change_evolves].
  apply apply_change_evolves, set_last_seq_grows; simpl; [done|done|lia|lia].
Qed.

(** A complete conversation is complete after the insert. *)
Lemma message_inserted_complete c id s r k content env d m us :
  message_inserted c id s r k content env d m us → schema_ok d → conversation_ok d c →
  ∀ c', c' ∈ conversations (apply_changes us d) → conversation_id c' = id →
    conversation_ok (apply_changes us d) c'.
Proof.
  intros [Hf Hm -> _ _ _ _ _ _ _] Hok [Hmem Hmsg] c' Hc' Hid'.
  destruct (find_conversation_Some _ _ _ Hf) as [Hc Hid].
  apply elem_of_set_last_seq in Hc' as (c0 & Hc0 & Hi0 & Hk0 & [[_ ?]|(_ & Hs & _)]); [congruence|].
  assert (c0 = c) as -> by (eapply (unique_key_inj conversation_id); [apply Hok|done|done|congruence]).
  split.
  - intros l h u Hk Hu. rewrite Hk0 in Hk. destruct (Hmem l h u Hk Hu) as (x & Hx & Heq).
    exists x. split; [done|]. congruence.
  - intros n Hn. rewrite Hs in Hn. rewrite Hid'.
    destruct (decide (n = ConversationSeq m)) as [->|Hne].
    + exists m. split; [simpl; rewrite elem_of_app, list_elem_of_singleton; by right|]. by subst m.
    + rewrite Hm in Hn, Hne. simpl in Hn, Hne.
      destruct (Hmsg n) as (x & Hx & Heq); [lia|]. rewrite Hid in Heq.
      exists x. split; [|done]. simpl. rewrite elem_of_app. by left.
Qed.
End statements.

(** * What the methods do, whatever other connections commit meanwhile *)
Section methods.
Context `{TimeText}.
Implicit Types (w : db_world) (m : message).

(** The transaction is about the direct conversation [id] of [k], whose row is
    there and complete in the transaction's view. *)
Record staged (id : Z) (k : conversation_kind) w : Prop := Staged {
  st_world : db_world_ok w;
  st_about : Forall (about id) (w_tx w);
  st_locked : w_tx w = [] ∨ touched (w_tx w) id;
  st_grows : evolves [] (w_db w) (tx_view w);
  st_row : ∃ c, c ∈ conversations (tx_view w) ∧ conversation_id c = id ∧
    conversation_kind_of c = k ∧ conversation_ok (tx_view w) c
}.

Lemma staged_committed id k w : staged id k w → committed_ok (tx_view w).
Proof.
  intros [Hw Ha _ _ (c & Hc & Hid & _ & Hok)]. eapply committed_view; [by apply Hw|apply Hw|done|].
  intros x Hx Hidx. pose proof (so_conversations _ (ok_view _ _ _ _ Hw)) as Hu.
  by rewrite (unique_key_inj _ _ x c Hu Hx Hc ltac:(congruence)).
Qed.

Lemma staged_drift id k w w' : staged id k w → db_drift w w' → db_world_ok w' → staged id k w'.
Proof.
  intros [Hw Ha Hl Hg (c & Hc & Hid & Hk & Hok)] [Htx Hdb Hv _ _] Hw'.
  destruct Hl as [Hnil|Ht].
  - assert (tx_view w' = w_db w') as Hview by (unfold tx_view; by rewrite Htx, Hnil).
    constructor; [done|by rewrite Htx|left; congruence|by rewrite Hview|].
    destruct (ev_conversations _ _ _ Hv c Hc) as (c' & Hc' & Hi' & Hk' & _).
    exists c'. split_and!; [done|congruence|congruence|].
    rewrite Hview in *. by apply (ok_db _ _ _ _ Hw').
  - pose proof (ev_locked _ _ _ Hv id Ht) as Hsame. pose proof (ev_locked _ _ _ Hdb id Ht) as Hsame'.
    constructor; [done|by rewrite Htx|right; by rewrite Htx| |].
    + apply (about_evolves id); [by rewrite Htx|]. intros x Hx Hidx.
      destruct (ev_conversations _ _ _ Hg x) as (x' & Hx' & Hev); [by apply (sc_row _ _ _ Hsame')|].
      exists x'. split; [|done]. apply (sc_row _ _ _ Hsame); [|done].
      destruct Hev. congruence.
    + exists c. split_and!; [by apply (sc_row _ _ _ Hsame)|done|done|by eapply same_conversation_ok].
Qed.

Lemma scanIdempotentMessage_inv row w r w' :
  scanIdempotentMessage row w = (r, w') →
  ∃ r0, row w = (r0, w') ∧
    match r0 with
    | Ok m => r = Ok (Some m)
    | Err NoRows => r = Ok None
    | Err e => r = Err e
    end.
Proof.
  intros Hs. apply proc_bind_inv in Hs as [(e & Ha & ->)|(r0 & w1 & Ha & Hs)];
    apply attempt_inv in Ha as (r1 & Hrow & ?); simplify_eq.
  exists r1. destruct r1 as [[]|m];
    first [apply proc_throw_inv in Hs as [-> ->]|apply proc_ret_inv in Hs as [-> ->]]; done.
Qed.

Lemma findIdempotentMessage_spec s k w r w' :
  db_world_ok w → findIdempotentMessage s k w = (r, w') →
  db_world_ok w' ∧ db_drift w w' ∧
  match r with
  | Ok (Some m) => m ∈ messages (tx_view w') ∧ idempotency_key m = (s, k)
  | Ok None => ∀ m, m ∈ messages (tx_view w') → idempotency_key m ≠ (s, k)
  | Err _ => True
  end.
Proof.
  intros Hw (r0 & Hst & Hr)%scanIdempotentMessage_inv.
  db_spec tx_statement_spec Hst.
  destruct r0 as [e|m].
  - destruct Hst as (Hw' & Hd & He). split_and!; [done|done|].
    destruct e; subst r; [done|done|]. destruct He as [|(env & He)]; [done|].
    by eapply idempotentMessageQuery_none.
  - destruct Hst as (w1 & env & us & Hw1 & Hd & _ & _ & Hq & ->).
    apply idempotentMessageQuery_ok in Hq as (-> & Hm & Hk). rewrite push_nil. by subst r.
Qed.

Lemma findCommittedIdempotentMessage_spec s k w r w' :
  db_world_ok w → w_tx w = [] → findCommittedIdempotentMessage s k w = (r, w') →
  db_world_ok w' ∧ w_tx w' = [] ∧ evolves [] (w_db w) (w_db w') ∧
  match r with Ok m => m ∈ messages (w_db w') ∧ idempotency_key m = (s, k) | Err _ => True end.
Proof.
  intros Hw Htx Hf.
  assert (∃ r0, auto_statement (idempotentMessageQuery s k) w = (r0, w') ∧ ∀ m, r = Ok m → r0 = Ok m)
    as (r0 & Hst & Hr).
  { apply proc_bind_inv in Hf as [(e & Hs & ->)|(o & w1 & Hs & Hf)];
      apply scanIdempotentMessage_inv in Hs as (r0 & Hs & Hr0).
    - exists r0. split; [done|]. intros m [=].
    - destruct o; [apply proc_ret_inv in Hf as [-> ->]|apply proc_throw_inv in Hf as [-> ->]];
        exists r0; (split; [done|]); intros ? [=]. destruct r0 as [[]|]; simplify_eq. done. }
  db_spec auto_statement_spec Hst.
  - destruct Hst as (Hw' & Htx' & w1 & Hw1 & Hd & [[-> Hcase]|(env & m & us & Hq & Hdb & Hr0)]).
    + split_and!; [done|done|exact (drift_base _ _ Hd)|]. destruct r as [|m]; [done|].
      rewrite (Hr m eq_refl) in Hcase. by destruct Hcase as [[=]|(? & ? & _ & [=])].
    + apply idempotentMessageQuery_ok in Hq as (-> & Hm & Hk). simpl in Hdb. rewrite Hdb.
      split_and!; [done|done|exact (drift_base _ _ Hd)|]. destruct r as [|m']; [done|].
      rewrite (Hr m' eq_refl) in Hr0. destruct Hr0; simplify_eq. done.
  - intros w1 env m us Hw1 _ Hq. apply idempotentMessageQuery_ok in Hq as (-> & _). apply Hw1.
Qed.

Lemma on_no_rows_inv {A} (row : db_proc A) found none w r w' :
  on_no_rows row found none w = (r, w') →
  (∃ a w1, row w = (Ok a, w1) ∧ found a w1 = (r, w')) ∨
  (∃ w1, row w = (Err NoRows, w1) ∧ none w1 = (r, w')) ∨
  (∃ e, row w = (Err e, w') ∧ r = Err e).
Proof.
  intros Hs. apply proc_bind_inv in Hs as [(e & Ha & ->)|(r0 & w1 & Ha & Hs)];
    apply attempt_inv in Ha as (r1 & Hrow & ?); simplify_eq.
  destruct r1 as [[]|a]; eauto; apply proc_throw_inv in Hs as [-> ->]; eauto.
Qed.

(** What the transaction has done when the conversation is resolved. *)
Definition resolved (k : conversation_kind) (id : Z) (created : bool) w : Prop :=
  if created then
    ∃ c, w_tx w = [InsertConversation c] ∧ conversation_id c = id ∧ conversation_kind_of c = k ∧
      conversation_last_seq c = 0 ∧ c ∈ conversations (tx_view w)
  else w_tx w = [] ∧ staged id k w.

Lemma select_direct_spec low high w r w' :
  db_world_ok w → w_tx w = [] → tx_statement (select_direct_conversation low high) w = (r, w') →
  db_world_ok w' ∧ w_tx w' = [] ∧ evolves [] (w_db w) (w_db w') ∧
  match r with Ok id => staged id (Direct low high) w' | Err _ => True end.
Proof.
  intros Hw Htx Hst. db_spec tx_statement_spec Hst. destruct r as [e|id].
  - destruct Hst as (Hw' & Hd & _). pose proof (drift_tx _ _ _ Hd).
    split_and!; [done|congruence|exact (drift_base _ _ Hd)|done].
  - destruct Hst as (w1 & env & us & Hw1 & Hd & _ & _ & Hq & ->). pose proof (drift_tx _ _ _ Hd) as Ht.
    apply drift_base in Hd. apply select_direct_ok in Hq as (-> & c & Hc & Hid & Hk). rewrite push_nil.
    assert (w_tx w1 = []) as Ht1 by congruence.
    split_and!; [done|done|done|].
    constructor; [done|by rewrite Ht1|by left|unfold tx_view; by rewrite Ht1|]. exists c. split_and!; [done..|].
    unfold tx_view in *. rewrite Ht1 in *. apply (ok_db _ _ _ _ Hw1), Hc.
Qed.

Lemma insert_direct_spec low high w r w' :
  db_world_ok w → w_tx w = [] → tx_statement (insert_direct_conversation low high) w = (r, w') →
  db_world_ok w' ∧ evolves [] (w_db w) (w_db w') ∧
  match r with
  | Ok id => resolved (Direct low high) id true w'
  | Err _ => w_tx w' = []
  end.
Proof.
  intros Hw Htx Hst. db_spec tx_statement_spec Hst. destruct r as [e|id].
  - destruct Hst as (Hw' & Hd & _). pose proof (drift_tx _ _ _ Hd).
    split_and!; [done|exact (drift_base _ _ Hd)|congruence].
  - destruct Hst as (w1 & env & us & Hw1 & Hd & _ & _ & Hq & ->). pose proof (drift_tx _ _ _ Hd) as Ht.
    apply drift_base in Hd.
    apply insert_direct_ok in Hq as (c & -> & Hid & _ & Hk & Hs & Hok); [|apply Hw1].
    split_and!; [by apply world_ok_push|done|]. exists c.
    rewrite view_push. simpl. rewrite Ht, Htx.
    split_and!; [done..|]. rewrite elem_of_app, list_elem_of_singleton. by right.
Qed.

Lemma resolveDirectConversation_spec low high w r w' :
  db_world_ok w → w_tx w = [] → resolveDirectConversation low high w = (r, w') →
  db_world_ok w' ∧ evolves [] (w_db w) (w_db w') ∧
  match r with
  | Ok (id, created) => resolved (Direct low high) id created w'
  | Err _ => w_tx w' = []
  end.
Proof.
  intros Hw Htx Hrun.
  apply on_no_rows_inv in Hrun as [(id & w1 & Hs & Hr)|[(w1 & Hs & Hrun)|(e & Hs & ->)]];
    apply select_direct_spec in Hs as (Hw1 & Ht1 & Hd1 & Hst); try done.
  { by apply proc_ret_inv in Hr as [-> ->]. }
  apply on_no_rows_inv in Hrun as [(id & w2 & Hi & Hr)|[(w2 & Hi & Hrun)|(e & Hi & ->)]];
    apply insert_direct_spec in Hi as (Hw2 & Hd2 & Hres); try done.
  - apply proc_ret_inv in Hr as [-> ->]. split_and!; [done|by etrans|done].
  - apply proc_bind_inv in Hrun as [(e & Hs & ->)|(id & w3 & Hs & Hr)];
      apply select_direct_spec in Hs as (Hw3 & Ht3 & Hd3 & Hst3); try done.
    + split_and!; [done| |done]. etrans; [done|by etrans].
    + apply proc_ret_inv in Hr as [-> ->]. split_and!; [done| |done]. etrans; [done|by etrans].
  - split_and!; [done|by etrans|done].
Qed.

Lemma apply_members_rows rows d :
  let d' := apply_changes (InsertMember <$> rows) d in
  conversations d' = conversations d ∧ messages d' = messages d ∧
  users d' = users d ∧ outbox d' = outbox d.
Proof.
  revert d. induction rows as [|x rows IH]; intros d; [done|].
  destruct (IH (apply_change (InsertMember x) d)) as (Hc & Hm & Hu & Ho).
  split_and!; [etrans; [exact Hc|]|etrans; [exact Hm|]|etrans; [exact Hu|]|etrans; [exact Ho|]]; done.
Qed.

Lemma insert_members_evolves rows d : evolves [] d (apply_changes (InsertMember <$> rows) d).
Proof.
  revert d. induction rows as [|x rows IH]; intros d; [done|].
  transitivity (apply_change (InsertMember x) d); [by apply apply_change_evolves|apply IH].
Qed.

Lemma insertConversationMembers_spec id s r w o w' :
  db_world_ok w → resolved (pair_of s r) id true w →
  insertConversationMembers id s r w = (o, w') →
  db_world_ok w' ∧ evolves [] (w_db w) (w_db w') ∧
  match o with Ok _ => staged id (pair_of s r) w' | Err _ => True end.
Proof.
  intros Hw (c & Htx & Hid & Hk & Hs & Hc) (r0 & Hst & ->)%run_error_inv.
  db_spec tx_statement_spec Hst. destruct r0 as [e|[]]; simpl.
  { destruct Hst as (Hw' & Hd & _). split_and!; [done|exact (drift_base _ _ Hd)|done]. }
  destruct Hst as (w1 & env & us & Hw1 & Hd & _ & _ & Hq & ->).
  pose proof Hd as [Ht _ Hv _ _]. apply drift_base in Hd. apply insert_members_ok in Hq as (rows & -> & Hok & Hin); [|apply Hw1].
  assert (touched (w_tx w) id) as Hlock.
  { exists (InsertConversation c). rewrite Htx. split; [by left|]. simpl. lia. }
  assert (c ∈ conversations (tx_view w1)) as Hc1 by (by apply (ev_locked _ _ _ Hv id Hlock)).
  split_and!; [by apply world_ok_push|done|].
  constructor; [by apply world_ok_push| | | |].
  - simpl. rewrite Ht, Htx. apply Forall_app. split; [by constructor|].
    apply Forall_fmap. by apply Forall_true.
  - right. exists (InsertConversation c). simpl. rewrite Ht, Htx. split; [by left|]. simpl. lia.
  - rewrite view_push. etrans; [|by apply insert_members_evolves].
    unfold tx_view. rewrite Ht, Htx. by apply apply_change_evolves.
  - exists c. rewrite view_push.
    split_and!; [by rewrite (proj1 (apply_members_rows _ _))|done|done|].
    split; [|intros n; rewrite Hs; lia].
    intros l h u Hk' Hu. rewrite Hid. apply Hin. rewrite Hk in Hk'.
    unfold pair_of in Hk'. simplify_eq. lia.
Qed.

Lemma insertMessageAndOutbox_spec id s r k content w o w' :
  staged id (pair_of s r) w → insertMessageAndOutbox id s r k content w = (o, w') →
  db_world_ok w' ∧ evolves [] (w_db w) (w_db w') ∧
  match o with
  | Ok (Some m) => staged id (pair_of s r) w' ∧
      ∃ w1 c env us, db_world_ok w1 ∧ w_tx w1 = w_tx w ∧
        message_inserted c id s r k content env (tx_view w1) m us ∧ w' = push us w1 ∧
        ∀ x, x ∈ messages (w_db w1) → idempotency_key x ≠ (s, k)
  | _ => True
  end.
Proof.
  intros Hstg Hst. pose proof (st_world _ _ _ Hstg) as Hw. db_spec tx_statement_spec Hst.
  destruct o as [e|o]; [destruct Hst as (Hw' & Hd & _); split_and!; [done|exact (drift_base _ _ Hd)|done]|].
  destruct Hst as (w1 & env & us & Hw1 & Hd & _ & _ & Hq & ->).
  pose proof (staged_drift _ _ _ _ Hstg Hd Hw1) as [_ Ha1 _ Hg1 (c & Hc & Hid & Hk & Hcok)].
  pose proof (ok_view _ _ _ _ Hw1) as Hok1.
  assert (find_conversation id (tx_view w1) = Some c) as Hfind.
  { apply (sql_first_key conversation_id); [apply Hok1|done|lia|]. intros y Hy. lia. }
  destruct o as [m|].
  - apply insert_message_inserted in Hq as (c0 & Hmi).
    assert (c0 = c) as -> by (destruct Hmi; congruence).
    pose proof (message_inserted_schema _ _ _ _ _ _ _ _ _ _ Hmi Hok1 Hk) as Hok2.
    assert (db_world_ok (push us w1)) as Hw2 by (by apply world_ok_push).
    split_and!; [done|exact (drift_base _ _ Hd)| |].
    + pose proof (mi_changes _ _ _ _ _ _ _ _ _ _ Hmi) as Hus.
      constructor; [done| | |rewrite view_push; etrans; [done|by eapply message_inserted_evolves]|].
      * simpl. apply Forall_app. split; [done|]. rewrite Hus. by repeat constructor.
      * right. eexists. simpl. rewrite Hus. split; [apply elem_of_app; right; by left|].
        simpl. lia.
      * rewrite view_push.
        pose proof (message_inserted_complete _ _ _ _ _ _ _ _ _ _ Hmi Hok1 Hcok) as Hcomp.
        exists (set_last_seq id (ConversationSeq m) (CreatedAt m) c).
        assert (set_last_seq id (ConversationSeq m) (CreatedAt m) c ∈ conversations (apply_changes us (tx_view w1)))
          by (rewrite Hus; by apply list_elem_of_fmap_2).
        destruct (set_last_seq_same id (ConversationSeq m) (CreatedAt m) c) as [Hi' Hk'].
        split_and!; [done|congruence|congruence|]. apply Hcomp; congruence.
    + exists w1, c, env, us. split_and!; [done|apply Hd|done|done|].
      intros x Hx. replace (s, k) with (idempotency_key m) by (by rewrite (mi_message _ _ _ _ _ _ _ _ _ _ Hmi)).
      apply (mi_key _ _ _ _ _ _ _ _ _ _ Hmi). by apply (ev_messages _ _ _ Hg1).
  - apply insert_message_none in Hq as (_ & _ & Hok2); [|done|by rewrite Hfind].
    split_and!; [by apply world_ok_push|exact (drift_base _ _ Hd)|done].
Qed.
End methods.
