(* ===== verification/MessageService.v ===== *)
(** [message_service.go], [message_handler.go] and the error contract of
    [api_errors.go]: validation, the sending transaction, and the HTTP replies. *)
From S2P Require Import Prelude GoStd Tables Driver Json Schema Changes MessageStore.
Open Scope Z_scope.

(** * Types *)

Inductive messageServiceErrorCode : Type :=
| messageServiceErrorInvalidJSON
| messageServiceErrorInvalidMessage
| messageServiceErrorReceiverNotFound
| messageServiceErrorIdempotencyConflict
| messageServiceErrorUnavailable
| messageServiceErrorInternal.
#[global] Instance messageServiceErrorCode_eq_dec : EqDecision messageServiceErrorCode.
Proof. solve_decision. Defined.

Record messageServiceError : Type := MessageServiceError {
  Code : messageServiceErrorCode; Message_ : string; Cause : option store_error
}.

Record sendMessageCommand : Type := SendMessageCommand {
  cmd_SenderID : Z; cmd_ReceiverID : Z; cmd_ClientMessageID : string; cmd_Content : option string
}.

Record sendMessageResult : Type := SendMessageResult { res_Message : message; res_Created : bool }.

Definition maxMessageContentRunes : Z := 4000.
Definition validOpaqueID (value : string) : bool := in_range 16 128 (len value).

Definition invalidMessageError (text : string) : messageServiceError :=
  MessageServiceError messageServiceErrorInvalidMessage text None.
Definition internalMessageError (cause : store_error) : messageServiceError :=
  MessageServiceError messageServiceErrorInternal "" (Some cause).
Definition idempotencyConflictError : messageServiceError :=
  MessageServiceError messageServiceErrorIdempotencyConflict "" None.
Definition unavailableError (cause : db_error) : messageServiceError :=
  MessageServiceError messageServiceErrorUnavailable "" (Some (StoreDatabaseError cause)).
Definition classifyMessageStoreError (e : store_error) : messageServiceError :=
  match e with
  | errMessageReceiverNotFound => MessageServiceError messageServiceErrorReceiverNotFound "" (Some e)
  | _ => internalMessageError e
  end.

Definition internal_database_error (e : db_error) : messageServiceError :=
  internalMessageError (StoreDatabaseError e).

Definition sameMessageRequest (existing : message) (receiverID : Z) (content : string) : bool :=
  (ReceiverID existing =? receiverID) && bool_decide (Content existing = content).

(** * The service *)

Abbreviation service_proc := (proc db_world messageServiceError).

Section send.
Context `{TimeText}.

(** The checks before the transaction: the content, or the refusal. *)
Definition validate_command (command : sendMessageCommand) : result messageServiceError string :=
  match cmd_Content command with
  | Some content =>
      if negb (validOpaqueID (cmd_ClientMessageID command)) || (cmd_ReceiverID command <=? 0)
      then Err (invalidMessageError "clientMessageId, receiverId and content are required")
      else
        let contentLength := RuneCountInString content in
        if contentLength =? 0 then Err (invalidMessageError "content must contain at least one character")
        else if maxMessageContentRunes <? contentLength then Err (invalidMessageError "content is too long")
        else Ok content
  | None => Err (invalidMessageError "clientMessageId, receiverId and content are required")
  end.

(** Reply with a message that is already stored. *)
Definition reply_existing (existing : message) (receiverID : Z) (content : string) :
    service_proc sendMessageResult :=
  if sameMessageRequest existing receiverID content
  then mret (SendMessageResult existing false)
  else mthrow idempotencyConflictError.

(** A concurrent retry won the idempotency race: roll back, reply with its
    message. *)
Definition reply_winner (senderID receiverID : Z) (clientMessageID content : string) :
    service_proc sendMessageResult :=
  _ ← run_error internal_database_error rollback_tx;
  winner ← run_error internal_database_error
    (findCommittedIdempotentMessage senderID clientMessageID);
  reply_existing winner receiverID content.

Definition commit_created (created : message) : service_proc sendMessageResult :=
  _ ← run_error internal_database_error commit_tx;
  mret (SendMessageResult created true).

Definition insert_and_commit (conversationID senderID receiverID : Z) (clientMessageID content : string) :
    service_proc sendMessageResult :=
  inserted ← run_error internal_database_error
    (insertMessageAndOutbox conversationID senderID receiverID clientMessageID content);
  match inserted with
  | None => reply_winner senderID receiverID clientMessageID content
  | Some created => commit_created created
  end.

(** The body of [send] after BEGIN. *)
Definition send_in_transaction (senderID receiverID : Z) (clientMessageID content : string) :
    service_proc sendMessageResult :=
  found ← run_error internal_database_error (findIdempotentMessage senderID clientMessageID);
  match found with
  | Some existing => reply_existing existing receiverID content
  | None =>
      let '(lowUserID, highUserID) :=
        if receiverID <? senderID then (receiverID, senderID) else (senderID, receiverID) in
      '(conversationID, conversationCreated) ←
        run_error classifyMessageStoreError (tx_resolveDirectConversation lowUserID highUserID);
      _ ← (if conversationCreated : bool
           then run_error classifyMessageStoreError
                  (insertConversationMembers conversationID senderID receiverID)
           else mret tt);
      insert_and_commit conversationID senderID receiverID clientMessageID content
  end.

Definition send (command : sendMessageCommand) : service_proc sendMessageResult :=
  match validate_command command with
  | Err e => mthrow e
  | Ok content =>
      _ ← run_error unavailableError begin_tx;
      deferring_rollback
        (send_in_transaction (cmd_SenderID command) (cmd_ReceiverID command)
           (cmd_ClientMessageID command) content)
  end.
End send.

(** * HTTP *)

(** A reply: a status with a JSON body, or the error envelope. *)
Inductive api_reply (A : Type) : Type :=
| Reply (status : Z) (body : A)
| Problem (status : Z) (code text : string).
Arguments Reply {A} _ _.
Arguments Problem {A} _ _ _.

Definition reply_status {A} (r : api_reply A) : Z :=
  match r with Reply s _ => s | Problem s _ _ => s end.

Definition messageAPIErrorContract (serviceError : option messageServiceError) : Z * string * string :=
  match serviceError with
  | None => (500, "INTERNAL_ERROR", "could not create message")
  | Some e =>
      match Code e with
      | messageServiceErrorInvalidJSON => (400, "INVALID_JSON", "invalid JSON body")
      | messageServiceErrorInvalidMessage => (400, "INVALID_MESSAGE", Message_ e)
      | messageServiceErrorReceiverNotFound => (400, "RECEIVER_NOT_FOUND", "receiverId does not exist")
      | messageServiceErrorIdempotencyConflict =>
          (409, "CLIENT_MESSAGE_ID_CONFLICT", "clientMessageId was already used with different message data")
      | messageServiceErrorUnavailable =>
          (503, "SERVICE_UNAVAILABLE", "message service is temporarily unavailable")
      | messageServiceErrorInternal => (500, "INTERNAL_ERROR", "could not create message")
      end
  end%string.

Definition writeMessageAPIError {A} (serviceError : messageServiceError) : api_reply A :=
  let '(status, code, text) := messageAPIErrorContract (Some serviceError) in Problem status code text.

Definition maxRequestBodyBytes : Z := 2 ^ 20.

(** One JSON value and nothing else, within the size limit, decoded strictly. *)
Definition decodeSingleJSON {S} (fields : list (field_setter S)) (zero : S) (body : list Z) : option S :=
  if maxRequestBodyBytes <? Z.of_nat (List.length body) then None
  else v ← parse_document body; decode_struct fields true v zero.

Record createMessageRequest : Type := CreateMessageRequest {
  req_ClientMessageID : string; req_ReceiverID : Z; req_Content : option string
}.

Definition createMessageRequest_fields : list (field_setter createMessageRequest) := [
  ("clientMessageId"%string, decode_text (λ x r, CreateMessageRequest x (req_ReceiverID r) (req_Content r)));
  ("receiverId"%string, decode_int64 (λ x r, CreateMessageRequest (req_ClientMessageID r) x (req_Content r)));
  ("content"%string, decode_text_pointer (λ x r, CreateMessageRequest (req_ClientMessageID r) (req_ReceiverID r) x))].

Section handler.
Context `{TimeText}.

(** [messageSender] is the handler's override, [send] its default. *)
Definition createMessage (messageSender : option (sendMessageCommand → service_proc sendMessageResult))
    (userID : Z) (body : list Z) (w : db_world) : api_reply message * db_world :=
  match decodeSingleJSON createMessageRequest_fields (CreateMessageRequest "" 0 None) body with
  | None => (writeMessageAPIError (MessageServiceError messageServiceErrorInvalidJSON "" None), w)
  | Some input =>
      let service := if messageSender is Some s then s else send in
      match service (SendMessageCommand userID (req_ReceiverID input) (req_ClientMessageID input)
                       (req_Content input)) w with
      | (Err e, w') => (writeMessageAPIError e, w')
      | (Ok res, w') => (Reply (if res_Created res then 201 else 200) (res_Message res), w')
      end
  end.
End handler.

(** * The sending transaction *)
Section send_spec.
Context `{TimeText}.
Implicit Types (w : db_world) (m : message).

Lemma commit_staged_spec id k w r w' :
  staged id k w → commit_tx w = (r, w') →
  db_world_ok w' ∧ evolves [] (w_db w) (w_db w') ∧
  (r = Ok tt → w_tx w' = [] ∧ evolves (w_tx w) (tx_view w) (w_db w')).
Proof.
  intros Hstg Hc. pose proof (st_world _ _ _ Hstg) as Hw.
  assert (∀ w1, db_world_ok w1 → db_drift w w1 → staged id k w1) as Hdrift
    by (intros; by eapply staged_drift).
  db_spec commit_tx_spec Hc; [|intros w1 Hw1 Hd; eapply staged_committed; eauto].
  destruct Hc as (Hw' & w1 & Hw1 & Hd & Hr). split; [done|].
  pose proof (st_grows _ _ _ (Hdrift _ Hw1 Hd)) as Hg. pose proof (drift_base _ _ Hd) as Hb.
  destruct r as [e|[]].
  - destruct Hr as [_ [[-> _]| ->]]; (split; [|done]); [by etrans|done].
  - destruct Hr as [-> Ht]. split; [by etrans|]. intros _. split; [done|apply Hd].
Qed.

(** An event that waits for the outbox worker. *)
Definition pending_event (e : outbox_row) : Prop :=
  event_published_at e = None ∧ event_dead_at e = None ∧ event_lock_token e = None ∧
  event_attempt_count e = 0 ∧ is_Some (event_ready_at e).

(** What a successful reply to a request says about the committed tables [d0]
    before and [d] after it. *)
Record answered (s r : Z) (k content : string) (d0 d : database) (res : sendMessageResult) : Prop := Answered {
  an_stored : res_Message res ∈ messages d;
  an_key : idempotency_key (res_Message res) = (s, k);
  an_receiver : ReceiverID (res_Message res) = r;
  an_content : Content (res_Message res) = content;
  an_fresh : res_Created res = true → ∀ x, x ∈ messages d0 → idempotency_key x ≠ (s, k);
  an_event : res_Created res = true → ∃ e, e ∈ outbox d ∧ pending_event e ∧
    event_key e = (ID (res_Message res), "message.created"%string) ∧ event_payload_version e = 4 ∧
    event_payload e = message_created_payload (res_Message res)
}.

(** The stored message a conflict is about. *)
Definition conflicts (s r : Z) (k content : string) (d : database) : Prop :=
  ∃ m, m ∈ messages d ∧ idempotency_key m = (s, k) ∧ (ReceiverID m ≠ r ∨ Content m ≠ content).

Definition send_outcome (s r : Z) (k content : string) (d0 d : database)
    (o : result messageServiceError sendMessageResult) : Prop :=
  match o with
  | Ok res => answered s r k content d0 d res
  | Err e => Code e ≠ messageServiceErrorInvalidJSON ∧
      (Code e = messageServiceErrorIdempotencyConflict → conflicts s r k content d)
  end.

(** The run keeps the invariant, only adds to the tables, and answers truly. *)
Definition sends_well (s r : Z) (k content : string) w (o : result messageServiceError sendMessageResult) w' :
    Prop :=
  db_world_ok w' ∧ evolves [] (w_db w) (w_db w') ∧ send_outcome s r k content (w_db w) (w_db w') o.

Lemma sends_well_trans s r k content w w1 o w' :
  evolves [] (w_db w) (w_db w1) → sends_well s r k content w1 o w' → sends_well s r k content w o w'.
Proof.
  intros Hev (? & ? & Ho). split_and!; [done|by etrans|].
  destruct o as [e|res]; [done|]. destruct Ho as [? ? ? ? Hf ?]. constructor; try done.
  intros Hc x Hx. apply (Hf Hc). by apply (ev_messages _ _ _ Hev).
Qed.

Lemma reply_existing_spec s r k content m w o w' :
  db_world_ok w → m ∈ messages (w_db w) → idempotency_key m = (s, k) →
  reply_existing m r content w = (o, w') → sends_well s r k content w o w'.
Proof.
  intros Hw Hm Hk. unfold reply_existing, sameMessageRequest.
  destruct (ReceiverID m =? r) eqn:Hr; [case_bool_decide as Hc|]; simpl; intros Ho;
    first [apply proc_ret_inv in Ho as [-> ->]|apply proc_throw_inv in Ho as [-> ->]];
    (split; [done|]); (split; [done|]).
  - constructor; simpl; try done. lia.
  - split; [done|]. intros _. exists m. auto.
  - split; [done|]. intros _. exists m. split_and!; [done|done|left; lia].
Qed.

Lemma commit_created_spec c id s r k content env us m w0 o w' :
  staged id (pair_of s r) (push us w0) →
  message_inserted c id s r k content env (tx_view w0) m us →
  (∀ x, x ∈ messages (w_db w0) → idempotency_key x ≠ (s, k)) →
  commit_created m (push us w0) = (o, w') → sends_well s r k content (push us w0) o w'.
Proof.
  intros Hstg Hmi Hfresh Hrun.
  apply proc_bind_inv in Hrun as [(e & Hc & ->)|([] & w2 & Hc & Hrun)];
    apply run_error_inv in Hc as (r2 & Hc & Hr2); (eapply commit_staged_spec in Hc; [|done]);
    destruct Hc as (Hw2 & Hd2 & Hr).
  { destruct r2; by simplify_eq/=. }
  apply proc_ret_inv in Hrun as [-> ->]. destruct r2 as [|[]]; simplify_eq/=.
  destruct (Hr eq_refl) as [_ Hev]. split_and!; [done..|]. rewrite view_push in Hev.
  pose proof (mi_changes _ _ _ _ _ _ _ _ _ _ Hmi) as Hus.
  assert (InsertEvent (message_created_event env m) ∈ w_tx (push us w0)) as Hin.
  { simpl. rewrite Hus. apply elem_of_app. right. do 2 right. by left. }
  constructor; simpl; try by (rewrite (mi_message _ _ _ _ _ _ _ _ _ _ Hmi)).
  - apply (ev_messages _ _ _ Hev). rewrite Hus. simpl. rewrite elem_of_app, list_elem_of_singleton. by right.
  - intros _. exact Hfresh.
  - intros _. exists (message_created_event env m). split_and!; try done.
    apply (ev_events _ _ _ Hev _ Hin). rewrite Hus. simpl. rewrite elem_of_app, list_elem_of_singleton. by right.
Qed.

Lemma reply_winner_spec s r k content w o w' :
  db_world_ok w → reply_winner s r k content w = (o, w') → sends_well s r k content w o w'.
Proof.
  intros Hw Hrun.
  apply proc_bind_inv in Hrun as [(e & Hc & ->)|([] & w2 & Hc & Hrun)];
    apply run_error_inv in Hc as (r2 & Hc & Hr2); db_spec rollback_tx_spec Hc;
    destruct Hc as (Hw2 & Hd2 & Hr); apply evolves_nil in Hd2.
  { destruct r2; by simplify_eq/=. }
  destruct r2 as [|[]]; simplify_eq/=. apply (sends_well_trans _ _ _ _ _ w2); [done|].
  apply proc_bind_inv in Hrun as [(e & Hf & ->)|(m & w3 & Hf & Hrun)];
    apply run_error_inv in Hf as (r3 & Hf & Hr3); apply findCommittedIdempotentMessage_spec in Hf; try done;
    destruct Hf as (Hw3 & _ & Hd3 & Hm).
  { destruct r3; by simplify_eq/=. }
  destruct r3; simplify_eq/=. destruct Hm as [Hm Hk].
  apply (sends_well_trans _ _ _ _ _ w3); [done|]. by eapply reply_existing_spec.
Qed.

(** The last part of the body: insert, then commit or look up the winner. *)
Lemma insert_and_commit_spec id s r k content w o w' :
  staged id (pair_of s r) w →
  insert_and_commit id s r k content w = (o, w') → sends_well s r k content w o w'.
Proof.
  intros Hstg Hrun.
  apply proc_bind_inv in Hrun as [(e & Hi & ->)|(ins & w1 & Hi & Hrun)];
    apply run_error_inv in Hi as (r1 & Hi & Hr1); apply insertMessageAndOutbox_spec in Hi as (Hw1 & Hd1 & Hi);
    try done.
  { destruct r1; by simplify_eq/=. }
  destruct r1 as [|[m|]]; simplify_eq/=; (eapply sends_well_trans; [done|]).
  - destruct Hi as (Hstg1 & w0 & c & env & us & Hw0 & Ht0 & Hmi & -> & Hfresh).
    by eapply commit_created_spec.
  - by apply reply_winner_spec.
Qed.

Lemma send_in_transaction_spec s r k content w o w' :
  db_world_ok w → w_tx w = [] →
  send_in_transaction s r k content w = (o, w') → sends_well s r k content w o w'.
Proof.
  intros Hw Htx Hrun.
  apply proc_bind_inv in Hrun as [(e & Hf & ->)|(found & w1 & Hf & Hrun)];
    apply run_error_inv in Hf as (r1 & Hf & Hr1); apply findIdempotentMessage_spec in Hf as (Hw1 & Hd1 & Hm);
    try done; pose proof (drift_base _ _ Hd1).
  { destruct r1; by simplify_eq/=. }
  assert (w_tx w1 = []) as Ht1 by (rewrite (drift_tx _ _ _ Hd1); done).
  destruct r1 as [|[m|]]; simplify_eq/=; (eapply sends_well_trans; [done|]).
  { destruct Hm as [Hm Hk]. unfold tx_view in Hm. rewrite Ht1 in Hm.
    by eapply reply_existing_spec. }
  assert (∃ low high, (if r <? s then (r, s) else (s, r)) = (low, high) ∧ pair_of s r = Direct low high)
    as (low & high & Heq & Hpair).
  { unfold pair_of. destruct (r <? s) eqn:E; do 2 eexists; (split; [done|]); f_equal; lia. }
  rewrite Heq in Hrun.
  apply proc_bind_inv in Hrun as [(e & Hres & ->)|([id created] & w2 & Hres & Hrun)];
    apply run_error_inv in Hres as (r2 & Hres & Hr2); apply run_error_inv in Hres as (r3 & Hres & Hr3);
    apply resolveDirectConversation_spec in Hres as (Hw2 & Hd2 & Hst); try done.
  { destruct r3 as [e3|]; simplify_eq/=. split_and!; [done..|].
    unfold classify_foreign_key. by destruct (isForeignKeyViolation e3). }
  destruct r3 as [|p]; simplify_eq/=. (eapply sends_well_trans; [done|]).
  rewrite <-Hpair in Hst.
  apply proc_bind_inv in Hrun as [(e & Hmem & ->)|([] & w3 & Hmem & Hrun)]; destruct created.
  - apply run_error_inv in Hmem as (r4 & Hmem & Hr4).
    apply insertConversationMembers_spec in Hmem as (Hw3 & Hd3 & Hst3); try done.
    destruct r4 as [[]|]; by simplify_eq/=.
  - by apply proc_ret_inv in Hmem as [[=] _].
  - apply run_error_inv in Hmem as (r4 & Hmem & Hr4).
    apply insertConversationMembers_spec in Hmem as (Hw3 & Hd3 & Hst3); try done.
    destruct r4; simplify_eq/=. eapply sends_well_trans; [done|]. by eapply insert_and_commit_spec.
  - apply proc_ret_inv in Hmem as [_ ->]. destruct Hst as [_ Hst]. by eapply insert_and_commit_spec.
Qed.

(** [send] from outside any transaction, whatever the schedule. *)
Lemma send_spec command w o w' :
  db_world_ok w → send command w = (o, w') →
  db_world_ok w' ∧ evolves [] (w_db w) (w_db w') ∧
  ∀ content, cmd_Content command = Some content →
    send_outcome (cmd_SenderID command) (cmd_ReceiverID command) (cmd_ClientMessageID command)
      content (w_db w) (w_db w') o.
Proof.
  intros Hw Hrun. unfold send in Hrun.
  destruct (validate_command command) as [e|content] eqn:Hv.
  - apply proc_throw_inv in Hrun as [-> ->]. split_and!; [done..|].
    intros content Hc. unfold validate_command in Hv. rewrite Hc in Hv.
    destruct_tests; simplify_eq/=; done.
  - assert (cmd_Content command = Some content) as Hc.
    { unfold validate_command in Hv. destruct (cmd_Content command); [|done]. destruct_tests; by simplify_eq/=. }
    apply proc_bind_inv in Hrun as [(e & Hb & ->)|([] & w1 & Hb & Hrun)];
      apply run_error_inv in Hb as (r1 & Hb & Hr1); db_spec begin_tx_spec Hb;
      destruct Hb as (Hw1 & Hd1 & Ht1); apply evolves_nil in Hd1.
    { destruct r1; simplify_eq/=. split_and!; [done..|]. by intros. }
    destruct r1 as [|[]]; simplify_eq/=.
    apply deferring_rollback_spec in Hrun as (w2 & Hrun & ->).
    apply send_in_transaction_spec in Hrun; [|done..].
    apply (sends_well_trans _ _ _ _ _ _ _ _ Hd1) in Hrun as (Hw2 & Hd2 & Ho).
    split_and!; [apply discard_tx_ok; [apply committed_schema|done]|done|].
    intros c Hc'. by simplify_eq.
Qed.
End send_spec.

(** * Undisturbed runs

    Without interference and with no acknowledgement lost after COMMIT, only a
    COMMIT that succeeds changes the committed tables. *)
Section undisturbed.
Context `{TimeText}.

Definition undisturbed (e : event database change) : Prop :=
  ev_fault e ≠ LostAfter ∧ ∀ us d, ev_env e us d = d.

(** [m] leaves the committed tables as they are, where [P] says it ended. *)
Definition leaves_db {E A} (P : result E A → Prop) (m : proc db_world E A) : Prop :=
  ∀ w r w', Forall undisturbed (w_events w) → m w = (r, w') →
    Forall undisturbed (w_events w') ∧ (P r → w_db w' = w_db w).

Definition always {E A} (r : result E A) : Prop := True.
Definition on_error {E A} (r : result E A) : Prop := is_ok r = false.

Lemma leaves_always {E A} P (m : proc db_world E A) : leaves_db always m → leaves_db P m.
Proof. intros Hm w r w' He Hr. destruct (Hm _ _ _ He Hr) as [? Hd]. split; [done|]. intros _. by apply Hd. Qed.

Lemma leaves_ret {E A} (a : A) : leaves_db always (mret a : proc db_world E A).
Proof. intros w r w' He [-> ->]%proc_ret_inv. done. Qed.

Lemma leaves_throw {E A} (e : E) : leaves_db always (mthrow e : proc db_world E A).
Proof. intros w r w' He [-> ->]%proc_throw_inv. done. Qed.

Lemma leaves_bind {E A B} (m : proc db_world E A) (f : A → proc db_world E B) :
  leaves_db always m → (∀ a, leaves_db always (f a)) → leaves_db always (m ≫= f).
Proof.
  intros Hm Hf w r w' He [(e & Hr & ->)|(a & w1 & Hr & Hrun)]%proc_bind_inv;
    destruct (Hm _ _ _ He Hr) as [He1 Hd1]; [split; [done|intros _; by apply Hd1]|].
  destruct (Hf _ _ _ _ He1 Hrun) as [He2 Hd2]. split; [done|]. intros _.
  by rewrite (Hd2 I), (Hd1 I).
Qed.

(** Only the last step may change the tables, by succeeding. *)
Lemma leaves_bind_error {E A B} (m : proc db_world E A) (f : A → proc db_world E B) :
  leaves_db always m → (∀ a, leaves_db on_error (f a)) → leaves_db on_error (m ≫= f).
Proof.
  intros Hm Hf w r w' He [(e & Hr & ->)|(a & w1 & Hr & Hrun)]%proc_bind_inv;
    destruct (Hm _ _ _ He Hr) as [He1 Hd1]; [split; [done|intros _; by apply Hd1]|].
  destruct (Hf _ _ _ _ He1 Hrun) as [He2 Hd2]. split; [done|]. intros Hp.
  by rewrite (Hd2 Hp), (Hd1 I).
Qed.

Lemma leaves_run_error {E F A} (g : E → F) (m : proc db_world E A) :
  leaves_db always m → leaves_db always (run_error g m).
Proof. intros Hm w r w' He (r0 & Hr & ->)%run_error_inv. by apply (Hm _ _ _ He Hr). Qed.

Lemma leaves_attempt {E F A} (m : proc db_world E A) :
  leaves_db always m → leaves_db always (attempt m : proc db_world F (result E A)).
Proof. intros Hm w r w' He (r0 & Hr & ->)%attempt_inv. by apply (Hm _ _ _ He Hr). Qed.

Lemma leaves_next_event : leaves_db always (next_event (D := database) (U := change)).
Proof.
  intros [d us st es] r w' He Hr. unfold next_event in Hr. simpl in *.
  destruct es as [|e es]; simplify_eq; [done|].
  apply Forall_cons in He as [[_ Henv] ?]. split; [done|]. intros _. apply Henv.
Qed.

Lemma leaves_begin_tx : leaves_db always (begin_tx (D := database) (U := change)).
Proof.
  apply leaves_bind; [apply leaves_next_event|]. intros e.
  destruct (ev_fault e); try apply leaves_throw.
  intros w r w' He Hr. injection Hr as <- <-. done.
Qed.

Lemma leaves_tx_statement {A} (st : db_statement A) : leaves_db always (tx_statement st).
Proof.
  apply leaves_bind; [apply leaves_next_event|]. intros e.
  destruct (ev_fault e); try apply leaves_throw.
  intros w r w' He Hr. unfold atomically in Hr. destruct (st _ _) as [|[]]; by simplify_eq.
Qed.

Lemma leaves_rollback_tx : leaves_db always (rollback_tx (D := database) (U := change)).
Proof.
  apply leaves_bind; [apply leaves_next_event|]. intros e.
  apply leaves_bind; [|intros []; destruct (ev_fault e); [apply leaves_ret|apply leaves_throw..]].
  intros w r w' He Hr. injection Hr as <- <-. done.
Qed.

(** A query outside a transaction. *)
Lemma leaves_query {A} (st : db_statement A) :
  (∀ env d a us, st env d = Ok (a, us) → us = []) → leaves_db always (auto_statement st).
Proof.
  intros Hst. apply leaves_bind; [apply leaves_next_event|]. intros e.
  destruct (ev_fault e); try apply leaves_throw;
    intros w r w' He Hr; unfold atomically in Hr; destruct (st _ _) as [|[a us]] eqn:E; simplify_eq;
    try done; by rewrite (Hst _ _ _ _ E).
Qed.

Lemma leaves_commit_tx : leaves_db on_error (commit_tx (D := database) (U := change)).
Proof.
  intros w r w' He Hr. apply proc_bind_inv in Hr as [(e & Hn & ->)|(e & w1 & Hn & Hr)];
    destruct (leaves_next_event _ _ _ He Hn) as [He1 Hd1]; [split; [done|intros _; by apply Hd1]|].
  assert (ev_fault e ≠ LostAfter) as Hf.
  { unfold next_event in Hn. destruct w as [d us st [|e' es]]; simplify_eq/=.
    by apply Forall_cons in He as [[? _] _]. }
  rewrite <-(Hd1 I). destruct (ev_fault e); [|apply proc_bind_inv in Hr as [(? & Hd & ->)|([] & w2 & Hd & Hr)]|done].
  - injection Hr as <- <-. done.
  - done.
  - apply proc_throw_inv in Hr as [-> ->]. injection Hd as <-. done.
Qed.

Lemma leaves_deferring_rollback {E A} P (m : proc db_world E A) :
  leaves_db P m → leaves_db P (deferring_rollback m).
Proof. intros Hm w r w' He (w1 & Hr & ->)%deferring_rollback_spec. by apply (Hm _ _ _ He Hr). Qed.
End undisturbed.

#[export] Hint Resolve leaves_ret leaves_throw leaves_run_error leaves_attempt leaves_begin_tx
  leaves_tx_statement leaves_rollback_tx : driver.
#[export] Hint Extern 1 (leaves_db always (_ ≫= _)) => apply leaves_bind; [|intros] : driver.

Section send_properties.
Context `{TimeText}.

Lemma leaves_reply_existing m r content : leaves_db always (reply_existing m r content).
Proof. unfold reply_existing. destruct (sameMessageRequest _ _ _); auto with driver. Qed.

Lemma leaves_scan row : leaves_db always row → leaves_db always (scanIdempotentMessage row).
Proof.
  intros Hrow. apply leaves_bind; [by apply leaves_attempt|].
  intros [[]|]; auto with driver.
Qed.

Lemma leaves_on_no_rows {A} (row : db_proc A) found none :
  leaves_db always row → (∀ a, leaves_db always (found a)) → leaves_db always none →
  leaves_db always (on_no_rows row found none).
Proof.
  intros Hrow ? ?. apply leaves_bind; [by apply leaves_attempt|].
  intros [[]|]; auto with driver.
Qed.

Lemma leaves_resolve low high : leaves_db always (resolveDirectConversation low high).
Proof. repeat (apply leaves_on_no_rows; [auto with driver|auto with driver|]); auto with driver. Qed.

Lemma leaves_find s k : leaves_db always (findIdempotentMessage s k).
Proof. apply leaves_scan. auto with driver. Qed.

Lemma leaves_find_committed s k : leaves_db always (findCommittedIdempotentMessage s k).
Proof.
  apply leaves_bind.
  - apply leaves_scan, leaves_query. intros env d a us Hq.
    by apply idempotentMessageQuery_ok in Hq as [-> _].
  - intros [m|]; auto with driver.
Qed.

Hint Resolve leaves_reply_existing leaves_resolve leaves_find leaves_find_committed : driver.

Lemma leaves_send_body s r k content : leaves_db on_error (send_in_transaction s r k content).
Proof.
  apply leaves_bind_error; [auto with driver|]. intros [existing|]; [apply leaves_always; auto with driver|].
  destruct (if r <? s then _ else _) as [low high].
  apply leaves_bind_error; [unfold tx_resolveDirectConversation; auto with driver|]. intros [id created].
  apply leaves_bind_error; [unfold insertConversationMembers; destruct created; auto with driver|]. intros _.
  apply leaves_bind_error; [unfold insertMessageAndOutbox; auto with driver|]. intros [m|].
  - intros w o w' He Hrun. apply proc_bind_inv in Hrun as [(e & Hc & ->)|([] & w1 & Hc & Hrun)];
      apply run_error_inv in Hc as (r1 & Hc & Hr); destruct (leaves_commit_tx _ _ _ He Hc) as [He1 Hd].
    + split; [done|]. intros _. apply Hd. by destruct r1.
    + apply proc_ret_inv in Hrun as [-> ->]. split; [done|]. intros Hp. done.
  - apply leaves_always. unfold reply_winner. auto 7 with driver.
Qed.

Lemma leaves_send command : leaves_db on_error (send command).
Proof.
  unfold send. destruct (validate_command command); [apply leaves_always; auto with driver|].
  apply leaves_bind_error; [auto with driver|]. intros _.
  apply leaves_deferring_rollback, leaves_send_body.
Qed.
End send_properties.
