(* ===== verification/Sending.v ===== *)
(** The promises of message sending.  Delivery: on a schedule without faults or interference, a valid command of
    existing users is stored and answered with 201, for a first message (which
    creates the conversation) and for a later one alike. *)
From S2P Require Import Prelude GoStd Tables Driver Json Schema Changes MessageStore MessageService.
Open Scope Z_scope.

(** * When a statement succeeds *)

Ltac all_checks := repeat first [apply Forall_nil_2 | apply Forall_cons_2]; simpl.

Section statements.
Context `{TimeText}.
Implicit Types (d : database) (c : conversation_row) (m : message).

Lemma find_conversation_hit d c :
  schema_ok d → c ∈ conversations d → find_conversation (conversation_id c) d = Some c.
Proof.
  intros Hok Hc. apply (sql_first_key conversation_id); [apply Hok|done|lia|]. intros y Hy. lia.
Qed.

Lemma first_violation_intro checks :
  Forall (λ p : bool * string, p.1 = true) checks → first_violation checks = Ok tt.
Proof. apply first_violation_ok. Qed.

Lemma insert_direct_succeeds low high env d :
  low ≤ high → user_exists low d = true → user_exists high d = true →
  (∀ c, c ∈ conversations d → conversation_kind_of c ≠ Direct low high) →
  (∀ c, c ∈ conversations d → conversation_id c ≠ generated_id env) →
  ∃ us, insert_direct_conversation low high env d = Ok (generated_id env, us).
Proof.
  intros Hle Hl Hh Hk Hid. unfold insert_direct_conversation.
  rewrite (first_violation_intro (check_conversation _)) by (all_checks; lia).
  replace (sql_exists _ _) with false.
  2:{ symmetry. apply sql_exists_false. intros c Hc. apply bool_decide_eq_false. by apply Hk. }
  simpl. rewrite first_violation_intro; [by eexists|].
  rewrite bool_decide_eq_true_2; [by all_checks|].
  apply sql_first_None. intros c Hc. specialize (Hid c Hc). lia.
Qed.

Lemma check_member_ok c x d :
  schema_ok d → c ∈ conversations d → member_conversation x = conversation_id c →
  user_exists (member_user x) d = true → (∀ y, y ∈ members d → member_key y ≠ member_key x) →
  first_violation (check_member x d) = Ok tt.
Proof.
  intros Hok Hc Hid Hu Hfresh. apply first_violation_intro. all_checks; try done.
  - apply negb_true_iff. unfold member_exists. apply sql_exists_false. intros y Hy.
    apply not_true_iff_false. intros Hb. apply andb_true_iff in Hb as [? ?].
    apply (Hfresh y Hy). unfold member_key. f_equal; lia.
  - rewrite Hid, find_conversation_hit by done. done.
Qed.

Lemma insert_member_rows_succeeds c rows d :
  schema_ok d → c ∈ conversations d → NoDup (member_user <$> rows) →
  Forall (λ x, member_conversation x = conversation_id c ∧ user_exists (member_user x) d = true ∧
               ∀ y, y ∈ members d → member_key y ≠ member_key x) rows →
  ∃ us, insert_member_rows rows d = Ok us.
Proof.
  revert d. induction rows as [|x rows IH]; intros d Hok Hc Hnd Hall; [by eexists|].
  apply Forall_cons in Hall as [(Hid & Hu & Hfresh) Hall]. apply NoDup_cons in Hnd as [Hx Hnd].
  simpl. rewrite (check_member_ok c) by done.
  destruct (IH (apply_change (InsertMember x) d)) as (us & Hus); [|done|done| |].
  - apply insert_member_ok; [done..|]. eauto.
  - rewrite Forall_forall in Hall |- *. intros y Hy. destruct (Hall y Hy) as (? & ? & ?).
    split_and!; [done|done|]. intros z [?| ->%list_elem_of_singleton]%elem_of_app; [auto|].
    intros [= _ Heq]. apply Hx. rewrite Heq. by apply list_elem_of_fmap_2.
  - unfold mbind, result_bind. rewrite Hus. by eexists.
Qed.

Lemma insert_members_succeeds c s r env d :
  schema_ok d → c ∈ conversations d → user_exists s d = true → user_exists r d = true →
  (∀ y, y ∈ members d → member_conversation y ≠ conversation_id c) →
  ∃ us, insert_members_statement (conversation_id c) s r env d = Ok (tt, us).
Proof.
  intros Hok Hc Hs Hr Hfresh. unfold insert_members_statement.
  destruct (insert_member_rows_succeeds c
    ((λ u, MemberRow (conversation_id c) u (current_timestamp env)) <$> distinct_users [s; r]) d)
    as (us & Hus); [done|done|..].
  - rewrite <-list_fmap_compose. rewrite (list_fmap_ext _ id (distinct_users [s; r])); [|done].
    rewrite list_fmap_id. apply NoDup_remove_dups.
  - apply Forall_fmap, Forall_forall. intros u Hu. unfold distinct_users in Hu.
    rewrite elem_of_remove_dups in Hu. simpl.
    split_and!; [done| |].
    + apply elem_of_cons in Hu as [->|Hu]; [done|]. by apply list_elem_of_singleton in Hu as ->.
    + intros y Hy [= Hid _]. by eapply Hfresh.
  - unfold mbind, result_bind. rewrite Hus. by eexists.
Qed.

(** What the insert needs besides the invariant. *)
Record insertable (c : conversation_row) (s r : Z) (k content : string) (env : stmt_env) d : Prop := Insertable {
  ia_row : c ∈ conversations d;
  ia_room : conversation_last_seq c < int64_max;
  ia_text : valid_text k = true ∧ valid_text content = true;
  ia_lengths : 16 ≤ char_length k ≤ 128 ∧ 1 ≤ char_length content ≤ 4000;
  ia_users : user_exists s d = true ∧ user_exists r d = true;
  ia_key : ∀ m, m ∈ messages d → idempotency_key m ≠ (s, k);
  ia_id : ∀ m, m ∈ messages d → ID m ≠ generated_id env;
  ia_uuid : ∀ e, e ∈ outbox d → event_id e ≠ generated_uuid env 0;
  ia_clock : current_timestamp env ≤ clock_timestamp env
}.

Lemma insert_message_succeeds c s r k content env d :
  schema_ok d → insertable c s r k content env d →
  ∃ m us, insert_message_statement (conversation_id c) s r k content env d = Ok (Some m, us).
Proof.
  intros Hok [Hc Hroom [Ht1 Ht2] [Hl1 Hl2] [Hus Hur] Hk Hid Huuid Hclk].
  unfold insert_message_statement, with_text.
  replace (forallb _ _) with true by (simpl; by rewrite Ht1, Ht2). rewrite find_conversation_hit by done. pose proof (so_conversation_rows _ Hok c Hc) as Hpos.
  set (at_ := _ `max` _). set (m := Message _ _ _ _ _ _ _ _).
  rewrite (first_violation_intro (_ :: check_message m)).
  2:{ all_checks; rewrite ?in_range_spec; lia. }
  rewrite ok_bind. replace (sql_exists _ _) with false.
  2:{ symmetry. apply sql_exists_false. intros x Hx. apply bool_decide_eq_false. by apply Hk. }
  rewrite first_violation_intro; [by do 2 eexists|]. repeat apply Forall_app_2.
  - all_checks; apply negb_true_iff, sql_exists_false; intros x Hx.
    + specialize (Hid x Hx). lia.
    + apply not_true_iff_false. intros Hb. apply andb_true_iff in Hb as [Hb1 Hb2].
      destruct (so_message_rows _ Hok x Hx) as (_ & c' & Hc' & Hid' & _ & Hle).
      rewrite (unique_key_inj _ _ c' c (so_conversations _ Hok)) in Hle by (done || lia). lia.
  - all_checks; rewrite ?Z.leb_le; try done; lia.
  - all_checks; apply negb_true_iff, sql_exists_false; intros x Hx.
    + apply bool_decide_eq_false. by apply Huuid.
    + apply andb_false_iff. left. destruct (so_event_rows _ Hok x Hx) as (_ & y & Hy & Hyid & _).
      specialize (Hid y Hy). lia.
  - all_checks; [|done|done]. by rewrite find_conversation_hit.
Qed.
End statements.

(** * Running the transaction *)
Section runs.
Context `{TimeText}.
Implicit Types (d : database) (c : conversation_row) (m : message) (e : event database change).

Lemma scan_quiet_none s k d us t e es :
  quiet e → valid_text k = true →
  (∀ m, m ∈ messages (apply_changes us d) → idempotency_key m ≠ (s, k)) →
  findIdempotentMessage s k (World d us t (e :: es)) = (Ok None, World d us t es).
Proof.
  intros Hq Hk Hfresh. unfold findIdempotentMessage, scanIdempotentMessage, attempt, mbind, proc_bind.
  rewrite (tx_statement_quiet_error _ _ _ _ _ _ NoRows); [done|done|].
  unfold idempotentMessageQuery, with_text, query_row. simpl. rewrite Hk.
  replace (sql_first _ _) with (@None message); [done|]. symmetry. apply sql_first_None.
  intros m Hm. apply not_true_iff_false. intros Hb.
  apply andb_true_iff in Hb as [? ?%bool_decide_eq_true].
  apply (Hfresh m Hm). unfold idempotency_key. f_equal; [lia|done].
Qed.


Lemma select_direct_succeeds low high env d c :
  schema_ok d → c ∈ conversations d → conversation_kind_of c = Direct low high →
  select_direct_conversation low high env d = Ok (conversation_id c, []).
Proof.
  intros Hok Hc Hk. unfold select_direct_conversation, query_row.
  destruct (sql_first _ _) as [c'|] eqn:E.
  - apply sql_first_Some in E as [Hc' Hk'%bool_decide_eq_true].
    by rewrite (so_pairs _ Hok c' c) by (done || congruence).
  - rewrite sql_first_None in E. specialize (E c Hc). by apply bool_decide_eq_false in E.
Qed.

Lemma select_direct_fails low high env d :
  (∀ c, c ∈ conversations d → conversation_kind_of c ≠ Direct low high) →
  select_direct_conversation low high env d = Err NoRows.
Proof.
  intros Hnone. unfold select_direct_conversation, query_row.
  replace (sql_first _ _) with (@None conversation_row); [done|]. symmetry.
  apply sql_first_None. intros c Hc. apply bool_decide_eq_false. by apply Hnone.
Qed.

(** Insert and commit, when the insert succeeds in the transaction's view. *)
Lemma insert_and_commit_quiet c s r k content d us t e1 e2 es :
  quiet e1 → quiet e2 → schema_ok (apply_changes us d) →
  insertable c s r k content (stmt_env_of t e1) (apply_changes us d) →
  ∃ m w', insert_and_commit (conversation_id c) s r k content (World d us t (e1 :: e2 :: es)) = (Ok (SendMessageResult m true), w').
Proof.
  intros Hq1 Hq2 Hok Hins. destruct (insert_message_succeeds c s r k content _ _ Hok Hins) as (m & us' & Hst).
  exists m. eexists.
  unfold insert_and_commit, commit_created, insertMessageAndOutbox, run_error, mbind, proc_bind.
  rewrite (tx_statement_quiet _ _ _ _ _ _ _ _ Hq1 Hst). rewrite commit_tx_quiet by done. done.
Qed.

(** An event of a calm schedule over [d], for a transaction started at [t]. *)
Record calm d (t : Z) e : Prop := Calm {
  calm_quiet : quiet e;
  calm_clock : t ≤ ev_now e;
  calm_conversations : ∀ c, c ∈ conversations d → conversation_id c ≠ ev_id e;
  calm_messages : ∀ m, m ∈ messages d → ID m ≠ ev_id e;
  calm_outbox : ∀ x, x ∈ outbox d → event_id x ≠ ev_uuid e 0
}.

(** A request that the tables can take. *)
Record acceptable (s r : Z) (k content : string) d : Prop := Acceptable {
  ac_schema : schema_ok d;
  ac_room : ∀ c, c ∈ conversations d → conversation_last_seq c < int64_max;
  ac_text : valid_text k = true ∧ valid_text content = true;
  ac_lengths : 16 ≤ char_length k ≤ 128 ∧ 1 ≤ char_length content ≤ 4000;
  ac_users : user_exists s d = true ∧ user_exists r d = true;
  ac_key : ∀ m, m ∈ messages d → idempotency_key m ≠ (s, k)
}.

Lemma acceptable_insertable s r k content d d' t e c :
  acceptable s r k content d' → calm d t e → messages d' = messages d → outbox d' = outbox d →
  c ∈ conversations d' → insertable c s r k content (stmt_env_of t e) d'.
Proof. intros [] [] Hm Ho ?. constructor; simpl; rewrite ?Hm, ?Ho; auto; by rewrite <-Hm. Qed.

(** A new conversation and its members leave the request acceptable. *)
Lemma acceptable_staged s r k content d us :
  acceptable s r k content d → schema_ok (apply_changes us d) →
  users (apply_changes us d) = users d → messages (apply_changes us d) = messages d →
  (∀ c, c ∈ conversations (apply_changes us d) → c ∈ conversations d ∨ conversation_last_seq c = 0) →
  acceptable s r k content (apply_changes us d).
Proof.
  intros [] Hok Hu Hm Hc. constructor; unfold user_exists in *; rewrite ?Hu, ?Hm; try done.
  intros c [?| ->]%Hc; [auto|done].
Qed.

Lemma tx_resolve_quiet_found low high d us t e1 es c :
  quiet e1 → schema_ok (apply_changes us d) → c ∈ conversations (apply_changes us d) →
  conversation_kind_of c = Direct low high →
  tx_resolveDirectConversation low high (World d us t (e1 :: es)) =
    (Ok (conversation_id c, false), World d us t es).
Proof.
  intros Hq Hok Hc Hk.
  unfold tx_resolveDirectConversation, run_error, resolveDirectConversation, on_no_rows, attempt, mbind, proc_bind.
  rewrite (tx_statement_quiet _ _ _ _ _ _ (conversation_id c) [] Hq); [by rewrite app_nil_r|].
  by apply select_direct_succeeds.
Qed.

Lemma tx_resolve_quiet_created low high d t e1 e2 es us :
  quiet e1 → quiet e2 →
  (∀ c, c ∈ conversations d → conversation_kind_of c ≠ Direct low high) →
  insert_direct_conversation low high (stmt_env_of t e2) d = Ok (ev_id e2, us) →
  tx_resolveDirectConversation low high (World d [] t (e1 :: e2 :: es)) =
    (Ok (ev_id e2, true), World d us t es).
Proof.
  intros Hq1 Hq2 Hnone Hins.
  unfold tx_resolveDirectConversation, run_error, resolveDirectConversation, on_no_rows, attempt, mbind, proc_bind.
  rewrite (tx_statement_quiet_error _ _ _ _ _ _ NoRows Hq1) by (by apply select_direct_fails).
  by rewrite (tx_statement_quiet _ _ _ _ _ _ (ev_id e2) us Hq2).
Qed.

Lemma send_first_message s r k content d t e1 e2 e3 e4 e5 es :
  acceptable s r k content d → Forall (calm d t) [e1; e2; e3; e4; e5] →
  (∀ c, c ∈ conversations d → conversation_kind_of c ≠ pair_of s r) →
  ∃ us id, tx_resolveDirectConversation (s `min` r) (s `max` r) (World d [] t (e1 :: e2 :: e3 :: e4 :: e5 :: es)) =
      (Ok (id, true), World d us t (e3 :: e4 :: e5 :: es)) ∧
    ∃ us', insertConversationMembers id s r (World d us t (e3 :: e4 :: e5 :: es)) =
      (Ok tt, World d us' t (e4 :: e5 :: es)) ∧
    ∃ m w', insert_and_commit id s r k content (World d us' t (e4 :: e5 :: es)) =
      (Ok (SendMessageResult m true), w').
Proof.
  intros Hacc Hes Hnone. pose proof Hacc as [Hok Hroom _ _ [Hus Hur] _].
  repeat (apply Forall_cons in Hes as [?He Hes]).
  destruct (insert_direct_succeeds (s `min` r) (s `max` r) (stmt_env_of t e2) d) as (us & Hins);
    [lia| | |done|apply (calm_conversations _ _ _ He0)|].
  { by destruct (Z.min_spec s r) as [[_ ->]|[_ ->]]. }
  { by destruct (Z.max_spec s r) as [[_ ->]|[_ ->]]. }
  exists us, (ev_id e2). split; [apply tx_resolve_quiet_created; by try apply calm_quiet with d t|].
  apply insert_direct_ok in Hins as (c & -> & Hid & _ & Hk & Hs & Hok'); [|done].
  assert (c ∈ conversations (apply_changes [InsertConversation c] d)) as Hc.
  { simpl. rewrite elem_of_app, list_elem_of_singleton. by right. }
  destruct (insert_members_succeeds c s r (stmt_env_of t e3) _ Hok' Hc) as (us' & Hmem); [done|done| |].
  { intros y Hy Heq. destruct (so_member_rows _ Hok y Hy) as (c' & Hc' & Hid').
    apply (calm_conversations _ _ _ He0 c' Hc'). simpl in Hid. congruence. }
  exists ([InsertConversation c] ++ us'). simpl in Hid. rewrite <-Hid. split.
  { unfold insertConversationMembers, run_error.
    by rewrite (tx_statement_quiet _ _ _ _ _ _ tt us' (calm_quiet _ _ _ He1)). }
  apply insert_members_ok in Hmem as (rows & -> & Hok'' & _); [|done].
  destruct (apply_members_rows rows (apply_changes [InsertConversation c] d)) as (Hcs & Hms & Husr & Hob).
  rewrite <-apply_changes_app in Hok'', Hcs, Hms, Husr, Hob.
  apply insert_and_commit_quiet; [by eapply calm_quiet..|done|].
  apply (acceptable_insertable _ _ _ _ d); [|done|done|done|by rewrite Hcs].
  apply acceptable_staged; [done..|]. intros x. rewrite Hcs. simpl.
  rewrite elem_of_app, list_elem_of_singleton. intros [?| ->]; auto.
Qed.

Lemma send_transaction_delivers s r k content d t e1 e2 e3 e4 e5 e6 es :
  acceptable s r k content d → Forall (calm d t) [e1; e2; e3; e4; e5; e6] →
  ∃ m w', send_in_transaction s r k content (World d [] t (e1 :: e2 :: e3 :: e4 :: e5 :: e6 :: es)) =
    (Ok (SendMessageResult m true), w').
Proof.
  intros Hacc Hes. pose proof Hes as Hes'. pose proof Hacc as [Hok _ [Hk _] _ _ Hkey].
  repeat (apply Forall_cons in Hes as [?He Hes]).
  assert ((if r <? s then (r, s) else (s, r)) = (s `min` r, s `max` r)) as Hpair
    by (destruct (r <? s) eqn:E; f_equal; lia).
  unfold send_in_transaction. rewrite Hpair.
  erewrite proc_bind_run; [|apply run_error_run, scan_quiet_none; first [done|by eapply calm_quiet]].
  destruct (sql_first (λ c, bool_decide (conversation_kind_of c = pair_of s r)) (conversations d)) as [c|] eqn:E.
  - apply sql_first_Some in E as [Hc Hkc%bool_decide_eq_true].
    erewrite proc_bind_run; [|apply run_error_run, (tx_resolve_quiet_found _ _ _ _ _ _ _ c);
      first [done|by eapply calm_quiet]].
    lazy beta iota. erewrite proc_bind_run; [|done]. apply insert_and_commit_quiet; [by eapply calm_quiet..|done|].
    by apply (acceptable_insertable _ _ _ _ d).
  - rewrite sql_first_None in E.
    apply Forall_cons in Hes' as [_ Hes'].
    destruct (send_first_message s r k content d t e2 e3 e4 e5 e6 es Hacc Hes')
      as (us & id & Hres & us' & Hmem & m & w' & Hins).
    { intros c Hc. specialize (E c Hc). by apply bool_decide_eq_false in E. }
    exists m, w'. erewrite proc_bind_run; [|by apply run_error_run].
    lazy beta iota.
    erewrite proc_bind_run; [done|by apply run_error_run].
Qed.
End runs.

(** * The promises of [send] *)
Section promises.
Context `{TimeText}.

(** What PostgreSQL takes of a request's text. *)
Definition storable_text (k content : string) : bool :=
  valid_text k && valid_text content && in_range 16 128 (char_length k) && in_range 1 4000 (char_length content).

Lemma storable_text_ok m : storable m → storable_text (ClientMessageID m) (Content m) = true.
Proof.
  intros (Hc & Hk & Ht). apply first_violation_cons in Hc as [H1 Hc].
  apply first_violation_cons in Hc as [H2 _]. unfold storable_text. by rewrite Hk, Ht, H1, H2.
Qed.

Lemma send_content command w res w' :
  send command w = (Ok res, w') → ∃ content, cmd_Content command = Some content.
Proof.
  unfold send, validate_command. destruct (cmd_Content command) as [content|]; [by eexists|done].
Qed.

(** The success case of [send_spec], for the theorems below. *)
Lemma send_answered command w res w' :
  db_world_ok w → send command w = (Ok res, w') →
  ∃ content, cmd_Content command = Some content ∧ db_world_ok w' ∧ evolves [] (w_db w) (w_db w') ∧
    answered (cmd_SenderID command) (cmd_ReceiverID command) (cmd_ClientMessageID command)
      content (w_db w) (w_db w') res.
Proof.
  intros Hw Hs. destruct (send_content _ _ _ _ Hs) as [content Hc].
  destruct (send_spec _ _ _ _ Hw Hs) as (Hw' & Hev & Ho). exists content.
  specialize (Ho content Hc). done.
Qed.

(** The message is in the conversation of its two users, under a number the
    conversation has given out, and both users are members of it. *)
Definition in_pair_conversation (m : message) (d : database) : Prop :=
  ∃ c, c ∈ conversations d ∧ conversation_id c = ConversationID m ∧
    conversation_kind_of c = pair_of (SenderID m) (ReceiverID m) ∧
    1 ≤ ConversationSeq m ≤ conversation_last_seq c ∧
    ∀ u, u = SenderID m ∨ u = ReceiverID m →
      ∃ x, x ∈ members d ∧ member_key x = (conversation_id c, u).

Lemma stored_in_conversation m d : committed_ok d → m ∈ messages d → in_pair_conversation m d.
Proof.
  intros [Hok Hcs] Hm. destruct (so_message_rows _ Hok m Hm) as (_ & c & Hc & Hid & Hk & Hseq).
  exists c. split_and!; [done..|lia|lia|]. intros u Hu. eapply (co_members _ _ (Hcs c Hc)); [exact Hk|].
  destruct Hu as [-> | ->]; lia.
Qed.

(** C1: A send, on any schedule of faults and interleaved commits, keeps the
    invariant of the committed tables and loses or lowers nothing in them. *)
Theorem send_keeps_database command w o w' :
  db_world_ok w → send command w = (o, w') → db_world_ok w' ∧ evolves [] (w_db w) (w_db w').
Proof. intros Hw Hs. by destruct (send_spec _ _ _ _ Hw Hs) as (? & ? & _). Qed.

(** C2: A send that reports success has its message in the committed tables, with
    the sender, receiver, key and content of the command, in the conversation of
    that sender and receiver, of which both are members; when it reports that the
    message was created, the key was unused before and a pending version 4 event
    carries the message. *)
Theorem send_success_is_stored command w res w' :
  db_world_ok w → send command w = (Ok res, w') →
  ∃ content, cmd_Content command = Some content ∧
    answered (cmd_SenderID command) (cmd_ReceiverID command) (cmd_ClientMessageID command)
      content (w_db w) (w_db w') res ∧
    in_pair_conversation (res_Message res) (w_db w').
Proof.
  intros Hw Hs. destruct (send_answered _ _ _ _ Hw Hs) as (content & ? & Hw' & _ & Ha). exists content.
  split_and!; [done|exact Ha|]. apply stored_in_conversation, Ha. apply Hw'.
Qed.

(** C3: A retry with the same sender and client message id, whenever it runs after
    a success, either fails or returns that message, never a second one, and only
    for the same receiver and content. *)
Theorem send_is_idempotent command1 command2 w1 res1 w1' w2 res2 w2' :
  db_world_ok w1 → send command1 w1 = (Ok res1, w1') →
  db_world_ok w2 → evolves [] (w_db w1') (w_db w2) → send command2 w2 = (Ok res2, w2') →
  cmd_SenderID command2 = cmd_SenderID command1 →
  cmd_ClientMessageID command2 = cmd_ClientMessageID command1 →
  res_Message res2 = res_Message res1 ∧ res_Created res2 = false ∧
  cmd_ReceiverID command2 = cmd_ReceiverID command1 ∧ cmd_Content command2 = cmd_Content command1.
Proof.
  intros Hw1 Hs1 Hw2 Hev Hs2 Hsid Hcid.
  destruct (send_answered _ _ _ _ Hw1 Hs1) as (c1 & Hc1 & _ & _ & [Hm1 Hk1 Hr1 Ht1 _ _]).
  destruct (send_answered _ _ _ _ Hw2 Hs2) as (c2 & Hc2 & Hw2' & Hev2 & [Hm2 Hk2 Hr2 Ht2 Hf2 _]).
  apply (ev_messages _ _ _ Hev) in Hm1. rewrite Hsid, Hcid in *.
  assert (res_Message res2 = res_Message res1) as Heq.
  { eapply (unique_key_inj idempotency_key); [apply (ok_db _ _ _ _ Hw2')|done| |congruence].
    by apply (ev_messages _ _ _ Hev2). }
  split_and!; [done| |congruence|congruence].
  destruct (res_Created res2) eqn:E; [|done]. by destruct (Hf2 eq_refl _ Hm1).
Qed.

(** When nobody else writes and no acknowledgement is lost, a send that fails
    leaves the committed tables exactly as they were. *)
Theorem send_error_changes_nothing command w e w' :
  Forall undisturbed (w_events w) → send command w = (Err e, w') → w_db w' = w_db w.
Proof. intros He Hs. by apply (leaves_send _ _ _ _ He Hs). Qed.

Lemma validated_content command content : validate_command command = Ok content → cmd_Content command = Some content.
Proof.
  unfold validate_command. destruct (cmd_Content command) as [c|]; [|done].
  repeat case_match; simpl; congruence.
Qed.

(** The calm run reports a created message. *)
Lemma send_reports_created command content d e0 e1 e2 e3 e4 e5 e6 es :
  validate_command command = Ok content →
  acceptable (cmd_SenderID command) (cmd_ReceiverID command) (cmd_ClientMessageID command) content d →
  Forall (calm d (ev_now e0)) [e0; e1; e2; e3; e4; e5; e6] →
  ∃ m w', send command (World d [] 0 (e0 :: e1 :: e2 :: e3 :: e4 :: e5 :: e6 :: es)) =
    (Ok (SendMessageResult m true), w').
Proof.
  intros Hv Hacc Hes. apply Forall_cons in Hes as [He0 Hes].
  destruct (send_transaction_delivers _ _ _ _ _ _ _ _ _ _ _ _ es Hacc Hes) as (m & w' & Hrun).
  exists m. eexists. unfold send. rewrite Hv.
  erewrite proc_bind_run; [|apply run_error_run, begin_tx_quiet; by eapply calm_quiet].
  unfold deferring_rollback. by rewrite Hrun.
Qed.

(** C4: On a schedule without faults or interference, a valid command between
    existing users with a fresh key is stored: the send reports a created message,
    which the committed tables then hold with the command's sender, receiver, key and
    content, in the conversation of the two, with a pending event that carries it;
    for a first message (which creates the conversation) and a later one alike. *)
Theorem send_delivers command content d e0 e1 e2 e3 e4 e5 e6 es :
  validate_command command = Ok content → committed_ok d → Forall db_respects es →
  acceptable (cmd_SenderID command) (cmd_ReceiverID command) (cmd_ClientMessageID command) content d →
  Forall (calm d (ev_now e0)) [e0; e1; e2; e3; e4; e5; e6] →
  ∃ m w', send command (World d [] 0 (e0 :: e1 :: e2 :: e3 :: e4 :: e5 :: e6 :: es)) =
    (Ok (SendMessageResult m true), w') ∧
    answered (cmd_SenderID command) (cmd_ReceiverID command) (cmd_ClientMessageID command)
      content d (w_db w') (SendMessageResult m true) ∧
    in_pair_conversation m (w_db w').
Proof.
  intros Hv Hd Hrest Hacc Hes.
  destruct (send_reports_created _ _ _ _ _ _ _ _ _ _ es Hv Hacc Hes) as (m & w' & Hrun).
  exists m, w'. split; [exact Hrun|].
  assert (db_world_ok (World d [] 0 (e0 :: e1 :: e2 :: e3 :: e4 :: e5 :: e6 :: es))) as Hw.
  { constructor; [exact Hd|by apply committed_schema|]. simpl.
    repeat (apply Forall_cons in Hes as [?He Hes]; apply Forall_cons_2;
      [apply quiet_respects; [apply _|by eapply calm_quiet]|]). exact Hrest. }
  destruct (send_answered _ _ _ _ Hw Hrun) as (c & Hc & Hw' & _ & Ha).
  rewrite (validated_content _ _ Hv) in Hc. injection Hc as ->.
  split; [exact Ha|]. apply stored_in_conversation, Ha. apply Hw'.
Qed.

(** A command whose text the tables' CHECK constraints or text encoding refuse
    never succeeds, although the validation lets some of them through: it counts
    the bytes of the client message id where the table counts characters, and
    admits NUL. *)
Theorem unstorable_text_is_never_accepted command content w o w' :
  db_world_ok w → cmd_Content command = Some content →
  storable_text (cmd_ClientMessageID command) content = false →
  send command w = (o, w') → is_ok o = false.
Proof.
  intros Hw Hc Hbad Hs. destruct o as [e|res]; [done|].
  destruct (send_answered _ _ _ _ Hw Hs) as (c & Hc' & Hw' & _ & [Hm Hk _ Ht _ _]).
  destruct (so_message_rows _ (committed_schema _ (ok_db _ _ _ _ Hw')) _ Hm) as [Hst _].
  apply storable_text_ok in Hst. injection Hk as _ Hk. congruence.
Qed.

(** The HTTP handler: a body that is not one JSON value of the request's shape
    is answered 400 without touching the tables; 201 and 200 mean the message is
    stored (created now, or before); 409 means another message holds the key;
    nothing else is answered. *)
Theorem createMessage_replies userID body w reply w' :
  db_world_ok w → createMessage None userID body w = (reply, w') →
  match decodeSingleJSON createMessageRequest_fields (CreateMessageRequest "" 0 None) body with
  | None => reply = Problem 400 "INVALID_JSON" "invalid JSON body" ∧ w' = w
  | Some input =>
      match reply with
      | Reply status m => ∃ content created, req_Content input = Some content ∧
          status = (if created : bool then 201 else 200) ∧
          answered userID (req_ReceiverID input) (req_ClientMessageID input) content
            (w_db w) (w_db w') (SendMessageResult m created)
      | Problem status code _ =>
          In status [400; 409; 500; 503] ∧ code ≠ "INVALID_JSON"%string ∧
          (status = 409 → ∃ content, req_Content input = Some content ∧
             conflicts userID (req_ReceiverID input) (req_ClientMessageID input) content (w_db w'))
      end
  end.
Proof.
  intros Hw. unfold createMessage.
  destruct (decodeSingleJSON _ _ _) as [input|]; [|by intros [= <- <-]].
  set (command := SendMessageCommand _ _ _ _).
  destruct (send command w) as [[e|res] w1] eqn:Hs; intros [= <- <-].
  - destruct (req_Content input) as [content|] eqn:Hc.
    + destruct (send_spec _ _ _ _ Hw Hs) as (_ & _ & Ho). destruct (Ho content eq_refl) as [Hj Hconf].
      unfold writeMessageAPIError, messageAPIErrorContract.
      destruct (Code e); simpl; (split; [tauto|]); (split; [done|]); intros; try done. eauto.
    + unfold send, validate_command in Hs. simpl in Hs.
      apply proc_throw_inv in Hs as [[= ->] ->]. simpl. split; [tauto|done].
  - destruct (send_answered _ _ _ _ Hw Hs) as (content & Hc & _ & _ & Ha).
    exists content, (res_Created res). by destruct res.
Qed.
End promises.

(** * The promises at concrete inputs *)
Section examples.
#[local] Existing Instance binary_time.
Open Scope string_scope.

Definition two_users : database :=
  Database [UserRow 1 "alice" "Alice" "x"; UserRow 2 "bob" "Bob" "y"] [] [] [] [] [].
Definition quiet_event (n : Z) : event database change :=
  Event (100 + n) (7 + n) (λ i, FormatInt (n + 100 * Z.of_nat i)) (λ _, false) NoFault (λ _ d, d).
Definition quiet_events : list (event database change) := quiet_event <$> [0; 1; 2; 3; 4; 5; 6]%Z.
Definition quiet_world (d : database) : db_world := World d [] 0 quiet_events.
Definition hello : sendMessageCommand := SendMessageCommand 1 2 "0123456789abcdef" (Some "hi").
Definition hello_message : message := Message 12 10 1 "0123456789abcdef" 1 2 "hi" 105.

Lemma users_only_ok us : unique_key user_id us → committed_ok (Database us [] [] [] [] []).
Proof.
  intros Hus. split; [|intros c Hc; by apply elem_of_nil in Hc].
  constructor; simpl; try done; try (by apply NoDup_nil_2);
    intros; exfalso; match goal with Hx : _ ∈ [] |- _ => by apply elem_of_nil in Hx end.
Qed.

Lemma two_users_ok : committed_ok two_users.
Proof. apply users_only_ok. apply (bool_decide_unpack _). vm_compute. done. Qed.

Lemma quiet_world_ok d : committed_ok d → db_world_ok (quiet_world d).
Proof.
  intros Hd. constructor; [done|by apply committed_schema|].
  apply Forall_fmap, Forall_true. intros n. apply quiet_respects; [apply _|done].
Qed.

Lemma hello_sent :
  send hello (quiet_world two_users) =
    (Ok (SendMessageResult hello_message true), (send hello (quiet_world two_users)).2).
Proof. vm_compute. reflexivity. Qed.

Lemma send_keeps_database_witness :
  db_world_ok (send hello (quiet_world two_users)).2 ∧
  evolves [] two_users (w_db (send hello (quiet_world two_users)).2).
Proof.
  exact (send_keeps_database hello (quiet_world two_users) _ _ (quiet_world_ok _ two_users_ok) hello_sent).
Defined.

Lemma send_success_is_stored_witness :
  ∃ content, cmd_Content hello = Some content ∧
    answered 1 2 "0123456789abcdef" content two_users (w_db (send hello (quiet_world two_users)).2)
      (SendMessageResult hello_message true) ∧
    in_pair_conversation hello_message (w_db (send hello (quiet_world two_users)).2).
Proof.
  exact (send_success_is_stored hello (quiet_world two_users) _ _ (quiet_world_ok _ two_users_ok) hello_sent).
Defined.

(** The retry, in the tables the first call left. *)
Definition after_hello : database := w_db (send hello (quiet_world two_users)).2.

Lemma after_hello_ok : committed_ok after_hello.
Proof.
  destruct (send_spec _ _ _ _ (quiet_world_ok _ two_users_ok) hello_sent) as (Hw & _ & _).
  apply (ok_db _ _ _ _ Hw).
Qed.

Lemma send_is_idempotent_witness :
  hello_message = hello_message ∧ false = false ∧ 2 = 2 ∧ Some "hi" = Some "hi".
Proof.
  refine (send_is_idempotent hello hello (quiet_world two_users) (SendMessageResult hello_message true)
    _ (quiet_world after_hello) (SendMessageResult hello_message false) _
    (quiet_world_ok _ two_users_ok) hello_sent (quiet_world_ok _ after_hello_ok) _ _ eq_refl eq_refl).
  - reflexivity.
  - apply (surjective_pairing (send hello (quiet_world after_hello))).
Defined.

(** The first COMMIT is refused: nothing is stored. *)
Definition refused_commit : event database change := Event 106 13 (λ _, "6") (λ _, false) LostBefore (λ _ d, d).
Definition refused_world : db_world :=
  World two_users [] 0 ((quiet_event <$> [0; 1; 2; 3; 4; 5]%Z) ++ [refused_commit]).

Lemma send_error_changes_nothing_witness :
  Code (internal_database_error ConnError) = messageServiceErrorInternal ∧
  w_db (send hello refused_world).2 = two_users.
Proof.
  split; [reflexivity|].
  apply (send_error_changes_nothing hello refused_world (internal_database_error ConnError)).
  - repeat constructor; discriminate.
  - vm_compute. reflexivity.
Defined.

Lemma hello_acceptable : acceptable 1 2 "0123456789abcdef" "hi" two_users.
Proof.
  constructor; [apply two_users_ok| | | | |]; try (intros x Hx; by apply elem_of_nil in Hx);
    split; first [vm_compute; reflexivity|split; vm_compute; discriminate].
Qed.

Lemma quiet_calm n : (0 ≤ n)%Z → calm two_users 100 (quiet_event n).
Proof.
  intros Hn. constructor; simpl; [done|lia|..]; intros x Hx; by apply elem_of_nil in Hx.
Qed.

Lemma hello_valid : validate_command hello = Ok "hi".
Proof. vm_compute. reflexivity. Qed.

Lemma quiet_events_calm : Forall (calm two_users (ev_now (quiet_event 0))) quiet_events.
Proof. apply Forall_fmap. repeat (apply Forall_cons_2; [apply quiet_calm; lia|]). by apply Forall_nil_2. Qed.

Lemma send_delivers_witness :
  ∃ m w', send hello (World two_users [] 0 quiet_events) = (Ok (SendMessageResult m true), w') ∧
    answered 1 2 "0123456789abcdef" "hi" two_users (w_db w') (SendMessageResult m true) ∧
    in_pair_conversation m (w_db w').
Proof.
  exact (send_delivers hello "hi" two_users (quiet_event 0) (quiet_event 1) (quiet_event 2)
    (quiet_event 3) (quiet_event 4) (quiet_event 5) (quiet_event 6) [] hello_valid two_users_ok (Forall_nil_2 _) hello_acceptable
    quiet_events_calm).
Defined.

(** Sixteen bytes, eight characters: the validation lets it through, the
    table's CHECK does not, and the reply is an internal error. *)
Definition short_text : string := string_of_runes (replicate 8 233).
Definition short_key : sendMessageCommand := SendMessageCommand 1 2 short_text (Some "hi").

Lemma unstorable_text_is_never_accepted_witness :
  validOpaqueID short_text = true ∧
  (send short_key (quiet_world two_users)).1 = Err (internal_database_error (PgError check_violation)) ∧
  is_ok (send short_key (quiet_world two_users)).1 = false.
Proof.
  split; [reflexivity|]. split; [vm_compute; reflexivity|].
  refine (unstorable_text_is_never_accepted short_key "hi" (quiet_world two_users)
    (send short_key (quiet_world two_users)).1 (send short_key (quiet_world two_users)).2
    (quiet_world_ok _ two_users_ok) eq_refl _ (surjective_pairing _)).
  vm_compute. reflexivity.
Defined.

Definition quoted (s : string) : list Z := (34 :: bytes_of s ++ [34])%Z%list.
Definition hello_body : list Z :=
  ([123] ++ quoted "clientMessageId" ++ [58] ++ quoted "0123456789abcdef" ++ [44] ++
   quoted "receiverId" ++ [58; 50; 44] ++ quoted "content" ++ [58] ++ quoted "hi" ++ [125; 10])%Z%list.

Lemma createMessage_replies_witness :
  ∃ content created, Some "hi" = Some content ∧ 201 = (if created : bool then 201 else 200) ∧
    answered 1 2 "0123456789abcdef" content two_users
      (w_db (createMessage None 1 hello_body (quiet_world two_users)).2) (SendMessageResult hello_message created).
Proof.
  assert (createMessage None 1 hello_body (quiet_world two_users) =
    (Reply 201 hello_message, (createMessage None 1 hello_body (quiet_world two_users)).2)) as Hrun
    by (vm_compute; reflexivity).
  pose proof (createMessage_replies 1 hello_body (quiet_world two_users) _ _
    (quiet_world_ok _ two_users_ok) Hrun) as Hr.
  replace (decodeSingleJSON _ _ hello_body) with
    (Some (CreateMessageRequest "0123456789abcdef" 2 (Some "hi"))) in Hr by (vm_compute; reflexivity).
  exact Hr.
Defined.
End examples.
