(* ===== verification/Numerals.v ===== *)
(** Decimal text: what strconv writes it reads back, and it is a JSON number
    literal. *)
From Stdlib Require Import Ascii String.
From S2P Require Import Prelude GoStd Json.
Open Scope Z_scope.

Definition digits_of (x : N) : string := pretty_N_go x "".

Lemma pretty_N_char_value x : (x < 10)%N → digit_value (pretty_N_char x) = Some (Z.of_N x).
Proof.
  intros Hx. assert (x ∈ [0;1;2;3;4;5;6;7;8;9]%N) as Hin.
  { assert (x = 0 ∨ x = 1 ∨ x = 2 ∨ x = 3 ∨ x = 4 ∨ x = 5 ∨ x = 6 ∨ x = 7 ∨ x = 8 ∨ x = 9)%N by lia.
    rewrite !elem_of_cons. tauto. }
  repeat (apply elem_of_cons in Hin as [->|Hin]; [reflexivity|]). by apply elem_of_nil in Hin.
Qed.

Lemma pretty_N_char_byte x : (x < 10)%N → byte_of_ascii (pretty_N_char x) = 48 + Z.of_N x.
Proof.
  intros Hx. pose proof (pretty_N_char_value x Hx) as Hv. unfold digit_value in Hv.
  destruct (in_range _ _ _); simplify_eq. lia.
Qed.

(** Induction on the decimal digits of a number. *)
Lemma digits_ind (P : N → Prop) :
  P 0%N → (∀ x, (0 < x)%N → P (x / 10)%N → P x) → ∀ x, P x.
Proof.
  intros H0 Hstep x. induction (N.lt_wf_0 x) as [x _ IH].
  destruct (decide (x = 0)%N) as [->|Hne]; [done|]. apply Hstep; [lia|]. apply IH.
  apply N.div_lt; lia.
Qed.

Lemma parse_digits_go x s : parse_digits 0 (pretty_N_go x s) = parse_digits (Z.of_N x) s.
Proof.
  revert s. induction x as [|x Hx IH] using digits_ind; intros s; [by rewrite pretty_N_go_0|].
  rewrite pretty_N_go_step by done. rewrite IH. simpl.
  rewrite pretty_N_char_value by (apply N.mod_lt; lia). simpl. f_equal.
  rewrite N2Z.inj_div, N2Z.inj_mod. pose proof (Z.div_mod (Z.of_N x) 10). lia.
Qed.

(** The text of a positive number: digits, the first one not zero. *)
Lemma pretty_N_go_bytes x s :
  ∃ ds, bytes_of (pretty_N_go x s) = ds ++ bytes_of s ∧ Forall (λ b, is_digit b = true) ds ∧
    ((0 < x)%N → ∃ b ds', ds = b :: ds' ∧ b ≠ 48).
Proof.
  revert s. induction x as [|x Hx IH] using digits_ind; intros s.
  { exists []. rewrite pretty_N_go_0. split_and!; [done|by constructor|lia]. }
  rewrite pretty_N_go_step by done. destruct (IH (String (pretty_N_char (x mod 10)) s)) as (ds & Hds & Hall & Hhd).
  pose proof (N.mod_lt x 10 ltac:(lia)) as Hm. pose proof (pretty_N_char_byte _ Hm) as Hb.
  exists (ds ++ [byte_of_ascii (pretty_N_char (x mod 10))]). split_and!.
  - rewrite Hds. rewrite <-app_assoc. done.
  - apply Forall_app. split; [done|]. constructor; [|done]. rewrite Hb.
    clear -Hm. generalize dependent (x mod 10)%N. intros y Hy. apply in_range_spec. lia.
  - intros _. destruct (decide (x / 10 = 0)%N) as [Hz|Hnz].
    + destruct ds as [|b ds']; [|].
      * simpl. do 2 eexists. split; [done|]. rewrite Hb.
        pose proof (N.div_mod' x 10) as Hdm. rewrite Hz in Hdm. lia.
      * exfalso. rewrite Hz, pretty_N_go_0 in Hds.
        apply (f_equal (@List.length Z)) in Hds. rewrite length_app in Hds. simpl in Hds. lia.
    + destruct Hhd as (b & ds' & -> & Hne); [by apply N.neq_0_lt_0|]. simpl. eauto.
Qed.

Lemma FormatInt_pos p : FormatInt (Zpos p) = digits_of (Npos p).
Proof. done. Qed.
Lemma FormatInt_neg p : FormatInt (Zneg p) = String "-" (digits_of (Npos p)).
Proof. done. Qed.

Lemma digits_of_cons p : ∃ b ds, bytes_of (digits_of (Npos p)) = b :: ds ∧
  Forall (λ b, is_digit b = true) (b :: ds) ∧ b ≠ 48.
Proof.
  destruct (pretty_N_go_bytes (Npos p) "") as (ds & Hb & Hall & Hhd).
  destruct Hhd as (b & ds' & -> & Hne); [lia|]. exists b, ds'. rewrite app_nil_r in Hb. done.
Qed.

Lemma ParseInt_digits (sign : Z) s a t :
  s = String a t → a ≠ "+"%char → a ≠ "-"%char →
  ParseInt s = (v ← parse_digits 0 s; int64_check v).
Proof.
  intros -> Hp Hm. unfold ParseInt.
  assert (match String a t with
    | String "+" s' => (1, s') | String "-" s' => (-1, s') | _ => (1, String a t) end%char
    = (1, String a t)) as ->.
  { destruct a as [[] [] [] [] [] [] [] []]; done. }
  destruct (parse_digits _ _) as [v|]; [|done]. simpl. by destruct v.
Qed.

Lemma digits_of_head p : ∃ a t, digits_of (Npos p) = String a t ∧ a ≠ "+"%char ∧ a ≠ "-"%char.
Proof.
  destruct (digits_of_cons p) as (b & ds & Hb & Hall & _).
  destruct (digits_of (Npos p)) as [|a t]; [done|]. exists a, t. split; [done|].
  unfold bytes_of in Hb. simpl in Hb. injection Hb as Hb _.
  apply Forall_cons in Hall as [Hd _]. rewrite <-Hb in Hd.
  split; intros ->; discriminate Hd.
Qed.

(** Whatever is written reads back, if it fits. *)
Lemma ParseInt_FormatInt_check z : ParseInt (FormatInt z) = int64_check z.
Proof.
  destruct z as [|p|p]; [done|..].
  - rewrite FormatInt_pos. destruct (digits_of_head p) as (a & t & Heq & Hp & Hm).
    rewrite (ParseInt_digits 1 _ a t) by done. unfold digits_of. by rewrite parse_digits_go.
  - rewrite FormatInt_neg. destruct (digits_of_head p) as (a & t & Heq & _).
    assert (ParseInt (String "-" (digits_of (Npos p))) =
      (v ← parse_digits 0 (digits_of (Npos p)); int64_check (-1 * v))) as -> by (by rewrite Heq).
    unfold digits_of. by rewrite parse_digits_go.
Qed.

Lemma ParseInt_FormatInt_inv z v : ParseInt (FormatInt z) = Some v → v = z.
Proof. rewrite ParseInt_FormatInt_check. unfold int64_check. destruct (in_range _ _ _); [by intros [= ->]|done]. Qed.

Lemma ParseInt_FormatInt z : is_int64 z → ParseInt (FormatInt z) = Some z.
Proof.
  intros Hz. rewrite ParseInt_FormatInt_check. unfold int64_check, is_int64 in *.
  by replace (in_range _ _ _) with true by (symmetry; apply in_range_spec; lia).
Qed.

(** * As JSON *)

(** What may follow a number literal without becoming part of it. *)
Definition ends_number (rest : list Z) : Prop :=
  match rest with
  | b :: _ => is_digit b = false ∧ b ≠ 46 ∧ b ≠ 101 ∧ b ≠ 69
  | [] => True
  end.

Lemma span_digits_app ds rest :
  Forall (λ b, is_digit b = true) ds → ends_number rest → span_digits (ds ++ rest) = (ds, rest).
Proof.
  intros Hall Hend. induction Hall as [|b ds Hb _ IH]; simpl.
  - destruct rest as [|b rest]; [done|]. destruct Hend as [Hb _]. simpl. by rewrite Hb.
  - by rewrite Hb, IH.
Qed.

Lemma parse_no_fraction rest : ends_number rest → parse_fraction rest = Some ([], rest).
Proof.
  destruct rest as [|b rest]; [done|]. intros (_ & Hb & _). simpl.
  destruct b as [|p|p]; try done. do 6 (destruct p as [p|p|]; try done).
Qed.

Lemma parse_no_exponent rest : ends_number rest → parse_exponent rest = Some ([], rest).
Proof.
  destruct rest as [|b rest]; [done|]. intros (_ & _ & H1 & H2). simpl.
  by replace ((b =? 101) || (b =? 69)) with false by lia.
Qed.

Lemma parse_number_FormatInt n rest :
  0 ≤ n → ends_number rest →
  parse_number (bytes_of (FormatInt n) ++ rest) = Some (FormatInt n, rest).
Proof.
  intros Hn Hend. destruct n as [|p|p]; [|rewrite FormatInt_pos|lia].
  - unfold parse_number. simpl. rewrite parse_no_fraction by done. simpl. by rewrite parse_no_exponent by done.
  - destruct (digits_of_cons p) as (b & ds & Hb & Hall & Hne). unfold parse_number. rewrite Hb.
    pose proof (span_digits_app _ _ Hall Hend) as Hspan. apply Forall_cons in Hall as [Hd _].
    unfold is_digit, in_range in Hd.
    assert (match (b :: ds) ++ rest with 45 :: rest => ([45], rest) | _ => ([], (b :: ds) ++ rest) end
      = ([], (b :: ds) ++ rest)) as ->.
    { simpl. destruct b as [|q|q]; try done. do 6 (destruct q as [q|q|]; try done). }
    assert (match (b :: ds) ++ rest with
      | 48 :: rest' => Some ([48], rest')
      | _ => match span_digits ((b :: ds) ++ rest) with ([], _) => None | p => Some p end end
      = Some (b :: ds, rest)) as ->.
    { rewrite Hspan. simpl. destruct b as [|q|q]; try done. do 6 (destruct q as [q|q|]; try done). }
    simpl. rewrite parse_no_fraction by done. simpl. rewrite parse_no_exponent by done. simpl.
    rewrite app_nil_r, <-Hb, string_of_bytes_of. done.
Qed.

(** * Width *)

Lemma pretty_N_go_length k x s :
  (x < 10 ^ N.of_nat k)%N → (String.length (pretty_N_go x s) ≤ k + String.length s)%nat.
Proof.
  revert x s. induction k as [|k IH]; intros x s Hx.
  - assert (x = 0)%N as -> by (simpl in Hx; lia). by rewrite pretty_N_go_0.
  - destruct (decide (x = 0)%N) as [->|Hne]; [rewrite pretty_N_go_0; lia|].
    rewrite pretty_N_go_step by lia.
    assert (x / 10 < 10 ^ N.of_nat k)%N as Hd.
    { apply N.Div0.div_lt_upper_bound. rewrite Nat2N.inj_succ, N.pow_succ_r' in Hx. lia. }
    specialize (IH _ (String (pretty_N_char (x mod 10)) s) Hd). simpl in IH. lia.
Qed.

Lemma FormatInt_length z : 0 ≤ z → is_int64 z → len (FormatInt z) ≤ 19.
Proof.
  intros H0 [_ Hz]. unfold int64_max in Hz. destruct z as [|p|p]; [unfold len; simpl; lia| |lia].
  rewrite FormatInt_pos. unfold digits_of, len.
  pose proof (pretty_N_go_length 19 (Npos p) "") as Hl. simpl String.length in Hl.
  rewrite Nat.add_0_r in Hl.
  assert (N.pos p < 10 ^ N.of_nat 19)%N as Hp.
  { change (10 ^ N.of_nat 19)%N with 10000000000000000000%N. lia. }
  specialize (Hl Hp). lia.
Qed.
