(* ===== verification/ConversationSync.v ===== *)
(** [conversation_sync.go] and [sync_ack.go]: the conversation list, the paged
    message stream of a conversation, and device acknowledgements. *)
From S2P Require Import Prelude GoStd Tables Driver Json Schema Changes MessageStore MessageService Sending.
Open Scope Z_scope.

(** * Replies of a handler that may stop early *)

Definition problem : Type := Z * string * string.
Abbreviation handler := (proc db_world problem).

Definition run_handler {W A} (status : Z) (h : proc W problem A) (w : W) : api_reply A * W :=
  match h w with
  | (Ok a, w') => (Reply status a, w')
  | (Err (st, code, text), w') => (Problem st code text, w')
  end.

Definition internal_problem (text : string) (e : db_error) : problem := (500, "INTERNAL_ERROR"%string, text).

(** * Query strings *)

(** [r.URL.Query()]: the keys in the order the map is iterated. *)
Abbreviation query_values := (list (string * list string)).

Definition query_lookup (key : string) (query : query_values) : option (list string) :=
  snd <$> List.find (λ kv, bool_decide (kv.1 = key)) query.

Definition invalid_pagination (text : string) : problem := (400, "INVALID_PAGINATION"%string, text).

Definition defaultConversationPageLimit : Z := 100.
Definition maxConversationPageLimit : Z := 200.

(** The loop over the map: the first bad entry decides the message. *)
Fixpoint check_query_keys (allowed : list string) (bad_key : string) (mk : string → problem) (query : query_values) :
    result problem unit :=
  match query with
  | [] => Ok tt
  | (key, values) :: rest =>
      if negb (existsb (λ k, bool_decide (k = key)) allowed) then Err (mk bad_key)
      else match values with
           | [_] => check_query_keys allowed bad_key mk rest
           | _ => Err (mk (key ++ " must be provided exactly once")%string)
           end
  end.

(** A present value that must satisfy [good]. *)
Definition parse_query_int (key : string) (query : query_values) (good : Z → bool) (default : Z)
    (text : string) : result problem Z :=
  match query_lookup key query with
  | None => Ok default
  | Some values =>
      match ParseInt (hd "" values) with
      | Some v => if good v then Ok v else Err (invalid_pagination text)
      | None => Err (invalid_pagination text)
      end
  end.

Definition parseSnapshotPagination (query : query_values) : result problem (Z * Z * option Z) :=
  _ ← check_query_keys ["after"; "limit"; "snapshotCursor"] "only after, limit and snapshotCursor are allowed"
        invalid_pagination query;
  after ← parse_query_int "after" query (λ v, 0 <=? v) 0 "after must be a non-negative integer";
  limit ← parse_query_int "limit" query (in_range 1 maxConversationPageLimit) defaultConversationPageLimit
            "limit must be between 1 and 200";
  snapshot ← match query_lookup "snapshotCursor" query with
    | None => Ok None
    | Some _ =>
        v ← parse_query_int "snapshotCursor" query (λ v, 0 <=? v) 0
              "snapshotCursor must be a non-negative integer";
        Ok (Some v)
    end;
  Ok (after, limit, snapshot).

Definition validateSnapshotCursor (rawSnapshot : option Z) (after current : Z) (streamName : string) :
    result problem Z :=
  match rawSnapshot with
  | None => Ok current
  | Some snapshot =>
      if snapshot <? after
      then Err (invalid_pagination "snapshotCursor must be greater than or equal to after")
      else if current <? snapshot
      then Err (409, "CURSOR_AHEAD", "snapshotCursor is ahead of the user's current " ++ streamName)%string
      else Ok snapshot
  end.

Definition parseConversationID (path : string) : result problem Z :=
  match ParseInt path with
  | Some id => if 0 <? id then Ok id
               else Err (400, "INVALID_CONVERSATION_ID"%string, "conversationID must be a positive integer"%string)
  | None => Err (400, "INVALID_CONVERSATION_ID"%string, "conversationID must be a positive integer"%string)
  end.

(** The reading loop: at most [limit] rows, and whether there was one more. *)
Fixpoint read_page {A} (limit : nat) (rows : list A) : list A * bool :=
  match rows with
  | [] => ([], false)
  | r :: rest =>
      match limit with
      | O => ([], true)
      | S limit => let '(page, more) := read_page limit rest in (r :: page, more)
      end
  end.

(** A read-only statement. *)
Definition query_all {A} (f : database → A) : db_statement A := λ _ d, Ok (f d, []).

(** * The conversation list *)

Record conversationSummary : Type := ConversationSummary {
  sum_ID : Z; sum_PeerID : Z; sum_PeerUsername : string; sum_PeerDisplayName : string;
  sum_LastSeq : Z; sum_UpdatedAt : Z
}.

Record conversationListResponse : Type := ConversationListResponse {
  list_Conversations : list conversationSummary; list_NextCursor : Z;
  list_SnapshotCursor : Z; list_HasMore : bool
}.

(** The direct conversations of a user, joined through the membership rows. *)
Definition user_conversations (userID : Z) (d : database) : list conversation_row :=
  omap (λ m, if member_user m =? userID then
               c ← find_conversation (member_conversation m) d;
               if conversation_kind_of c is Direct _ _ then Some c else None
             else None) (members d).

Definition max_conversation_id (userID : Z) (d : database) : Z :=
  foldr Z.max 0 (conversation_id <$> user_conversations userID d).

(** The CASE expression of the query. *)
Definition peer_of (userID : Z) (k : conversation_kind) : option Z :=
  match k with
  | Direct low high => Some (if (low =? userID) && negb (high =? userID) then high else low)
  | Group => None
  end.

Definition summarize (userID : Z) (d : database) (c : conversation_row) : option conversationSummary :=
  peer ← peer_of userID (conversation_kind_of c);
  u ← sql_first (λ u, user_id u =? peer) (users d);
  Some (ConversationSummary (conversation_id c) (user_id u) (user_username u) (user_display_name u)
          (conversation_last_seq c) (conversation_updated_at c)).

Definition list_conversations_rows (userID after snapshot limit : Z) (d : database) : list conversationSummary :=
  sql_limit limit (sql_order_by sum_ID
    (omap (summarize userID d)
       (sql_where (λ c, (after <? conversation_id c) && (conversation_id c <=? snapshot))
          (user_conversations userID d)))).

Definition listConversations (userID : Z) (query : query_values) : handler conversationListResponse :=
  let internal := internal_problem "could not list conversations" in
  '(after, limit, rawSnapshot) ← refuse (parseSnapshotPagination query);
  currentCursor ← run_error internal (auto_statement (query_all (max_conversation_id userID)));
  if currentCursor <? after
  then mthrow (409, "CURSOR_AHEAD"%string, "after is ahead of the user's current conversation list"%string)
  else
    snapshotCursor ← refuse (validateSnapshotCursor rawSnapshot after currentCursor "conversation list");
    rows ← run_error internal
      (auto_statement (query_all (list_conversations_rows userID after snapshotCursor (limit + 1))));
    let '(conversations, hasMore) := read_page (Z.to_nat limit) rows in
    let nextCursor := match last conversations with Some c => sum_ID c | None => after end in
    mret (ConversationListResponse conversations nextCursor snapshotCursor hasMore).

(** * The message stream of a conversation *)

Record conversationMessagePage : Type := ConversationMessagePage {
  page_ConversationID : Z; page_Messages : list message; page_NextCursor : Z;
  page_SnapshotCursor : Z; page_HasMore : bool
}.

Definition conversation_problem (text : string) (e : db_error) : problem :=
  match e with
  | NoRows => (404, "CONVERSATION_NOT_FOUND"%string, "conversation not found"%string)
  | _ => internal_problem text e
  end.

Definition select_last_seq (userID conversationID : Z) : db_statement Z :=
  query_row (λ d,
    _ ← sql_first (λ m, (member_user m =? userID) && (member_conversation m =? conversationID)) (members d);
    c ← find_conversation conversationID d;
    Some (conversation_last_seq c)).

Definition conversation_window (conversationID after snapshot limit : Z) (d : database) : list message :=
  sql_limit limit (sql_order_by ConversationSeq
    (sql_where (λ m, (ConversationID m =? conversationID) && (after <? ConversationSeq m) &&
                     (ConversationSeq m <=? snapshot)) (messages d))).

Definition syncConversationMessages (userID : Z) (path : string) (query : query_values) :
    handler conversationMessagePage :=
  let text := "could not sync conversation"%string in
  conversationID ← refuse (parseConversationID path);
  '(after, limit, rawSnapshot) ← refuse (parseSnapshotPagination query);
  currentCursor ← run_error (conversation_problem text) (auto_statement (select_last_seq userID conversationID));
  if currentCursor <? after
  then mthrow (409, "CURSOR_AHEAD"%string, "after is ahead of the conversation's current stream"%string)
  else
    snapshotCursor ← refuse (validateSnapshotCursor rawSnapshot after currentCursor "conversation stream");
    rows ← run_error (internal_problem text)
      (auto_statement (query_all (conversation_window conversationID after snapshotCursor (limit + 1))));
    let '(messages, hasMore) := read_page (Z.to_nat limit) rows in
    let nextCursor := match last messages with Some m => ConversationSeq m | None => after end in
    mret (ConversationMessagePage conversationID messages nextCursor snapshotCursor hasMore).

(** * Acknowledgements *)

Record deviceConversationSyncState : Type := DeviceConversationSyncState {
  ack_ConversationID : Z; ack_AppliedCursor : Z; ack_UpdatedAt : Z
}.

Definition acknowledgeMessagesRequest_fields : list (field_setter (option Z)) :=
  [("cursor"%string, decode_int64_pointer (λ x _, x))].

Definition check_sync_state (s : sync_state_row) : list (bool * string) :=
  [(in_range 1 128 (char_length (sync_device s)), check_violation);
   (0 <=? sync_applied_seq s, check_violation)].

(** [INSERT ... ON CONFLICT DO UPDATE SET applied_seq = GREATEST(...)]. *)
Definition upsert_sync_state (userID : Z) (deviceID : string) (conversationID cursor : Z) :
    db_statement (Z * Z) :=
  with_text [deviceID] (λ env d,
    let row := SyncStateRow userID deviceID conversationID cursor (current_timestamp env) in
    _ ← first_violation (check_sync_state row);
    match sql_first (λ s, bool_decide (sync_key s = sync_key row)) (sync_states d) with
    | Some old =>
        let new := SyncStateRow userID deviceID conversationID
                     (sync_applied_seq old `max` cursor) (sync_updated_at old `max` clock_timestamp env) in
        Ok ((sync_applied_seq new, sync_updated_at new), [PutSyncState new])
    | None =>
        _ ← first_violation [(member_exists conversationID userID d, foreign_key_violation)];
        Ok ((sync_applied_seq row, sync_updated_at row), [PutSyncState row])
    end).

(** The result label of [observeACK] and the reply. *)
Definition acknowledgeConversation (userID : Z) (deviceID path : string) (body : list Z) :
    handler deviceConversationSyncState :=
  let text := "could not acknowledge conversation"%string in
  conversationID ← refuse (parseConversationID path);
  input ← match decodeSingleJSON acknowledgeMessagesRequest_fields None body with
    | Some input => mret input
    | None => mthrow (400, "INVALID_JSON"%string, "invalid JSON body"%string)
    end;
  cursor ← match input with
    | Some c => if c <? 0 then mthrow (400, "INVALID_ACK"%string, "cursor must be a non-negative integer"%string)
                else mret c
    | None => mthrow (400, "INVALID_ACK"%string, "cursor must be a non-negative integer"%string)
    end;
  currentCursor ← run_error (conversation_problem text) (auto_statement (select_last_seq userID conversationID));
  if currentCursor <? cursor
  then mthrow (409, "CURSOR_AHEAD"%string, "cursor is ahead of the conversation's current stream"%string)
  else
    '(applied, updated) ← run_error (internal_problem text)
      (auto_statement (upsert_sync_state userID deviceID conversationID cursor));
    mret (DeviceConversationSyncState conversationID applied updated).

(** * What the queries return *)
Section queries.
Context `{TimeText}.
Implicit Types (d : database) (w : db_world).

Lemma read_page_spec {A} (limit : nat) (rows : list A) :
  read_page limit rows = (take limit rows, bool_decide (limit < List.length rows)%nat).
Proof.
  revert limit. induction rows as [|r rows IH]; intros limit; [by destruct limit|].
  destruct limit as [|limit]; [done|]. simpl. rewrite IH. f_equal.
  apply bool_decide_ext. lia.
Qed.

Lemma query_all_read {A} (f : database → A) env d a us : query_all f env d = Ok (a, us) → us = [].
Proof. intros Hq. unfold query_all in Hq. by simplify_eq. Qed.

Lemma query_row_read {A} (f : database → option A) env d a (us : list change) : query_row f env d = Ok (a, us) → us = [].
Proof. by intros [_ ->]%query_row_ok. Qed.

Lemma select_last_seq_ok userID id env d seq us :
  select_last_seq userID id env d = Ok (seq, us) →
  (∃ x, x ∈ members d ∧ member_key x = (id, userID)) ∧
  ∃ c, c ∈ conversations d ∧ conversation_id c = id ∧ conversation_last_seq c = seq.
Proof.
  unfold select_last_seq. intros [Hf _]%query_row_ok.
  apply bind_Some in Hf as (x & Hx & Hf). apply bind_Some in Hf as (c & Hc & [= <-]).
  apply sql_first_Some in Hx as [Hx Hb]. apply andb_true_iff in Hb as [? ?].
  apply find_conversation_Some in Hc as [? ?]. split; [|eauto].
  exists x. split; [done|]. unfold member_key. f_equal; lia.
Qed.

(** The window of a complete conversation: every sequence number once. *)
Lemma conversation_window_seqs c id after snapshot d :
  committed_ok d → c ∈ conversations d → conversation_id c = id →
  0 ≤ after → snapshot ≤ conversation_last_seq c →
  ConversationSeq <$> sql_order_by ConversationSeq
    (sql_where (λ m, (ConversationID m =? id) && (after <? ConversationSeq m) &&
                     (ConversationSeq m <=? snapshot)) (messages d))
    = seqZ (after + 1) (snapshot - after).
Proof.
  intros [Hok Hall] Hc <- Ha Hs. apply order_by_range.
  - apply NoDup_fmap_2_strong; [|eapply NoDup_fmap_1, (unique_key_sublist ID);
      [apply where_sublist|apply Hok]].
    intros x y [Hx Hbx]%elem_of_where [Hy Hby]%elem_of_where Heq.
    apply (unique_key_inj conversation_key (messages d)); [apply Hok|done|done|].
    unfold conversation_key. f_equal; [|done]. rewrite !andb_true_iff in Hbx, Hby. lia.
  - intros k. rewrite list_elem_of_fmap. split.
    + intros (m & -> & [Hm Hb]%elem_of_where). rewrite !andb_true_iff in Hb. lia.
    + intros Hk. destruct (co_messages _ _ (Hall c Hc) k) as (m & Hm & Hkey); [lia|].
      injection Hkey as Hcid Hseq. exists m. split; [done|]. apply elem_of_where.
      split; [done|]. rewrite !andb_true_iff. lia.
Qed.

Lemma take_seqZ n lo k : take n (seqZ lo k) = seqZ lo (Z.of_nat n `min` k).
Proof.
  destruct (decide (Z.of_nat n ≤ k)) as [Hle|Hlt].
  - rewrite Z.min_l by done.
    replace (seqZ lo k) with (seqZ lo (Z.of_nat n) ++ seqZ (lo + Z.of_nat n) (k - Z.of_nat n))
      by (rewrite <-seqZ_app by lia; f_equal; lia).
    rewrite take_app_length'; [done|]. rewrite length_seqZ. lia.
  - rewrite Z.min_r by lia. apply take_ge. rewrite length_seqZ. lia.
Qed.

(** Parsing bounds what the handlers work with. *)
Lemma parse_query_int_ok key query good default text v :
  parse_query_int key query good default text = Ok v → v = default ∨ good v = true.
Proof.
  unfold parse_query_int. destruct (query_lookup key query) as [vs|]; [|intros [= <-]; by left].
  destruct (ParseInt _) as [x|]; [|done]. destruct (good x) eqn:E; [|done]. intros [= <-]. by right.
Qed.

Lemma parseSnapshotPagination_bounds query after limit snapshot :
  parseSnapshotPagination query = Ok (after, limit, snapshot) →
  0 ≤ after ∧ 1 ≤ limit ≤ 200 ∧ (∀ s, snapshot = Some s → 0 ≤ s).
Proof.
  unfold parseSnapshotPagination. intros ([] & _ & Hp)%result_bind_ok.
  apply result_bind_ok in Hp as (a & Ha & Hp). apply result_bind_ok in Hp as (l & Hl & Hp).
  apply result_bind_ok in Hp as (s & Hs & [= <- <- <-]).
  apply parse_query_int_ok in Ha. apply parse_query_int_ok in Hl.
  unfold defaultConversationPageLimit, maxConversationPageLimit in Hl. rewrite in_range_spec in Hl.
  split_and!; [lia..|].
  intros v ->. destruct (query_lookup _ _); [|done].
  apply result_bind_ok in Hs as (v' & Hv & [= ->]). apply parse_query_int_ok in Hv. destruct Hv; lia.
Qed.

Lemma validateSnapshotCursor_ok raw after current text s :
  validateSnapshotCursor raw after current text = Ok s → after ≤ current → after ≤ s ≤ current.
Proof.
  unfold validateSnapshotCursor. destruct raw as [x|]; [|intros [= <-]; lia].
  destruct (x <? after) eqn:E1; [done|]. destruct (current <? x) eqn:E2; [done|]. intros [= <-]. lia.
Qed.

(** One page of a conversation: consecutive messages after the cursor. *)
Record page_of (after limit snapshot : Z) (id : Z) d (page : conversationMessagePage) : Prop := PageOf {
  po_seqs : ConversationSeq <$> page_Messages page = seqZ (after + 1) (limit `min` (snapshot - after));
  po_stored : Forall (λ m, m ∈ messages d ∧ ConversationID m = id) (page_Messages page);
  po_id : page_ConversationID page = id;
  po_next : page_NextCursor page = after + (limit `min` (snapshot - after));
  po_snapshot : page_SnapshotCursor page = snapshot;
  po_more : page_HasMore page = (page_NextCursor page <? snapshot)
}.

Lemma last_seqZ lo k : 0 < k → last (seqZ lo k) = Some (lo + k - 1).
Proof.
  intros Hk. rewrite last_lookup, length_seqZ. rewrite lookup_seqZ_lt by lia. f_equal. lia.
Qed.

Lemma window_page c id after limit snapshot d :
  committed_ok d → c ∈ conversations d → conversation_id c = id →
  0 ≤ after ≤ snapshot → 1 ≤ limit → snapshot ≤ conversation_last_seq c →
  let '(ms, more) := read_page (Z.to_nat limit) (conversation_window id after snapshot (limit + 1) d) in
  page_of after limit snapshot id d
    (ConversationMessagePage id ms (match last ms with Some m => ConversationSeq m | None => after end)
       snapshot more).
Proof.
  intros Hd Hc Hid Ha Hl Hs. rewrite read_page_spec.
  pose proof (conversation_window_seqs c id after snapshot d Hd Hc Hid ltac:(lia) Hs) as Hseqs.
  unfold conversation_window, sql_limit. set (all := sql_order_by _ _) in *.
  rewrite take_take, length_take. replace (Z.to_nat limit `min` Z.to_nat (limit + 1))%nat with (Z.to_nat limit) by lia.
  assert (Z.of_nat (List.length all) = snapshot - after) as Hlen.
  { rewrite <-(length_fmap ConversationSeq), Hseqs, length_seqZ. lia. }
  assert (ConversationSeq <$> take (Z.to_nat limit) all = seqZ (after + 1) (limit `min` (snapshot - after))) as Htake.
  { rewrite fmap_take, Hseqs, take_seqZ. f_equal. lia. }
  assert (match last (take (Z.to_nat limit) all) with Some m => ConversationSeq m | None => after end
          = after + (limit `min` (snapshot - after))) as Hnext.
  { destruct (decide (snapshot = after)) as [->|Hne].
    - rewrite Z.sub_diag, Z.min_r by lia. destruct all as [|m all']; [|simpl in Hlen; lia].
      rewrite take_nil. simpl. lia.
    - apply (f_equal last) in Htake. rewrite fmap_last, last_seqZ in Htake by lia.
      destruct (last _) as [m|]; [|done]. injection Htake as ->. lia. }
  constructor; simpl; [done| |done|done|done|].
  - apply Forall_take, Forall_forall. intros m Hm. apply elem_of_order_by, elem_of_where in Hm as [Hm Hb].
    rewrite !andb_true_iff in Hb. split; [done|lia].
  - rewrite Hnext. destruct (after + limit `min` (snapshot - after) <? snapshot) eqn:E;
      [apply bool_decide_eq_true|apply bool_decide_eq_false]; lia.
Qed.
End queries.

(** * Acknowledgement and parsing lemmas *)
Section lemmas.
Context `{TimeText}.
Implicit Types (d : database) (w : db_world).

Lemma upsert_sync_state_ok userID deviceID id cursor env d res us :
  upsert_sync_state userID deviceID id cursor env d = Ok (res, us) → schema_ok d →
  (∃ c, c ∈ conversations d ∧ conversation_id c = id ∧ cursor ≤ conversation_last_seq c) →
  ∃ s, us = [PutSyncState s] ∧ sync_key s = (userID, deviceID, id) ∧
    res = (sync_applied_seq s, sync_updated_at s) ∧ cursor ≤ sync_applied_seq s ∧
    sync_state_ok d s ∧ change_grows (PutSyncState s) d.
Proof.
  intros [_ Hst]%with_text_ok Hok (c & Hc & Hcid & Hle).
  apply result_bind_ok in Hst as ([] & Hchk & Hst).
  apply first_violation_cons in Hchk as [_ Hchk]. apply first_violation_cons in Hchk as [Hpos _]. simpl in Hpos.
  destruct (sql_first _ _) as [old|] eqn:Eold.
  - injection Hst as <- <-. apply sql_first_Some in Eold as [Hold Hk%bool_decide_eq_true].
    destruct (so_sync_rows _ Hok old Hold) as (Hp & Hm & c' & Hc' & Hcid' & Hle'). injection Hk as H1 H2 H3.
    rewrite (unique_key_inj _ _ c' c (so_conversations _ Hok)) in Hle' by (done || congruence).
    eexists. split_and!; [done|done|done|simpl; lia| |].
    + split_and!; simpl; [lia|rewrite <-H1, <-H3; done|exists c; split_and!; [done|done|lia]].
    + intros x Hx Hkx. simpl. rewrite (unique_key_inj _ _ x old (so_sync _ Hok) Hx Hold); [lia|].
      rewrite Hkx. unfold sync_key; simpl. congruence.
  - apply result_bind_ok in Hst as ([] & Hmem & [= <- <-]).
    apply first_violation_cons in Hmem as [Hmem _].
    unfold member_exists in Hmem. apply sql_exists_true in Hmem as (x & Hx & Hb).
    apply andb_true_iff in Hb as [? ?].
    eexists. split_and!; [done|done|done|simpl; lia| |].
    + split_and!; simpl; [lia| |exists c; split_and!; [done|done|lia]].
      exists x. split; [done|]. unfold member_key. f_equal; lia.
    + intros y Hy Hky. rewrite sql_first_None in Eold. specialize (Eold y Hy).
      apply bool_decide_eq_false in Eold. done.
Qed.

Lemma upsert_sync_state_spec userID deviceID id cursor c w r w' :
  db_world_ok w → w_tx w = [] →
  c ∈ conversations (w_db w) → conversation_id c = id → cursor ≤ conversation_last_seq c →
  auto_statement (upsert_sync_state userID deviceID id cursor) w = (r, w') →
  db_world_ok w' ∧ evolves [] (w_db w) (w_db w') ∧
  ∀ applied updated, r = Ok (applied, updated) →
    cursor ≤ applied ∧ ∃ s, s ∈ sync_states (w_db w') ∧ sync_key s = (userID, deviceID, id) ∧
      sync_applied_seq s = applied ∧ sync_updated_at s = updated.
Proof.
  intros Hw Htx Hc Hid Hle Hrun.
  assert (∀ w1, db_world_ok w1 → db_drift w w1 →
    ∃ c1, c1 ∈ conversations (w_db w1) ∧ conversation_id c1 = id ∧ cursor ≤ conversation_last_seq c1) as Hrow.
  { intros w1 _ Hd. destruct (ev_conversations _ _ _ (drift_base _ _ Hd) c Hc) as (c1 & ? & ? & _ & ? & _).
    exists c1. split_and!; [done|congruence|lia]. }
  db_spec auto_statement_spec Hrun.
  - destruct Hrun as (Hw' & _ & w1 & Hw1 & Hd & [[-> Hcase]|(env & a & us & Hq & Hdb & Hr)]).
    { split_and!; [done|by apply drift_base|]. intros ? ? ->. by destruct Hcase as [?|(? & ? & _ & ?)]. }
    apply upsert_sync_state_ok in Hq as (s & -> & Hk & -> & Hcur & _ & Hg); [|apply Hw1|by apply Hrow].
    rewrite Hdb. split_and!; [done| |].
    + etrans; [by apply drift_base|]. by apply apply_change_evolves.
    + intros applied updated ->. destruct Hr as [[= -> ->]|]; [|done]. split; [done|].
      exists s. split_and!; try done. apply elem_of_put_sync. by left.
  - intros w1 env a us Hw1 Hd Hq. pose proof (ok_db _ _ _ _ Hw1) as Hdb.
    apply upsert_sync_state_ok in Hq as (s & -> & _ & _ & _ & Hs & Hg); [|apply Hdb|by apply Hrow].
    apply committed_frame; [done| |done]. by apply put_sync_ok; [apply Hdb|..].
Qed.

(** ** The query map's order *)

Lemma check_query_keys_ok allowed bad mk query :
  check_query_keys allowed bad mk query = Ok tt ↔
  Forall (λ kv, existsb (λ k, bool_decide (k = kv.1)) allowed = true ∧ ∃ v, kv.2 = [v]) query.
Proof.
  induction query as [|[key values] query IH]; simpl; [by split|].
  rewrite Forall_cons. simpl. destruct (existsb _ allowed) eqn:E; simpl.
  - destruct values as [|v [|? ?]]; [split; [done|intros [[_ [? ?]] _]; done]| |
      split; [done|intros [[_ [? ?]] _]; done]].
    rewrite IH. split; [intros ?; split; [eauto|done]|by intros [_ ?]].
  - split; [done|by intros [[? _] _]].
Qed.

Lemma check_query_keys_error allowed bad mk query p :
  check_query_keys allowed bad mk query = Err p → ∃ text, p = mk text.
Proof.
  induction query as [|[key values] query IH]; simpl; [done|]. destruct (negb _); [intros [= <-]; eauto|].
  destruct values as [|v [|? ?]]; [intros [= <-]; eauto|apply IH|intros [= <-]; eauto].
Qed.

Lemma query_lookup_Some key (query : query_values) vs :
  NoDup query.*1 → query_lookup key query = Some vs ↔ (key, vs) ∈ query.
Proof.
  intros Hnd. unfold query_lookup. split.
  - intros Hf. apply fmap_Some in Hf as ([k v] & Hf & ->). apply find_some in Hf as [Hin Hk%bool_decide_eq_true].
    simpl in Hk. subst. by apply list_elem_of_In.
  - intros Hin. rewrite (sql_first_key fst (λ kv, bool_decide (kv.1 = key)) query (key, vs)); [done|done|done| |].
    + by apply bool_decide_eq_true.
    + intros [k v] Hk%bool_decide_eq_true. done.
Qed.

Lemma query_lookup_Permutation key (q1 q2 : query_values) :
  NoDup q1.*1 → q1 ≡ₚ q2 → query_lookup key q1 = query_lookup key q2.
Proof.
  intros Hnd Hp. assert (NoDup q2.*1) as Hnd2 by (by rewrite <-Hp).
  apply option_eq. intros vs. by rewrite !query_lookup_Some, Hp by done.
Qed.

Lemma parse_query_int_error key query good default text p :
  parse_query_int key query good default text = Err p → p = invalid_pagination text.
Proof.
  unfold parse_query_int. destruct (query_lookup _ _); [|done].
  destruct (ParseInt _) as [v|]; [destruct (good v)|]; by intros [= <-].
Qed.

Lemma parseSnapshotPagination_error query p :
  parseSnapshotPagination query = Err p → ∃ text, p = invalid_pagination text.
Proof.
  intros Hp. repeat (apply result_bind_err in Hp as [Hp|(? & _ & Hp)]); try done.
  - by apply check_query_keys_error in Hp.
  - apply parse_query_int_error in Hp. eauto.
  - apply parse_query_int_error in Hp. eauto.
  - destruct (query_lookup _ _); [|done].
    apply result_bind_err in Hp as [Hp|(? & _ & Hp)]; [|done]. apply parse_query_int_error in Hp. eauto.
Qed.

Lemma parse_query_int_Permutation key q1 q2 good default text :
  NoDup q1.*1 → q1 ≡ₚ q2 →
  parse_query_int key q1 good default text = parse_query_int key q2 good default text.
Proof. intros Hnd Hp. unfold parse_query_int. by rewrite (query_lookup_Permutation key q1 q2). Qed.

(** ** The conversation list *)

Lemma elem_of_user_conversations userID d c :
  schema_ok d →
  c ∈ user_conversations userID d ↔
  c ∈ conversations d ∧ conversation_kind_of c ≠ Group ∧
    ∃ x, x ∈ members d ∧ member_key x = (conversation_id c, userID).
Proof.
  intros Hok. unfold user_conversations. rewrite list_elem_of_omap. split.
  - intros (x & Hx & Hf). destruct (member_user x =? userID) eqn:E; [|done].
    apply bind_Some in Hf as (c' & Hc' & Hk). apply find_conversation_Some in Hc' as [Hc' Hid].
    destruct (conversation_kind_of c') eqn:Hkind; simplify_eq. rewrite Hkind.
    split_and!; [done|done|]. exists x. split; [done|]. unfold member_key. f_equal; [done|lia].
  - intros (Hc & Hk & x & Hx & [= Hid Hu]). exists x. split; [done|].
    rewrite Hu, Z.eqb_refl, Hid.
    replace (find_conversation (conversation_id c) d) with (Some c).
    + simpl. by destruct (conversation_kind_of c).
    + symmetry. apply (sql_first_key conversation_id); [apply Hok|done|lia|]. intros y Hy. lia.
Qed.

Lemma user_conversations_keys userID d :
  schema_ok d → NoDup (conversation_id <$> user_conversations userID d).
Proof.
  intros Hok. pose proof (so_members _ Hok) as Hnd. unfold unique_key, user_conversations in *.
  induction (members d) as [|x l IH]; [constructor|]. apply NoDup_cons in Hnd as [Hx Hnd]. simpl.
  destruct (member_user x =? userID) eqn:E; [|auto].
  destruct (find_conversation _ d) as [c|] eqn:Hc; simpl; [|auto].
  apply find_conversation_Some in Hc as [Hc Hid].
  assert (conversation_id c ∉ conversation_id <$> omap (λ m, if member_user m =? userID then
      c ← find_conversation (member_conversation m) d;
      if conversation_kind_of c is Direct _ _ then Some c else None else None) l) as Hfresh.
  { intros (c' & Heq & (y & Hy & Hf)%list_elem_of_omap)%list_elem_of_fmap. apply Hx.
    destruct (member_user y =? userID) eqn:Ey; [|done]. apply bind_Some in Hf as (c0 & Hc0 & Hk).
    apply find_conversation_Some in Hc0 as [_ Hid0]. destruct (conversation_kind_of c0); simplify_eq.
    replace (member_key x) with (member_key y); [by apply list_elem_of_fmap_2|].
    unfold member_key. f_equal; [congruence|lia]. }
  destruct (conversation_kind_of c); simpl; [|auto]. apply NoDup_cons. split; [done|auto].
Qed.

Lemma summarize_total userID d c :
  schema_ok d → c ∈ conversations d → conversation_kind_of c ≠ Group →
  ∃ s, summarize userID d c = Some s.
Proof.
  intros Hok Hc Hk. unfold summarize, peer_of. destruct (conversation_kind_of c) as [l h|] eqn:E; [|done].
  destruct (so_pair_users _ Hok c l h Hc E) as (_ & (u1 & Hu1 & Hid1) & (u2 & Hu2 & Hid2)). simpl.
  destruct (sql_first _ _) as [u|] eqn:Ef; [by eexists|]. rewrite sql_first_None in Ef.
  pose proof (Ef u1 Hu1). pose proof (Ef u2 Hu2). destruct (_ && _); lia.
Qed.

Lemma summarize_Some userID d c s :
  summarize userID d c = Some s →
  sum_ID s = conversation_id c ∧ sum_LastSeq s = conversation_last_seq c ∧
  ∃ u, u ∈ users d ∧ peer_of userID (conversation_kind_of c) = Some (user_id u) ∧
    sum_PeerID s = user_id u ∧ sum_PeerUsername s = user_username u.
Proof.
  unfold summarize. intros Hs. apply bind_Some in Hs as (p & Hp & Hs). apply bind_Some in Hs as (u & Hu & [= <-]).
  apply sql_first_Some in Hu as [Hu Hid]. split_and!; [done|done|]. exists u. split_and!; try done.
  rewrite Hp. f_equal. lia.
Qed.

(** The rows the listing query ranges over, before ORDER BY and LIMIT. *)
Definition listed (userID after snapshot : Z) d : list conversationSummary :=
  omap (summarize userID d)
    (sql_where (λ c, (after <? conversation_id c) && (conversation_id c <=? snapshot)) (user_conversations userID d)).

Lemma elem_of_listed userID after snapshot d s :
  schema_ok d →
  s ∈ listed userID after snapshot d ↔
  ∃ c, c ∈ conversations d ∧ conversation_kind_of c ≠ Group ∧ after < conversation_id c ≤ snapshot ∧
    (∃ x, x ∈ members d ∧ member_key x = (conversation_id c, userID)) ∧ summarize userID d c = Some s.
Proof.
  intros Hok. unfold listed. rewrite list_elem_of_omap. split.
  - intros (c & [Hc Hb]%elem_of_where & Hs). apply elem_of_user_conversations in Hc as (? & ? & ?); [|done].
    exists c. split_and!; try done; lia.
  - intros (c & ? & ? & Hb & ? & ?). exists c. split; [|done]. apply elem_of_where.
    split; [by apply elem_of_user_conversations|lia].
Qed.

Lemma listed_keys userID after snapshot d :
  schema_ok d → NoDup (sum_ID <$> listed userID after snapshot d).
Proof.
  intros Hok. pose proof (user_conversations_keys userID d Hok) as Hnd. unfold listed.
  pose proof (unique_key_sublist conversation_id _ _ (where_sublist
    (λ c, (after <? conversation_id c) && (conversation_id c <=? snapshot)) (user_conversations userID d)) Hnd) as Hnd'.
  revert Hnd'. unfold unique_key. generalize (sql_where (λ c, (after <? conversation_id c) && (conversation_id c <=? snapshot))
    (user_conversations userID d)) as l. clear -Hok.
  induction l as [|c l IH]; intros Hnd; [constructor|]. apply NoDup_cons in Hnd as [Hc Hnd]. simpl.
  destruct (summarize userID d c) as [s|] eqn:Es; [|auto]. apply NoDup_cons. split; [|auto].
  apply summarize_Some in Es as [-> _]. intros (s' & Heq & (c' & Hc' & Es')%list_elem_of_omap)%list_elem_of_fmap.
  apply summarize_Some in Es' as [Hid _]. apply Hc. rewrite Heq, Hid. by apply list_elem_of_fmap_2.
Qed.
End lemmas.

(** * Properties *)
Section properties.
Context `{TimeText}.
Implicit Types (d : database) (w : db_world).

(** One run of the handler: it keeps the tables, and what a page holds. *)
Lemma syncConversationMessages_run userID path query w r w' :
  db_world_ok w → w_tx w = [] →
  syncConversationMessages userID path query w = (r, w') →
  (db_world_ok w' ∧ w_tx w' = [] ∧ evolves [] (w_db w) (w_db w')) ∧
  ∀ page, r = Ok page → ∃ id after limit raw, parseConversationID path = Ok id ∧
    parseSnapshotPagination query = Ok (after, limit, raw) ∧
    (∀ s, raw = Some s → page_SnapshotCursor page = s) ∧
    page_of after limit (page_SnapshotCursor page) id (w_db w') page ∧
    (∃ x, x ∈ members (w_db w') ∧ member_key x = (id, userID)) ∧
    (∃ c, c ∈ conversations (w_db w') ∧ conversation_id c = id ∧
      after ≤ page_SnapshotCursor page ≤ conversation_last_seq c) ∧
    (raw = None → ∀ c, c ∈ conversations (w_db w) → conversation_id c = id →
       conversation_last_seq c ≤ page_SnapshotCursor page).
Proof.
  intros Hw Htx Hrun. unfold syncConversationMessages in Hrun.
  apply proc_bind_inv in Hrun as [(? & Hid & ->)|(id & w1 & Hid & Hrun)];
    [by apply refuse_inv in Hid as [-> _]|apply refuse_inv in Hid as [-> Hid]].
  apply proc_bind_inv in Hrun as [(? & Hq & ->)|([[after limit] raw] & w1 & Hq & Hrun)];
    [by apply refuse_inv in Hq as [-> _]|apply refuse_inv in Hq as [-> Hq]].
  apply proc_bind_inv in Hrun as [(? & Hcur & ->)|(current & w1 & Hcur & Hrun)];
    apply run_error_inv in Hcur as (r1 & Hcur & Hr1);
    apply auto_query_spec in Hcur as (Hw1 & Htx1 & Hev1 & Hsel); [by split|apply query_row_read|done|done| |
      apply query_row_read|done|done].
  destruct r1 as [|cur]; [done|]. injection Hr1 as ->. destruct Hsel as (env & Hsel).
  apply select_last_seq_ok in Hsel as ((x & Hx & Hxk) & c & Hc & Hcid & Hcs).
  destruct (cur <? after) eqn:Ecur; [by apply proc_throw_inv in Hrun as [-> ->]|].
  apply proc_bind_inv in Hrun as [(? & Hsnap & ->)|(snapshot & w2 & Hsnap & Hrun)];
    [by apply refuse_inv in Hsnap as [-> _]|apply refuse_inv in Hsnap as [-> Hsnap]].
  apply proc_bind_inv in Hrun as [(? & Hrows & ->)|(rows & w2 & Hrows & Hrun)];
    apply run_error_inv in Hrows as (r2 & Hrows & Hr2);
    apply auto_query_spec in Hrows as (Hw2 & Htx2 & Hev2 & Hsel2);
    [split; [split_and!; [done|done|by etrans]|done]|apply query_all_read|done|done| |apply query_all_read|done|done].
  destruct r2 as [|rows']; [done|]. injection Hr2 as ->. destruct Hsel2 as (env2 & [= Hsel2]). subst rows'.
  symmetry in Hq, Hid, Hsnap.
  destruct (parseSnapshotPagination_bounds _ _ _ _ Hq) as (Ha & Hl & _).
  pose proof (validateSnapshotCursor_ok _ _ _ _ _ Hsnap ltac:(lia)) as Hb.
  destruct (ev_conversations _ _ _ Hev2 c Hc) as (c' & Hc' & Hcid' & _ & Hle & _).
  pose proof (window_page c' id after limit snapshot _ (ok_db _ _ _ _ Hw2) Hc' ltac:(congruence)
    ltac:(lia) ltac:(lia) ltac:(lia)) as Hpage.
  destruct (read_page _ _) as [ms more]. apply proc_ret_inv in Hrun as [-> ->].
  split; [split_and!; [done|done|by etrans]|]. intros page [= <-]. simpl.
  exists id, after, limit, raw. split_and!; try done.
  - intros s ->. unfold validateSnapshotCursor in Hsnap. destruct_tests; by simplify_eq.
  - exists x. split; [by apply (ev_members _ _ _ Hev2)|done].
  - exists c'. split_and!; [done|congruence|lia|lia].
  - intros -> c0 Hc0 Hid0. injection Hsnap as <-.
    destruct (ev_conversations _ _ _ Hev1 c0 Hc0) as (c1 & Hc1 & Hid1 & _ & Hle1 & _).
    assert (c1 = c) as ->; [|lia].
    eapply unique_key_inj; [apply (so_conversations _ (committed_schema _ (ok_db _ _ _ _ Hw1)))|done|done|congruence].
Qed.

(** A page of the stream, whatever is committed while it is
    built: the messages numbered right after the cursor, in order and none missing,
    up to the limit or the snapshot; the next cursor is the last of them, and
    hasMore says exactly whether the snapshot has not been reached.  The reader is
    a member and the snapshot is within the stream. *)
Theorem syncConversationMessages_page userID path query w page w' :
  db_world_ok w → w_tx w = [] →
  syncConversationMessages userID path query w = (Ok page, w') →
  ∃ id after limit raw, parseConversationID path = Ok id ∧
    parseSnapshotPagination query = Ok (after, limit, raw) ∧
    (∀ s, raw = Some s → page_SnapshotCursor page = s) ∧
    page_of after limit (page_SnapshotCursor page) id (w_db w') page ∧
    (∃ x, x ∈ members (w_db w') ∧ member_key x = (id, userID)) ∧
    ∃ c, c ∈ conversations (w_db w') ∧ conversation_id c = id ∧
      after ≤ page_SnapshotCursor page ≤ conversation_last_seq c.
Proof.
  intros Hw Htx Hrun. apply syncConversationMessages_run in Hrun as [_ Hpage]; [|done..].
  destruct (Hpage page eq_refl) as (id & after & limit & raw & ? & ? & ? & ? & ? & ? & _).
  exists id, after, limit, raw. done.
Qed.

(** Go iterates the query map in no fixed order; whichever it is, the
    same parameters come out, or the request is refused as invalid pagination. *)
Theorem parseSnapshotPagination_order (q1 q2 : query_values) :
  NoDup q1.*1 → q1 ≡ₚ q2 →
  match parseSnapshotPagination q1 with
  | Ok v => parseSnapshotPagination q2 = Ok v
  | Err p => (∃ text, p = invalid_pagination text) ∧
      ∃ text, parseSnapshotPagination q2 = Err (invalid_pagination text)
  end.
Proof.
  intros Hnd Hp. assert (∀ v, parseSnapshotPagination q1 = Ok v ↔ parseSnapshotPagination q2 = Ok v) as Heq.
  { intros v. unfold parseSnapshotPagination.
    rewrite !(parse_query_int_Permutation _ q1 q2), !(query_lookup_Permutation _ q1 q2) by done.
    destruct (check_query_keys _ _ _ q1) as [p1|[]] eqn:E1, (check_query_keys _ _ _ q2) as [p2|[]] eqn:E2;
      try done; exfalso.
    - rewrite check_query_keys_ok, <-Hp, <-check_query_keys_ok in E2. rewrite E1 in E2. done.
    - rewrite check_query_keys_ok, Hp, <-check_query_keys_ok in E1. rewrite E2 in E1. done. }
  destruct (parseSnapshotPagination q1) as [p|v] eqn:E1; [|by apply Heq].
  split; [by eapply parseSnapshotPagination_error|].
  destruct (parseSnapshotPagination q2) as [p2|v2] eqn:E2.
  - apply parseSnapshotPagination_error in E2 as (text & ->). eauto.
  - discriminate (proj2 (Heq v2) eq_refl).
Qed.

(** What a device has acknowledged of a conversation. *)
Definition acknowledged (userID : Z) (deviceID : string) (conversationID : Z) d : option Z :=
  sync_applied_seq <$> sql_first (λ s, bool_decide (sync_key s = (userID, deviceID, conversationID))) (sync_states d).

Lemma upsert_sync_state_exact userID deviceID id cursor env d applied updated us :
  upsert_sync_state userID deviceID id cursor env d = Ok ((applied, updated), us) →
  (∃ s, us = [PutSyncState s] ∧ sync_key s = (userID, deviceID, id) ∧ sync_applied_seq s = applied) ∧
  applied = match acknowledged userID deviceID id d with Some old => old `max` cursor | None => cursor end.
Proof.
  intros [_ Hst]%with_text_ok. apply result_bind_ok in Hst as ([] & _ & Hst). unfold acknowledged.
  change (sync_key (SyncStateRow userID deviceID id cursor (current_timestamp env))) with (userID, deviceID, id) in Hst.
  destruct (sql_first _ _) as [old|].
  - injection Hst as <- <- <-. simpl. split; [|done]. by eexists.
  - apply result_bind_ok in Hst as ([] & _ & [= <- <- <-]). split; [|done]. by eexists.
Qed.

(** C23: an acknowledgement keeps every committed invariant, among them that no device
    is ahead of its conversation.  When it is accepted, it wrote one row, over the
    tables that its second statement found: the device's, whose cursor is the one sent
    or, when that is greater, the one the device had there.  That is the cursor
    replied, and nothing the device acknowledged before is above it. *)
Theorem acknowledgeConversation_monotone userID deviceID path body w r w' :
  db_world_ok w → w_tx w = [] →
  acknowledgeConversation userID deviceID path body w = (r, w') →
  db_world_ok w' ∧ evolves [] (w_db w) (w_db w') ∧
  ∀ st, r = Ok st → ∃ id cursor s, parseConversationID path = Ok id ∧
    decodeSingleJSON acknowledgeMessagesRequest_fields None body = Some (Some cursor) ∧
    0 ≤ cursor ≤ ack_AppliedCursor st ∧ ack_ConversationID st = id ∧
    s ∈ sync_states (w_db w') ∧ sync_key s = (userID, deviceID, id) ∧
    sync_applied_seq s = ack_AppliedCursor st ∧
    (∃ e1 e2, w_events w = e1 :: e2 :: w_events w' ∧
       let found := ev_env e2 [] (ev_env e1 [] (w_db w)) in
       w_db w' = apply_change (PutSyncState s) found ∧
       ack_AppliedCursor st =
         match acknowledged userID deviceID id found with Some old => old `max` cursor | None => cursor end) ∧
    ∀ s0, s0 ∈ sync_states (w_db w) → sync_key s0 = (userID, deviceID, id) →
      sync_applied_seq s0 ≤ ack_AppliedCursor st.
Proof.
  intros Hw Htx Hrun. unfold acknowledgeConversation in Hrun.
  apply proc_bind_inv in Hrun as [(e & Hid & ->)|(id & w1 & Hid & Hrun)];
    apply refuse_inv in Hid as [-> Hid]; [done|].
  apply proc_bind_inv in Hrun as [(e & Hin & ->)|(input & w1 & Hin & Hrun)].
  { destruct (decodeSingleJSON _ _ _); [by apply proc_ret_inv in Hin as [? _]|].
    by apply proc_throw_inv in Hin as [_ ->]. }
  assert (decodeSingleJSON acknowledgeMessagesRequest_fields None body = Some input ∧ w1 = w) as [Hdec ->].
  { destruct (decodeSingleJSON _ _ _); [by apply proc_ret_inv in Hin as [[= ->] ->]|].
    by apply proc_throw_inv in Hin as [? _]. }
  destruct input as [cursor|]; [|by apply proc_bind_inv in Hrun as [(e & [_ ->]%proc_throw_inv & ->)|(? & ? & [? _]%proc_throw_inv & _)]].
  destruct (cursor <? 0) eqn:Ec;
    [by apply proc_bind_inv in Hrun as [(e & [_ ->]%proc_throw_inv & ->)|(? & ? & [? _]%proc_throw_inv & _)]|].
  apply proc_bind_inv in Hrun as [(e & [? _]%proc_ret_inv & _)|(? & ? & [[= ->] ->]%proc_ret_inv & Hrun)]; [done|].
  apply proc_bind_inv in Hrun as [(e & Hcur & ->)|(current & w1 & Hcur & Hrun)];
    apply run_error_inv in Hcur as (r0 & Hcur & Hr0); pose proof Hcur as Hrun1;
    (apply auto_query_spec in Hcur as (Hw1 & Htx1 & Hev1 & Hsel); [|apply query_row_read|done..]); [done|].
  destruct r0 as [|seq]; [done|]. injection Hr0 as ->. destruct Hsel as (env & Hsel).
  apply auto_statement_answered in Hrun1 as (e1 & us1 & Hes1 & _ & Hst1 & Hdb1). rewrite Htx in Hst1, Hdb1.
  pose proof (query_row_read _ _ _ _ _ Hst1) as ->. simpl in Hdb1.
  apply select_last_seq_ok in Hsel as (_ & c & Hc & Hcid & Hcs).
  destruct (seq <? cursor) eqn:E; [by apply proc_throw_inv in Hrun as [-> ->]|].
  apply proc_bind_inv in Hrun as [(e & Hput & ->)|([applied updated] & w2 & Hput & Hrun)];
    apply run_error_inv in Hput as (r2 & Hput & Hr2); pose proof Hput as Hrun2;
    (apply (upsert_sync_state_spec _ _ _ _ c) in Hput as (Hw2 & Hev2 & Hok); [|done..|lia]).
  { split_and!; [done|by etrans|done]. }
  apply proc_ret_inv in Hrun as [-> ->]. destruct r2 as [|[]]; simplify_eq/=.
  destruct (Hok _ _ eq_refl) as (Hle & s & Hs & Hk & Ha & _).
  assert (evolves [] (w_db w) (w_db w2)) as Hev by (by etrans).
  apply auto_statement_answered in Hrun2 as (e2 & us2 & Hes2 & _ & Hst2 & Hdb2). rewrite Htx1, Hdb1 in Hst2, Hdb2.
  apply upsert_sync_state_exact in Hst2 as ((s2 & -> & Hk2 & Ha2) & Hexact).
  assert (s = s2) as <-.
  { eapply (unique_key_inj sync_key); [apply (so_sync _ (committed_schema _ (ok_db _ _ _ _ Hw2)))|done| |congruence].
    rewrite Hdb2. apply elem_of_put_sync. by left. }
  split_and!; [done|done|]. intros st [= <-]. exists (conversation_id c), cursor, s. simpl. split_and!; try done; [lia| |].
  { exists e1, e2. split_and!; [by rewrite Hes1, Hes2|exact Hdb2|exact Hexact]. }
  intros s0 Hs0 Hk0. destruct (ev_sync _ _ _ Hev s0 Hs0) as (s1 & Hs1 & Hk1 & Hle1).
  rewrite (unique_key_inj _ _ s1 s (so_sync _ (committed_schema _ (ok_db _ _ _ _ Hw2)))) in Hle1; [lia|done|done|congruence].
Qed.

(** What a page of the conversation list is, over the tables it was read from. *)
Record conversation_list_of (userID after limit : Z) d (resp : conversationListResponse) : Prop := ConversationListOf {
  cl_sorted : StronglySorted Z.lt (sum_ID <$> list_Conversations resp);
  cl_entries : Forall (λ s, ∃ c low high, c ∈ conversations d ∧ conversation_kind_of c = Direct low high ∧
    conversation_id c = sum_ID s ∧ after < sum_ID s ≤ list_SnapshotCursor resp ∧
    conversation_last_seq c = sum_LastSeq s ∧
    (∃ x, x ∈ members d ∧ member_key x = (sum_ID s, userID)) ∧
    (userID = low → sum_PeerID s = high) ∧ (userID = high → sum_PeerID s = low)) (list_Conversations resp);
  cl_complete : ∀ c, c ∈ conversations d → conversation_kind_of c ≠ Group →
    (∃ x, x ∈ members d ∧ member_key x = (conversation_id c, userID)) →
    after < conversation_id c ≤
      (if list_HasMore resp then list_NextCursor resp else list_SnapshotCursor resp) →
    conversation_id c ∈ sum_ID <$> list_Conversations resp;
  cl_progress : list_HasMore resp = true → after < list_NextCursor resp ∧
    Z.of_nat (List.length (list_Conversations resp)) = limit
}.

Lemma listed_page userID after limit snapshot d :
  schema_ok d → 1 ≤ limit →
  let '(cs, more) := read_page (Z.to_nat limit) (list_conversations_rows userID after snapshot (limit + 1) d) in
  conversation_list_of userID after limit d
    (ConversationListResponse cs (match last cs with Some c => sum_ID c | None => after end) snapshot more).
Proof.
  intros Hok Hl. rewrite read_page_spec. unfold list_conversations_rows, sql_limit. fold (listed userID after snapshot d).
  pose proof (listed_keys userID after snapshot d Hok) as Hnd. set (all := sql_order_by sum_ID _).
  rewrite take_take, length_take. replace (Z.to_nat limit `min` Z.to_nat (limit + 1))%nat with (Z.to_nat limit) by lia.
  assert (StronglySorted Z.lt (sum_ID <$> take (Z.to_nat limit) all)) as Hsort.
  { rewrite fmap_take. pose proof (order_by_keys_strict sum_ID _ Hnd) as Hs. fold all in Hs.
    rewrite <-(take_drop (Z.to_nat limit) (sum_ID <$> all)) in Hs. by apply StronglySorted_app_1_l in Hs. }
  constructor; simpl; [done| | |].
  - apply Forall_take, Forall_forall. intros s Hs. apply elem_of_order_by in Hs.
    apply elem_of_listed in Hs as (c & Hc & Hk & Hb & Hx & Hs); [|done].
    apply summarize_Some in Hs as (-> & -> & u & _ & Hp & -> & _).
    destruct (conversation_kind_of c) as [low high|] eqn:E; [|done]. injection Hp as <-.
    exists c, low, high. split_and!; try done; [lia|lia|..]; intros ->; rewrite Z.eqb_refl; simpl.
    + destruct (high =? low) eqn:Ee; [simpl; lia|done].
    + by rewrite andb_false_r.
  - intros c Hc Hk Hx Hb. destruct (summarize_total userID d c Hok Hc Hk) as (s & Hs).
    pose proof (summarize_Some _ _ _ _ Hs) as (Hsid & _).
    assert (∀ y, y ∈ take (Z.to_nat limit) all → sum_ID y ≤ snapshot) as Hle.
    { intros y Hy. apply (subseteq_take), elem_of_order_by, elem_of_listed in Hy as (c' & _ & _ & ? & _ & Hy); [|done].
      apply summarize_Some in Hy as (-> & _). lia. }
    assert (conversation_id c ≤ snapshot) as Hsnap.
    { destruct (bool_decide _) eqn:E; [|lia].
      destruct (last _) as [y|] eqn:Ey in Hb; [|lia]. apply last_Some_elem_of in Ey. specialize (Hle y Ey). lia. }
    destruct (first_rows_complete sum_ID (listed userID after snapshot d) (Z.to_nat limit) s Hnd) as [Hin|[Hlen Hlt]].
    { apply elem_of_listed; [done|]. exists c. split_and!; try done; lia. }
    + rewrite <-Hsid. by apply list_elem_of_fmap_2.
    + exfalso. rewrite bool_decide_eq_true_2 in Hb by (fold all in Hlen; lia).
      destruct (last _) as [y|] eqn:Ey in Hb; [|lia]. apply last_Some_elem_of in Ey. specialize (Hlt y Ey). lia.
  - intros Hmore%bool_decide_eq_true. rewrite length_take. split; [|lia].
    destruct (last _) as [y|] eqn:Ey.
    + apply last_Some_elem_of, subseteq_take, elem_of_order_by, elem_of_listed in Ey as (c' & _ & _ & ? & _ & Hy); [|done].
      apply summarize_Some in Hy as (-> & _). lia.
    + apply last_None in Ey. apply (f_equal (@List.length _)) in Ey. rewrite length_take in Ey. simpl in Ey. lia.
Qed.

(** A page of the conversation list: in increasing order of id, each entry a
    direct conversation of the user with the other participant as peer and its
    current length; no conversation between the cursor and the end of the page (or
    the snapshot, on the last page) is missing, and a page with more to come is full
    and moves the cursor. *)
Theorem listConversations_page userID query w resp w' :
  db_world_ok w → w_tx w = [] → listConversations userID query w = (Ok resp, w') →
  ∃ after limit raw, parseSnapshotPagination query = Ok (after, limit, raw) ∧
    after ≤ list_SnapshotCursor resp ∧ (∀ s, raw = Some s → list_SnapshotCursor resp = s) ∧
    conversation_list_of userID after limit (w_db w') resp.
Proof.
  intros Hw Htx Hrun. unfold listConversations in Hrun.
  apply proc_bind_inv in Hrun as [(? & _ & [=])|([[after limit] raw] & w1 & Hq & Hrun)].
  apply refuse_inv in Hq as [-> Hq]. symmetry in Hq.
  apply proc_bind_inv in Hrun as [(? & _ & [=])|(current & w1 & Hcur & Hrun)].
  apply run_error_inv in Hcur as ([|cur] & Hcur & [= ->]).
  apply auto_query_spec in Hcur as (Hw1 & Htx1 & Hev1 & env & Hsel); [|apply query_all_read|done..].
  destruct (cur <? after) eqn:Ecur; [by apply proc_throw_inv in Hrun as [[=] _]|].
  apply proc_bind_inv in Hrun as [(? & _ & [=])|(snapshot & w2 & Hsnap & Hrun)].
  apply refuse_inv in Hsnap as [-> Hsnap]. symmetry in Hsnap.
  apply proc_bind_inv in Hrun as [(? & _ & [=])|(rows & w2 & Hrows & Hrun)].
  apply run_error_inv in Hrows as ([|rows'] & Hrows & [= ->]).
  apply auto_query_spec in Hrows as (Hw2 & Htx2 & Hev2 & env2 & Hsel2); [|apply query_all_read|done..].
  unfold query_all in Hsel2. injection Hsel2 as <-.
  destruct (parseSnapshotPagination_bounds _ _ _ _ Hq) as (Ha & Hl & _).
  pose proof (validateSnapshotCursor_ok _ _ _ _ _ Hsnap ltac:(lia)) as Hb.
  pose proof (listed_page userID after limit snapshot _ (committed_schema _ (ok_db _ _ _ _ Hw2)) ltac:(lia)) as Hpage.
  destruct (read_page _ _) as [cs more]. apply proc_ret_inv in Hrun as [[= ->] ->].
  exists after, limit, raw. split_and!; [done|simpl; lia| |done].
  intros s ->. unfold validateSnapshotCursor in Hsnap. destruct_tests; by simplify_eq.
Qed.
End properties.

(** * The properties at concrete inputs: bob reads what alice sent. *)
Section examples.
#[local] Existing Instance binary_time.
Open Scope string_scope.

Definition bobs_world : db_world := quiet_world after_hello.

Lemma bobs_world_ok : db_world_ok bobs_world.
Proof. apply quiet_world_ok, after_hello_ok. Qed.

Definition bobs_page : conversationMessagePage := ConversationMessagePage 10 [hello_message] 1 1 false.

Lemma bob_reads :
  syncConversationMessages 2 "10" [("after", ["0"]); ("limit", ["5"])] bobs_world =
    (Ok bobs_page, (syncConversationMessages 2 "10" [("after", ["0"]); ("limit", ["5"])] bobs_world).2).
Proof. vm_compute. reflexivity. Qed.

Lemma syncConversationMessages_page_witness :
  ∃ id after limit raw, parseConversationID "10" = Ok id ∧
    parseSnapshotPagination [("after", ["0"]); ("limit", ["5"])] = Ok (after, limit, raw) ∧
    (∀ s, raw = Some s → page_SnapshotCursor bobs_page = s) ∧
    page_of after limit (page_SnapshotCursor bobs_page) id
      (w_db (syncConversationMessages 2 "10" [("after", ["0"]); ("limit", ["5"])] bobs_world).2) bobs_page ∧
    (∃ x, x ∈ members (w_db (syncConversationMessages 2 "10" [("after", ["0"]); ("limit", ["5"])] bobs_world).2) ∧
       member_key x = (id, 2%Z)) ∧
    ∃ c, c ∈ conversations (w_db (syncConversationMessages 2 "10" [("after", ["0"]); ("limit", ["5"])] bobs_world).2) ∧
      conversation_id c = id ∧ (after ≤ page_SnapshotCursor bobs_page ≤ conversation_last_seq c)%Z.
Proof.
  exact (syncConversationMessages_page 2 "10" [("after", ["0"]); ("limit", ["5"])] bobs_world bobs_page _
    bobs_world_ok eq_refl bob_reads).
Defined.

Lemma parseSnapshotPagination_order_witness :
  parseSnapshotPagination [("limit", ["5"]); ("after", ["1"])] = Ok (1%Z, 5%Z, None).
Proof.
  refine (parseSnapshotPagination_order [("after", ["1"]); ("limit", ["5"])] [("limit", ["5"]); ("after", ["1"])] _ _).
  - apply (bool_decide_unpack _). vm_compute. done.
  - apply Permutation_swap.
Defined.

Definition ack_body : list Z := ([123] ++ quoted "cursor" ++ [58; 49; 125])%Z%list.

Lemma acknowledgeConversation_monotone_witness :
  ∃ st, (acknowledgeConversation 2 "phone" "10" ack_body bobs_world).1 = Ok st ∧ ack_AppliedCursor st = 1%Z ∧
  ∃ id cursor s, parseConversationID "10" = Ok id ∧
    decodeSingleJSON acknowledgeMessagesRequest_fields None ack_body = Some (Some cursor) ∧
    (0 ≤ cursor ≤ ack_AppliedCursor st)%Z ∧ ack_ConversationID st = id ∧
    s ∈ sync_states (w_db (acknowledgeConversation 2 "phone" "10" ack_body bobs_world).2) ∧
    sync_key s = (2%Z, "phone", id) ∧ sync_applied_seq s = ack_AppliedCursor st ∧
    (∃ e1 e2, w_events bobs_world = e1 :: e2 :: w_events (acknowledgeConversation 2 "phone" "10" ack_body bobs_world).2 ∧
       let found := ev_env e2 [] (ev_env e1 [] (w_db bobs_world)) in
       w_db (acknowledgeConversation 2 "phone" "10" ack_body bobs_world).2 = apply_change (PutSyncState s) found ∧
       ack_AppliedCursor st =
         match acknowledged 2 "phone" id found with Some old => (old `max` cursor)%Z | None => cursor end) ∧
    ∀ s0, s0 ∈ sync_states (w_db bobs_world) → sync_key s0 = (2%Z, "phone", id) →
      (sync_applied_seq s0 ≤ ack_AppliedCursor st)%Z.
Proof.
  destruct (acknowledgeConversation_monotone 2 "phone" "10" ack_body bobs_world _ _
    bobs_world_ok eq_refl (surjective_pairing _)) as (_ & _ & Hok).
  exists (DeviceConversationSyncState 10 1 101).
  assert ((acknowledgeConversation 2 "phone" "10" ack_body bobs_world).1 =
    Ok (DeviceConversationSyncState 10 1 101)) as Hst by (vm_compute; reflexivity).
  split; [exact Hst|]. split; [reflexivity|]. exact (Hok _ Hst).
Defined.

Definition bobs_list : conversationListResponse :=
  ConversationListResponse [ConversationSummary 10 1 "alice" "Alice" 1 105] 10 10 false.

Lemma listConversations_page_witness :
  ∃ after limit raw, parseSnapshotPagination [] = Ok (after, limit, raw) ∧
    (after ≤ list_SnapshotCursor bobs_list)%Z ∧ (∀ s, raw = Some s → list_SnapshotCursor bobs_list = s) ∧
    conversation_list_of 2 after limit (w_db (listConversations 2 [] bobs_world).2) bobs_list.
Proof.
  assert (listConversations 2 [] bobs_world = (Ok bobs_list, (listConversations 2 [] bobs_world).2)) as Hrun
    by (vm_compute; reflexivity).
  exact (listConversations_page 2 [] bobs_world bobs_list _ bobs_world_ok eq_refl Hrun).
Defined.
End examples.
