(* ===== verification/Encoding.v ===== *)
(** encoding/base64 (RawURLEncoding) and the parts of JSON text the program
    writes, each read back to what was written. *)
From Stdlib Require Import Ascii String.
From S2P Require Import Prelude GoStd Json Numerals.
Open Scope Z_scope.

(** * Base64 *)

Definition base64_char (v : Z) : Z :=
  if v <? 26 then 65 + v else if v <? 52 then 71 + v else if v <? 62 then v - 4
  else if v =? 62 then 45 else 95.

Definition base64_value (c : Z) : option Z :=
  if in_range 65 90 c then Some (c - 65) else if in_range 97 122 c then Some (c - 71)
  else if in_range 48 57 c then Some (c + 4)
  else if c =? 45 then Some 62 else if c =? 95 then Some 63 else None.

Fixpoint base64_encode (bs : list Z) : list Z :=
  match bs with
  | a :: b :: c :: rest =>
      base64_char (a / 4) :: base64_char (a mod 4 * 16 + b / 16) ::
      base64_char (b mod 16 * 4 + c / 64) :: base64_char (c mod 64) :: base64_encode rest
  | [a; b] => [base64_char (a / 4); base64_char (a mod 4 * 16 + b / 16); base64_char (b mod 16 * 4)]
  | [a] => [base64_char (a / 4); base64_char (a mod 4 * 16)]
  | [] => []
  end.

(** Without padding and not strict: the last bits of a partial quantum are
    dropped. *)
Fixpoint base64_quanta (cs : list Z) : option (list Z) :=
  match cs with
  | c1 :: c2 :: c3 :: c4 :: rest =>
      v1 ← base64_value c1; v2 ← base64_value c2; v3 ← base64_value c3; v4 ← base64_value c4;
      tail ← base64_quanta rest;
      Some (v1 * 4 + v2 / 16 :: v2 mod 16 * 16 + v3 / 4 :: v3 mod 4 * 64 + v4 :: tail)
  | [c1; c2; c3] =>
      v1 ← base64_value c1; v2 ← base64_value c2; v3 ← base64_value c3;
      Some [v1 * 4 + v2 / 16; v2 mod 16 * 16 + v3 / 4]
  | [c1; c2] => v1 ← base64_value c1; v2 ← base64_value c2; Some [v1 * 4 + v2 / 16]
  | [_] => None
  | [] => Some []
  end.

(** Line breaks are skipped. *)
Definition base64_decode (cs : list Z) : option (list Z) :=
  base64_quanta (List.filter (λ c, negb ((c =? 10) || (c =? 13))) cs).

Lemma base64_value_char v : 0 ≤ v < 64 → base64_value (base64_char v) = Some v.
Proof.
  intros Hv. unfold base64_char, base64_value. destruct_tests; bool_arith; try (f_equal; lia); lia.
Qed.

Lemma base64_char_plain v : 0 ≤ v < 64 → negb ((base64_char v =? 10) || (base64_char v =? 13)) = true.
Proof. intros Hv. unfold base64_char. destruct_tests; lia. Qed.

(** Lists by three elements at a time. *)
Lemma list_ind_3 {A} (P : list A → Prop) :
  P [] → (∀ a, P [a]) → (∀ a b, P [a; b]) → (∀ a b c l, P l → P (a :: b :: c :: l)) → ∀ l, P l.
Proof.
  intros H0 H1 H2 H3 l. assert (P l ∧ (∀ a, P (a :: l)) ∧ ∀ a b, P (a :: b :: l)) as (? & _ & _); [|done].
  induction l as [|x l (IH0 & IH1 & IH2)]; [auto|]. split_and!; auto.
Qed.

Lemma base64_quanta_encode bs :
  Forall (λ b, 0 ≤ b < 256) bs → base64_quanta (base64_encode bs) = Some bs.
Proof.
  induction bs as [|a|a b|a b c bs IH] using list_ind_3; intros Hall;
    repeat (apply Forall_cons in Hall as [? Hall]); cbn [base64_encode base64_quanta];
    rewrite ?base64_value_char by div_lia; cbn [mbind option_bind].
  - done.
  - do 2 f_equal. div_lia.
  - do 2 f_equal; [div_lia|]. f_equal. div_lia.
  - rewrite IH by done. cbn [mbind option_bind]. do 2 f_equal; [div_lia|]. f_equal; [div_lia|]. f_equal. div_lia.
Qed.

Lemma base64_encode_plain bs :
  Forall (λ b, 0 ≤ b < 256) bs →
  List.filter (λ c, negb ((c =? 10) || (c =? 13))) (base64_encode bs) = base64_encode bs.
Proof.
  induction bs as [|a|a b|a b c bs IH] using list_ind_3; intros Hall;
    repeat (apply Forall_cons in Hall as [? Hall]); cbn [base64_encode List.filter];
    rewrite ?base64_char_plain by div_lia; [done..|].
  by rewrite IH.
Qed.

Lemma base64_decode_encode bs :
  Forall (λ b, 0 ≤ b < 256) bs → base64_decode (base64_encode bs) = Some bs.
Proof. intros Hall. unfold base64_decode. rewrite base64_encode_plain by done. by apply base64_quanta_encode. Qed.

Lemma base64_encode_length bs : 3 * Z.of_nat (List.length (base64_encode bs)) ≤ 4 * Z.of_nat (List.length bs) + 4.
Proof.
  induction bs as [|a|a b|a b c bs IH] using list_ind_3; cbn [base64_encode List.length]; lia.
Qed.

Lemma base64_char_byte v : 0 ≤ v < 64 → 0 ≤ base64_char v < 256.
Proof. intros Hv. unfold base64_char. destruct_tests; lia. Qed.

Lemma base64_encode_bytes bs :
  Forall (λ b, 0 ≤ b < 256) bs → Forall (λ b, 0 ≤ b < 256) (base64_encode bs).
Proof.
  induction bs as [|a|a b|a b c bs IH] using list_ind_3; intros Hall;
    repeat (apply Forall_cons in Hall as [? Hall]); cbn [base64_encode];
    repeat (apply Forall_cons; split; [apply base64_char_byte; div_lia|]); auto.
Qed.

(** * JSON objects of integer members *)

(** A key that needs no escaping. *)
Definition plain_key (s : string) : bool :=
  forallb (λ b, in_range 32 127 b && negb (b =? 34) && negb (b =? 92)) (bytes_of s).

Definition json_key (s : string) : list Z := 34 :: bytes_of s ++ [34].

(** [json.Marshal] of a struct of integer fields. *)
Fixpoint json_int_members (fields : list (string * Z)) : list Z :=
  match fields with
  | [] => []
  | [(k, v)] => json_key k ++ [58] ++ bytes_of (FormatInt v)
  | (k, v) :: rest => json_key k ++ [58] ++ bytes_of (FormatInt v) ++ [44] ++ json_int_members rest
  end.
Definition json_int_object (fields : list (string * Z)) : list Z := 123 :: json_int_members fields ++ [125].

Lemma string_of_runes_ascii bs : Forall (λ b, 0 ≤ b < 128) bs → string_of_runes bs = string_of bs.
Proof.
  intros Hall. unfold string_of_runes. f_equal.
  induction Hall as [|b bs Hb _ IH]; [done|]. rewrite bind_cons, IH. unfold encode_rune, valid_rune, in_range.
  replace (_ || _) with true by lia. replace (b <? 128) with true by lia. done.
Qed.

Lemma parse_string_plain bs rest fuel :
  forallb (λ b, in_range 32 127 b && negb (b =? 34) && negb (b =? 92)) bs = true →
  (List.length bs < fuel)%nat → parse_string fuel (bs ++ 34 :: rest) = Some (bs, rest).
Proof.
  revert fuel. induction bs as [|b bs IH]; intros fuel Hp Hf; (destruct fuel as [|fuel]; [simpl in Hf; lia|]); [done|].
  simpl in Hp, Hf |- *. apply andb_true_iff in Hp as [Hb Hp]. bool_arith.
  replace (b =? 34) with false by lia. replace (b <? 32) with false by lia. replace (b =? 92) with false by lia.
  replace (b <? 128) with true by lia. simpl. rewrite drop_0, IH by (done || lia). done.
Qed.

Lemma bytes_of_length s : List.length (bytes_of s) = String.length s.
Proof. unfold bytes_of. rewrite length_fmap. by induction s as [|a s IH]; simpl; rewrite ?IH. Qed.

Lemma parse_key k rest fuel :
  plain_key k = true → (String.length k < fuel)%nat →
  ∃ rs, parse_string fuel (bytes_of k ++ 34 :: rest) = Some (rs, rest) ∧ string_of_runes rs = k.
Proof.
  intros Hp Hf. exists (bytes_of k). split.
  - apply parse_string_plain; [done|]. by rewrite bytes_of_length.
  - rewrite string_of_runes_ascii; [apply string_of_bytes_of|].
    unfold plain_key in Hp. apply Forall_forall. intros b Hb. rewrite forallb_forall in Hp.
    specialize (Hp b ltac:(by apply list_elem_of_In)). bool_arith. lia.
Qed.

Lemma parse_value_int n rest fuel depth :
  0 ≤ n → ends_number rest →
  parse_value (S fuel) depth (bytes_of (FormatInt n) ++ rest) = Some (JNumber (FormatInt n), rest).
Proof.
  intros Hn Hend. pose proof (parse_number_FormatInt n rest Hn Hend) as Hp.
  assert (∃ b bs, bytes_of (FormatInt n) ++ rest = b :: bs ∧ 48 ≤ b ≤ 57) as (b & bs & Heq & Hb).
  { destruct n as [|p|p]; [|rewrite FormatInt_pos|lia]; [by eexists _, _|].
    destruct (digits_of_cons p) as (b & ds & -> & Hall & _). apply Forall_cons in Hall as [Hb _].
    eexists _, _. split; [done|]. by apply in_range_spec. }
  rewrite Heq in Hp |- *. cbn [parse_value skip_space].
  replace (is_space b) with false by (unfold is_space; lia).
  destruct b as [|q|q]; [lia| |lia].
  repeat (destruct q as [q|q|]; try lia); rewrite Hp; done.
Qed.

(** One member, and what its separator says. *)
Lemma parse_member_int k v sep tail fuel depth :
  plain_key k = true → 0 ≤ v → (String.length k < fuel)%nat → sep = 44 ∨ sep = 125 →
  parse_members (S fuel) depth (34 :: bytes_of k ++ 34 :: 58 :: bytes_of (FormatInt v) ++ sep :: tail) =
    if sep =? 44 then
      '(fs, r) ← parse_members fuel depth (skip_space tail);
      Some ((k, JNumber (FormatInt v)) :: fs, r)
    else Some ([(k, JNumber (FormatInt v))], tail).
Proof.
  intros Hk Hv Hf Hsep. destruct (parse_key k (58 :: bytes_of (FormatInt v) ++ sep :: tail) fuel Hk Hf)
    as (rs & Hs & Hrs).
  assert (ends_number (sep :: tail)) as Hend by (destruct Hsep as [->| ->]; done).
  destruct fuel as [|fuel]; [lia|].
  cbn [parse_members]. rewrite Hs. cbn [mbind option_bind].
  change (skip_space (58 :: ?x)) with (58 :: x). cbv iota beta.
  change (skip_space (58 :: bytes_of (FormatInt v) ++ sep :: tail))
    with (58 :: bytes_of (FormatInt v) ++ sep :: tail). cbv iota beta.
  rewrite parse_value_int by done. cbn [mbind option_bind].
  rewrite Hrs. by destruct Hsep as [->| ->].
Qed.

Lemma json_int_members_last k v rest :
  json_int_members [(k, v)] ++ rest = 34 :: bytes_of k ++ 34 :: 58 :: bytes_of (FormatInt v) ++ rest.
Proof. simpl. by rewrite <-!app_assoc. Qed.

Lemma json_int_members_cons k v kv fields rest :
  json_int_members ((k, v) :: kv :: fields) ++ rest =
  34 :: bytes_of k ++ 34 :: 58 :: bytes_of (FormatInt v) ++ 44 :: json_int_members (kv :: fields) ++ rest.
Proof.
  cbn [json_int_members]. unfold json_key. simpl app. f_equal. rewrite <-!app_assoc. simpl app.
  do 3 f_equal. rewrite <-!app_assoc. done.
Qed.

Lemma json_int_members_quote kv fields : ∃ bs, json_int_members (kv :: fields) = 34 :: bs.
Proof. destruct kv as [k v], fields; simpl; by eexists. Qed.

(** The members, from after the opening brace. *)
Lemma parse_members_int fields depth rest fuel :
  fields ≠ [] → Forall (λ kv, plain_key kv.1 = true ∧ 0 ≤ kv.2) fields →
  (List.length (json_int_members fields) < fuel)%nat →
  parse_members fuel depth (json_int_members fields ++ 125 :: rest) =
    Some ((λ kv, (kv.1, JNumber (FormatInt kv.2))) <$> fields, rest).
Proof.
  revert fuel. induction fields as [|[k v] fields IH]; intros fuel Hne Hall Hf; [done|].
  apply Forall_cons in Hall as [[Hk Hv] Hall]. simpl in Hk, Hv. destruct fuel as [|fuel]; [lia|].
  pose proof (bytes_of_length k) as Hlen. destruct fields as [|kv fields].
  - rewrite <-(app_nil_r (json_int_members _)), json_int_members_last in Hf.
    simpl in Hf. rewrite !length_app in Hf. simpl in Hf.
    rewrite json_int_members_last, parse_member_int; [done|done|done|lia|by right].
  - rewrite <-(app_nil_r (json_int_members _)), json_int_members_cons in Hf.
    cbn [List.length] in Hf. rewrite length_app in Hf. cbn [List.length] in Hf. rewrite length_app in Hf.
    cbn [List.length] in Hf. rewrite length_app in Hf.
    rewrite json_int_members_cons, parse_member_int; [|done|done|lia|by left].
    destruct (json_int_members_quote kv fields) as (bs & Hq).
    assert (skip_space (json_int_members (kv :: fields) ++ 125 :: rest) =
      json_int_members (kv :: fields) ++ 125 :: rest) as -> by (by rewrite Hq).
    rewrite IH by (done || lia). done.
Qed.

Lemma parse_value_object fuel depth bs :
  parse_value (S fuel) (S depth) (123 :: 34 :: bs) =
    '(fs, r) ← parse_members fuel depth (34 :: bs); Some (JObject fs, r).
Proof. done. Qed.

(** A struct of integers, written and parsed. *)
Lemma parse_document_int_object fields :
  fields ≠ [] → Forall (λ kv, plain_key kv.1 = true ∧ 0 ≤ kv.2) fields →
  parse_document (json_int_object fields) =
    Some (JObject ((λ kv, (kv.1, JNumber (FormatInt kv.2))) <$> fields)).
Proof.
  intros Hne Hall. unfold parse_document, json_int_object.
  set (n := (2 * List.length (123%Z :: json_int_members fields ++ [125%Z]))%nat).
  assert (List.length (json_int_members fields) < n)%nat as Hn.
  { unfold n. simpl. rewrite length_app. simpl. lia. }
  pose proof (parse_members_int fields (pred max_nesting_depth) [] n Hne Hall Hn) as Hp.
  destruct fields as [|kv fields]; [done|]. destruct (json_int_members_quote kv fields) as (bs & Hq).
  clearbody n. change max_nesting_depth with (S (pred max_nesting_depth)).
  rewrite Hq in Hp |- *. change (123 :: (34 :: bs) ++ [125]) with (123 :: 34 :: bs ++ [125]).
  rewrite parse_value_object. change (34 :: bs ++ [125]) with ((34 :: bs) ++ [125]).
  by rewrite Hp.
Qed.

Lemma bytes_cons b bs :
  0 ≤ b < 256 → Forall (λ b, 0 ≤ b < 256) bs → Forall (λ b, 0 ≤ b < 256) (b :: bs).
Proof. by constructor. Qed.

Lemma json_int_object_bytes fields : Forall (λ b, 0 ≤ b < 256) (json_int_object fields).
Proof.
  unfold json_int_object. apply bytes_cons; [lia|]. apply Forall_app_2; [|by apply bytes_cons; [lia|]].
  induction fields as [|[k v] fields IH]; [constructor|].
  assert (Forall (λ b, 0 ≤ b < 256) (json_key k ++ [58] ++ bytes_of (FormatInt v))) as Hone.
  { unfold json_key. apply Forall_app_2; [|apply bytes_cons; [lia|apply bytes_of_bounds]].
    apply bytes_cons; [lia|]. apply Forall_app_2; [apply bytes_of_bounds|by apply bytes_cons; [lia|]]. }
  destruct fields as [|kv fields]; [done|]. cbn [json_int_members].
  rewrite !Forall_app in Hone. destruct Hone as (? & ? & ?).
  repeat (apply Forall_app_2; [done|]). apply bytes_cons; [lia|done].
Qed.
