(* ===== verification/JsonText.v ===== *)
(** [json.Marshal]: JSON text with HTML characters escaped, and that the parser
    reads back what was written, each string with its ill-formed bytes replaced. *)
From Stdlib Require Import Ascii String.
From S2P Require Import Prelude GoStd Json Numerals Encoding.
Open Scope Z_scope.

(** * Writing *)

Definition hex_lower (v : Z) : Z := if v <? 10 then 48 + v else 87 + v.

Definition escape_u4 (r : Z) : list Z :=
  [92; 117; hex_lower (r / 4096); hex_lower (r / 256 mod 16); hex_lower (r / 16 mod 16); hex_lower (r mod 16)].

(** A rune and the width it was decoded with: an ill-formed byte has width 1. *)
Definition escape_rune (d : Z * nat) : list Z :=
  let '(r, n) := d in
  if r <? 128 then
    if (r =? 34) || (r =? 92) then [92; r]
    else if r =? 8 then [92; 98] else if r =? 12 then [92; 102] else if r =? 10 then [92; 110]
    else if r =? 13 then [92; 114] else if r =? 9 then [92; 116]
    else if (r <? 32) || (r =? 60) || (r =? 62) || (r =? 38) then escape_u4 r
    else [r]
  else if (r =? rune_error) && (n =? 1)%nat || (r =? 8232) || (r =? 8233) then escape_u4 r
  else encode_rune r.

Definition escaped (s : string) : list Z := decode_runes (bytes_of s) ≫= escape_rune.
Definition quoted (s : string) : list Z := 34 :: escaped s ++ [34].

Fixpoint separated (items : list (list Z)) : list Z :=
  match items with
  | [] => []
  | [x] => x
  | x :: rest => x ++ 44 :: separated rest
  end.

Fixpoint marshal (v : json) : list Z :=
  match v with
  | JNull => [110; 117; 108; 108]
  | JBool true => [116; 114; 117; 101]
  | JBool false => [102; 97; 108; 115; 101]
  | JNumber lit => bytes_of lit
  | JText s => quoted s
  | JArray vs => 91 :: separated (List.map marshal vs) ++ [93]
  | JObject kvs => 123 :: separated (List.map (λ kv, quoted kv.1 ++ 58 :: marshal kv.2) kvs) ++ [125]
  end.

(** * What is read back *)

Fixpoint reread (v : json) : json :=
  match v with
  | JText s => JText (json_text s)
  | JArray vs => JArray (List.map reread vs)
  | JObject kvs => JObject (List.map (λ kv, (json_text kv.1, reread kv.2)) kvs)
  | _ => v
  end.

(** A number literal: the parser takes it as a whole. *)
Definition literal (lit : string) : Prop :=
  (∃ b bs, bytes_of lit = b :: bs ∧ (b = 45 ∨ 48 ≤ b ≤ 57)) ∧
  Forall (λ b, is_space b = false ∧ b ≠ 34) (bytes_of lit) ∧
  ∀ rest, ends_number rest → parse_number (bytes_of lit ++ rest) = Some (lit, rest).

Fixpoint literals (v : json) : Prop :=
  match v with
  | JNumber lit => literal lit
  | JArray vs => List.fold_right (λ x P, literals x ∧ P) True vs
  | JObject kvs => List.fold_right (λ kv P, literals kv.2 ∧ P) True kvs
  | _ => True
  end.

Fixpoint nesting (v : json) : nat :=
  match v with
  | JArray vs => S (List.fold_right (λ x n, nesting x `max` n)%nat 0%nat vs)
  | JObject kvs => S (List.fold_right (λ kv n, nesting kv.2 `max` n)%nat 0%nat kvs)
  | _ => 0%nat
  end.

(** Induction through arrays and objects. *)
Section json_ind.
Context (P : json → Prop).
Context (Pnull : P JNull) (Pbool : ∀ b, P (JBool b)) (Pnumber : ∀ lit, P (JNumber lit)).
Context (Ptext : ∀ s, P (JText s)) (Parray : ∀ vs, Forall P vs → P (JArray vs)).
Context (Pobject : ∀ kvs, Forall (λ kv, P kv.2) kvs → P (JObject kvs)).

Fixpoint json_tree_ind (v : json) : P v :=
  match v with
  | JNull => Pnull
  | JBool b => Pbool b
  | JNumber lit => Pnumber lit
  | JText s => Ptext s
  | JArray vs =>
      Parray vs ((fix go l : Forall P l :=
        match l with [] => Forall_nil_2 P | x :: l => Forall_cons_2 P x l (json_tree_ind x) (go l) end) vs)
  | JObject kvs =>
      Pobject kvs ((fix go l : Forall (λ kv, P kv.2) l :=
        match l with
        | [] => Forall_nil_2 _
        | kv :: l => Forall_cons_2 (λ kv, P kv.2) kv l (json_tree_ind kv.2) (go l)
        end) kvs)
  end.
End json_ind.

(** * Strings *)

Lemma hex_value_lower v : 0 ≤ v < 16 → hex_value (hex_lower v) = Some v.
Proof. intros Hv. unfold hex_value, hex_lower. destruct_tests; bool_arith; try (f_equal; lia); lia. Qed.

Lemma parse_escape_u4 r rest :
  0 ≤ r < 65536 → ¬ (55296 ≤ r ≤ 57343) →
  ∃ h, escape_u4 r = 92 :: 117 :: h ∧ parse_unicode_escape (h ++ rest) = Some (r, rest).
Proof.
  intros Hr Hs. eexists. split; [done|]. unfold parse_unicode_escape, parse_u4. cbn [app].
  rewrite !hex_value_lower by div_lia. cbn [mbind option_bind].
  replace (((r / 4096 * 16 + r / 256 mod 16) * 16 + r / 16 mod 16) * 16 + r mod 16) with r by div_lia.
  by replace (in_range 55296 57343 r) with false by (unfold in_range; lia).
Qed.

(** The continuation of a string after one rune. *)
Definition then_rune (r : Z) (o : option (list Z * list Z)) : option (list Z * list Z) :=
  '(rs, rest) ← o; Some (r :: rs, rest).

Lemma parse_escape_u4_rune r rest fuel :
  0 ≤ r < 65536 → ¬ (55296 ≤ r ≤ 57343) →
  parse_string (S fuel) (escape_u4 r ++ rest) = then_rune r (parse_string fuel rest).
Proof.
  intros Hr Hs. destruct (parse_escape_u4 r rest Hr Hs) as (h & -> & Hp). cbn [app parse_string].
  change (92 =? 34) with false. change (92 <? 32) with false. change (92 =? 92) with true.
  change (117 =? 117) with true. cbv iota. by rewrite Hp.
Qed.

Lemma parse_encoded_rune r rest fuel :
  valid_rune r = true → 128 ≤ r →
  parse_string (S fuel) (encode_rune r ++ rest) = then_rune r (parse_string fuel rest).
Proof.
  intros Hv Hr. pose proof (decode_encode_rune r rest) as Hd. unfold scalar_of in Hd. rewrite Hv in Hd.
  assert (∃ b bs, encode_rune r = b :: bs ∧ 128 ≤ b) as (b & bs & Heq & Hb).
  { unfold encode_rune. rewrite Hv. replace (r <? 128) with false by lia.
    destruct_tests; eexists _, _; (split; [done|]); div_lia. }
  rewrite Heq in Hd |- *. cbn [app] in Hd |- *. cbn [parse_string].
  replace (b =? 34) with false by lia. replace (b <? 32) with false by lia. replace (b =? 92) with false by lia.
  cbv iota. rewrite Hd. cbv iota beta. change (b :: bs ++ rest) with ((b :: bs) ++ rest).
  by rewrite drop_app_length.
Qed.

Lemma parse_escaped_rune d rest fuel :
  valid_rune d.1 = true →
  parse_string (S fuel) (escape_rune d ++ rest) = then_rune d.1 (parse_string fuel rest).
Proof.
  destruct d as [r n]. cbn [fst]. intros Hv.
  assert (0 ≤ r ∧ ¬ (55296 ≤ r ≤ 57343)) as [H0 Hs].
  { unfold valid_rune, in_range in Hv. lia. }
  unfold escape_rune. destruct (r <? 128) eqn:E; [|destruct (_ || _) eqn:E2].
  - repeat (match goal with |- context [if ?b then _ else _] =>
      lazymatch b with context [r] => destruct b eqn:? | _ => fail end end);
      bool_arith; try (by apply parse_escape_u4_rune; lia).
    + assert (r = 34 ∨ r = 92) as [->| ->] by lia; done.
    + by assert (r = 8) as -> by lia.
    + by assert (r = 12) as -> by lia.
    + by assert (r = 10) as -> by lia.
    + by assert (r = 13) as -> by lia.
    + by assert (r = 9) as -> by lia.
    + cbn [app parse_string]. replace (r =? 34) with false by lia. replace (r <? 32) with false by lia.
      replace (r =? 92) with false by lia. cbv iota. cbn [decode_rune]. rewrite E. done.
  - apply parse_escape_u4_rune; unfold rune_error in *; lia.
  - apply parse_encoded_rune; [done|lia].
Qed.

Lemma decoded_runes_valid s : Forall (λ d, valid_rune d.1 = true) (decode_runes (bytes_of s)).
Proof.
  pose proof (runes_scalar s) as Hs. unfold runes_of in Hs. rewrite Forall_fmap in Hs.
  apply (Forall_impl _ _ _ Hs). intros d Hd. simpl in Hd. unfold scalar_of in Hd.
  destruct (valid_rune d.1) eqn:E; [done|]. by rewrite <-Hd in E.
Qed.

Lemma escape_rune_nonempty d : (0 < List.length (escape_rune d))%nat.
Proof.
  destruct d as [r n]. unfold escape_rune, escape_u4. pose proof (encode_rune_nonempty r) as Hne.
  destruct_tests; simpl; try lia. destruct (encode_rune r); [done|]. simpl. lia.
Qed.

(** A string literal, from after its opening quote. *)
Lemma parse_string_escaped s rest fuel :
  (List.length (escaped s) < fuel)%nat →
  parse_string fuel (escaped s ++ 34 :: rest) = Some (runes_of s, rest).
Proof.
  unfold escaped, runes_of. pose proof (decoded_runes_valid s) as Hv. revert fuel.
  induction Hv as [|d ds Hd _ IH]; intros fuel Hf; (destruct fuel as [|fuel]; [lia|]); [done|].
  rewrite bind_cons in Hf |- *. rewrite length_app in Hf. pose proof (escape_rune_nonempty d).
  rewrite <-app_assoc, parse_escaped_rune, IH by (done || lia). done.
Qed.

(** * Trees *)

Lemma separated_cons x y rest : separated (x :: y :: rest) = x ++ 44 :: separated (y :: rest).
Proof. done. Qed.

Lemma parse_value_text fuel depth s rest :
  (List.length (quoted s) ≤ S fuel)%nat →
  parse_value (S fuel) depth (quoted s ++ rest) = Some (JText (json_text s), rest).
Proof.
  intros Hf. unfold quoted in *. cbn [app List.length] in *. rewrite length_app in Hf. simpl in Hf.
  rewrite <-app_assoc. cbn [app parse_value skip_space]. change (is_space 34) with false. cbv iota.
  rewrite parse_string_escaped by lia. done.
Qed.

Lemma parse_value_number fuel depth lit rest :
  literal lit → ends_number rest →
  parse_value (S fuel) depth (bytes_of lit ++ rest) = Some (JNumber lit, rest).
Proof.
  intros [(b & bs & Heq & Hb) [_ Hp]] Hend. specialize (Hp rest Hend). rewrite Heq in Hp |- *. cbn [app] in *.
  cbn [parse_value skip_space]. replace (is_space b) with false by (unfold is_space; lia). cbv iota.
  destruct b as [|q|q]; [lia| |lia]. repeat (destruct q as [q|q|]; try lia); by rewrite Hp.
Qed.

(** What a value begins with. *)
Lemma marshal_head v : literals v → ∃ b bs, marshal v = b :: bs ∧ is_space b = false ∧ b ≠ 93.
Proof.
  destruct v as [|[]|lit|s|vs|kvs]; intros Hl; try (by eexists _, _; split; [done|]).
  destruct Hl as [(b & bs & Heq & Hb) _]. exists b, bs. split; [done|]. unfold is_space. lia.
Qed.

Lemma skip_space_marshal v rest : literals v → skip_space (marshal v ++ rest) = marshal v ++ rest.
Proof. intros Hl. destruct (marshal_head v Hl) as (b & bs & -> & Hs & _). simpl. by rewrite Hs. Qed.

(** The parser, with fuel [F], reads [v] back. *)
Definition reads (v : json) : Prop := ∀ fuel depth rest,
  literals v → (nesting v ≤ depth)%nat → ends_number rest → (2 * List.length (marshal v) ≤ fuel)%nat →
  parse_value fuel depth (marshal v ++ rest) = Some (reread v, rest).

Lemma marshal_length v : literals v → (1 ≤ List.length (marshal v))%nat.
Proof. intros Hl. destruct (marshal_head v Hl) as (b & bs & -> & _). simpl. lia. Qed.

(** The elements of an array, up to its bracket. *)
Lemma parse_elements_separated v vs fuel depth rest :
  Forall reads (v :: vs) → Forall literals (v :: vs) → Forall (λ x, nesting x ≤ depth)%nat (v :: vs) →
  (2 * List.length (separated (List.map marshal (v :: vs))) + 1 ≤ fuel)%nat →
  parse_elements fuel depth (separated (List.map marshal (v :: vs)) ++ 93 :: rest) =
    Some (List.map reread (v :: vs), rest).
Proof.
  revert v fuel. induction vs as [|u vs IH]; intros v fuel Hr Hl Hn Hf;
    apply Forall_cons in Hr as [Hv Hr], Hl as [Hlv Hl], Hn as [Hnv Hn];
    (destruct fuel as [|fuel]; [lia|]); pose proof (marshal_length v Hlv).
  - cbn [List.map separated] in Hf |- *. cbn [parse_elements]. rewrite Hv by (done || lia). done.
  - change (List.map marshal (v :: u :: vs)) with (marshal v :: marshal u :: List.map marshal vs) in Hf |- *.
    rewrite separated_cons in Hf |- *. rewrite length_app in Hf. cbn [List.length] in Hf.
    cbn [parse_elements]. rewrite <-app_assoc. cbn [app]. rewrite Hv by (done || lia). cbn [mbind option_bind].
    change (skip_space (44 :: ?x)) with (44 :: x). cbv iota beta.
    change (marshal u :: List.map marshal vs) with (List.map marshal (u :: vs)).
    pose proof (IH u fuel Hr Hl Hn) as IHu. rewrite IHu by (simpl in Hf |- *; lia). done.
Qed.

(** A member, from its key's quote to what follows its value. *)
Definition member_text (kv : string * json) : list Z := quoted kv.1 ++ 58 :: marshal kv.2.

Lemma member_text_app kv rest :
  member_text kv ++ rest = 34 :: escaped kv.1 ++ 34 :: 58 :: marshal kv.2 ++ rest.
Proof. unfold member_text, quoted. cbn [app]. by rewrite <-!app_assoc. Qed.

Lemma member_text_length kv :
  List.length (member_text kv) = (3 + List.length (escaped kv.1) + List.length (marshal kv.2))%nat.
Proof. unfold member_text, quoted. rewrite length_app. cbn [List.length]. rewrite length_app. simpl. lia. Qed.

Lemma parse_members_separated kv kvs fuel depth rest :
  Forall (λ kv, reads kv.2) (kv :: kvs) → Forall (λ kv, literals kv.2) (kv :: kvs) →
  Forall (λ kv, nesting kv.2 ≤ depth)%nat (kv :: kvs) →
  (2 * List.length (separated (List.map member_text (kv :: kvs))) + 1 ≤ fuel)%nat →
  parse_members fuel depth (separated (List.map member_text (kv :: kvs)) ++ 125 :: rest) =
    Some (List.map (λ kv, (json_text kv.1, reread kv.2)) (kv :: kvs), rest).
Proof.
  revert kv fuel. induction kvs as [|kv2 kvs IH]; intros kv fuel Hr Hl Hn Hf;
    apply Forall_cons in Hr as [Hv Hr], Hl as [Hlv Hl], Hn as [Hnv Hn]; (destruct fuel as [|fuel]; [lia|]).
  - cbn [List.map separated] in Hf |- *. rewrite member_text_length in Hf. rewrite member_text_app.
    cbn [parse_members]. rewrite parse_string_escaped by lia. cbn [mbind option_bind].
    change (skip_space (58 :: ?x)) with (58 :: x). cbv iota beta.
    rewrite Hv by (done || lia). done.
  - change (List.map member_text (kv :: kv2 :: kvs)) with (member_text kv :: member_text kv2 :: List.map member_text kvs) in Hf |- *.
    rewrite separated_cons in Hf |- *. rewrite length_app, member_text_length in Hf. cbn [List.length] in Hf.
    rewrite <-app_assoc, member_text_app. cbn [app parse_members]. rewrite parse_string_escaped by lia. cbn [mbind option_bind].
    change (skip_space (58 :: ?x)) with (58 :: x). cbv iota beta.
    rewrite Hv by (done || lia). cbn [mbind option_bind].
    change (skip_space (44 :: ?x)) with (44 :: x). cbv iota beta.
    change (member_text kv2 :: List.map member_text kvs) with (List.map member_text (kv2 :: kvs)).
    assert (∀ x, skip_space (separated (List.map member_text (kv2 :: kvs)) ++ x)
      = separated (List.map member_text (kv2 :: kvs)) ++ x) as ->.
    { intros x. destruct kvs; done. }
    pose proof (IH kv2 fuel Hr Hl Hn) as IH2. rewrite IH2 by (simpl in Hf |- *; lia). done.
Qed.

Lemma literals_array vs : literals (JArray vs) → Forall literals vs.
Proof. simpl. induction vs; simpl; [constructor|]. intros [? ?]. constructor; auto. Qed.
Lemma literals_object kvs : literals (JObject kvs) → Forall (λ kv, literals kv.2) kvs.
Proof. simpl. induction kvs; simpl; [constructor|]. intros [? ?]. constructor; auto. Qed.
Lemma nesting_array vs depth : (nesting (JArray vs) ≤ S depth)%nat → Forall (λ x, nesting x ≤ depth)%nat vs.
Proof. simpl. induction vs; simpl; [constructor|]. intros ?. constructor; [lia|]. apply IHvs. lia. Qed.
Lemma nesting_object kvs depth : (nesting (JObject kvs) ≤ S depth)%nat → Forall (λ kv, nesting kv.2 ≤ depth)%nat kvs.
Proof. simpl. induction kvs; simpl; [constructor|]. intros ?. constructor; [lia|]. apply IHkvs. lia. Qed.

Lemma separated_nonempty x rest : (List.length x ≤ List.length (separated (x :: rest)))%nat.
Proof. destruct rest; simpl; [done|]. rewrite length_app. lia. Qed.

Lemma separated_head b bs rest : ∃ tail, separated ((b :: bs) :: rest) = b :: tail.
Proof. destruct rest; simpl; eauto. Qed.

Lemma marshal_reads v : reads v.
Proof.
  induction v as [|[]|lit|s|vs IH|kvs IH] using json_tree_ind; intros fuel depth rest Hl Hn Hend Hf;
    pose proof (marshal_length _ Hl); (destruct fuel as [|fuel]; [lia|]); try done.
  - by apply parse_value_number.
  - apply parse_value_text. cbn [marshal] in Hf. lia.
  - destruct depth as [|depth]; [simpl in Hn; lia|]. apply literals_array in Hl. apply nesting_array in Hn.
    destruct vs as [|v vs]; [done|]. cbn [marshal List.length] in Hf. rewrite length_app in Hf. simpl List.length in Hf at 2.
    pose proof (parse_elements_separated v vs fuel depth rest IH Hl Hn ltac:(lia)) as Hp.
    cbn [marshal]. cbn [app]. rewrite <-app_assoc. cbn [app parse_value skip_space].
    change (is_space 91) with false. cbv iota.
    apply Forall_cons in Hl as [Hlv _]. destruct (marshal_head v Hlv) as (b & bs & Hb & Hsp & Hne).
    cbn [List.map] in Hp |- *. rewrite Hb in Hp |- *.
    destruct (separated_head b bs (List.map marshal vs)) as (tail & Ht). rewrite Ht in Hp |- *. cbn [app] in Hp |- *.
    cbn [skip_space]. rewrite Hsp.
    destruct b as [|q|q]; [by rewrite Hp| |by rewrite Hp].
    do 7 (destruct q as [q|q|]; try done; try (by rewrite Hp)).
  - destruct depth as [|depth]; [simpl in Hn; lia|]. apply literals_object in Hl. apply nesting_object in Hn.
    destruct kvs as [|kv kvs]; [done|]. cbn [marshal List.length] in Hf. rewrite length_app in Hf. simpl List.length in Hf at 2.
    change (λ kv0 : string * json, quoted kv0.1 ++ 58 :: marshal kv0.2) with member_text in Hf.
    pose proof (parse_members_separated kv kvs fuel depth rest IH Hl Hn ltac:(lia)) as Hp.
    cbn [marshal]. change (λ kv0 : string * json, quoted kv0.1 ++ 58 :: marshal kv0.2) with member_text.
    cbn [app]. rewrite <-app_assoc. cbn [app parse_value skip_space].
    change (is_space 123) with false. cbv iota.
    cbn [List.map] in Hp |- *. change (member_text kv) with (34 :: (escaped kv.1 ++ [34]) ++ 58 :: marshal kv.2) in Hp |- *.
    destruct (separated_head 34 ((escaped kv.1 ++ [34]) ++ 58 :: marshal kv.2) (List.map member_text kvs)) as (tail & Ht).
    rewrite Ht in Hp |- *. cbn [app] in Hp |- *. cbn [skip_space]. change (is_space 34) with false. cbv iota.
    by rewrite Hp.
Qed.

Lemma parse_document_marshal v :
  literals v → (nesting v ≤ max_nesting_depth)%nat → parse_document (marshal v) = Some (reread v).
Proof.
  intros Hl Hn. unfold parse_document. rewrite <-(app_nil_r (marshal v)) at 2.
  rewrite marshal_reads; [done|done|done|done|lia].
Qed.

(** Integers are literals. *)
Lemma digits_plain p : Forall (λ b, is_space b = false ∧ b ≠ 34) (bytes_of (digits_of (N.pos p))).
Proof.
  destruct (digits_of_cons p) as (b & ds & -> & Hall & _). apply (Forall_impl _ _ _ Hall). intros x Hx.
  apply in_range_spec in Hx. unfold is_space. lia.
Qed.

Lemma literal_nonnegative n : 0 ≤ n → literal (FormatInt n).
Proof.
  intros Hn. split; [|split; [|by intros rest; apply parse_number_FormatInt]].
  - destruct n as [|p|p]; [by eexists _, _; split; [done|]; right| |lia]. rewrite FormatInt_pos.
    destruct (digits_of_cons p) as (b & ds & -> & Hall & _). apply Forall_cons in Hall as [Hb _].
    exists b, ds. split; [done|]. right. by apply in_range_spec.
  - destruct n as [|p|p]; [by repeat constructor|apply digits_plain|lia].
Qed.

Lemma parse_number_minus bs lit rest :
  (∀ bs', bs ≠ 45 :: bs') → parse_number bs = Some (lit, rest) →
  parse_number (45 :: bs) = Some (String "-" lit, rest).
Proof.
  intros Hne. unfold parse_number.
  assert (match bs with 45 :: r => ([45], r) | _ => ([], bs) end = ([], bs)) as ->.
  { destruct bs as [|b bs]; [done|]. specialize (Hne bs).
    destruct b as [|q|q]; [done| |done]. do 6 (destruct q as [q|q|]; try done). }
  intros ([ds r1] & -> & Hp)%bind_Some. cbn [mbind option_bind].
  apply bind_Some in Hp as ([frac r2] & -> & Hp). cbn [mbind option_bind].
  apply bind_Some in Hp as ([ex r3] & -> & Hp). cbn [mbind option_bind] in Hp |- *.
  injection Hp as <- <-. done.
Qed.

Lemma literal_FormatInt n : literal (FormatInt n).
Proof.
  destruct n as [|p|p]; [by apply literal_nonnegative..|].
  rewrite FormatInt_neg. pose proof (literal_nonnegative (Zpos p) ltac:(lia)) as (_ & _ & Hp).
  change (bytes_of (String "-" (digits_of (N.pos p)))) with (45 :: bytes_of (digits_of (N.pos p))).
  split; [by eexists _, _; split; [done|]; left|]. split; [constructor; [done|apply digits_plain]|]. intros rest Hend. specialize (Hp rest Hend).
  rewrite FormatInt_pos in Hp.
  assert (∀ bs', bytes_of (digits_of (N.pos p)) ++ rest ≠ 45 :: bs') as Hne.
  { destruct (digits_of_cons p) as (b & ds & -> & Hall & _). apply Forall_cons in Hall as [Hb _].
    intros bs' [= -> _]. done. }
  exact (parse_number_minus _ _ _ Hne Hp).
Qed.

(** * What is written are bytes *)

Lemma hex_lower_byte v : 0 ≤ v < 16 → 0 ≤ hex_lower v < 256.
Proof. intros Hv. unfold hex_lower. destruct_tests; lia. Qed.

Lemma escape_rune_bytes d : valid_rune d.1 = true → Forall (λ b, 0 ≤ b < 256) (escape_rune d).
Proof.
  destruct d as [r n]. cbn [fst]. intros Hv. assert (0 ≤ r) as H0 by (unfold valid_rune, in_range in Hv; lia).
  assert (r < 65536 → Forall (λ b, 0 ≤ b < 256) (escape_u4 r)) as Hu.
  { intros Hr. unfold escape_u4.
    repeat (apply bytes_cons; [first [lia | apply hex_lower_byte; div_lia]|]). constructor. }
  unfold escape_rune. destruct (r <? 128) eqn:E; [|destruct (_ || _) eqn:E2; [|apply encode_rune_bytes]].
  - destruct_tests; try (apply Hu; lia); repeat constructor; lia.
  - apply Hu. unfold rune_error in *. lia.
Qed.

Lemma quoted_bytes s : Forall (λ b, 0 ≤ b < 256) (quoted s).
Proof.
  unfold quoted, escaped. apply bytes_cons; [lia|]. apply Forall_app_2; [|by apply bytes_cons; [lia|constructor]].
  pose proof (decoded_runes_valid s) as Hv. induction Hv as [|d ds Hd _ IH]; [constructor|].
  rewrite bind_cons. apply Forall_app_2; [by apply escape_rune_bytes|done].
Qed.

Lemma separated_bytes items :
  Forall (Forall (λ b, 0 ≤ b < 256)) items → Forall (λ b, 0 ≤ b < 256) (separated items).
Proof.
  intros Hall. induction Hall as [|x items Hx Hall IH]; [constructor|]. destruct items as [|y items]; [done|].
  rewrite separated_cons. apply Forall_app_2; [done|]. by apply bytes_cons; [lia|].
Qed.

Lemma marshal_bytes v : Forall (λ b, 0 ≤ b < 256) (marshal v).
Proof.
  induction v as [|[]|lit|s|vs IH|kvs IH] using json_tree_ind;
    [repeat constructor; lia..|apply bytes_of_bounds|apply quoted_bytes| |]; cbn [marshal];
    (apply bytes_cons; [lia|]); (apply Forall_app_2; [|by apply bytes_cons; [lia|constructor]]);
    apply separated_bytes, Forall_fmap; rewrite Forall_forall in *; intros x Hx.
  - by apply IH.
  - apply Forall_app_2; [apply quoted_bytes|]. apply bytes_cons; [lia|by apply IH].
Qed.

(** * Text that is valid UTF-8 is read back as it was. *)

Lemma encode_decode_rune b bs :
  0 ≤ b → (decode_rune (b :: bs)).1 ≠ rune_error ∨ (decode_rune (b :: bs)).2 ≠ 1%nat →
  encode_rune (decode_rune (b :: bs)).1 = take (decode_rune (b :: bs)).2 (b :: bs).
Proof.
  intros Hb Hne. pose proof (decode_rune_scalar b bs Hb) as Hs. unfold encode_rune. fold (scalar_of (decode_rune (b :: bs)).1).
  rewrite Hs. clear Hs. revert Hne. unfold decode_rune.
  destruct bs as [|b1 [|b2 [|b3 bs]]]; destruct_tests; bool_arith; cbn [fst snd take] in *; intros Hne;
    try (exfalso; destruct Hne; done || lia); rewrite ?take_0; repeat f_equal; div_lia.
Qed.

Lemma decode_rune_width b bs : (1 ≤ (decode_rune (b :: bs)).2)%nat.
Proof. unfold decode_rune. destruct bs as [|b1 [|b2 [|b3 bs]]]; destruct_tests; simpl; lia. Qed.

Lemma json_text_id s : ValidString s = true → json_text s = s.
Proof.
  intros Hv. unfold json_text, string_of_runes. rewrite <-(string_of_bytes_of s) at 2. f_equal.
  unfold ValidString, runes_of, decode_runes in *. pose proof (bytes_of_bounds s) as Hb. revert Hb Hv.
  assert (List.length (bytes_of s) ≤ List.length (bytes_of s))%nat as Hle by done. revert Hle.
  generalize (List.length (bytes_of s)) at 2 3 4. generalize (bytes_of s). intros bs fuel. revert bs.
  induction fuel as [|fuel IH]; intros bs Hle Hb Hv; (destruct bs as [|b bs]; [done|]); [simpl in Hle; lia|].
  cbn [decode_runes_fuel forallb] in *. apply andb_true_iff in Hv as [Hd Hv].
  rewrite fmap_cons, bind_cons. apply Forall_cons in Hb as Hb'. rewrite encode_decode_rune; [|lia|].
  - rewrite IH; [by rewrite take_drop|rewrite length_drop| |done].
    + pose proof (decode_rune_width b bs). cbn [List.length] in Hle |- *. lia.
    + by apply Forall_drop.
  - apply negb_true_iff, andb_false_iff in Hd as [?|?]; [left; by apply Z.eqb_neq|right; by apply Nat.eqb_neq].
Qed.
