(* ===== verification/JsonRaw.v ===== *)
(** [json.RawMessage]: values kept as text.  Writing one compacts it, which leaves
    what [json.Marshal] wrote as it is; reading one takes the bytes as they are. *)
From Stdlib Require Import Ascii String.
From S2P Require Import Prelude GoStd Json Numerals Encoding JsonText.
Open Scope Z_scope.

(** * Writing *)

(** Inside a string, HTML characters and line separators are escaped; outside,
    white space is dropped. *)
Fixpoint compact (in_string : bool) (bs : list Z) : list Z :=
  match bs with
  | [] => []
  | b :: rest =>
      if in_string then
        if b =? 34 then b :: compact false rest
        else if b =? 92 then
          match rest with
          | c :: rest' => b :: c :: compact true rest'
          | [] => [b]
          end
        else if (b =? 60) || (b =? 62) || (b =? 38) then escape_u4 b ++ compact true rest
        else
          match rest with
          | c :: d :: rest' =>
              (* U+2028 and U+2029 *)
              if (b =? 226) && (c =? 128) && ((d =? 168) || (d =? 169))
              then escape_u4 (8064 + d) ++ compact true rest' else b :: compact true rest
          | _ => b :: compact true rest
          end
      else if b =? 34 then b :: compact true rest
      else if is_space b then compact false rest
      else b :: compact false rest
  end.

(** The text of a raw value in a document; [None] when it is not JSON. *)
Definition raw_text (bs : list Z) : option (list Z) := _ ← parse_document bs; Some (compact false bs).

(** * Reading *)

(** The members of an object with their values' text. *)
Fixpoint raw_members (fuel : nat) (depth : nat) (bs : list Z) : option (list (string * list Z)) :=
  match fuel with
  | O => None
  | S fuel =>
    match bs with
    | 34 :: rest =>
        '(rs, r1) ← parse_string fuel rest;
        match skip_space r1 with
        | 58 :: r2 =>
            '(_, r3) ← parse_value fuel depth r2;
            let text := take (List.length (skip_space r2) - List.length r3) (skip_space r2) in
            match skip_space r3 with
            | 44 :: r4 => fs ← raw_members fuel depth (skip_space r4); Some ((string_of_runes rs, text) :: fs)
            | 125 :: _ => Some [(string_of_runes rs, text)]
            | _ => None
            end
        | _ => None
        end
    | _ => None
    end
  end.

(** The same fuel as [parse_document]. *)
Definition raw_object (bs : list Z) : option (list (string * list Z)) :=
  match skip_space bs with
  | 123 :: rest => raw_members (2 * List.length bs) (pred max_nesting_depth) (skip_space rest)
  | _ => None
  end.

(** A member whose value is decoded from its text. *)
Definition reparse {S} (set : json → S → option S) (text : list Z) (s : S) : option S :=
  v ← parse_document text; set v s.

(** [json.Unmarshal] into a struct some of whose fields are raw; null leaves it
    as it is. *)
Definition decode_raw_struct {S} (fields : list (string * (list Z → S → option S))) (bs : list Z) (s : S) : option S :=
  v ← parse_document bs;
  match v with
  | JNull => Some s
  | _ =>
      members ← raw_object bs;
      foldl (λ acc kv, s ← acc; match find_field fields kv.1 with Some set => set kv.2 s | None => Some s end)
        (Some s) members
  end.

(** * Compacting what was marshalled *)

Lemma compact_plain b rest :
  b ≠ 34 → b ≠ 92 → b ≠ 60 → b ≠ 62 → b ≠ 38 → b ≠ 226 → compact true (b :: rest) = b :: compact true rest.
Proof.
  intros. cbn [compact]. replace (b =? 34) with false by lia. replace (b =? 92) with false by lia.
  replace ((b =? 60) || (b =? 62) || (b =? 38)) with false by lia.
  replace (b =? 226) with false by lia. by destruct rest as [|c [|d rest]].
Qed.

Lemma compact_escape_u4 r rest :
  0 ≤ r < 65536 → compact true (escape_u4 r ++ rest) = escape_u4 r ++ compact true rest.
Proof.
  intros Hr. unfold escape_u4. cbn [app].
  assert (∀ v x, 0 ≤ v < 16 → compact true (hex_lower v :: x) = hex_lower v :: compact true x) as Hhex.
  { intros v x Hv. apply compact_plain; unfold hex_lower; destruct_tests; lia. }
  change (compact true (92 :: 117 :: ?x)) with (92 :: 117 :: compact true x).
  by rewrite !Hhex by div_lia.
Qed.

Lemma compact_encode_rune r rest :
  valid_rune r = true → 128 ≤ r → r ≠ 8232 → r ≠ 8233 →
  compact true (encode_rune r ++ rest) = encode_rune r ++ compact true rest.
Proof.
  intros Hv Hr H1 H2. unfold encode_rune. rewrite Hv. replace (r <? 128) with false by lia.
  assert (r ≤ 1114111) as Hmax by (unfold valid_rune, in_range in Hv; lia).
  destruct (r <? 2048) eqn:E1; [|destruct (r <? 65536) eqn:E2]; cbn [app].
  - by rewrite !compact_plain by div_lia.
  - destruct (decide (r / 4096 = 2)) as [H4|H4].
    + rewrite H4. change (224 + 2) with 226.
      assert (∀ c d x, ¬ (c = 128 ∧ (d = 168 ∨ d = 169)) →
        compact true (226 :: c :: d :: x) = 226 :: compact true (c :: d :: x)) as Hsep.
      { intros c d x Hcd. cbn [compact]. change (226 =? 34) with false. change (226 =? 92) with false.
        change ((226 =? 60) || (226 =? 62) || (226 =? 38)) with false. change (226 =? 226) with true. cbv iota.
        by replace (true && (c =? 128) && ((d =? 168) || (d =? 169))) with false by lia. }
      rewrite Hsep by div_lia. by rewrite !compact_plain by div_lia.
    + by rewrite !compact_plain by div_lia.
  - by rewrite !compact_plain by div_lia.
Qed.

Lemma compact_escaped_rune d rest :
  valid_rune d.1 = true → compact true (escape_rune d ++ rest) = escape_rune d ++ compact true rest.
Proof.
  destruct d as [r n]. cbn [fst]. intros Hv. assert (0 ≤ r) as H0 by (unfold valid_rune, in_range in Hv; lia).
  unfold escape_rune. destruct (r <? 128) eqn:E; [|destruct (_ || _) eqn:E2].
  - repeat (match goal with |- context [if ?b then _ else _] =>
      lazymatch b with context [r] => destruct b eqn:? | _ => fail end end);
      bool_arith; try done; [by apply compact_escape_u4; lia|]. apply compact_plain; lia.
  - apply compact_escape_u4. unfold rune_error in *. lia.
  - apply compact_encode_rune; [done|lia..].
Qed.

Lemma compact_quoted s rest : compact false (quoted s ++ rest) = quoted s ++ compact false rest.
Proof.
  unfold quoted, escaped. cbn [app]. rewrite <-!app_assoc. cbn [app].
  change (compact false (34 :: ?x)) with (34 :: compact true x). f_equal.
  pose proof (decoded_runes_valid s) as Hv. induction Hv as [|d ds Hd _ IH]; [done|].
  rewrite !bind_cons, <-!app_assoc, compact_escaped_rune by done. by rewrite IH.
Qed.

Lemma compact_literal bs rest :
  Forall (λ b, is_space b = false ∧ b ≠ 34) bs → compact false (bs ++ rest) = bs ++ compact false rest.
Proof.
  intros Hall. induction Hall as [|b bs [Hs Hq] _ IH]; [done|]. cbn [app compact].
  replace (b =? 34) with false by lia. by rewrite Hs, IH.
Qed.

Lemma compact_separated items rest :
  Forall (λ x, ∀ rest, compact false (x ++ rest) = x ++ compact false rest) items →
  compact false (separated items ++ rest) = separated items ++ compact false rest.
Proof.
  intros Hall. induction Hall as [|x items Hx Hall IH]; [done|]. destruct items as [|y items]; [apply Hx|].
  rewrite separated_cons, <-!app_assoc, Hx. cbn [app].
  change (compact false (44 :: ?z)) with (44 :: compact false z). by rewrite IH.
Qed.

Lemma compact_marshal_app v rest :
  literals v → compact false (marshal v ++ rest) = marshal v ++ compact false rest.
Proof.
  revert rest. induction v as [|[]|lit|s|vs IH|kvs IH] using json_tree_ind; intros rest Hl; try done.
  - apply compact_literal. apply Hl.
  - apply compact_quoted.
  - apply literals_array in Hl. cbn [marshal app]. rewrite <-!app_assoc. cbn [app].
    change (compact false (91 :: ?z)) with (91 :: compact false z). f_equal.
    rewrite compact_separated; [done|]. apply Forall_fmap. rewrite Forall_forall in *. intros x Hx. simpl. intros r. by apply IH, Hl.
  - apply literals_object in Hl. cbn [marshal app]. rewrite <-!app_assoc. cbn [app].
    change (compact false (123 :: ?z)) with (123 :: compact false z). f_equal.
    rewrite compact_separated; [done|]. apply Forall_fmap. rewrite Forall_forall in *. intros x Hx r.
    change (compact false ((quoted x.1 ++ 58 :: marshal x.2) ++ r) =
      (quoted x.1 ++ 58 :: marshal x.2) ++ compact false r). rewrite <-!app_assoc, compact_quoted. cbn [app]. change (compact false (58 :: ?z)) with (58 :: compact false z).
    by rewrite IH by auto.
Qed.

Lemma compact_marshal v : literals v → compact false (marshal v) = marshal v.
Proof. intros Hl. pose proof (compact_marshal_app v [] Hl) as Hc. by rewrite !app_nil_r in Hc. Qed.

Lemma raw_text_marshal v :
  literals v → (nesting v ≤ max_nesting_depth)%nat → raw_text (marshal v) = Some (marshal v).
Proof. intros Hl Hn. unfold raw_text. by rewrite parse_document_marshal, <-(compact_marshal v Hl) at 1. Qed.

(** * Reading what was marshalled *)

Lemma take_before (x y : list Z) : take (List.length (x ++ y) - List.length y) (x ++ y) = x.
Proof. rewrite length_app, Nat.add_sub. apply take_app_length. Qed.

(** One member, and what its separator says. *)
Lemma raw_member kv sep tail fuel depth :
  literals kv.2 → (nesting kv.2 ≤ depth)%nat → (2 * List.length (member_text kv) ≤ fuel)%nat → sep = 44 ∨ sep = 125 →
  raw_members (S fuel) depth (member_text kv ++ sep :: tail) =
    if sep =? 44 then fs ← raw_members fuel depth (skip_space tail); Some ((json_text kv.1, marshal kv.2) :: fs)
    else Some [(json_text kv.1, marshal kv.2)].
Proof.
  intros Hl Hn Hf Hsep. rewrite member_text_length in Hf. rewrite member_text_app. cbn [raw_members].
  rewrite parse_string_escaped by lia. cbn [mbind option_bind].
  change (skip_space (58 :: ?x)) with (58 :: x). cbv iota beta.
  assert (ends_number (sep :: tail)) as Hend by (destruct Hsep as [->| ->]; done).
  rewrite skip_space_marshal by done. rewrite marshal_reads by (done || lia). cbn [mbind option_bind].
  rewrite take_before. by destruct Hsep as [->| ->].
Qed.

Lemma raw_members_separated kv kvs fuel depth rest :
  Forall (λ kv, literals kv.2) (kv :: kvs) → Forall (λ kv, nesting kv.2 ≤ depth)%nat (kv :: kvs) →
  (2 * List.length (separated (List.map member_text (kv :: kvs))) + 1 ≤ fuel)%nat →
  raw_members fuel depth (separated (List.map member_text (kv :: kvs)) ++ 125 :: rest) =
    Some (List.map (λ kv, (json_text kv.1, marshal kv.2)) (kv :: kvs)).
Proof.
  revert kv fuel. induction kvs as [|kv2 kvs IH]; intros kv fuel Hl Hn Hf;
    apply Forall_cons in Hl as [Hlv Hl], Hn as [Hnv Hn]; (destruct fuel as [|fuel]; [lia|]).
  - cbn [List.map separated] in Hf |- *. by rewrite raw_member by (auto || lia).
  - change (List.map member_text (kv :: kv2 :: kvs)) with (member_text kv :: member_text kv2 :: List.map member_text kvs) in Hf |- *.
    rewrite separated_cons in Hf |- *. rewrite length_app in Hf. cbn [List.length] in Hf.
    rewrite <-app_assoc. cbn [app]. rewrite raw_member by (auto || lia). change (44 =? 44) with true. cbv iota.
    change (member_text kv2 :: List.map member_text kvs) with (List.map member_text (kv2 :: kvs)).
    assert (∀ x, skip_space (separated (List.map member_text (kv2 :: kvs)) ++ x)
      = separated (List.map member_text (kv2 :: kvs)) ++ x) as ->.
    { intros x. destruct kvs; done. }
    pose proof (IH kv2 fuel Hl Hn) as IH2. rewrite IH2 by (simpl in Hf |- *; lia). done.
Qed.

Lemma raw_object_marshal kvs :
  kvs ≠ [] → literals (JObject kvs) → (nesting (JObject kvs) ≤ max_nesting_depth)%nat →
  raw_object (marshal (JObject kvs)) = Some (List.map (λ kv, (json_text kv.1, marshal kv.2)) kvs).
Proof.
  intros Hne Hl Hn. destruct kvs as [|kv kvs]; [done|]. apply literals_object in Hl.
  assert (Forall (λ kv, nesting kv.2 ≤ pred max_nesting_depth)%nat (kv :: kvs)) as Hn' by (by apply nesting_object).
  unfold raw_object.
  change (marshal (JObject (kv :: kvs))) with (123 :: separated (List.map member_text (kv :: kvs)) ++ [125]).
  change (skip_space (123 :: ?x)) with (123 :: x). cbv iota beta.
  assert (∀ x, skip_space (separated (List.map member_text (kv :: kvs)) ++ x)
    = separated (List.map member_text (kv :: kvs)) ++ x) as -> by (intros x; by destruct kvs).
  apply raw_members_separated; [done|done|].
  cbn [List.length]. rewrite length_app. cbn [List.length]. lia.
Qed.
