(* ===== verification/MessageHistory.v ===== *)
(** [message_history.go]: cursors, the query of [GET /messages], and the page
    around a position of a direct conversation. *)
From S2P Require Import Prelude GoStd Tables Driver Json Schema Changes MessageStore MessageService Sending Numerals ConversationSync Encoding.
Open Scope Z_scope.

Definition messageHistoryCursorVersion : Z := 2.
Definition defaultMessageHistoryLimit : Z := 50.
Definition maxMessageHistoryLimit : Z := 200.
Definition maxMessageHistoryCursorSize : Z := 512.

Inductive messageHistoryDirection : Type := messageHistoryLatest | messageHistoryBefore | messageHistoryAfter.
#[global] Instance messageHistoryDirection_eq_dec : EqDecision messageHistoryDirection.
Proof. solve_decision. Defined.

Record messageHistoryCursor : Type := MessageHistoryCursor {
  cursor_Version : Z; cursor_ConversationID : Z; cursor_Sequence : Z
}.

Record messageHistoryPage : Type := MessageHistoryPage {
  hist_ConversationID : Z; hist_Messages : list message; hist_BeforeCursor : string;
  hist_AfterCursor : string; hist_HasMoreBefore : bool; hist_HasMoreAfter : bool
}.

(** * Cursors *)

Definition encodeMessageHistoryCursor (current : message) : string :=
  string_of (base64_encode (json_int_object [
    ("v"%string, messageHistoryCursorVersion);
    ("conversationId"%string, ConversationID current);
    ("seq"%string, ConversationSeq current)])).

Definition messageHistoryCursor_fields : list (field_setter messageHistoryCursor) := [
  ("v"%string, decode_int64 (λ x c, MessageHistoryCursor x (cursor_ConversationID c) (cursor_Sequence c)));
  ("conversationId"%string, decode_int64 (λ x c, MessageHistoryCursor (cursor_Version c) x (cursor_Sequence c)));
  ("seq"%string, decode_int64 (λ x c, MessageHistoryCursor (cursor_Version c) (cursor_ConversationID c) x))].

Definition decodeMessageHistoryCursor (raw : string) : option messageHistoryCursor :=
  if (len raw =? 0) || (maxMessageHistoryCursorSize <? len raw) then None
  else
    payload ← base64_decode (bytes_of raw);
    v ← parse_document payload;
    cursor ← decode_struct messageHistoryCursor_fields true v (MessageHistoryCursor 0 0 0);
    if negb (cursor_Version cursor =? messageHistoryCursorVersion) || (cursor_ConversationID cursor <=? 0)
         || (cursor_Sequence cursor <=? 0)
    then None else Some cursor.

(** * The request *)

Definition invalid_query (text : string) : problem := (400, "INVALID_QUERY"%string, text).
Definition invalid_cursor (text : string) : problem := (400, "INVALID_CURSOR"%string, text).

Definition parse_cursor (direction : messageHistoryDirection) (raw text : string) :
    result problem (messageHistoryDirection * messageHistoryCursor) :=
  match decodeMessageHistoryCursor raw with
  | Some c => Ok (direction, c)
  | None => Err (invalid_cursor text)
  end.

(** Everything before the first query. *)
Definition parseHistoryQuery (query : query_values) :
    result problem (Z * Z * messageHistoryDirection * messageHistoryCursor) :=
  _ ← check_query_keys ["peerId"; "before"; "after"; "limit"] "only peerId, before, after and limit are allowed"
        invalid_query query;
  peerValues ← match query_lookup "peerId" query with
    | Some vs => Ok vs | None => Err (invalid_query "peerId is required exactly once") end;
  peerID ← match ParseInt (hd ""%string peerValues) with
    | Some p => if 0 <? p then Ok p
                else Err (400, "INVALID_PEER_ID"%string, "peerId must be a positive integer"%string)
    | None => Err (400, "INVALID_PEER_ID"%string, "peerId must be a positive integer"%string) end;
  match query_lookup "before" query, query_lookup "after" query with
  | Some _, Some _ => Err (invalid_query "before and after are mutually exclusive")
  | before, after =>
      limit ← match query_lookup "limit" query with
        | None => Ok defaultMessageHistoryLimit
        | Some vs =>
            match ParseInt (hd ""%string vs) with
            | Some l => if in_range 1 maxMessageHistoryLimit l then Ok l
                        else Err (400, "INVALID_LIMIT"%string, "limit must be between 1 and 200"%string)
            | None => Err (400, "INVALID_LIMIT"%string, "limit must be between 1 and 200"%string)
            end
        end;
      '(direction, cursor) ← match before, after with
        | Some vs, _ => parse_cursor messageHistoryBefore (hd ""%string vs) "before cursor is invalid"
        | None, Some vs => parse_cursor messageHistoryAfter (hd ""%string vs) "after cursor is invalid"
        | None, None => Ok (messageHistoryLatest, MessageHistoryCursor 0 0 0)
        end;
      Ok (peerID, limit, direction, cursor)
  end.

(** * The page *)

(** The conversation of the user and the peer, when the user is a member. *)
Definition select_member_conversation (userID lowUserID highUserID : Z) : db_statement Z :=
  query_row (λ d,
    conversation_id <$> sql_first (λ c, member_exists (conversation_id c) userID d &&
                                        direct_pair lowUserID highUserID c) (conversations d)).

Definition app_resolveDirectConversation (userID peerID : Z) : db_proc Z :=
  let '(lowUserID, highUserID) := if peerID <? userID then (peerID, userID) else (userID, peerID) in
  auto_statement (select_member_conversation userID lowUserID highUserID).

(** The three queries. *)
Definition latestMessageHistoryQuery (conversationID limit : Z) (d : database) : list message :=
  sql_limit limit (sql_order_by_desc ConversationSeq
    (sql_where (λ m, ConversationID m =? conversationID) (messages d))).
Definition beforeMessageHistoryQuery (conversationID seq limit : Z) (d : database) : list message :=
  sql_limit limit (sql_order_by_desc ConversationSeq
    (sql_where (λ m, (ConversationID m =? conversationID) && (ConversationSeq m <? seq)) (messages d))).
Definition afterMessageHistoryQuery (conversationID seq limit : Z) (d : database) : list message :=
  sql_limit limit (sql_order_by ConversationSeq
    (sql_where (λ m, (ConversationID m =? conversationID) && (seq <? ConversationSeq m)) (messages d))).

(** The swapping loop of [reverseMessages]. *)
Fixpoint swap_loop {A} (fuel : nat) (left right : nat) (l : list A) : list A :=
  match fuel with
  | O => l
  | S fuel =>
      if bool_decide (left < right)%nat then
        match l !! left, l !! right with
        | Some a, Some b => swap_loop fuel (S left) (pred right) (<[left := b]> (<[right := a]> l))
        | _, _ => l
        end
      else l
  end.
Definition reverseMessages {A} (l : list A) : list A := swap_loop (List.length l) 0 (pred (List.length l)) l.

Definition history_page (conversationID : Z) (direction : messageHistoryDirection) (limit : Z)
    (rows : list message) : messageHistoryPage :=
  let hasMore := limit <? Z.of_nat (List.length rows) in
  let rows := if hasMore then take (Z.to_nat limit) rows else rows in
  let ms := if direction is messageHistoryAfter then rows else reverseMessages rows in
  MessageHistoryPage conversationID ms
    (match head ms with Some m => encodeMessageHistoryCursor m | None => "" end)
    (match last ms with Some m => encodeMessageHistoryCursor m | None => "" end)
    (if direction is messageHistoryAfter then true else hasMore)
    (match direction with
     | messageHistoryLatest => false | messageHistoryBefore => true | messageHistoryAfter => hasMore end).

Definition listMessages (userID : Z) (query : query_values) : handler messageHistoryPage :=
  let text := "could not list messages"%string in
  let foreign := invalid_cursor "message cursor does not belong to this conversation" in
  '(peerID, limit, direction, cursor) ← refuse (parseHistoryQuery query);
  resolved ← attempt (app_resolveDirectConversation userID peerID);
  match resolved with
  | Err NoRows =>
      if bool_decide (direction = messageHistoryLatest)
      then mret (MessageHistoryPage 0 [] "" "" false false)
      else mthrow foreign
  | Err e => mthrow (internal_problem text e)
  | Ok conversationID =>
      if negb (bool_decide (direction = messageHistoryLatest)) &&
         negb (cursor_ConversationID cursor =? conversationID)
      then mthrow foreign
      else
        rows ← run_error (internal_problem text) (auto_statement (query_all
          (match direction with
           | messageHistoryLatest => latestMessageHistoryQuery conversationID (limit + 1)
           | messageHistoryBefore => beforeMessageHistoryQuery conversationID (cursor_Sequence cursor) (limit + 1)
           | messageHistoryAfter => afterMessageHistoryQuery conversationID (cursor_Sequence cursor) (limit + 1)
           end)));
        mret (history_page conversationID direction limit rows)
  end.

(** * The reversing loop *)

Lemma swap_loop_lookup {A} fuel left right (l : list A) i :
  (right - left ≤ 2 * fuel)%nat → (right < List.length l ∨ right = left)%nat → (left ≤ S right)%nat →
  swap_loop fuel left right l !! i =
    if bool_decide (left ≤ i ≤ right)%nat then l !! (left + right - i)%nat else l !! i.
Proof.
  revert left right l. induction fuel as [|fuel IH]; intros left right l Hf Hr Hl.
  { simpl. case_bool_decide; [f_equal; lia|done]. }
  simpl. case_bool_decide as Hlr.
  - destruct Hr as [Hr|]; [|lia].
    destruct (lookup_lt_is_Some_2 l left) as [a Ha]; [lia|]. destruct (lookup_lt_is_Some_2 l right Hr) as [b Hb].
    rewrite Ha, Hb. rewrite IH by (rewrite ?length_insert; lia).
    destruct (decide (i = left)) as [->|Hil]; [|destruct (decide (i = right)) as [->|Hir]].
    + rewrite bool_decide_eq_false_2, bool_decide_eq_true_2 by lia.
      rewrite list_lookup_insert_eq by (rewrite length_insert; lia). rewrite <-Hb. f_equal. lia.
    + rewrite bool_decide_eq_false_2, bool_decide_eq_true_2 by lia.
      rewrite list_lookup_insert_ne, list_lookup_insert_eq by lia. rewrite <-Ha. f_equal. lia.
    + case_bool_decide; [rewrite bool_decide_eq_true_2 by lia|rewrite bool_decide_eq_false_2 by lia];
        rewrite !list_lookup_insert_ne by lia; [f_equal; lia|done].
  - case_bool_decide; [f_equal; lia|done].
Qed.

Lemma reverseMessages_lookup {A} (l : list A) i :
  reverseMessages l !! i = if bool_decide (i < List.length l)%nat then l !! (List.length l - S i)%nat else None.
Proof.
  unfold reverseMessages. destruct l as [|a l]; [by destruct i|].
  rewrite swap_loop_lookup by (simpl; lia). simpl List.length. simpl pred.
  case_bool_decide; [rewrite bool_decide_eq_true_2 by lia; f_equal; lia|].
  rewrite bool_decide_eq_false_2 by lia. apply lookup_ge_None. simpl. lia.
Qed.

Lemma reverseMessages_spec {A} (l : list A) : reverseMessages l = reverse l.
Proof.
  apply list_eq. intros i. rewrite reverseMessages_lookup. case_bool_decide as Hi.
  - rewrite reverse_lookup by done. done.
  - symmetry. apply lookup_ge_None. rewrite length_reverse. lia.
Qed.

(** * The three windows *)
Section windows.
Context `{TimeText}.
Implicit Types (d : database).

Lemma opp_seqZ lo n : Z.opp <$> seqZ lo n = reverse (seqZ (1 - lo - n) n).
Proof.
  destruct (decide (0 ≤ n)) as [Hn|Hn]; [|by rewrite !seqZ_nil by lia].
  apply list_eq. intros i. rewrite list_lookup_fmap.
  destruct (decide (Z.of_nat i < n)) as [Hi|Hi].
  - rewrite reverse_lookup by (rewrite length_seqZ; lia). rewrite length_seqZ.
    rewrite !lookup_seqZ_lt by lia. simpl. f_equal. lia.
  - rewrite lookup_seqZ_ge by lia. symmetry. apply lookup_ge_None.
    rewrite length_reverse, length_seqZ. lia.
Qed.

(** A set of a conversation's messages is an interval of numbers. *)
Definition interval (rows : list message) (lo n : Z) : Prop :=
  NoDup (ConversationSeq <$> rows) ∧ ∀ k, k ∈ ConversationSeq <$> rows ↔ lo ≤ k < lo + n.

Lemma conversation_interval c id (p : message → bool) (q : Z → bool) lo n d :
  committed_ok d → c ∈ conversations d → conversation_id c = id →
  (∀ m, p m = (ConversationID m =? id) && q (ConversationSeq m)) →
  (∀ k, 1 ≤ k ≤ conversation_last_seq c ∧ q k = true ↔ lo ≤ k < lo + n) →
  interval (sql_where p (messages d)) lo n.
Proof.
  intros [Hok Hall] Hc <- Hp Hq. split.
  - apply NoDup_fmap_2_strong; [|eapply NoDup_fmap_1, (unique_key_sublist ID);
      [apply where_sublist|apply Hok]].
    intros x y [Hx Hbx]%elem_of_where [Hy Hby]%elem_of_where Heq.
    apply (unique_key_inj conversation_key (messages d)); [apply Hok|done|done|].
    rewrite Hp, andb_true_iff in Hbx, Hby. unfold conversation_key. f_equal; [lia|done].
  - intros k. rewrite list_elem_of_fmap, <-Hq. split.
    + intros (m & -> & [Hm Hb]%elem_of_where). rewrite Hp, andb_true_iff in Hb. split; [|tauto].
      destruct (so_message_rows _ Hok m Hm) as (_ & c' & Hc' & Hid & _ & Hle).
      by rewrite (unique_key_inj _ _ c' c (so_conversations _ Hok)) in Hle by (done || lia).
    + intros [Hk Hqk]. destruct (co_messages _ _ (Hall c Hc) k Hk) as (m & Hm & [= Hcid Hseq]).
      exists m. split; [done|]. apply elem_of_where. split; [done|].
      rewrite Hp, andb_true_iff. split; [lia|congruence].
Qed.

(** Ascending: the first numbers; descending and reversed: the last ones. *)
Lemma interval_ascending rows lo n :
  interval rows lo n → ConversationSeq <$> sql_order_by ConversationSeq rows = seqZ lo n.
Proof. intros [Hnd Hin]. by apply order_by_range. Qed.

Lemma interval_descending rows lo n :
  0 ≤ n → interval rows lo n →
  ConversationSeq <$> sql_order_by_desc ConversationSeq rows = reverse (seqZ lo n).
Proof.
  intros Hn [Hnd Hin].
  assert ((λ x, - ConversationSeq x) <$> sql_order_by_desc ConversationSeq rows = seqZ (1 - lo - n) n) as Hneg.
  { apply order_by_range.
    - rewrite (list_fmap_compose ConversationSeq Z.opp). apply NoDup_fmap; [intros ???; lia|done].
    - intros k. rewrite (list_fmap_compose ConversationSeq Z.opp), list_elem_of_fmap. split.
      + intros (j & -> & Hj%Hin). lia.
      + intros Hk. exists (- k). split; [lia|]. apply Hin. lia. }
  apply (f_equal (fmap Z.opp)) in Hneg. rewrite opp_seqZ in Hneg.
  replace (1 - (1 - lo - n) - n) with lo in Hneg by lia. rewrite <-Hneg, <-list_fmap_compose.
  apply list_fmap_ext. intros. unfold compose. lia.
Qed.

Lemma take_reverse_seqZ k lo n :
  0 ≤ n → reverse (take k (reverse (seqZ lo n))) = seqZ (lo + n - Z.of_nat k `min` n) (Z.of_nat k `min` n).
Proof.
  intros Hn. rewrite take_reverse, reverse_involutive, length_seqZ.
  assert (seqZ lo n = seqZ lo (n - Z.of_nat k `min` n) ++
    seqZ (lo + (n - Z.of_nat k `min` n)) (Z.of_nat k `min` n)) as -> by (rewrite <-seqZ_app by lia; f_equal; lia).
  rewrite drop_app_length'; [f_equal; lia|]. rewrite length_seqZ. lia.
Qed.

(** What a page shows: an interval of numbers, stored as they are. *)
Record history_of (id lo n : Z) d (page : messageHistoryPage) : Prop := HistoryOf {
  ho_id : hist_ConversationID page = id;
  ho_seqs : ConversationSeq <$> hist_Messages page = seqZ lo n;
  ho_stored : Forall (λ m, m ∈ messages d ∧ ConversationID m = id) (hist_Messages page);
  ho_before : ∀ m, head (hist_Messages page) = Some m → hist_BeforeCursor page = encodeMessageHistoryCursor m;
  ho_after : ∀ m, last (hist_Messages page) = Some m → hist_AfterCursor page = encodeMessageHistoryCursor m
}.

Lemma history_page_rows id direction limit rows :
  1 ≤ limit →
  hist_Messages (history_page id direction limit (take (Z.to_nat (limit + 1)) rows)) =
    let page := take (Z.to_nat limit) rows in
    if direction is messageHistoryAfter then page else reverse page.
Proof.
  intros Hl. unfold history_page. rewrite length_take.
  assert ((if limit <? Z.of_nat (Z.to_nat (limit + 1) `min` List.length rows)
    then take (Z.to_nat limit) (take (Z.to_nat (limit + 1)) rows) else take (Z.to_nat (limit + 1)) rows)
    = take (Z.to_nat limit) rows) as ->.
  { destruct (limit <? _) eqn:E.
    - rewrite take_take. f_equal. lia.
    - apply Z.ltb_ge in E. rewrite !take_ge; [done|lia|lia]. }
  destruct direction; simpl; rewrite ?reverseMessages_spec; done.
Qed.
End windows.

(** The interval of numbers a request selects, of a conversation of [top]
    messages, and whether there is more on the open side. *)
Definition history_window (direction : messageHistoryDirection) (seq limit top : Z) : Z * Z * bool :=
  match direction with
  | messageHistoryAfter => (seq + 1, limit `min` (0 `max` (top - seq)), limit <? top - seq)
  | _ =>
      let top := if direction is messageHistoryBefore then (seq - 1) `min` top else top in
      let n := limit `min` top in (top + 1 - n, n, limit <? top)
  end.

Section properties.
Context `{TimeText}.
Implicit Types (d : database) (w : db_world).

Lemma history_page_cursors id direction limit rows :
  let page := history_page id direction limit rows in
  (∀ m, head (hist_Messages page) = Some m → hist_BeforeCursor page = encodeMessageHistoryCursor m) ∧
  (∀ m, last (hist_Messages page) = Some m → hist_AfterCursor page = encodeMessageHistoryCursor m).
Proof.
  intros page.
  assert (hist_BeforeCursor page =
    match head (hist_Messages page) with Some m => encodeMessageHistoryCursor m | None => ""%string end) as -> by done.
  assert (hist_AfterCursor page =
    match last (hist_Messages page) with Some m => encodeMessageHistoryCursor m | None => ""%string end) as -> by done.
  by split; intros m ->.
Qed.

Lemma descending_page c id limit top rows d :
  1 ≤ limit → 0 ≤ top → interval rows 1 top →
  (∀ m, m ∈ rows → m ∈ messages d ∧ ConversationID m = id) →
  ∀ direction, direction ≠ messageHistoryAfter → conversation_id c = id →
  let page := history_page id direction limit (sql_limit (limit + 1) (sql_order_by_desc ConversationSeq rows)) in
  history_of id (top + 1 - limit `min` top) (limit `min` top) d page ∧
  hist_HasMoreBefore page = (limit <? top).
Proof.
  intros Hl Ht Hint Hst direction Hdir Hid page.
  pose proof (interval_descending rows 1 top Ht Hint) as Hseq.
  pose proof (history_page_rows id direction limit (sql_order_by_desc ConversationSeq rows) Hl) as Hrows.
  fold (sql_limit (limit + 1) (sql_order_by_desc ConversationSeq rows)) in Hrows. fold page in Hrows.
  simpl in Hrows.
  assert (hist_Messages page = reverse (take (Z.to_nat limit) (sql_order_by_desc ConversationSeq rows))) as Hms
    by (by destruct direction). clear Hrows. split; [constructor|].
  - done.
  - rewrite Hms, fmap_reverse, fmap_take, Hseq, take_reverse_seqZ by done. f_equal; lia.
  - rewrite Hms. apply Forall_reverse, Forall_take, Forall_forall. intros m Hm.
    apply Hst. unfold sql_order_by_desc in Hm. by apply elem_of_order_by in Hm.
  - apply history_page_cursors.
  - apply history_page_cursors.
  - assert (Z.of_nat (List.length (sql_order_by_desc ConversationSeq rows)) = top) as Hlen.
    { rewrite <-(length_fmap ConversationSeq), Hseq, length_reverse, length_seqZ. lia. }
    unfold page, history_page, sql_limit. rewrite length_take.
    transitivity (limit <? Z.of_nat (Z.to_nat (limit + 1) `min` List.length (sql_order_by_desc ConversationSeq rows))).
    + by destruct direction.
    + apply eq_true_iff_eq. rewrite !Z.ltb_lt. lia.
Qed.

Lemma ascending_page id limit seq n rows d :
  1 ≤ limit → 0 ≤ n → interval rows (seq + 1) n →
  (∀ m, m ∈ rows → m ∈ messages d ∧ ConversationID m = id) →
  let page := history_page id messageHistoryAfter limit (sql_limit (limit + 1) (sql_order_by ConversationSeq rows)) in
  history_of id (seq + 1) (limit `min` n) d page ∧ hist_HasMoreAfter page = (limit <? n).
Proof.
  intros Hl Ht Hint Hst page.
  pose proof (interval_ascending rows (seq + 1) n Hint) as Hseq.
  pose proof (history_page_rows id messageHistoryAfter limit (sql_order_by ConversationSeq rows) Hl) as Hms.
  fold (sql_limit (limit + 1) (sql_order_by ConversationSeq rows)) in Hms. fold page in Hms. cbv beta iota zeta in Hms.
  split; [constructor|].
  - done.
  - rewrite Hms, fmap_take, Hseq, take_seqZ. f_equal; lia.
  - rewrite Hms. apply Forall_take, Forall_forall. intros m Hm. apply Hst. by apply elem_of_order_by in Hm.
  - apply history_page_cursors.
  - apply history_page_cursors.
  - assert (Z.of_nat (List.length (sql_order_by ConversationSeq rows)) = n) as Hlen.
    { rewrite <-(length_fmap ConversationSeq), Hseq, length_seqZ. lia. }
    unfold page, history_page, sql_limit. rewrite length_take. cbn [hist_HasMoreAfter].
    apply eq_true_iff_eq. rewrite !Z.ltb_lt. lia.
Qed.

Lemma decodeMessageHistoryCursor_positive raw c :
  decodeMessageHistoryCursor raw = Some c → 0 < cursor_ConversationID c ∧ 0 < cursor_Sequence c.
Proof.
  unfold decodeMessageHistoryCursor. destruct (_ || _); [done|]. intros Hd.
  apply bind_Some in Hd as (? & _ & Hd). apply bind_Some in Hd as (? & _ & Hd).
  apply bind_Some in Hd as (cur0 & _ & Hd). destruct (negb _ || _ || _) eqn:E; [done|]. injection Hd as <-. lia.
Qed.

Lemma parseHistoryQuery_bounds query peer limit direction cursor :
  parseHistoryQuery query = Ok (peer, limit, direction, cursor) →
  0 < peer ∧ 1 ≤ limit ≤ 200 ∧ (direction ≠ messageHistoryLatest → 0 < cursor_Sequence cursor).
Proof.
  unfold parseHistoryQuery. intros ([] & _ & Hp)%result_bind_ok.
  apply result_bind_ok in Hp as (vs & _ & Hp). apply result_bind_ok in Hp as (p & Hpeer & Hp).
  assert (0 < p) as Hpos by (destruct (ParseInt (hd _ vs)) as [x|]; [destruct (0 <? x) eqn:?|]; simplify_eq; lia).
  assert (∀ o raw text dir0 c0, parse_cursor o raw text = Ok (dir0, c0) → 0 < cursor_Sequence c0) as Hcur.
  { intros o raw text dir0 c0. unfold parse_cursor. destruct (decodeMessageHistoryCursor raw) as [c|] eqn:E; [|done].
    intros [= <- <-]. by apply decodeMessageHistoryCursor_positive in E as [_ ?]. }
  destruct (query_lookup "before" query) as [b|], (query_lookup "after" query) as [a|]; [done|..];
    apply result_bind_ok in Hp as (l & Hl & Hp); apply result_bind_ok in Hp as ([dir0 c0] & Hc & [= <- <- <- <-]);
    (assert (1 ≤ l ≤ 200) by (destruct (query_lookup "limit" query) as [lv|]; [|by simplify_eq];
      destruct (ParseInt (hd _ lv)) as [x|]; [|done]; destruct (in_range _ _ x) eqn:Ex; [|done];
      apply in_range_spec in Ex; simplify_eq; done)); split_and!; try done; try lia; intros; eauto.
  by simplify_eq.
Qed.

Lemma select_member_conversation_ok userID low high env d id us :
  select_member_conversation userID low high env d = Ok (id, us) →
  ∃ c, c ∈ conversations d ∧ conversation_id c = id ∧ conversation_kind_of c = Direct low high ∧
    ∃ x, x ∈ members d ∧ member_key x = (id, userID).
Proof.
  unfold select_member_conversation. intros [Hf _]%query_row_ok.
  apply fmap_Some in Hf as (c & Hf & ->). apply sql_first_Some in Hf as [Hc Hb].
  apply andb_true_iff in Hb as [Hm Hk%bool_decide_eq_true]. exists c. split_and!; try done.
  unfold member_exists in Hm. apply sql_exists_true in Hm as (x & Hx & Hb). exists x. split; [done|].
  unfold member_key. apply andb_true_iff in Hb. f_equal; lia.
Qed.

(** Without a row the pair has no conversation: its participants would be members. *)
Lemma select_member_conversation_misses userID low high env d c :
  committed_ok d → select_member_conversation userID low high env d = Err NoRows →
  c ∈ conversations d → conversation_kind_of c = Direct low high → userID = low ∨ userID = high → False.
Proof.
  unfold select_member_conversation, query_row. intros [_ Hall] Hsel Hc Hk Hu.
  destruct (sql_first _ _) as [c'|] eqn:E; [done|]. rewrite sql_first_None in E.
  specialize (E c Hc). apply andb_false_iff in E as [E|E]; [|by apply bool_decide_eq_false in E].
  destruct (co_members _ _ (Hall c Hc) low high userID Hk Hu) as (x & Hx & [= Hid Hux]).
  unfold member_exists in E. rewrite sql_exists_false in E. specialize (E x Hx). lia.
Qed.

(** The page of a resolved conversation. *)
Lemma history_query_page c id direction seq limit d :
  committed_ok d → c ∈ conversations d → conversation_id c = id → 1 ≤ limit →
  (direction ≠ messageHistoryLatest → 0 < seq) →
  let page := history_page id direction limit
    (match direction with
     | messageHistoryLatest => latestMessageHistoryQuery id (limit + 1)
     | messageHistoryBefore => beforeMessageHistoryQuery id seq (limit + 1)
     | messageHistoryAfter => afterMessageHistoryQuery id seq (limit + 1)
     end d) in
  let '(lo, n, more) := history_window direction seq limit (conversation_last_seq c) in
  history_of id lo n d page ∧
  hist_HasMoreBefore page = (if direction is messageHistoryAfter then true else more) ∧
  hist_HasMoreAfter page =
    match direction with messageHistoryLatest => false | messageHistoryBefore => true | messageHistoryAfter => more end.
Proof.
  intros Hd Hc Hid Hl Hseq. pose proof (so_conversation_rows _ (committed_schema _ Hd) c Hc) as Hpos.
  assert (∀ p, (∀ m, p m = true → ConversationID m = id) → ∀ m, m ∈ sql_where p (messages d) →
    m ∈ messages d ∧ ConversationID m = id) as Hst.
  { intros p Hp m [Hm Hb]%elem_of_where. auto. }
  destruct direction; simpl.
  - destruct (descending_page c id limit (conversation_last_seq c)
      (sql_where (λ m, ConversationID m =? id) (messages d)) d Hl Hpos) with (direction := messageHistoryLatest)
      as [Hp Hmore]; [|apply Hst; intros m ?; lia|done|done|done].
    apply (conversation_interval c id _ (λ _, true)); [done..| |intros k; lia].
    intros m. by rewrite andb_true_r.
  - specialize (Hseq ltac:(done)).
    destruct (descending_page c id limit ((seq - 1) `min` conversation_last_seq c)
      (sql_where (λ m, (ConversationID m =? id) && (ConversationSeq m <? seq)) (messages d)) d Hl ltac:(lia))
      with (direction := messageHistoryBefore) as [Hp Hmore];
      [|apply Hst; intros m ?; lia|done|done|done].
    apply (conversation_interval c id _ (λ k, k <? seq)); [done..|]. intros k. lia.
  - specialize (Hseq ltac:(done)).
    destruct (ascending_page id limit seq (0 `max` (conversation_last_seq c - seq))
      (sql_where (λ m, (ConversationID m =? id) && (seq <? ConversationSeq m)) (messages d)) d Hl ltac:(lia))
      as [Hp Hmore]; [|apply Hst; intros m ?; lia|].
    + apply (conversation_interval c id _ (λ k, seq <? k)); [done..|]. intros k. lia.
    + split_and!; [done|done|]. etrans; [exact Hmore|]. apply eq_true_iff_eq. rewrite !Z.ltb_lt. lia.
Qed.

(** C24: a page of history is exactly the interval of the direct conversation
    the request selects, in increasing order and none missing: the last messages,
    those just before the cursor, or those just after it; the flag of the open side
    is exact, its end cursors are those of its first and last message.  The page
    without a conversation is given only to a request without cursor, and only when
    the two have no direct conversation, whichever of them asks. *)
Theorem listMessages_page userID query w page w' :
  db_world_ok w → w_tx w = [] → listMessages userID query w = (Ok page, w') →
  ∃ peer limit direction cursor, parseHistoryQuery query = Ok (peer, limit, direction, cursor) ∧
    (page = MessageHistoryPage 0 [] "" "" false false ∧ direction = messageHistoryLatest ∧
       (∀ c, c ∈ conversations (w_db w') → conversation_kind_of c ≠ pair_of userID peer) ∨
     ∃ c, c ∈ conversations (w_db w') ∧ conversation_kind_of c = pair_of userID peer ∧
       (direction ≠ messageHistoryLatest → cursor_ConversationID cursor = conversation_id c) ∧
       (∃ x, x ∈ members (w_db w') ∧ member_key x = (conversation_id c, userID)) ∧
       let '(lo, n, more) := history_window direction (cursor_Sequence cursor) limit (conversation_last_seq c) in
       history_of (conversation_id c) lo n (w_db w') page ∧
       hist_HasMoreBefore page = (if direction is messageHistoryAfter then true else more) ∧
       hist_HasMoreAfter page =
         match direction with
         | messageHistoryLatest => false | messageHistoryBefore => true | messageHistoryAfter => more
         end).
Proof.
  intros Hw Htx Hrun. unfold listMessages in Hrun.
  apply proc_bind_inv in Hrun as [(? & _ & [=])|([[[peer limit] direction] cursor] & w1 & Hq & Hrun)].
  apply refuse_inv in Hq as [-> Hq]. symmetry in Hq.
  destruct (parseHistoryQuery_bounds _ _ _ _ _ Hq) as (_ & Hl & Hcur).
  exists peer, limit, direction, cursor. split; [done|].
  apply proc_bind_inv in Hrun as [(? & _ & [=])|(res & w1 & Hres & Hrun)].
  apply attempt_inv in Hres as (r0 & Hres & [= <-]). unfold app_resolveDirectConversation in Hres.
  assert (∃ low high, (if peer <? userID then (peer, userID) else (userID, peer)) = (low, high) ∧
    pair_of userID peer = Direct low high) as (low & high & Heq & Hpair).
  { unfold pair_of. destruct (peer <? userID) eqn:E; do 2 eexists; (split; [done|]); f_equal; lia. }
  rewrite Heq in Hres.
  apply auto_query_spec in Hres as (Hw1 & Htx1 & Hev1 & Hsel); [|apply query_row_read|done..].
  destruct res as [[]|id].
  - by apply proc_throw_inv in Hrun as [[=] _].
  - by apply proc_throw_inv in Hrun as [[=] _].
  - case_bool_decide; [|by apply proc_throw_inv in Hrun as [[=] _]].
    apply proc_ret_inv in Hrun as [[= ->] ->]. left. split_and!; [done..|].
    destruct Hsel as [?|(env & Hsel)]; [done|]. intros c Hc Hk.
    eapply (select_member_conversation_misses userID); [apply Hw1|exact Hsel|exact Hc|congruence|].
    rewrite Hpair in Hk. unfold pair_of in Hpair. injection Hpair as <- <-. lia.
  - destruct Hsel as (env & Hsel). apply select_member_conversation_ok in Hsel as (c & Hc & Hid & Hk & x & Hx & Hxk).
    destruct (negb _ && negb _) eqn:Ecur; [by apply proc_throw_inv in Hrun as [[=] _]|].
    apply proc_bind_inv in Hrun as [(? & _ & [=])|(rows & w2 & Hrows & Hrun)].
    apply run_error_inv in Hrows as ([|rows'] & Hrows & [= ->]).
    apply auto_query_spec in Hrows as (Hw2 & Htx2 & Hev2 & env2 & Hsel2); [|apply query_all_read|done..].
    unfold query_all in Hsel2. injection Hsel2 as <-. apply proc_ret_inv in Hrun as [[= ->] ->].
    destruct (ev_conversations _ _ _ Hev2 c Hc) as (c' & Hc' & Hcid' & Hck' & _).
    right. exists c'. split_and!; [done|congruence| | |].
    + intros Hdir. rewrite bool_decide_eq_false_2 in Ecur by done. simpl in Ecur.
      apply negb_false_iff in Ecur. lia.
    + exists x. split; [by apply (ev_members _ _ _ Hev2)|congruence].
    + rewrite Hcid', Hid. apply history_query_page; [apply Hw2|done|congruence|lia|done].
Qed.

Lemma decode_cursor_members v id seq :
  ParseInt (FormatInt v) = Some v → ParseInt (FormatInt id) = Some id → ParseInt (FormatInt seq) = Some seq →
  decode_struct messageHistoryCursor_fields true
    (JObject ((λ kv, (kv.1, JNumber (FormatInt kv.2))) <$>
      [("v"%string, v); ("conversationId"%string, id); ("seq"%string, seq)])) (MessageHistoryCursor 0 0 0) =
    Some (MessageHistoryCursor v id seq).
Proof.
  intros Hv Hi Hs. cbn [fmap list_fmap fst snd].
  generalize dependent (FormatInt v). generalize dependent (FormatInt id). generalize dependent (FormatInt seq).
  intros ss Hs si Hi sv Hv. unfold decode_struct. cbn [foldl]. unfold decode_member. cbn [fst snd].
  unfold messageHistoryCursor_fields. lookup_fields. unfold decode_int64.
  cbn [mbind option_bind]. rewrite Hv. cbn [mbind option_bind]. rewrite Hi. cbn [mbind option_bind].
  by rewrite Hs.
Qed.

Definition cursor_members m : list (string * Z) :=
  [("v"%string, 2); ("conversationId"%string, ConversationID m); ("seq"%string, ConversationSeq m)].

Lemma encode_cursor_bytes m :
  bytes_of (encodeMessageHistoryCursor m) = base64_encode (json_int_object (cursor_members m)).
Proof. unfold encodeMessageHistoryCursor. apply bytes_of_string_of, base64_encode_bytes, json_int_object_bytes. Qed.

Lemma encode_cursor_size m :
  0 < ConversationID m ≤ int64_max → 0 < ConversationSeq m ≤ int64_max →
  0 < len (encodeMessageHistoryCursor m) ≤ maxMessageHistoryCursorSize.
Proof.
  intros Hid Hseq. unfold len. rewrite <-bytes_of_length, encode_cursor_bytes.
  pose proof (base64_encode_length (json_int_object (cursor_members m))) as Hlen.
  assert (List.length (json_int_object (cursor_members m)) ≤ 100)%nat as Hjson.
  { pose proof (FormatInt_length (ConversationID m)) as H1. pose proof (FormatInt_length (ConversationSeq m)) as H2.
    unfold json_int_object, cursor_members, len, is_int64, int64_min in *. simpl.
    rewrite !length_app. simpl. rewrite ?length_app. simpl. rewrite !bytes_of_length. lia. }
  unfold maxMessageHistoryCursorSize. split; [|lia].
  unfold json_int_object. destruct (json_int_members (cursor_members m)) as [|b [|b' bs]]; simpl; lia.
Qed.

Lemma parse_cursor_bytes m :
  0 < ConversationID m → 0 < ConversationSeq m →
  parse_document (json_int_object (cursor_members m)) =
    Some (JObject ((λ kv, (kv.1, JNumber (FormatInt kv.2))) <$> cursor_members m)).
Proof.
  intros Hid Hseq. apply parse_document_int_object; [done|]. unfold cursor_members.
  apply Forall_cons_2; [split; [vm_compute; reflexivity|simpl; lia]|].
  apply Forall_cons_2; [split; [vm_compute; reflexivity|simpl; lia]|].
  apply Forall_cons_2; [split; [vm_compute; reflexivity|simpl; lia]|]. constructor.
Qed.

(** A cursor the server hands out names its message: it is within the
    size limit and decodes to the message's conversation and number. *)
Theorem cursor_round_trip m :
  0 < ConversationID m ≤ int64_max → 0 < ConversationSeq m ≤ int64_max →
  decodeMessageHistoryCursor (encodeMessageHistoryCursor m) =
    Some (MessageHistoryCursor 2 (ConversationID m) (ConversationSeq m)).
Proof.
  intros Hid Hseq. pose proof (encode_cursor_size m Hid Hseq) as Hsize.
  unfold decodeMessageHistoryCursor.
  replace ((len (encodeMessageHistoryCursor m) =? 0) ||
           (maxMessageHistoryCursorSize <? len (encodeMessageHistoryCursor m))) with false
    by (symmetry; apply orb_false_iff; rewrite Z.eqb_neq, Z.ltb_ge; lia).
  apply bind_Some. eexists. split.
  { rewrite encode_cursor_bytes. apply base64_decode_encode, json_int_object_bytes. }
  apply bind_Some. eexists. split; [apply parse_cursor_bytes; lia|].
  apply bind_Some. eexists. split.
  { apply decode_cursor_members; apply ParseInt_FormatInt; unfold is_int64, int64_min, int64_max in *; lia. }
  cbn [cursor_Version cursor_ConversationID cursor_Sequence].
  destruct (ConversationID m <=? 0) eqn:E1; [apply Z.leb_le in E1; lia|].
  destruct (ConversationSeq m <=? 0) eqn:E2; [apply Z.leb_le in E2; lia|done].
Qed.
End properties.

(** * The properties at concrete inputs *)
Section examples.
#[local] Existing Instance binary_time.
Open Scope string_scope.

Definition bobs_history : messageHistoryPage :=
  MessageHistoryPage 10 [hello_message] (encodeMessageHistoryCursor hello_message)
    (encodeMessageHistoryCursor hello_message) false false.

Lemma listMessages_page_witness :
  ∃ peer limit direction cursor, parseHistoryQuery [("peerId", ["1"])] = Ok (peer, limit, direction, cursor) ∧
    (bobs_history = MessageHistoryPage 0 [] "" "" false false ∧ direction = messageHistoryLatest ∧
       (∀ c, c ∈ conversations (w_db (listMessages 2 [("peerId", ["1"])] bobs_world).2) → conversation_kind_of c ≠ pair_of 2 peer) ∨
     ∃ c, c ∈ conversations (w_db (listMessages 2 [("peerId", ["1"])] bobs_world).2) ∧
       conversation_kind_of c = pair_of 2 peer ∧
       (direction ≠ messageHistoryLatest → cursor_ConversationID cursor = conversation_id c) ∧
       (∃ x, x ∈ members (w_db (listMessages 2 [("peerId", ["1"])] bobs_world).2) ∧
          member_key x = (conversation_id c, 2%Z)) ∧
       let '(lo, n, more) := history_window direction (cursor_Sequence cursor) limit (conversation_last_seq c) in
       history_of (conversation_id c) lo n (w_db (listMessages 2 [("peerId", ["1"])] bobs_world).2) bobs_history ∧
       hist_HasMoreBefore bobs_history = (if direction is messageHistoryAfter then true else more) ∧
       hist_HasMoreAfter bobs_history =
         match direction with
         | messageHistoryLatest => false | messageHistoryBefore => true | messageHistoryAfter => more
         end).
Proof.
  assert (listMessages 2 [("peerId", ["1"])] bobs_world =
    (Ok bobs_history, (listMessages 2 [("peerId", ["1"])] bobs_world).2)) as Hrun by (vm_compute; reflexivity).
  exact (listMessages_page 2 [("peerId", ["1"])] bobs_world bobs_history _ bobs_world_ok eq_refl Hrun).
Defined.

Lemma cursor_round_trip_witness :
  decodeMessageHistoryCursor (encodeMessageHistoryCursor hello_message) = Some (MessageHistoryCursor 2 10 1).
Proof. apply (cursor_round_trip hello_message); split; vm_compute; congruence. Defined.
End examples.
