(* ===== verification/Outbox.v ===== *)
(** [outbox.go]: the worker that claims due events under a lease, publishes them
    and records the outcome.  Every statement commits by itself; other workers are
    other connections of the driver's environment. *)
From Stdlib Require Import Ascii String.
From S2P Require Import Prelude GoStd Tables Driver Json Schema Changes MessageStore.
Open Scope Z_scope.

Record outboxEvent : Type := OutboxEvent {
  EventID : string; EventType : string; PayloadVersion : Z; MessageID : Z; Payload : json;
  AttemptCount : Z; LockToken : string; ReadyAt : option Z
}.

(** [publishFailure], without the error it wraps. *)
Record publishFailure : Type := PublishFailure { permanent : bool; retryAfter : Z }.

(** An error of a publisher: its text and the [publishFailure] that [errors.As]
    finds in its chain. *)
Record publish_error : Type := PublishError {
  error_text : string; error_failure : option publishFailure
}.

Definition permanentPublishError (text : string) : publish_error :=
  PublishError text (Some (PublishFailure true 0)).
Definition retryablePublishError (text : string) (retryAfter : Z) : publish_error :=
  PublishError text (Some (PublishFailure false retryAfter)).

(** * The configuration.  Durations are nanoseconds. *)

Record outboxWorkerConfig : Type := OutboxWorkerConfig {
  EventTypes : list string; BatchSize : Z; Concurrency : Z;
  LeaseDuration : Z; AttemptTimeout : Z; PollInterval : Z;
  MaxAttempts : Z; BaseBackoff : Z; MaxBackoff : Z; jitter : option (Z → Z)
}.

Record outboxWorker : Type := OutboxWorker { config : outboxWorkerConfig; worker_jitter : Z → Z }.

Section jitter.
(** [rand.Int64N n] is a number of [0, n). *)
Context (Int64N : Z → Z).

Definition equalJitter (delay : Z) : Z :=
  let half := Z.quot delay 2 in
  if half <=? 0 then delay else wrap64 (half + Int64N (half + 1)).

Definition defaultOutboxWorkerConfig : outboxWorkerConfig := {|
  EventTypes := ["message.created"%string]; BatchSize := 64; Concurrency := 16;
  LeaseDuration := 30 * second; AttemptTimeout := 10 * second; PollInterval := 500 * millisecond;
  MaxAttempts := 10; BaseBackoff := second; MaxBackoff := 5 * 60 * second; jitter := Some equalJitter |}.

Definition newOutboxWorker (db publisher : bool) (cfg : outboxWorkerConfig) : result string outboxWorker :=
  if negb db || negb publisher then Err "outbox worker requires a database and publisher"%string
  else if bool_decide (EventTypes cfg = []) then
    Err "outbox worker requires at least one event type"%string
  else if (BatchSize cfg <=? 0) || (Concurrency cfg <=? 0) || (MaxAttempts cfg <=? 0) then
    Err "outbox batch size, concurrency and max attempts must be positive"%string
  else if (LeaseDuration cfg <=? 0) || (AttemptTimeout cfg <=? 0) || (PollInterval cfg <=? 0) ||
          (BaseBackoff cfg <=? 0) || (MaxBackoff cfg <=? 0) then
    Err "outbox durations must be positive"%string
  else if LeaseDuration cfg <=? AttemptTimeout cfg then
    Err "outbox attempt timeout must be shorter than its lease"%string
  else if MaxBackoff cfg <? BaseBackoff cfg then
    Err "outbox base backoff cannot exceed max backoff"%string
  else Ok (OutboxWorker cfg (default equalJitter (jitter cfg))).
End jitter.

Definition claimLimit (worker : outboxWorker) : Z := BatchSize (config worker) `min` Concurrency (config worker).

(** The loop of [retryDelay]: [current] counts the attempts already backed off. *)
Fixpoint backoff_loop (fuel : nat) (attempt maxBackoff current delay : Z) : Z :=
  match fuel with
  | O => delay
  | S fuel =>
      if (current <? attempt) && (delay <? maxBackoff) then
        if Z.quot maxBackoff 2 <? delay then maxBackoff
        else backoff_loop fuel attempt maxBackoff (current + 1) (wrap64 (delay * 2))
      else delay
  end.

Definition retryDelay (worker : outboxWorker) (attempt : Z) : Z :=
  let maxBackoff := MaxBackoff (config worker) in
  let delay := backoff_loop (Z.to_nat attempt) attempt maxBackoff 1 (BaseBackoff (config worker)) in
  worker_jitter worker (if maxBackoff <? delay then maxBackoff else delay).

Definition truncateRunes (value : string) (limit : Z) : string :=
  let runes := runes_of value in
  if Z.of_nat (List.length runes) <=? limit then value
  else string_of_runes (take (Z.to_nat limit) runes).

(** * The statements *)

(** [CURRENT_TIMESTAMP + $n * INTERVAL '1 millisecond'], in microseconds. *)
Definition after_milliseconds (env : stmt_env) (ms : Z) : Z := current_timestamp env + ms * 1000.

Definition terminal (e : outbox_row) : bool :=
  negb (opt_none (event_published_at e)) || negb (opt_none (event_dead_at e)).

Definition lease_over (now : Z) (e : outbox_row) : bool :=
  match event_locked_until e with None => true | Some t => t <=? now end.

Definition claimable (eventTypes : list string) (now : Z) (e : outbox_row) : bool :=
  negb (terminal e) && bool_decide (event_type e ∈ eventTypes) &&
  (event_next_attempt_at e <=? now) && lease_over now e.

(** [ORDER BY k1, k2, event_id]: a uuid's bytes order as its lower-case text. *)
Section event_order.
Context (k1 k2 : outbox_row → Z).

Definition event_before (x y : outbox_row) : Prop :=
  k1 x < k1 y ∨ k1 x = k1 y ∧ (k2 x < k2 y ∨ k2 x = k2 y ∧ String.le (event_id x) (event_id y)).
#[global] Instance event_before_dec x y : Decision (event_before x y).
Proof. unfold event_before. apply _. Defined.
End event_order.

Definition claim_order : outbox_row → outbox_row → Prop := event_before event_next_attempt_at event_created_at.
#[global] Instance claim_order_dec x y : Decision (claim_order x y) := event_before_dec _ _ x y.

(** The candidates: due, not held by a transaction in progress, first come first. *)
Definition claim_candidates (eventTypes : list string) (limit : Z) (env : stmt_env) (d : database) : list outbox_row :=
  sql_limit limit (List.filter (λ e, negb (row_held env (event_id e)))
    (merge_sort claim_order (sql_where (claimable eventTypes (current_timestamp env)) (outbox d)))).

(** [attempt_count + 1] in an INTEGER column. *)
Definition next_attempt_count (e : outbox_row) : result db_error Z :=
  if event_attempt_count e <? 2 ^ 31 - 1 then Ok (event_attempt_count e + 1)
  else Err (PgError numeric_value_out_of_range).

Definition claimed_row (env : stmt_env) (leaseMs : Z) (i : nat) (e : outbox_row) : result db_error outbox_row :=
  n ← next_attempt_count e;
  Ok (OutboxRow (event_id e) (event_type e) (event_payload_version e) (event_message_id e) (event_payload e) n
    (event_next_attempt_at e) (Some (after_milliseconds env leaseMs)) (Some (generated_uuid env i))
    (event_ready_at e) (event_published_at e) (event_dead_at e) (event_last_error e) (event_created_at e)).

(** An UPDATE checks the new row. *)
Definition update_event (e : outbox_row) : result db_error change :=
  _ ← first_violation (check_event e); Ok (PutEvent e).

(** The RETURNING list; a claimed row has a token. *)
Definition returned_event (e : outbox_row) : outboxEvent :=
  OutboxEvent (event_id e) (event_type e) (event_payload_version e) (event_message_id e) (event_payload e)
    (event_attempt_count e) (default "" (event_lock_token e))%string (event_ready_at e).

Fixpoint claim_rows (env : stmt_env) (leaseMs : Z) (i : nat) (rows : list outbox_row)
    : result db_error (list outboxEvent * list change) :=
  match rows with
  | [] => Ok ([], [])
  | e :: rest =>
      e' ← claimed_row env leaseMs i e;
      u ← update_event e';
      r ← claim_rows env leaseMs (S i) rest;
      Ok (returned_event e' :: r.1, u :: r.2)
  end.

(** The rows are returned in the candidates' order; PostgreSQL promises none, and
    nothing below depends on it. *)
Definition claim_statement (limit leaseMs : Z) (eventTypes : list string) : db_statement (list outboxEvent) :=
  with_text eventTypes (λ env d, claim_rows env leaseMs 0 (claim_candidates eventTypes limit env d)).

(** An UPDATE of the rows where [p], and how many there were. *)
Definition mark_statement (p : outbox_row → bool) (f : stmt_env → outbox_row → outbox_row) : db_statement Z :=
  λ env d,
    us ← mapM (λ e, update_event (f env e)) (sql_where p (outbox d));
    Ok (rows_affected p (outbox d), us).

(** The row is the one claimed under this token, and not finished. *)
Definition held_under (id token : string) (e : outbox_row) : bool :=
  bool_decide (event_id e = id) && bool_decide (event_lock_token e = Some token) && negb (terminal e).

(** The end of a lease: what the three UPDATEs set besides the lock columns. *)
Definition release_row (next_attempt : Z) (published dead : option Z) (last_error : option string)
    (e : outbox_row) : outbox_row :=
  OutboxRow (event_id e) (event_type e) (event_payload_version e) (event_message_id e) (event_payload e)
    (event_attempt_count e) next_attempt None None (event_ready_at e) published dead last_error
    (event_created_at e).

Definition published_row (env : stmt_env) (e : outbox_row) : outbox_row :=
  release_row (event_next_attempt_at e) (Some (current_timestamp env)) (event_dead_at e) None e.
Definition dead_row (lastError : string) (env : stmt_env) (e : outbox_row) : outbox_row :=
  release_row (event_next_attempt_at e) (event_published_at e) (Some (current_timestamp env)) (Some lastError) e.
Definition retry_row (delayMs : Z) (lastError : string) (env : stmt_env) (e : outbox_row) : outbox_row :=
  release_row (after_milliseconds env delayMs) (event_published_at e) (event_dead_at e) (Some lastError) e.

Definition mark_published_statement (id token : string) : db_statement Z :=
  mark_statement (held_under id token) published_row.
Definition mark_batch_statement (claimed : list (string * string)) : db_statement Z :=
  mark_statement (λ e, existsb (λ c, held_under c.1 c.2 e) claimed) published_row.
Definition mark_dead_statement (id token lastError : string) : db_statement Z :=
  with_text [lastError] (mark_statement (held_under id token) (dead_row lastError)).
Definition mark_retry_statement (id token : string) (delayMs : Z) (lastError : string) : db_statement Z :=
  with_text [lastError] (mark_statement (held_under id token) (retry_row delayMs lastError)).

Definition published_order : outbox_row → outbox_row → Prop :=
  event_before (λ e, default 0 (event_published_at e)) (λ _, 0).
#[global] Instance published_order_dec x y : Decision (published_order x y) := event_before_dec _ _ x y.

Definition published_before (olderThan : Z) (e : outbox_row) : bool :=
  match event_published_at e with Some t => t <? olderThan | None => false end.

Definition doomed (olderThan batchSize : Z) (d : database) : list outbox_row :=
  sql_limit batchSize (merge_sort published_order (sql_where (published_before olderThan) (outbox d))).

Definition cleanup_statement (olderThan batchSize : Z) : db_statement Z := λ _ d,
  let rows := doomed olderThan batchSize d in
  Ok (Z.of_nat (List.length rows), (λ e, DeleteEvent (event_id e)) <$> rows).

(** * The operations *)

Inductive outbox_error : Type :=
| errOutboxLeaseLost
| OutboxDatabaseError (e : db_error)
| CleanupBatchNotPositive.
#[global] Instance outbox_error_eq_dec : EqDecision outbox_error.
Proof. solve_decision. Defined.

Abbreviation outbox_proc := (proc (world database change) outbox_error).

Definition exec {A} (st : db_statement A) : outbox_proc A := run_error OutboxDatabaseError (auto_statement st).

(** [command.RowsAffected() != n]. *)
Definition exec_rows (n : Z) (st : db_statement Z) : outbox_proc unit :=
  affected ← exec st;
  if affected =? n then mret tt else mthrow errOutboxLeaseLost.

Definition claim (worker : outboxWorker) : outbox_proc (list outboxEvent) :=
  exec (claim_statement (claimLimit worker) (Milliseconds (LeaseDuration (config worker)))
    (EventTypes (config worker))).

Definition markPublished (e : outboxEvent) : outbox_proc unit :=
  exec_rows 1 (mark_published_statement (EventID e) (LockToken e)).

Definition markPublishedBatch (events : list outboxEvent) : outbox_proc unit :=
  match events with
  | [] => mret tt
  | _ => exec_rows (Z.of_nat (List.length events))
           (mark_batch_statement ((λ e, (EventID e, LockToken e)) <$> events))
  end.

Definition is_permanent (err : publish_error) : bool :=
  match error_failure err with Some f => permanent f | None => false end.

(** The event is given up. *)
Definition gives_up (worker : outboxWorker) (e : outboxEvent) (err : publish_error) : bool :=
  is_permanent err || (MaxAttempts (config worker) <=? AttemptCount e).

Definition failure_delay (worker : outboxWorker) (e : outboxEvent) (err : publish_error) : Z :=
  let delay := retryDelay worker (AttemptCount e) in
  match error_failure err with
  | Some f => if delay <? retryAfter f then retryAfter f else delay
  | None => delay
  end.

Definition markFailed (worker : outboxWorker) (e : outboxEvent) (err : publish_error) : outbox_proc unit :=
  let lastError := truncateRunes (error_text err) 2000 in
  if gives_up worker e err then
    exec_rows 1 (mark_dead_statement (EventID e) (LockToken e) lastError)
  else
    exec_rows 1 (mark_retry_statement (EventID e) (LockToken e)
      (Milliseconds (failure_delay worker e err)) lastError).

Definition cleanupPublished (olderThan batchSize : Z) : outbox_proc Z :=
  if batchSize <=? 0 then mthrow CleanupBatchNotPositive
  else exec (cleanup_statement olderThan batchSize).

(** * A batch *)

Record outboxPublishOutcome : Type := OutboxPublishOutcome {
  outcome_event : outboxEvent; outcome_err : option publish_error
}.

(** What the program asks of a publisher: [Publish], perhaps
    [PreparePublishBatch], whose publisher may be nil.  The batch's goroutines end
    in some order, and each first looks at the batch's context. *)
Record outboxPublisher : Type := Publisher {
  Publish : outboxEvent → option publish_error;
  PreparePublishBatch : option (list outboxEvent → result string (option (outboxEvent → option publish_error)));
  context_error : outboxEvent → option publish_error;
  arrival : list outboxPublishOutcome → list outboxPublishOutcome;
  arrival_permutation : ∀ l, arrival l ≡ₚ l
}.

(** One error of the [errors.Join] that a batch returns. *)
Inductive batch_error : Type :=
| MarkPublishedError (events : Z) (e : outbox_error)
| EventError (id : string) (e : outbox_error).

Abbreviation batch_proc := (proc (world database change) Empty_set).

Definition outcome_failed (o : outboxPublishOutcome) : bool := negb (opt_none (outcome_err o)).
Definition successful (outcomes : list outboxPublishOutcome) : list outboxEvent :=
  outcome_event <$> List.filter (λ o, negb (outcome_failed o)) outcomes.

Fixpoint mark_failures (worker : outboxWorker) (outcomes : list outboxPublishOutcome)
    : batch_proc (list batch_error) :=
  match outcomes with
  | [] => mret []
  | o :: rest =>
      match outcome_err o with
      | None => mark_failures worker rest
      | Some err =>
          r ← attempt (markFailed worker (outcome_event o) err);
          errs ← mark_failures worker rest;
          mret (match r with Err x => EventError (EventID (outcome_event o)) x :: errs | Ok _ => errs end)
      end
  end.

Definition completeDeliveryBatch (worker : outboxWorker) (outcomes : list outboxPublishOutcome)
    : batch_proc (list batch_error) :=
  let done := successful outcomes in
  published ← match done with [] => mret (Ok tt) | _ => attempt (markPublishedBatch done) end;
  errs ← mark_failures worker outcomes;
  mret (match published with
        | Err x => MarkPublishedError (Z.of_nat (List.length done)) x :: errs
        | Ok _ => errs
        end).

(** The publisher a batch uses, or the error all its events fail with. *)
Definition prepared_publisher (publisher : outboxPublisher) (events : list outboxEvent)
    : result publish_error (outboxEvent → option publish_error) :=
  match PreparePublishBatch publisher with
  | None => Ok (Publish publisher)
  | Some prepare =>
      match prepare events with
      | Err text => Err (retryablePublishError ("prepare outbox publisher batch: " ++ text) 0)
      | Ok None => Err (retryablePublishError "prepared outbox publisher is nil" 0)
      | Ok (Some publish) => Ok publish
      end
  end.

Definition publish_one (publisher : outboxPublisher) (publish : outboxEvent → option publish_error)
    (e : outboxEvent) : outboxPublishOutcome :=
  OutboxPublishOutcome e
    (match context_error publisher e with Some err => Some err | None => publish e end).

Definition delivery_outcomes (publisher : outboxPublisher) (events : list outboxEvent) : list outboxPublishOutcome :=
  match prepared_publisher publisher events with
  | Err failure => (λ e, OutboxPublishOutcome e (Some failure)) <$> events
  | Ok publish => arrival publisher (publish_one publisher publish <$> events)
  end.

Definition deliverBatch (worker : outboxWorker) (publisher : outboxPublisher) (events : list outboxEvent)
    : batch_proc (list batch_error) :=
  completeDeliveryBatch worker (delivery_outcomes publisher events).

(** [RunOnce]: the events claimed, and the error that claiming or the batch
    returned ([inr []] is nil). *)
Definition RunOnce (worker : outboxWorker) (publisher : outboxPublisher)
    : batch_proc (Z * (outbox_error + list batch_error)) :=
  claimed ← attempt (claim worker);
  match claimed with
  | Err x => mret (0, inl x)
  | Ok [] => mret (0, inr [])
  | Ok events =>
      errs ← deliverBatch worker publisher events;
      mret (Z.of_nat (List.length events), inr errs)
  end.

(** One turn of [Run]: the publisher's behaviour during it, whether the context
    has ended after it, and whether it ends before the poll timer fires. *)
Record turn : Type := Turn {
  turn_publisher : outboxPublisher; turn_cancelled : bool; turn_cancelled_waiting : bool
}.

Definition continueAfterBatch (worker : outboxWorker) (t : turn) (processed : Z) : bool :=
  if turn_cancelled t then false
  else if processed =? claimLimit worker then true
  else negb (turn_cancelled_waiting t).

(** [Run] returns when its context ends: the turns it takes until then. *)
Fixpoint Run (worker : outboxWorker) (turns : list turn) : batch_proc unit :=
  match turns with
  | [] => mret tt
  | t :: rest =>
      r ← RunOnce worker (turn_publisher t);
      if continueAfterBatch worker t r.1 then Run worker rest else mret tt
  end.
