(* ===== verification/Events.v ===== *)
(** [websocket.go], from the outbox to the wire: the payload of a message.created
    event, the envelope a connection receives, and the publisher that the outbox
    worker calls. *)
From Stdlib Require Import Ascii String.
From S2P Require Import Prelude GoStd Tables Driver Json Schema MessageStore Outbox Encoding JsonText.
Open Scope Z_scope.

(** * Data *)

Record messageEventRecipient : Type := MessageEventRecipient { recipient_UserID : Z; recipient_Cursor : Z }.

Record messageCreatedEventPayload : Type := MessageCreatedEventPayload {
  payload_Message : message; payload_Recipients : list messageEventRecipient
}.

Record webSocketEnvelope : Type := WebSocketEnvelope {
  envelope_Type : string; envelope_EventID : string; envelope_Cursor : Z; envelope_ConversationID : Z;
  envelope_ConversationSeq : Z; envelope_Message : message
}.

(** * Decoding *)
Section decoding.
Context `{TimeText}.

Definition message_fields : list (field_setter message) := [
  ("id"%string, decode_int64 (λ x m, Message x (ConversationID m) (ConversationSeq m) (ClientMessageID m)
    (SenderID m) (ReceiverID m) (Content m) (CreatedAt m)));
  ("conversationId"%string, decode_int64 (λ x m, Message (ID m) x (ConversationSeq m) (ClientMessageID m)
    (SenderID m) (ReceiverID m) (Content m) (CreatedAt m)));
  ("conversationSeq"%string, decode_int64 (λ x m, Message (ID m) (ConversationID m) x (ClientMessageID m)
    (SenderID m) (ReceiverID m) (Content m) (CreatedAt m)));
  ("clientMessageId"%string, decode_text (λ x m, Message (ID m) (ConversationID m) (ConversationSeq m) x
    (SenderID m) (ReceiverID m) (Content m) (CreatedAt m)));
  ("senderId"%string, decode_int64 (λ x m, Message (ID m) (ConversationID m) (ConversationSeq m)
    (ClientMessageID m) x (ReceiverID m) (Content m) (CreatedAt m)));
  ("receiverId"%string, decode_int64 (λ x m, Message (ID m) (ConversationID m) (ConversationSeq m)
    (ClientMessageID m) (SenderID m) x (Content m) (CreatedAt m)));
  ("content"%string, decode_text (λ x m, Message (ID m) (ConversationID m) (ConversationSeq m)
    (ClientMessageID m) (SenderID m) (ReceiverID m) x (CreatedAt m)));
  ("createdAt"%string, decode_time (λ x m, Message (ID m) (ConversationID m) (ConversationSeq m)
    (ClientMessageID m) (SenderID m) (ReceiverID m) (Content m) x))].

Definition recipient_fields : list (field_setter messageEventRecipient) := [
  ("userId"%string, decode_int64 (λ x r, MessageEventRecipient x (recipient_Cursor r)));
  ("cursor"%string, decode_int64 (λ x r, MessageEventRecipient (recipient_UserID r) x))].

(** A slice: null is nil; jsonb has no duplicate keys, so it is decoded once. *)
Definition decode_slice {A S} (fields : list (field_setter A)) (zero : A) (set : list A → S → S)
    (v : json) (s : S) : option S :=
  match v with
  | JArray vs => l ← mapM (λ x, decode_struct fields false x zero) vs; Some (set l s)
  | JNull => Some (set [] s)
  | _ => None
  end.

Definition payload_fields : list (field_setter messageCreatedEventPayload) := [
  ("message"%string, λ v p,
    m ← decode_struct message_fields false v (payload_Message p);
    Some (MessageCreatedEventPayload m (payload_Recipients p)));
  ("recipients"%string, decode_slice recipient_fields (MessageEventRecipient 0 0)
    (λ rs p, MessageCreatedEventPayload (payload_Message p) rs))].

Definition zero_message : message := Message 0 0 0 "" 0 0 "" zero_time.

(** The loop over the recipients: the users seen. *)
Fixpoint check_recipients (expected seen : gset Z) (rs : list messageEventRecipient) : result string (gset Z) :=
  match rs with
  | [] => Ok seen
  | r :: rest =>
      if recipient_UserID r <=? 0 then Err "message.created recipient is invalid"%string
      else if negb (bool_decide (recipient_UserID r ∈ expected)) then
        Err "message.created recipient is not a message participant"%string
      else if bool_decide (recipient_UserID r ∈ seen) then Err "message.created recipient is duplicated"%string
      else check_recipients expected ({[recipient_UserID r]} ∪ seen) rest
  end.

Definition check_payload (event : outboxEvent) (payload : messageCreatedEventPayload) : result string unit :=
  let m := payload_Message payload in
  let rs := payload_Recipients payload in
  if (ID m <=? 0) || (SenderID m <=? 0) || (ReceiverID m <=? 0) ||
     ((0 <? MessageID event) && negb (ID m =? MessageID event)) || bool_decide (rs = [])
  then Err "message.created payload is incomplete"%string
  else
    let expected : gset Z := {[SenderID m; ReceiverID m]} in
    seen ← check_recipients expected ∅ rs;
    if negb (size seen =? size expected)%nat then Err "message.created recipients are incomplete"%string
    else if (ConversationID m <=? 0) || (ConversationSeq m <=? 0) then
      Err "conversation-scoped message.created payload is incomplete"%string
    else if existsb (λ r, negb (recipient_Cursor r =? 0)) rs then
      Err "conversation-scoped recipient must not contain a user cursor"%string
    else Ok tt.

(** An error's text is what the program writes, without what it wraps. *)
Definition decodeMessageCreatedEvent (event : outboxEvent) : result string messageCreatedEventPayload :=
  if negb (PayloadVersion event =? 4) then
    Err ("unsupported message.created payload version " ++ FormatInt (PayloadVersion event))%string
  else
    match decode_struct payload_fields false (Payload event) (MessageCreatedEventPayload zero_message []) with
    | None => Err "decode message.created payload"%string
    | Some payload => _ ← check_payload event payload; Ok payload
    end.

(** * The envelope *)

(** [json.Marshal] of a [message]. *)
Definition message_struct (m : message) : json := JObject [
  ("id"%string, JNumber (FormatInt (ID m)));
  ("conversationId"%string, JNumber (FormatInt (ConversationID m)));
  ("conversationSeq"%string, JNumber (FormatInt (ConversationSeq m)));
  ("clientMessageId"%string, JText (ClientMessageID m));
  ("senderId"%string, JNumber (FormatInt (SenderID m)));
  ("receiverId"%string, JNumber (FormatInt (ReceiverID m)));
  ("content"%string, JText (Content m));
  ("createdAt"%string, JText (format_time (CreatedAt m)))].

(** [omitempty]. *)
Definition omit_zero (key : string) (z : Z) : list (string * json) :=
  if z =? 0 then [] else [(key, JNumber (FormatInt z))].

Definition envelope_struct (e : webSocketEnvelope) : json := JObject (
  [("type"%string, JText (envelope_Type e)); ("eventId"%string, JText (envelope_EventID e))] ++
  omit_zero "cursor" (envelope_Cursor e) ++
  omit_zero "conversationId" (envelope_ConversationID e) ++
  omit_zero "conversationSeq" (envelope_ConversationSeq e) ++
  [("message"%string, message_struct (envelope_Message e))]).

Definition envelope_for (event : outboxEvent) (payload : messageCreatedEventPayload)
    (recipient : messageEventRecipient) : webSocketEnvelope :=
  WebSocketEnvelope (EventType event) (EventID event) (recipient_Cursor recipient)
    (ConversationID (payload_Message payload)) (ConversationSeq (payload_Message payload))
    (payload_Message payload).

(** * The publisher

    [W] is the state that deliveries change; an error of the router is its text. *)
Context {W : Type}.

(** [webSocketDeliveryRouter.Publish]: how many connections took the payload. *)
Abbreviation delivery_router := (Z → list Z → proc W string Z).

(** [webSocketOutboxPublisher]: its router, and the router's
    [PrepareDeliveryBatch] if it has one.  The router that returns, which may be nil,
    is only published to. *)
Record webSocketOutboxPublisher : Type := WebSocketOutboxPublisher {
  router : delivery_router;
  PrepareDeliveryBatch : option (list Z → proc W string (option delivery_router))
}.

Fixpoint publish_recipients (publisher : webSocketOutboxPublisher) (event : outboxEvent)
    (payload : messageCreatedEventPayload) (rs : list messageEventRecipient) : proc W publish_error unit :=
  match rs with
  | [] => mret tt
  | r :: rest =>
      _ ← run_error (λ text, retryablePublishError ("publish websocket event: " ++ text) 0)
            (router publisher (recipient_UserID r) (marshal (envelope_struct (envelope_for event payload r))));
      publish_recipients publisher event payload rest
  end.

Definition publish_event (publisher : webSocketOutboxPublisher) (event : outboxEvent) :
    proc W publish_error unit :=
  if negb (bool_decide (EventType event = "message.created"%string)) then
    mthrow (permanentPublishError "unsupported websocket event type")
  else
    match decodeMessageCreatedEvent event with
    | Err text => mthrow (permanentPublishError text)
    | Ok payload => publish_recipients publisher event payload (payload_Recipients payload)
    end.

(** The users of a batch, each once, in the order of their first event. *)
Fixpoint add_users (seen : list Z) (rs : list messageEventRecipient) : list Z :=
  match rs with
  | [] => seen
  | r :: rest =>
      add_users (if bool_decide (recipient_UserID r ∈ seen) then seen else seen ++ [recipient_UserID r]) rest
  end.

Fixpoint batch_users (seen : list Z) (events : list outboxEvent) : list Z :=
  match events with
  | [] => seen
  | event :: rest =>
      batch_users
        (if negb (bool_decide (EventType event = "message.created"%string)) then seen
         else match decodeMessageCreatedEvent event with
              | Err _ => seen
              | Ok payload => add_users seen (payload_Recipients payload)
              end) rest
  end.

Definition prepare_publish_batch (publisher : webSocketOutboxPublisher) (events : list outboxEvent) :
    proc W string webSocketOutboxPublisher :=
  match PrepareDeliveryBatch publisher with
  | None => mret publisher
  | Some prepare =>
      prepared ← prepare (batch_users [] events);
      match prepared with
      | None => mthrow "prepared websocket delivery router is nil"%string
      | Some r => mret (WebSocketOutboxPublisher r None)
      end
  end.
End decoding.
