(* ===== verification/EventsOk.v ===== *)
(** Every event that the sending transaction commits is decoded and published: the
    payload's round trip through jsonb, what a decoded payload guarantees, and the
    calls of the router. *)
From Stdlib Require Import Ascii String.
From S2P Require Import Prelude GoStd Tables Driver Json Schema MessageStore Outbox Numerals Encoding JsonText Events.
Open Scope Z_scope.

Section payload.
Context `{TimeText}.
Implicit Types (m : message) (event : outboxEvent).

(** * Round trip *)

(** jsonb orders the members of an object. *)
Lemma message_members (a b c d e f g h : json) :
  jsonb_build_object [("id"%string, a); ("conversationId"%string, b); ("conversationSeq"%string, c);
    ("clientMessageId"%string, d); ("senderId"%string, e); ("receiverId"%string, f); ("content"%string, g);
    ("createdAt"%string, h)] =
  JObject [("id"%string, a); ("content"%string, g); ("senderId"%string, e); ("createdAt"%string, h);
    ("receiverId"%string, f); ("conversationId"%string, b); ("clientMessageId"%string, d);
    ("conversationSeq"%string, c)].
Proof. vm_compute. reflexivity. Qed.

Lemma payload_members (a b : json) :
  jsonb_build_object [("message"%string, a); ("recipients"%string, b)] =
  JObject [("message"%string, a); ("recipients"%string, b)].
Proof. vm_compute. reflexivity. Qed.

(** What int64 fields can hold. *)
Definition int64_message m : Prop :=
  is_int64 (ID m) ∧ is_int64 (ConversationID m) ∧ is_int64 (ConversationSeq m) ∧
  is_int64 (SenderID m) ∧ is_int64 (ReceiverID m).

Lemma decode_message m m0 : int64_message m → decode_struct message_fields false (message_json m) m0 = Some m.
Proof.
  intros (H1 & H2 & H3 & H4 & H5). unfold message_json. rewrite message_members.
  unfold decode_struct. cbn [foldl]. unfold decode_member. cbn [fst snd].
  unfold message_fields. lookup_fields. unfold decode_int64, decode_text, decode_time.
  rewrite !ParseInt_FormatInt, parse_format_time by done. by destruct m.
Qed.

Definition recipient (user : Z) : messageEventRecipient := MessageEventRecipient user 0.

Lemma decode_recipient user r0 :
  is_int64 user → decode_struct recipient_fields false (recipient_json user) r0 =
    Some (MessageEventRecipient user (recipient_Cursor r0)).
Proof.
  intros Hu. unfold recipient_json. change (jsonb_build_object [("userId"%string, JNumber (FormatInt user))])
    with (JObject [("userId"%string, JNumber (FormatInt user))]).
  unfold decode_struct. cbn [foldl]. unfold decode_member. cbn [fst snd]. unfold recipient_fields. lookup_fields.
  unfold decode_int64. by rewrite ParseInt_FormatInt.
Qed.

(** The participants of a message, the sender first. *)
Definition participants m : list Z :=
  if SenderID m =? ReceiverID m then [SenderID m] else [SenderID m; ReceiverID m].

Definition payload_of m : messageCreatedEventPayload :=
  MessageCreatedEventPayload m (recipient <$> participants m).

Lemma decode_payload m p0 :
  int64_message m → decode_struct payload_fields false (message_created_payload m) p0 = Some (payload_of m).
Proof.
  intros Hm. pose proof Hm as (_ & _ & _ & Hs & Hr). unfold message_created_payload. rewrite payload_members.
  unfold decode_struct at 1. cbn [foldl]. unfold decode_member. cbn [fst snd]. unfold payload_fields. lookup_fields.
  cbn [mbind option_bind]. rewrite decode_message by done. cbn [mbind option_bind].
  unfold payload_of, participants, recipients_json. destruct (_ =? _); cbn [decode_slice mapM];
    repeat (rewrite decode_recipient by done; cbn [mbind option_bind]); done.
Qed.

(** * What is accepted *)

Lemma check_recipients_ok expected seen rs seen' :
  check_recipients expected seen rs = Ok seen' ↔
  seen' = list_to_set (recipient_UserID <$> rs) ∪ seen ∧ NoDup (recipient_UserID <$> rs) ∧
  Forall (λ r, 0 < recipient_UserID r ∧ recipient_UserID r ∈ expected ∧ recipient_UserID r ∉ seen) rs.
Proof.
  revert seen. induction rs as [|r rs IH]; intros seen; cbn [check_recipients].
  { rewrite fmap_nil. simpl. rewrite (left_id_L ∅ (∪)). split; [intros [= <-]; split_and!; constructor|by intros (-> & _)]. }
  rewrite fmap_cons, NoDup_cons, Forall_cons. cbn [list_to_set].
  assert (∀ seen, ({[recipient_UserID r]} ∪ list_to_set (recipient_UserID <$> rs) : gset Z) ∪ seen =
    list_to_set (recipient_UserID <$> rs) ∪ ({[recipient_UserID r]} ∪ seen)) as Hset by set_solver.
  destruct (recipient_UserID r <=? 0) eqn:Ep; [split; [done|]; intros (_ & _ & (? & _) & _); lia|].
  case_bool_decide as He; [|split; [done|]; intros (_ & _ & (_ & ? & _) & _); done].
  case_bool_decide as Hs; [split; [done|]; intros (_ & _ & (_ & _ & ?) & _); done|].
  cbn [negb]. rewrite IH, Hset. apply Z.leb_gt in Ep. setoid_rewrite not_elem_of_union.
  split.
  - intros (-> & Hnd & Hall). split_and!; try done.
    + intros (r' & Heq & Hr')%list_elem_of_fmap. rewrite Forall_forall in Hall.
      destruct (Hall r' Hr') as (_ & _ & Hn & _). set_solver.
    + apply (Forall_impl _ _ _ Hall). naive_solver.
  - intros (-> & [Hn Hnd] & _ & Hall). split_and!; [done|done|]. rewrite Forall_forall in Hall |- *.
    intros r' Hr'. destruct (Hall r' Hr') as (? & ? & ?). split_and!; [done|done| |done].
    rewrite elem_of_singleton. intros Heq. apply Hn. rewrite <-Heq. by apply list_elem_of_fmap_2.
Qed.

(** The payload is consistent with the event: the recipients are the message's
    participants, each once. *)
Record payload_ok event (p : messageCreatedEventPayload) : Prop := PayloadOk {
  pk_message : 0 < ID (payload_Message p) ∧ 0 < SenderID (payload_Message p) ∧ 0 < ReceiverID (payload_Message p);
  pk_event : 0 < MessageID event → ID (payload_Message p) = MessageID event;
  pk_conversation : 0 < ConversationID (payload_Message p) ∧ 0 < ConversationSeq (payload_Message p);
  pk_participants : (recipient_UserID <$> payload_Recipients p) ≡ₚ participants (payload_Message p);
  pk_cursors : Forall (λ r, recipient_Cursor r = 0) (payload_Recipients p)
}.

Lemma participants_set m : (list_to_set (participants m) : gset Z) = {[SenderID m; ReceiverID m]}.
Proof. unfold participants. destruct (_ =? _) eqn:E; [apply Z.eqb_eq in E; rewrite <-E|]; set_solver. Qed.

Lemma participants_NoDup m : NoDup (participants m).
Proof.
  unfold participants. destruct (_ =? _) eqn:E; [apply NoDup_singleton|]. apply Z.eqb_neq in E.
  apply NoDup_cons_2; [|apply NoDup_singleton]. by rewrite list_elem_of_singleton.
Qed.

(** A list without duplicates has the elements of a set of its length. *)
Lemma NoDup_covers (l k : list Z) :
  NoDup l → NoDup k → (∀ x, x ∈ l → x ∈ k) → List.length l = List.length k → l ≡ₚ k.
Proof.
  intros Hl Hk Hin Hlen. apply submseteq_length_Permutation; [by apply NoDup_submseteq|lia].
Qed.

Lemma check_payload_sound event p : check_payload event p = Ok tt → payload_ok event p.
Proof.
  unfold check_payload. destruct p as [m rs]. cbn [payload_Message payload_Recipients].
  destruct (_ || _) eqn:E1; [done|]. intros (seen & Hseen & Hp)%result_bind_ok.
  destruct (negb _) eqn:E2 in Hp; [done|]. destruct (_ || _) eqn:E3 in Hp; [done|].
  destruct (existsb _ _) eqn:E4 in Hp; [done|]. clear Hp.
  apply check_recipients_ok in Hseen as (-> & Hnd & Hall). rewrite (right_id_L ∅ (∪)) in E2.
  apply negb_false_iff, Nat.eqb_eq in E2.
  repeat (apply orb_false_iff in E1 as [E1 ?]). apply orb_false_iff in E3 as [? ?].
  split; cbn [payload_Message payload_Recipients]; [lia|lia|lia| |].
  - apply NoDup_covers; [done|apply participants_NoDup| |].
    + intros x (r & -> & Hr)%list_elem_of_fmap. rewrite Forall_forall in Hall. destruct (Hall r Hr) as (_ & He & _).
      rewrite <-participants_set in He. by apply elem_of_list_to_set in He.
    + rewrite <-participants_set in E2. rewrite !size_list_to_set in E2; [done|apply participants_NoDup|done].
  - apply Forall_forall. intros r Hr. apply not_true_iff_false in E4. apply dec_stable. intros Hne. apply E4.
    apply existsb_exists. exists r. split; [by apply list_elem_of_In|]. by apply negb_true_iff, Z.eqb_neq.
Qed.

Lemma check_payload_complete event p : payload_ok event p → check_payload event p = Ok tt.
Proof.
  intros [Hm He Hc Hp Hz]. unfold check_payload. destruct p as [m rs]. cbn [payload_Message payload_Recipients] in *.
  assert (rs ≠ []) as Hne.
  { intros ->. apply Permutation_nil_l in Hp. unfold participants in Hp. by destruct (_ =? _). }
  replace (_ || _) with false.
  2:{ symmetry. rewrite !orb_false_iff, bool_decide_eq_false. split_and!; [lia..| |done].
      apply andb_false_iff. destruct (0 <? MessageID event) eqn:E; [right|by left].
      rewrite He by lia. by rewrite Z.eqb_refl. }
  assert (check_recipients {[SenderID m; ReceiverID m]} ∅ rs = Ok (list_to_set (recipient_UserID <$> rs) ∪ ∅)) as ->.
  { apply check_recipients_ok. split_and!; [done|rewrite Hp; apply participants_NoDup|].
    apply Forall_forall. intros r Hr. apply (list_elem_of_fmap_2 recipient_UserID) in Hr. rewrite Hp in Hr.
    rewrite <-participants_set, elem_of_list_to_set. split_and!; [|done|set_solver].
    unfold participants in Hr. destruct (_ =? _); rewrite ?elem_of_cons in Hr; destruct Hr as [?|Hr]; try lia;
      try (by apply elem_of_nil in Hr). destruct Hr as [?|Hr]; [lia|by apply elem_of_nil in Hr]. }
  rewrite ok_bind, (right_id_L ∅ (∪)), Hp, participants_set, Nat.eqb_refl. cbn [negb].
  replace (_ || _) with false by lia.
  replace (existsb _ rs) with false; [done|]. symmetry. apply not_true_iff_false.
  intros (r & Hr & Hn)%existsb_exists. rewrite Forall_forall in Hz. specialize (Hz r ltac:(by apply list_elem_of_In)).
  by rewrite Hz in Hn.
Qed.

Lemma check_payload_ok event p : check_payload event p = Ok tt ↔ payload_ok event p.
Proof. split; [apply check_payload_sound|apply check_payload_complete]. Qed.

Lemma decode_event_inv event p :
  decodeMessageCreatedEvent event = Ok p → PayloadVersion event = 4 ∧ payload_ok event p.
Proof.
  unfold decodeMessageCreatedEvent. destruct (negb _) eqn:Ev; [done|].
  apply negb_false_iff, Z.eqb_eq in Ev. destruct (decode_struct _ _ _ _) as [q|]; [|done].
  intros ([] & Hc & [= <-])%result_bind_ok. split; [done|]. by apply check_payload_ok.
Qed.

(** A message whose ids the program can have given out. *)
Definition positive_message m : Prop :=
  0 < ID m ∧ 0 < SenderID m ∧ 0 < ReceiverID m ∧ 0 < ConversationID m ∧ 0 < ConversationSeq m.

Lemma decode_event_of event m :
  PayloadVersion event = 4 → MessageID event = ID m → Payload event = message_created_payload m →
  int64_message m → positive_message m → decodeMessageCreatedEvent event = Ok (payload_of m).
Proof.
  intros Hv Hid Hp Hm (? & ? & ? & ? & ?). unfold decodeMessageCreatedEvent. rewrite Hv, Hp, decode_payload by done.
  cbn [Z.eqb Pos.eqb negb]. assert (check_payload event (payload_of m) = Ok tt) as ->; [|done].
  apply check_payload_ok. split; cbn [payload_Message payload_Recipients payload_of]; [lia|lia|lia| |].
  - rewrite <-list_fmap_compose. change (recipient_UserID ∘ recipient) with (@id Z). by rewrite list_fmap_id.
  - by apply Forall_fmap, Forall_true.
Qed.

(** An event is accepted, and as what its payload
    decodes to, exactly when its payload is of version 4, decodes, and holds a
    complete conversation-scoped message, that of the event, with each of its
    participants once among the recipients and no user cursor. *)
Theorem decodeMessageCreatedEvent_accepts event p :
  decodeMessageCreatedEvent event = Ok p ↔
    PayloadVersion event = 4 ∧
    decode_struct payload_fields false (Payload event) (MessageCreatedEventPayload zero_message []) = Some p ∧
    payload_ok event p.
Proof.
  unfold decodeMessageCreatedEvent. destruct (PayloadVersion event =? 4) eqn:Ev; cbn [negb].
  - apply Z.eqb_eq in Ev. destruct (decode_struct _ _ _ _) as [q|]; [|split; [done|by intros (_ & ? & _)]]. split.
    + intros ([] & Hc & [= <-])%result_bind_ok. apply check_payload_ok in Hc. done.
    + intros (_ & [= <-] & Hok%check_payload_ok). by rewrite Hok.
  - apply Z.eqb_neq in Ev. split; [done|]. by intros [? _].
Qed.
End payload.
