(* ===== verification/Hub.v ===== *)
(** [websocket.go], the hub: a client registry that one goroutine owns, the bounded
    queues between it and the connections' writers, and the calls other goroutines
    make.  Clients are objects of a heap, since the registry compares pointers. *)
From Stdlib Require Import Ascii String.
From S2P Require Import Prelude GoStd.
Open Scope Z_scope.

(** * Clients *)

Record webSocketClientConfig : Type := WebSocketClientConfig {
  SendBuffer : Z; ReadLimit : Z; WriteWait : Z; PingPeriod : Z
}.

(** Durations are nanoseconds. *)
Definition defaultWebSocketClientConfig : webSocketClientConfig :=
  WebSocketClientConfig 256 1024 (10 * 10 ^ 9) (25 * 10 ^ 9).

(** [queue] is the [send] channel's buffer, [wire] what was written to the
    connection, [client_closed] the close frame that [shutdown] decided on. *)
Record webSocketClient : Type := WebSocketClient {
  userID : Z; sessionID : Z; connectionID : string; client_config : webSocketClientConfig;
  queue : list (list Z); wire : list (list Z); client_closed : option (Z * string)
}.

(** [connection] says that there is one. *)
Definition newWebSocketClient (user session : Z) (connection_id : string) (connection : bool)
    (config : webSocketClientConfig) : result string webSocketClient :=
  if (user <=? 0) || (session <=? 0) || bool_decide (connection_id = EmptyString) || negb connection
  then Err "websocket client identity and connection are required"%string
  else if (SendBuffer config <=? 0) || (ReadLimit config <=? 0) || (WriteWait config <=? 0) ||
          (PingPeriod config <=? 0)
  then Err "websocket client limits must be positive"%string
  else Ok (WebSocketClient user session connection_id config [] [] None).

(** RFC 6455 status codes. *)
Definition StatusNormalClosure : Z := 1000.
Definition StatusGoingAway : Z := 1001.
Definition StatusPolicyViolation : Z := 1008.

Definition with_queue (q : list (list Z)) (c : webSocketClient) : webSocketClient :=
  WebSocketClient (userID c) (sessionID c) (connectionID c) (client_config c) q (wire c) (client_closed c).

(** [closeOnce]: the first close decides. *)
Definition shutdown_client (code : Z) (reason : string) (c : webSocketClient) : webSocketClient :=
  match client_closed c with
  | Some _ => c
  | None => WebSocketClient (userID c) (sessionID c) (connectionID c) (client_config c) (queue c) (wire c)
              (Some (code, reason))
  end.

(** The buffered channel has room. *)
Definition has_room (c : webSocketClient) : bool :=
  Z.of_nat (List.length (queue c)) <? SendBuffer (client_config c).

(** * The hub's state *)

Abbreviation user_clients := (gmap string nat).

(** [connections] is the gauge of open connections; the other counters are left
    out. *)
Record webSocketHub : Type := WebSocketHub {
  clients : gmap Z user_clients; objects : gmap nat webSocketClient; connections : Z
}.

Definition newWebSocketHub : webSocketHub := WebSocketHub ∅ ∅ 0.

Definition clients_of (user : Z) (h : webSocketHub) : user_clients := default ∅ (clients h !! user).

(** The client pointer registered under a user and a connection id. *)
Definition registered (user : Z) (connection_id : string) (h : webSocketHub) : option nat :=
  clients_of user h !! connection_id.

Definition with_object (ref : nat) (f : webSocketClient → webSocketClient) (h : webSocketHub) : webSocketHub :=
  WebSocketHub (clients h) (alter f ref (objects h)) (connections h).

Definition shutdown (ref : nat) (code : Z) (reason : string) : webSocketHub → webSocketHub :=
  with_object ref (shutdown_client code reason).

(** A map is ranged over in some order, another each time. *)
Record range_order : Type := RangeOrder {
  range_list : user_clients → list (string * nat);
  range_Permutation : ∀ m, range_list m ≡ₚ map_to_list m
}.

Definition in_order : range_order := RangeOrder map_to_list (λ m, reflexivity _).

(** * The hub's goroutine *)

Definition register_client (ref : nat) (h : webSocketHub) : webSocketHub :=
  match objects h !! ref with
  | None => h
  | Some c =>
      WebSocketHub (<[userID c := <[connectionID c := ref]> (clients_of (userID c) h)]> (clients h))
        (objects h) (connections h + 1)
  end.

Definition removeClient (ref : nat) (code : Z) (reason : string) (h : webSocketHub) : webSocketHub :=
  match objects h !! ref with
  | None => h
  | Some c =>
      match clients h !! userID c with
      | None => h
      | Some userClients =>
          if bool_decide (userClients !! connectionID c = Some ref) then
            let rest := delete (connectionID c) userClients in
            shutdown ref code reason
              (WebSocketHub
                 (if bool_decide (rest = ∅) then delete (userID c) (clients h)
                  else <[userID c := rest]> (clients h))
                 (objects h) (connections h - 1))
          else h
      end
  end.

(** One turn of [deliver]'s loop. *)
Definition deliver_one (payload : list Z) (acc : Z * webSocketHub) (entry : string * nat) : Z * webSocketHub :=
  let '(delivered, h) := acc in
  match objects h !! entry.2 with
  | None => acc
  | Some c =>
      if has_room c then (delivered + 1, with_object entry.2 (with_queue (queue c ++ [payload])) h)
      else (delivered, removeClient entry.2 StatusPolicyViolation "slow client" h)
  end.

(** Only the entry at hand is removed while the map is ranged over. *)
Definition deliver (order : range_order) (receiverID : Z) (payload : list Z) (h : webSocketHub) : Z * webSocketHub :=
  foldl (deliver_one payload) (0, h) (range_list order (clients_of receiverID h)).

Definition disconnect_one_of (session : Z) (h : webSocketHub) (entry : string * nat) : webSocketHub :=
  match objects h !! entry.2 with
  | None => h
  | Some c =>
      if (session =? 0) || (sessionID c =? session)
      then removeClient entry.2 StatusPolicyViolation "session revoked" h else h
  end.

Definition disconnectMatching (order : range_order) (user session : Z) (h : webSocketHub) : webSocketHub :=
  foldl (disconnect_one_of session) h (range_list order (clients_of user h)).

Definition disconnectOne (user : Z) (connection_id : string) (h : webSocketHub) : webSocketHub :=
  match registered user connection_id h with
  | Some ref => removeClient ref StatusPolicyViolation "connection replaced" h
  | None => h
  end.

(** The end of [Run]: every client is told and forgotten. *)
Definition registered_refs (h : webSocketHub) : list nat :=
  map_to_list (clients h) ≫= λ uc, (map_to_list uc.2).*2.

Definition stop_hub (h : webSocketHub) : webSocketHub :=
  WebSocketHub ∅
    (objects (foldr (λ ref, shutdown ref StatusGoingAway "server shutting down") h (registered_refs h))) 0.

(** * Steps

    What [Run] receives, and what the connections' own goroutines do: a handshake
    makes a client, a writer takes from its queue, a session check closes. *)
Inductive hub_event : Type :=
| ClientMade (ref : nat) (c : webSocketClient)
| Registered (ref : nat)
| Unregistered (ref : nat) (code : Z) (reason : string)
| Delivered (order : range_order) (receiverID : Z) (payload : list Z)
| SessionDisconnected (order : range_order) (user session : Z)
| ConnectionDisconnected (user : Z) (connection_id : string)
| Written (ref : nat)
| ClientShutdown (ref : nat) (code : Z) (reason : string)
| HubStopped.

Definition write_one (c : webSocketClient) : webSocketClient :=
  match queue c with
  | [] => c
  | payload :: q =>
      WebSocketClient (userID c) (sessionID c) (connectionID c) (client_config c) q (wire c ++ [payload])
        (client_closed c)
  end.

Definition hub_step (h : webSocketHub) (ev : hub_event) : webSocketHub :=
  match ev with
  | ClientMade ref c => WebSocketHub (clients h) (<[ref := c]> (objects h)) (connections h)
  | Registered ref => register_client ref h
  | Unregistered ref code reason => removeClient ref code reason h
  | Delivered order receiver payload => (deliver order receiver payload h).2
  | SessionDisconnected order user session => disconnectMatching order user session h
  | ConnectionDisconnected user id => disconnectOne user id h
  | Written ref => with_object ref write_one h
  | ClientShutdown ref code reason => shutdown ref code reason h
  | HubStopped => stop_hub h
  end.

Definition hub_run (h : webSocketHub) (evs : list hub_event) : webSocketHub := foldl hub_step h evs.

(** * The calls

    A call's select ends in one of three ways.  When its context ends, or the hub
    stops, a request may already be queued: the hub's handling of it is then an
    event of its own. *)
Inductive select_end : Type := SelectContext | SelectStopped | SelectAnswered.

Definition context_error : string := "context done".
Definition errWebSocketHubStopped : string := "websocket hub is stopped".

Definition hub_call {A} (how : select_end) (act : webSocketHub → A * webSocketHub) : proc webSocketHub string A :=
  λ h,
    match how with
    | SelectContext => (Err context_error, h)
    | SelectStopped => (Err errWebSocketHubStopped, h)
    | SelectAnswered => let '(a, h') := act h in (Ok a, h')
    end.

Definition Register (how : select_end) (ref : nat) : proc webSocketHub string unit :=
  hub_call how (λ h, (tt, register_client ref h)).
(** [Unregister] does not wait: [handled] says whether the hub has come to the
    request when it returns. *)
Definition Unregister (how : select_end) (handled : bool) (ref : nat) (code : Z) (reason : string) :
    proc webSocketHub string unit :=
  hub_call how (λ h, (tt, if handled then removeClient ref code reason h else h)).
Definition Publish (how : select_end) (order : range_order) (receiverID : Z) (payload : list Z) :
    proc webSocketHub string Z :=
  hub_call how (deliver order receiverID payload).
Definition DisconnectSession (how : select_end) (order : range_order) (user session : Z) :
    proc webSocketHub string unit :=
  hub_call how (λ h, (tt, disconnectMatching order user session h)).
Definition DisconnectUser (how : select_end) (order : range_order) (user : Z) : proc webSocketHub string unit :=
  hub_call how (λ h, (tt, disconnectMatching order user 0 h)).
Definition DisconnectConnection (how : select_end) (user : Z) (connection_id : string) :
    proc webSocketHub string unit :=
  if (user <=? 0) || bool_decide (connection_id = EmptyString)
  then mthrow "websocket connection identity is required"%string
  else hub_call how (λ h, (tt, disconnectOne user connection_id h)).

(** The end of [run]: what the client is unregistered with. *)
Definition run_end (deadlineExceeded : bool) : Z * string :=
  if deadlineExceeded then (StatusPolicyViolation, "access token expired"%string)
  else (StatusNormalClosure, "connection closed"%string).

(** * The invariant *)

(** A registered pointer leads to a client that lies under its own user and id. *)
Definition registry_ok (h : webSocketHub) : Prop :=
  (∀ user id ref, registered user id h = Some ref →
    ∃ c, objects h !! ref = Some c ∧ userID c = user ∧ connectionID c = id) ∧
  ∀ user m, clients h !! user = Some m → m ≠ ∅.

Definition client_ok (c : webSocketClient) : Prop :=
  Z.of_nat (List.length (queue c)) ≤ SendBuffer (client_config c).

(** How many clients are registered. *)
Definition registrations (m : gmap Z user_clients) : Z :=
  map_fold (λ _ uc n, Z.of_nat (size uc) + n) 0 m.

Record hub_ok (h : webSocketHub) : Prop := HubOk {
  hub_registry : registry_ok h;
  hub_clients : map_Forall (λ _ c, client_ok c) (objects h);
  hub_gauge : connections h = registrations (clients h)
}.

(** What the environment owes: fresh pointers with empty queues, and connection ids
    (random tokens) that are registered once. *)
Definition event_allowed (h : webSocketHub) (ev : hub_event) : Prop :=
  match ev with
  | ClientMade ref c => objects h !! ref = None ∧ queue c = [] ∧ 0 < SendBuffer (client_config c)
  | Registered ref => ∀ c, objects h !! ref = Some c → registered (userID c) (connectionID c) h = None
  | _ => True
  end.

Fixpoint events_allowed (h : webSocketHub) (evs : list hub_event) : Prop :=
  match evs with
  | [] => True
  | ev :: rest => event_allowed h ev ∧ events_allowed (hub_step h ev) rest
  end.
