(* ===== verification/HubOk.v ===== *)
(** The hub: its registry is consistent, and what its calls do to one connection; then
    how a connection comes to an end. *)
From Stdlib Require Import Ascii String.
From S2P Require Import Prelude GoStd Hub.
Open Scope Z_scope.

(** * Two-level maps without empty inner maps *)

Definition put_user (user : Z) (m : user_clients) (cs : gmap Z user_clients) : gmap Z user_clients :=
  if bool_decide (m = ∅) then delete user cs else <[user := m]> cs.

Lemma lookup_put_user user m cs v :
  default ∅ (put_user user m cs !! v) = if decide (v = user) then m else default ∅ (cs !! v).
Proof.
  unfold put_user. destruct (decide (v = user)) as [->|Hne]; case_bool_decide.
  - by rewrite lookup_delete_eq.
  - by rewrite lookup_insert_eq.
  - by rewrite lookup_delete_ne.
  - by rewrite lookup_insert_ne.
Qed.

Lemma registrations_delete user cs :
  registrations cs = Z.of_nat (size (default ∅ (cs !! user))) + registrations (delete user cs).
Proof.
  unfold registrations. destruct (cs !! user) as [m|] eqn:E; simpl.
  - rewrite (map_fold_delete_L _ _ user m); [done| |done]. intros. lia.
  - rewrite delete_id by done. rewrite map_size_empty. lia.
Qed.

Lemma registrations_put user m cs :
  registrations (put_user user m cs) =
  registrations cs - Z.of_nat (size (default ∅ (cs !! user))) + Z.of_nat (size m).
Proof.
  rewrite (registrations_delete user cs), (registrations_delete user (put_user user m cs)), lookup_put_user,
    decide_True by done.
  assert (delete user (put_user user m cs) = delete user cs) as ->; [|lia].
  unfold put_user. case_bool_decide; [by rewrite delete_delete_eq|by rewrite delete_insert_eq].
Qed.

Lemma put_user_nonempty user m cs v x :
  (∀ v x, cs !! v = Some x → x ≠ ∅) → put_user user m cs !! v = Some x → x ≠ ∅.
Proof.
  unfold put_user. intros Hcs. case_bool_decide.
  - intros [_ ?]%lookup_delete_Some. by eapply Hcs.
  - intros [[_ <-]|[_ ?]]%lookup_insert_Some; [done|by eapply Hcs].
Qed.

(** * Registration and removal *)
Section registry.
Implicit Types (h : webSocketHub) (c : webSocketClient).

Lemma register_client_run ref h c :
  objects h !! ref = Some c →
  register_client ref h = WebSocketHub
    (put_user (userID c) (<[connectionID c := ref]> (clients_of (userID c) h)) (clients h)) (objects h)
    (connections h + 1).
Proof.
  intros Hc. unfold register_client, put_user. rewrite Hc. rewrite bool_decide_eq_false_2; [done|].
  apply insert_non_empty.
Qed.

Lemma registered_put user m h user' id ob n :
  registered user' id (WebSocketHub (put_user user m (clients h)) ob n) =
  if decide (user' = user) then m !! id else registered user' id h.
Proof. unfold registered, clients_of. simpl. rewrite lookup_put_user. by destruct (decide _). Qed.

Lemma removeClient_hit ref code reason h c :
  objects h !! ref = Some c → registered (userID c) (connectionID c) h = Some ref →
  removeClient ref code reason h = WebSocketHub
    (put_user (userID c) (delete (connectionID c) (clients_of (userID c) h)) (clients h))
    (alter (shutdown_client code reason) ref (objects h)) (connections h - 1).
Proof.
  intros Hc Hreg. unfold removeClient, registered, clients_of in *. rewrite Hc.
  destruct (clients h !! userID c) as [m|] eqn:E; simpl in Hreg; [|by rewrite lookup_empty in Hreg].
  rewrite bool_decide_eq_true_2 by done. done.
Qed.

Lemma removeClient_miss ref code reason h :
  (∀ c, objects h !! ref = Some c → registered (userID c) (connectionID c) h ≠ Some ref) →
  removeClient ref code reason h = h.
Proof.
  intros Hn. unfold removeClient. destruct (objects h !! ref) as [c|]; [|done]. specialize (Hn c eq_refl).
  unfold registered, clients_of in Hn. destruct (clients h !! userID c) as [m|]; [|done]. simpl in Hn.
  by rewrite bool_decide_eq_false_2.
Qed.

Lemma removeClient_cases ref code reason h :
  removeClient ref code reason h = h ∨
  ∃ c, objects h !! ref = Some c ∧ registered (userID c) (connectionID c) h = Some ref.
Proof.
  destruct (objects h !! ref) as [c|] eqn:E.
  - destruct (decide (registered (userID c) (connectionID c) h = Some ref)); [right; eauto|].
    left. apply removeClient_miss. intros c' Hc. by simplify_eq.
  - left. apply removeClient_miss. by rewrite E.
Qed.

(** What stays of an object, whatever is done to it. *)
Definition same_identity c c' : Prop :=
  userID c' = userID c ∧ sessionID c' = sessionID c ∧ connectionID c' = connectionID c ∧
  client_config c' = client_config c.

Lemma shutdown_identity code reason c : same_identity c (shutdown_client code reason c).
Proof. unfold shutdown_client. by destruct (client_closed c). Qed.

Lemma shutdown_client_ok code reason c : client_ok c → client_ok (shutdown_client code reason c).
Proof. unfold client_ok, shutdown_client. by destruct (client_closed c). Qed.

Lemma with_object_registry ref f h :
  (∀ c, same_identity c (f c)) → registry_ok h → registry_ok (with_object ref f h).
Proof.
  intros Hf [Hreg Hne]. split; [|exact Hne]. intros user id r Hr. destruct (Hreg user id r Hr) as (c & Hc & <- & <-).
  simpl. destruct (decide (r = ref)) as [->|Hd].
  - exists (f c). rewrite lookup_alter_eq, Hc. destruct (Hf c) as (? & ? & ? & ?). done.
  - exists c. by rewrite lookup_alter_ne.
Qed.

Lemma with_object_ok ref f h :
  (∀ c, same_identity c (f c)) → (∀ c, objects h !! ref = Some c → client_ok c → client_ok (f c)) →
  hub_ok h → hub_ok (with_object ref f h).
Proof.
  intros Hi Hf [Hreg Hcl Hg]. split; [by apply with_object_registry| |done]. intros r c. simpl.
  destruct (decide (r = ref)) as [->|Hd].
  - rewrite lookup_alter_eq. intros (c0 & Hc & ->)%fmap_Some. apply Hf; [done|by eapply Hcl].
  - rewrite lookup_alter_ne by done. apply Hcl.
Qed.

Lemma register_client_ok ref h c :
  objects h !! ref = Some c → registered (userID c) (connectionID c) h = None →
  hub_ok h → hub_ok (register_client ref h).
Proof.
  intros Hc Hnone [[Hreg Hne] Hcl Hg]. rewrite (register_client_run _ _ c) by done. split; [split|done|].
  - intros user id r. rewrite registered_put. destruct (decide (user = userID c)) as [->|]; [|by apply Hreg].
    intros [[<- <-]|[_ Hr]]%lookup_insert_Some; [by exists c|by apply Hreg].
  - intros user m. by apply put_user_nonempty.
  - simpl. rewrite registrations_put. fold (clients_of (userID c) h).
    rewrite map_size_insert_None by done. lia.
Qed.

Lemma removeClient_ok ref code reason h : hub_ok h → hub_ok (removeClient ref code reason h).
Proof.
  intros Hok. destruct (removeClient_cases ref code reason h) as [->|(c & Hc & Hreg)]; [done|].
  rewrite (removeClient_hit _ _ _ _ c) by done.
  apply (with_object_ok ref _ (WebSocketHub (put_user _ _ (clients h)) (objects h) (connections h - 1))).
  { intros ?. apply shutdown_identity. } { intros ? _. apply shutdown_client_ok. }
  destruct Hok as [[Hrg Hne] Hcl Hg]. split; [split|done|].
  - intros user id r. rewrite registered_put. destruct (decide (user = userID c)) as [->|]; [|by apply Hrg].
    intros [_ Hr]%lookup_delete_Some. by apply Hrg.
  - intros user m. by apply put_user_nonempty.
  - simpl. rewrite registrations_put. fold (clients_of (userID c) h).
    assert (0 < size (clients_of (userID c) h))%nat.
    { apply Nat.neq_0_lt_0. intros Hz%map_size_empty_inv. unfold registered in Hreg. by rewrite Hz in Hreg. }
    rewrite map_size_delete_Some by (by exists ref). lia.
Qed.

(** After a removal: the slot is empty, the others and their objects are as they
    were, and the client is closed. *)
Lemma removeClient_spec ref code reason h c :
  objects h !! ref = Some c → registered (userID c) (connectionID c) h = Some ref →
  (∀ user id, registered user id (removeClient ref code reason h) =
    if decide (user = userID c ∧ id = connectionID c) then None else registered user id h) ∧
  objects (removeClient ref code reason h) = alter (shutdown_client code reason) ref (objects h).
Proof.
  intros Hc Hreg. rewrite (removeClient_hit _ _ _ _ c) by done. split; [|done]. intros user id.
  rewrite registered_put. destruct (decide (user = userID c)) as [->|Hu].
  - destruct (decide (id = connectionID c)) as [->|Hi].
    + rewrite decide_True by done. by rewrite lookup_delete_eq.
    + rewrite decide_False by tauto. by rewrite lookup_delete_ne.
  - by rewrite decide_False by tauto.
Qed.
End registry.

(** * Sweeps: each client of a user is either changed in place or removed *)
Section sweep.
Context (keeps : webSocketClient → bool) (update : webSocketClient → webSocketClient).
Context (code : Z) (reason : string).
Context (update_identity : ∀ c, same_identity c (update c)).
Implicit Types (h : webSocketHub) (c : webSocketClient).

Definition sweep_one h (entry : string * nat) : webSocketHub :=
  match objects h !! entry.2 with
  | None => h
  | Some c => if keeps c then with_object entry.2 update h else removeClient entry.2 code reason h
  end.

Definition swept c : webSocketClient := if keeps c then update c else shutdown_client code reason c.

Lemma sweep_one_spec user h id ref c :
  registry_ok h → registered user id h = Some ref → objects h !! ref = Some c →
  let h' := sweep_one h (id, ref) in
  objects h' = alter swept ref (objects h) ∧
  ∀ user' id', registered user' id' h' =
    if decide (user' = user ∧ id' = id) then (if keeps c then Some ref else None) else registered user' id' h.
Proof.
  intros [Hok _] Hreg Hc. destruct (Hok _ _ _ Hreg) as (c' & Hc' & <- & <-). simplify_eq.
  unfold sweep_one. cbn [snd]. rewrite Hc. cbv zeta. destruct (keeps c) eqn:E.
  - split; [|intros user' id'; by destruct (decide _) as [[-> ->]|]].
    apply alter_ext. intros x Hx. simplify_eq. unfold swept. by rewrite E.
  - destruct (removeClient_spec ref code reason h c Hc Hreg) as [Hr ->]. split; [|done].
    apply alter_ext. intros x Hx. simplify_eq. unfold swept. by rewrite E.
Qed.

Lemma sweep_one_registry h entry : registry_ok h → registry_ok (sweep_one h entry).
Proof.
  intros Hok. unfold sweep_one. destruct (objects h !! entry.2) as [c|] eqn:E; [|done].
  destruct (keeps c); [by apply with_object_registry|].
  destruct (removeClient_cases entry.2 code reason h) as [->|(c' & Hc & Hreg)]; [done|].
  rewrite (removeClient_hit _ _ _ _ c') by done.
  apply (with_object_registry entry.2 _ (WebSocketHub (put_user _ _ (clients h)) (objects h) (connections h - 1)));
    [intros ?; apply shutdown_identity|]. destruct Hok as [Hrg Hne]. split.
  - intros user id r. rewrite registered_put. destruct (decide (user = userID c')) as [->|]; [|by apply Hrg].
    intros [_ Hr]%lookup_delete_Some. by apply Hrg.
  - intros user m. by apply put_user_nonempty.
Qed.

(** What a sweep over entries of [user] does. *)
Lemma sweep_spec user l h :
  registry_ok h → NoDup l.*1 → (∀ id ref, (id, ref) ∈ l → registered user id h = Some ref) →
  let h' := foldl sweep_one h l in
  registry_ok h' ∧
  (∀ ref, objects h' !! ref = if decide (ref ∈ l.*2) then swept <$> objects h !! ref else objects h !! ref) ∧
  (∀ user' id c ref, user' = user → (id, ref) ∈ l → objects h !! ref = Some c →
    registered user' id h' = if keeps c then Some ref else None) ∧
  (∀ user' id, user' ≠ user ∨ id ∉ l.*1 → registered user' id h' = registered user' id h).
Proof.
  revert h. induction l as [|[id ref] l IH]; intros h Hok Hnd Hin; cbv zeta.
  { split_and!; [done|done| |done]. intros ? ? ? ? _ []%elem_of_nil. }
  rewrite fmap_cons in Hnd. apply NoDup_cons in Hnd as [Hid Hnd].
  assert (registered user id h = Some ref) as Hreg by (apply Hin; by left).
  destruct Hok as [Hrg Hne] eqn:Hokd. destruct (Hrg _ _ _ Hreg) as (c & Hc & Hcu & Hci).
  destruct (sweep_one_spec user h id ref c Hok Hreg Hc) as [Hob Hslots].
  (* the other entries are other pointers *)
  assert (∀ id' ref', (id', ref') ∈ l → ref' ≠ ref) as Hother.
  { intros id' ref' Hl ->. destruct (Hrg user id' ref) as (c' & Hc' & _ & Hid'); [apply Hin; by right|].
    simplify_eq. apply Hid. by apply (list_elem_of_fmap_2 fst) in Hl. }
  destruct (IH (sweep_one h (id, ref))) as (Hok' & Hob' & Hreg' & Hrest); clear IH.
  { by apply sweep_one_registry. } { done. }
  { intros id' ref' Hl. rewrite Hslots. rewrite decide_False; [apply Hin; by right|].
    intros [_ ->]. apply Hid. by apply (list_elem_of_fmap_2 fst) in Hl. }
  cbn [foldl]. split_and!; [done|..].
  - intros r. rewrite Hob', Hob. rewrite fmap_cons. cbn [snd].
    destruct (decide (r = ref)) as [->|Hr].
    + rewrite decide_False, decide_True, lookup_alter_eq by (by left || by intros ([? ?] & -> & Hl)%list_elem_of_fmap; eapply Hother). done.
    + rewrite lookup_alter_ne by done. destruct (decide (r ∈ l.*2)).
      * rewrite decide_True by (by right). done.
      * by rewrite decide_False by (by intros [?|?]%elem_of_cons).
  - intros user' id' c' ref' -> [[= -> ->]|Hl]%elem_of_cons Hc'; simplify_eq.
    + rewrite Hrest by (by right). rewrite Hslots, decide_True by done. done.
    + eapply Hreg'; [done|done|]. rewrite Hob, lookup_alter_ne; [done|]. intros ->. by eapply Hother.
  - intros user' id' Hu. rewrite Hrest; [|rewrite fmap_cons, not_elem_of_cons in Hu; tauto].
    rewrite Hslots, decide_False; [done|]. rewrite fmap_cons, not_elem_of_cons in Hu. simpl in Hu. tauto.
Qed.
End sweep.

(** * Deliveries and disconnections *)
Section handling.
Implicit Types (h : webSocketHub) (c : webSocketClient).

Lemma registry_entries order user h :
  registry_ok h →
  NoDup (range_list order (clients_of user h)).*1 ∧
  ∀ id ref, (id, ref) ∈ range_list order (clients_of user h) ↔ registered user id h = Some ref.
Proof.
  intros Hok. split.
  - rewrite (range_Permutation order). apply NoDup_fst_map_to_list.
  - intros id ref. rewrite (range_Permutation order). apply elem_of_map_to_list.
Qed.

Definition push (payload : list Z) c : webSocketClient := with_queue (queue c ++ [payload]) c.

(** What a delivery makes of a client. *)
Definition after_delivery (payload : list Z) : webSocketClient → webSocketClient :=
  swept has_room (push payload) StatusPolicyViolation "slow client".

Definition takes h (entry : string * nat) : bool :=
  match objects h !! entry.2 with Some c => has_room c | None => false end.

Abbreviation deliver_sweep payload := (sweep_one has_room (push payload) StatusPolicyViolation "slow client").

Lemma deliver_one_sweep payload n h entry :
  deliver_one payload (n, h) entry =
  (n + (if takes h entry then 1 else 0), deliver_sweep payload h entry).
Proof.
  unfold deliver_one, sweep_one, takes. destruct (objects h !! entry.2) as [c|] eqn:E; [|f_equal; lia].
  destruct (has_room c); [|f_equal; lia]. f_equal. unfold with_object. f_equal. apply alter_ext.
  intros x Hx. by simplify_eq.
Qed.

Lemma deliver_loop payload user l h n :
  registry_ok h → NoDup l.*1 → (∀ id ref, (id, ref) ∈ l → registered user id h = Some ref) →
  foldl (deliver_one payload) (n, h) l =
  (n + Z.of_nat (List.length (List.filter (takes h) l)), foldl (deliver_sweep payload) h l).
Proof.
  revert h n. induction l as [|[id ref] l IH]; intros h n Hok Hnd Hin; [simpl; f_equal; lia|].
  rewrite fmap_cons in Hnd. apply NoDup_cons in Hnd as [Hid Hnd].
  assert (registered user id h = Some ref) as Hreg by (apply Hin; by left).
  destruct (proj1 Hok _ _ _ Hreg) as (c & Hc & _ & _).
  destruct (sweep_one_spec has_room (push payload) StatusPolicyViolation "slow client" user h id ref c Hok Hreg Hc)
    as [Hob Hslots].
  cbn [foldl]. rewrite deliver_one_sweep, IH; [|by apply sweep_one_registry|done|].
  - f_equal. cbn [List.filter].
    assert (List.filter (takes (deliver_sweep payload h (id, ref))) l = List.filter (takes h) l) as ->.
    { apply List.filter_ext_in. intros [id' ref'] Hl%list_elem_of_In. unfold takes. cbn [snd]. rewrite Hob.
      rewrite lookup_alter_ne; [done|]. intros ->.
      destruct (proj1 Hok user id' ref') as (c' & Hc' & _ & Hid'); [apply Hin; by right|].
      destruct (proj1 Hok user id ref' Hreg) as (c'' & Hc'' & _ & Hid''). simplify_eq.
      apply Hid. by apply (list_elem_of_fmap_2 fst) in Hl. }
    destruct (takes h (id, ref)); cbn [List.length]; lia.
  - intros id' ref' Hl. rewrite Hslots. rewrite decide_False; [apply Hin; by right|].
    intros [_ ->]. apply Hid. by apply (list_elem_of_fmap_2 fst) in Hl.
Qed.

Lemma deliver_sweeps order user payload h :
  registry_ok h →
  deliver order user payload h =
  (Z.of_nat (List.length (List.filter (takes h) (range_list order (clients_of user h)))),
   foldl (deliver_sweep payload) h (range_list order (clients_of user h))).
Proof.
  intros Hok. destruct (registry_entries order user h Hok) as [Hnd Hin]. unfold deliver.
  rewrite (deliver_loop _ user); [done|done|done|]. intros id ref. by rewrite Hin.
Qed.

Definition of_session (session : Z) c : bool := (session =? 0) || (sessionID c =? session).

Abbreviation disconnect_sweep session :=
  (sweep_one (λ c, negb (of_session session c)) id StatusPolicyViolation "session revoked").

Lemma disconnect_sweeps order user session h :
  disconnectMatching order user session h =
  foldl (disconnect_sweep session) h (range_list order (clients_of user h)).
Proof.
  unfold disconnectMatching. generalize (range_list order (clients_of user h)). intros l. revert h.
  induction l as [|entry l IH]; intros h; [done|]. cbn [foldl]. rewrite IH. f_equal.
  unfold disconnect_one_of, sweep_one. destruct (objects h !! entry.2) as [c|]; [|done].
  unfold of_session. destruct (_ || _); [done|]. unfold with_object. destruct h as [cs ob n]. simpl. f_equal.
  symmetry. by apply alter_id.
Qed.

(** A sweep of all the clients of a user. *)
Lemma sweep_user keeps update code reason order user h :
  (∀ c, same_identity c (update c)) → registry_ok h →
  let h' := foldl (sweep_one keeps update code reason) h (range_list order (clients_of user h)) in
  registry_ok h' ∧
  (∀ id ref c, registered user id h = Some ref → objects h !! ref = Some c →
    objects h' !! ref = Some (swept keeps update code reason c) ∧
    registered user id h' = if keeps c then Some ref else None) ∧
  (∀ ref, (∀ id, registered user id h ≠ Some ref) → objects h' !! ref = objects h !! ref) ∧
  (∀ user' id, user' ≠ user ∨ registered user' id h = None → registered user' id h' = registered user' id h).
Proof.
  intros Hup Hok. destruct (registry_entries order user h Hok) as [Hnd Hin].
  destruct (sweep_spec keeps update code reason Hup user (range_list order (clients_of user h)) h Hok Hnd)
    as (Hok' & Hob & Hreg & Hrest); [intros id ref; by rewrite Hin|]. cbv zeta. split_and!; [done|..].
  - intros id ref c Hr Hc. apply Hin in Hr. split; [|by eapply Hreg].
    rewrite Hob, decide_True, Hc; [done|]. by apply (list_elem_of_fmap_2 snd) in Hr.
  - intros ref Hn. rewrite Hob, decide_False; [done|].
    intros ([id ref'] & -> & Hl)%list_elem_of_fmap. apply Hin in Hl. by eapply Hn.
  - intros user' id Hc. destruct (decide (user' = user)) as [->|]; [|apply Hrest; by left].
    destruct Hc as [?|Hn]; [done|]. apply Hrest. right.
    intros ([id' ref'] & -> & Hl)%list_elem_of_fmap. apply Hin in Hl. simpl in Hn. by rewrite Hn in Hl.
Qed.

Lemma push_identity payload c : same_identity c (push payload c).
Proof. done. Qed.

(** ** Every event keeps the invariant *)

Lemma sweep_hub_ok keeps update code reason l h :
  (∀ c, same_identity c (update c)) → (∀ c, keeps c = true → client_ok c → client_ok (update c)) →
  hub_ok h → hub_ok (foldl (sweep_one keeps update code reason) h l).
Proof.
  intros Hi Hup. revert h. induction l as [|entry l IH]; intros h Hok; [done|]. cbn [foldl]. apply IH.
  unfold sweep_one. destruct (objects h !! entry.2) as [c|] eqn:E; [|done].
  destruct (keeps c) eqn:Ek; [|by apply removeClient_ok].
  apply with_object_ok; [done| |done]. intros c' Hc. simplify_eq. by apply Hup.
Qed.

Lemma has_room_push payload c : has_room c = true → client_ok (push payload c).
Proof. unfold has_room, client_ok, push. simpl. rewrite length_app. simpl. lia. Qed.

Lemma write_one_identity c : same_identity c (write_one c).
Proof. unfold write_one. by destruct (queue c). Qed.

Lemma stop_hub_ok h : hub_ok h → hub_ok (stop_hub h).
Proof.
  intros Hok.
  assert (hub_ok (foldr (λ ref, shutdown ref StatusGoingAway "server shutting down") h (registered_refs h))) as [_ Hcl _].
  { induction (registered_refs h) as [|ref refs IH]; [done|]. cbn [foldr].
    apply with_object_ok; [by intros ?; apply shutdown_identity|by intros ? _; apply shutdown_client_ok|done]. }
  split; [|exact Hcl|done]. split; unfold registered, clients_of; simpl.
  - intros user id ref. rewrite lookup_empty. simpl. by rewrite lookup_empty.
  - intros user m. by rewrite lookup_empty.
Qed.

Lemma hub_step_ok h ev : event_allowed h ev → hub_ok h → hub_ok (hub_step h ev).
Proof.
  intros Hev Hok. destruct ev as [ref c|ref|ref code reason|order user payload|order user session|user id|ref|ref code reason|];
    simpl in Hev |- *.
  - destruct Hev as (Hnew & Hq & Hb), Hok as [[Hrg Hne] Hcl Hg]. split; [split|..]; [|done| |done].
    + intros user id r Hr. destruct (Hrg user id r Hr) as (c' & Hc' & ? & ?). exists c'. split; [|done]. simpl.
      rewrite lookup_insert_ne; [done|]. intros ->. by rewrite Hnew in Hc'.
    + apply map_Forall_insert_2; [|done]. unfold client_ok. rewrite Hq. simpl. lia.
  - destruct (objects h !! ref) as [c|] eqn:E; [by apply (register_client_ok _ _ c); auto|].
    unfold register_client. by rewrite E.
  - by apply removeClient_ok.
  - rewrite deliver_sweeps by apply Hok. apply sweep_hub_ok; [done|by intros c ? _; apply has_room_push|done].
  - rewrite disconnect_sweeps. by apply sweep_hub_ok.
  - unfold disconnectOne. destruct (registered user id h); [by apply removeClient_ok|done].
  - apply with_object_ok; [apply write_one_identity| |done]. intros c _. unfold client_ok, write_one.
    destruct (queue c) eqn:E; rewrite ?E; simpl; lia.
  - apply with_object_ok; [by intros ?; apply shutdown_identity|by intros ? _; apply shutdown_client_ok|done].
  - by apply stop_hub_ok.
Qed.
End handling.

(** * How a connection ends *)

(** The client was told to close. *)
Definition closed (ref : nat) (h : webSocketHub) : Prop :=
  ∃ c, objects h !! ref = Some c ∧ is_Some (client_closed c).

(** [c] lies at [ref], and no other client has its connection id. *)
Definition known (ref : nat) (c : webSocketClient) (h : webSocketHub) : Prop :=
  (∃ c', objects h !! ref = Some c' ∧ same_identity c c') ∧
  ∀ ref' c', objects h !! ref' = Some c' → connectionID c' = connectionID c → ref' = ref.

Definition tracked (ref : nat) (c : webSocketClient) (h : webSocketHub) : Prop :=
  known ref c h ∧ (closed ref h ∨ registered (userID c) (connectionID c) h = Some ref).

(** Other handshakes make other clients with other ids: pointers are fresh and ids
    random. *)
Definition spares (ref : nat) (id : string) (ev : hub_event) : Prop :=
  match ev with ClientMade ref' c' => ref' ≠ ref ∧ connectionID c' ≠ id | _ => True end.

(** * Hubs later on *)

Definition grows (o o' : webSocketClient) : Prop :=
  same_identity o o' ∧ (is_Some (client_closed o) → is_Some (client_closed o')).

Record later (h h' : webSocketHub) : Prop := Later {
  later_objects : ∀ r, option_Forall2 grows (objects h !! r) (objects h' !! r);
  later_registered : ∀ user id r, registered user id h = Some r → is_Some (objects h !! r) →
    registered user id h' = Some r ∨ closed r h'
}.

#[export] Instance grows_preorder : PreOrder grows.
Proof.
  split; [done|]. intros o1 o2 o3 [(? & ? & ? & ?) Hc1] [(? & ? & ? & ?) Hc2]. split; [split_and!; congruence|auto].
Qed.

Lemma later_closed h h' r : later h h' → closed r h → closed r h'.
Proof.
  intros [Ho _] (c & Hc & Hcl). specialize (Ho r). rewrite Hc in Ho. inversion Ho as [? o' [_ Hg] Heq1 Heq2|].
  exists o'. split; [done|]. by apply Hg.
Qed.

#[export] Instance later_preorder : PreOrder later.
Proof.
  split.
  - intros h. split; [|by left]. intros r. by destruct (objects h !! r); constructor.
  - intros h1 h2 h3 [Ho1 Hr1] H23. pose proof H23 as [Ho2 Hr2]. split.
    + intros r. specialize (Ho1 r). specialize (Ho2 r). destruct Ho1; inversion Ho2; constructor. by etrans.
    + intros user id r Hr Hin. destruct (Hr1 user id r Hr Hin) as [Hr'|Hc]; [|right; by eapply later_closed].
      apply Hr2; [done|]. specialize (Ho1 r). destruct Hin as [o Hin]. rewrite Hin in Ho1. inversion Ho1. eauto.
Qed.

Lemma later_known h h' ref c : later h h' → known ref c h → known ref c h'.
Proof.
  intros [Ho _] [(c0 & Hc0 & Hid) Hu]. split.
  - specialize (Ho ref). rewrite Hc0 in Ho. inversion Ho as [? o' [Hi _] Heq1 Heq2|]. exists o'. split; [done|].
    unfold same_identity in *. destruct Hid as (? & ? & ? & ?), Hi as (? & ? & ? & ?). split_and!; congruence.
  - intros ref' c' Hc' Hid'. specialize (Ho ref'). rewrite Hc' in Ho. inversion Ho as [o ? [(_ & _ & Hi & _) _] Heq1 Heq2|].
    apply (Hu ref' o); [done|congruence].
Qed.

Lemma later_tracked h h' ref c : later h h' → tracked ref c h → tracked ref c h'.
Proof.
  intros Hl [Hk Hcase]. split; [by eapply later_known|]. destruct Hcase as [Hc|Hr]; [left; by eapply later_closed|].
  destruct (later_registered _ _ Hl _ _ _ Hr) as [?|?]; auto. destruct Hk as [(c0 & ? & _) _]. eauto.
Qed.

(** * What the events do *)

Lemma with_object_later ref f h : (∀ o, grows o (f o)) → later h (with_object ref f h).
Proof.
  intros Hf. split; [|by left]. intros r. simpl. destruct (decide (r = ref)) as [->|Hne].
  - rewrite lookup_alter_eq. destruct (objects h !! ref); constructor. apply Hf.
  - rewrite lookup_alter_ne by done. destruct (objects h !! r); by constructor.
Qed.

Lemma shutdown_grows code reason o : grows o (shutdown_client code reason o).
Proof. split; [apply shutdown_identity|]. unfold shutdown_client. destruct (client_closed o) eqn:E; [by rewrite E|eauto]. Qed.

Lemma shutdown_closes ref code reason h c : objects h !! ref = Some c → closed ref (shutdown ref code reason h).
Proof.
  intros Hc. exists (shutdown_client code reason c). simpl. rewrite lookup_alter_eq, Hc. split; [done|].
  unfold shutdown_client. destruct (client_closed c) eqn:E; [by rewrite E|eauto].
Qed.

Lemma removeClient_closes ref code reason h c :
  objects h !! ref = Some c → registered (userID c) (connectionID c) h = Some ref →
  closed ref (removeClient ref code reason h).
Proof. intros Hc Hr. rewrite (removeClient_hit _ _ _ _ c) by done. by apply (shutdown_closes ref code reason (WebSocketHub _ (objects h) _) c). Qed.

Lemma removeClient_later ref code reason h : later h (removeClient ref code reason h).
Proof.
  destruct (removeClient_cases ref code reason h) as [->|(c & Hc & Hr)]; [done|].
  pose proof (removeClient_closes ref code reason h c Hc Hr) as Hcl.
  destruct (removeClient_spec ref code reason h c Hc Hr) as [Hslots Hob]. split.
  - intros r. rewrite Hob. apply (with_object_later ref _ h (shutdown_grows code reason)).
  - intros user id r Hr' _. rewrite Hslots. destruct (decide _) as [[-> ->]|]; [|by left]. right. by simplify_eq.
Qed.

Lemma foldl_later {A} (f : webSocketHub → A → webSocketHub) l h : (∀ h x, later h (f h x)) → later h (foldl f h l).
Proof. intros Hf. revert h. induction l as [|x l IH]; intros h; [done|]. etrans; [apply Hf|apply IH]. Qed.

Lemma deliver_one_later payload acc entry : later acc.2 (deliver_one payload acc entry).2.
Proof.
  destruct acc as [n h]. unfold deliver_one. destruct (objects h !! entry.2) as [c|] eqn:Ec; [|done].
  destruct (has_room c); [|apply removeClient_later]. simpl.
  (* the queue is that of the object at hand *)
  split; [|by left]. intros r. simpl. destruct (decide (r = entry.2)) as [->|Hne].
  - rewrite lookup_alter_eq, Ec. by constructor.
  - rewrite lookup_alter_ne by done. destruct (objects h !! r); by constructor.
Qed.

Lemma deliver_later order user payload h : later h (deliver order user payload h).2.
Proof.
  unfold deliver. change h with ((0, h).2) at 1. generalize (0, h). induction (range_list order _) as [|e l IH]; intros acc; [done|].
  cbn [foldl]. etrans; [apply deliver_one_later|apply IH].
Qed.

Lemma disconnect_one_later session h entry : later h (disconnect_one_of session h entry).
Proof. unfold disconnect_one_of. destruct (objects h !! entry.2); [|done]. destruct (_ || _); [apply removeClient_later|done]. Qed.

Lemma disconnect_later order user session h : later h (disconnectMatching order user session h).
Proof. apply foldl_later. intros. apply disconnect_one_later. Qed.

Lemma registered_in_refs user id h r : registered user id h = Some r → r ∈ registered_refs h.
Proof.
  unfold registered, clients_of, registered_refs. intros Hr. destruct (clients h !! user) as [m|] eqn:E; simpl in Hr; [|by rewrite lookup_empty in Hr].
  apply list_elem_of_bind. exists (user, m). split; [|by apply elem_of_map_to_list].
  apply list_elem_of_fmap. exists (id, r). split; [done|]. by apply elem_of_map_to_list.
Qed.

Lemma stop_hub_later h : later h (stop_hub h).
Proof.
  set (shut_all := λ refs, foldr (λ ref, shutdown ref StatusGoingAway "server shutting down") h refs).
  assert (∀ refs, later h (shut_all refs)) as Hall.
  { intros refs. induction refs as [|r refs IH]; [done|]. simpl. etrans; [exact IH|apply with_object_later, shutdown_grows]. }
  split; [apply (later_objects _ _ (Hall (registered_refs h)))|]. intros user id r Hr%registered_in_refs [o Ho]. right.
  cut (closed r (shut_all (registered_refs h))); [done|].
  induction (registered_refs h) as [|r' refs IH]; [by apply elem_of_nil in Hr|]. apply elem_of_cons in Hr as [->|Hr].
  - pose proof (later_objects _ _ (Hall refs) r') as Hg. rewrite Ho in Hg. inversion Hg as [? o' ? Heq1 Heq2|].
    by apply (shutdown_closes r' _ _ (shut_all refs) o').
  - eapply later_closed; [|by apply IH]. apply (with_object_later r'), shutdown_grows.
Qed.

(** All but the making and the registering of clients. *)
Lemma step_later h ev :
  (∀ r c, ev ≠ ClientMade r c) → (∀ r, ev ≠ Registered r) → later h (hub_step h ev).
Proof.
  intros Hm Hr. destruct ev as [r c|r|r code reason|order user payload|order user session|user id|r|r code reason|]; simpl.
  - by edestruct Hm.
  - by edestruct Hr.
  - apply removeClient_later.
  - apply deliver_later.
  - apply disconnect_later.
  - unfold disconnectOne. destruct (registered user id h); [apply removeClient_later|done].
  - apply with_object_later. intros o. split; [apply write_one_identity|]. unfold write_one. by destruct (queue o).
  - apply with_object_later, shutdown_grows.
  - apply stop_hub_later.
Qed.

(** * The client meanwhile *)

Lemma known_made ref c h r c' : spares ref (connectionID c) (ClientMade r c') → known ref c h →
  known ref c (hub_step h (ClientMade r c')).
Proof.
  intros [Hr Hid] [(c0 & Hc0 & Hi) Hu]. split.
  - exists c0. simpl. by rewrite lookup_insert_ne.
  - intros r' c1. simpl. intros [[<- <-]|[_ Hc1]]%lookup_insert_Some; [done|]. by apply Hu.
Qed.

Lemma register_known ref c h r : known ref c h → known ref c (register_client r h).
Proof. unfold register_client. by destruct (objects h !! r). Qed.

Lemma register_tracked ref c h : known ref c h → tracked ref c (register_client ref h).
Proof.
  intros Hk. split; [by apply register_known|]. right. destruct Hk as [(c0 & Hc0 & (Eu & _ & Ei & _)) _].
  rewrite (register_client_run _ _ c0) by done. rewrite registered_put, Eu, Ei, decide_True by done. by rewrite lookup_insert_eq.
Qed.

Lemma known_step ref c h ev : spares ref (connectionID c) ev → known ref c h → known ref c (hub_step h ev).
Proof.
  intros Hs Hk. destruct ev; try (by eapply later_known; [by apply step_later|]); [by apply known_made|by apply register_known].
Qed.

Lemma tracked_step ref c h ev : spares ref (connectionID c) ev → tracked ref c h → tracked ref c (hub_step h ev).
Proof.
  intros Hs [Hk Hcase]. destruct ev as [r c'|r| | | | | | |]; try (by eapply later_tracked; [by apply step_later|]).
  - split; [by apply known_made|]. destruct Hcase as [(c0 & Hc0 & Hcl)|Hr]; [|by right]. left. exists c0. simpl.
    destruct Hs as [Hne _]. by rewrite lookup_insert_ne.
  - destruct (decide (r = ref)) as [->|Hne]; [by apply register_tracked|]. split; [by apply register_known|].
    simpl. unfold register_client. destruct (objects h !! r) as [c'|] eqn:E; [|done].
    destruct Hcase as [Hc|Hr]; [by left|right]. pose proof (register_client_run r h c' E) as Hrun.
    unfold register_client in Hrun. rewrite E in Hrun. rewrite Hrun, registered_put.
    destruct (decide _) as [Hu|]; [|done]. rewrite lookup_insert_ne.
    + unfold registered in Hr. by rewrite Hu in Hr.
    + intros Hid. apply Hne. by eapply (proj2 Hk).
Qed.

Lemma known_run ref c evs h : Forall (spares ref (connectionID c)) evs → known ref c h → known ref c (hub_run h evs).
Proof. intros Hs. revert h. induction Hs as [|ev evs Hev _ IH]; intros h Hk; [done|]. apply IH. by apply known_step. Qed.

Lemma tracked_run ref c evs h : Forall (spares ref (connectionID c)) evs → tracked ref c h → tracked ref c (hub_run h evs).
Proof. intros Hs. revert h. induction Hs as [|ev evs Hev _ IH]; intros h Hk; [done|]. apply IH. by apply tracked_step. Qed.

Lemma closed_step ref h ev : (∀ c, ev ≠ ClientMade ref c) → closed ref h → closed ref (hub_step h ev).
Proof.
  intros Hm Hc. destruct ev as [r c'|r| | | | | | |]; try (by eapply later_closed; [by apply step_later|]).
  - destruct Hc as (c0 & Hc0 & Hcl). exists c0. simpl. rewrite lookup_insert_ne; [done|]. intros ->. by edestruct Hm.
  - simpl. unfold register_client. by destruct (objects h !! r).
Qed.

Lemma closed_run ref id evs h : Forall (spares ref id) evs → closed ref h → closed ref (hub_run h evs).
Proof.
  intros Hs. revert h. induction Hs as [|ev evs Hev _ IH]; intros h Hc; [done|]. apply IH. apply closed_step; [|done].
  intros c ->. by destruct Hev.
Qed.

(** * Disconnections *)

(** A disconnection of the client's session, or of all its user's, closes it. *)
Lemma disconnect_closes order session ref c h :
  tracked ref c h → of_session session c = true → closed ref (disconnectMatching order (userID c) session h).
Proof.
  intros Ht Hs. destruct (proj2 Ht) as [Hc|Hr]; [by eapply later_closed; [apply disconnect_later|]|].
  unfold disconnectMatching. assert ((connectionID c, ref) ∈ range_list order (clients_of (userID c) h)) as Hin.
  { rewrite (range_Permutation order). by apply elem_of_map_to_list. }
  apply list_elem_of_split in Hin as (l1 & l2 & ->). rewrite foldl_app. cbn [foldl].
  set (h1 := foldl _ h l1). assert (tracked ref c h1) as [Hk1 Hcase].
  { eapply later_tracked; [|exact Ht]. apply foldl_later. intros. apply disconnect_one_later. }
  eapply later_closed; [apply foldl_later; intros; apply disconnect_one_later|].
  destruct Hcase as [Hc|Hr1]; [eapply later_closed; [apply disconnect_one_later|done]|].
  destruct Hk1 as [(c1 & Hc1 & (Eu & Es & Ei & _)) _]. unfold disconnect_one_of. cbn [snd]. rewrite Hc1.
  unfold of_session in Hs. rewrite Es, Hs. apply (removeClient_closes ref _ _ h1 c1); [done|congruence].
Qed.
