(* ===== verification/HubPromises.v ===== *)
(** What the hub promises: its registry stays consistent, a delivery reaches every
    connection that can take it, a revoked session has none, and a connection reads
    its user's payloads in order. *)
From Stdlib Require Import Ascii String.
From S2P Require Import Prelude GoStd Hub HubOk.
Open Scope Z_scope.

(** * What one connection sees *)

(** Written, or about to be. *)
Definition stream (c : webSocketClient) : list (list Z) := wire c ++ queue c.

Definition addressed_one (user : Z) (ev : hub_event) : list (list Z) :=
  match ev with Delivered _ receiver payload => if receiver =? user then [payload] else [] | _ => [] end.

(** The payloads for a user, in order. *)
Definition addressed (user : Z) (evs : list hub_event) : list (list Z) := evs ≫= addressed_one user.

Section steps.
Implicit Types (h : webSocketHub) (c : webSocketClient).

Lemma same_identity_refl c : same_identity c c.
Proof. done. Qed.

Lemma same_identity_trans c1 c2 c3 : same_identity c1 c2 → same_identity c2 c3 → same_identity c1 c3.
Proof. unfold same_identity. intros (? & ? & ? & ?) (? & ? & ? & ?). split_and!; congruence. Qed.

Lemma stream_shutdown code reason c : stream (shutdown_client code reason c) = stream c.
Proof. unfold stream, shutdown_client. by destruct (client_closed c). Qed.

Lemma stream_write_one c : stream (write_one c) = stream c.
Proof. unfold stream, write_one. destruct (queue c) eqn:E; [by rewrite E|]. simpl. by rewrite <-app_assoc. Qed.

Lemma stream_push payload c : stream (push payload c) = stream c ++ [payload].
Proof. unfold stream, push. simpl. by rewrite app_assoc. Qed.

(** What an event does to the client [c] at [ref]. *)
Record sees h ev ref c c' : Prop := Sees {
  sees_object : objects (hub_step h ev) !! ref = Some c';
  sees_identity : same_identity c c';
  sees_stream : stream c' = stream c ∨ stream c' = stream c ++ addressed_one (userID c) ev;
  sees_all : registered (userID c) (connectionID c) (hub_step h ev) = Some ref → ev ≠ Registered ref →
    registered (userID c) (connectionID c) h = Some ref ∧ stream c' = stream c ++ addressed_one (userID c) ev
}.

(** Events that deliver nothing and register nobody. *)
Lemma sees_quiet h ev ref c c' :
  (∀ order receiver payload, ev ≠ Delivered order receiver payload) →
  objects (hub_step h ev) !! ref = Some c' → same_identity c c' → stream c' = stream c →
  (registered (userID c) (connectionID c) (hub_step h ev) = Some ref → ev ≠ Registered ref →
   registered (userID c) (connectionID c) h = Some ref) →
  sees h ev ref c c'.
Proof.
  intros Hev Hob Hid Hs Hreg. assert (addressed_one (userID c) ev = []) as Ha.
  { destruct ev; try done. by edestruct Hev. }
  split; [done|done|by left|]. intros Hr Hne. split; [by apply Hreg|]. by rewrite Ha, app_nil_r.
Qed.

Lemma removeClient_objects ref' code reason h ref c :
  objects h !! ref = Some c →
  ∃ c', objects (removeClient ref' code reason h) !! ref = Some c' ∧ same_identity c c' ∧ stream c' = stream c ∧
    ∀ user id, registered user id (removeClient ref' code reason h) = Some ref → registered user id h = Some ref.
Proof.
  intros Hc. destruct (removeClient_cases ref' code reason h) as [->|(c0 & Hc0 & Hreg)]; [by exists c|].
  destruct (removeClient_spec ref' code reason h c0 Hc0 Hreg) as [Hslots ->].
  destruct (decide (ref = ref')) as [->|Hne].
  - exists (shutdown_client code reason c). rewrite lookup_alter_eq, Hc.
    split_and!; [done|apply shutdown_identity|apply stream_shutdown|].
    intros user id. rewrite Hslots. by destruct (decide _).
  - exists c. rewrite lookup_alter_ne by done. split_and!; [done|done|done|].
    intros user id. rewrite Hslots. by destruct (decide _).
Qed.

Lemma with_object_objects ref' f h ref c :
  (∀ c, same_identity c (f c)) → (∀ c, stream (f c) = stream c) → objects h !! ref = Some c →
  ∃ c', objects (with_object ref' f h) !! ref = Some c' ∧ same_identity c c' ∧ stream c' = stream c.
Proof.
  intros Hi Hs Hc. simpl. destruct (decide (ref = ref')) as [->|Hne].
  - exists (f c). by rewrite lookup_alter_eq, Hc.
  - exists c. by rewrite lookup_alter_ne.
Qed.

Lemma stop_hub_objects h ref c :
  objects h !! ref = Some c →
  ∃ c', objects (stop_hub h) !! ref = Some c' ∧ same_identity c c' ∧ stream c' = stream c.
Proof.
  intros Hc. unfold stop_hub. simpl. induction (registered_refs h) as [|ref' refs IH]; [by exists c|].
  destruct IH as (c1 & Hc1 & Hi1 & Hs1).
  destruct (with_object_objects ref' (shutdown_client StatusGoingAway "server shutting down") _ ref c1
    (shutdown_identity _ _) (stream_shutdown _ _) Hc1) as (c2 & Hc2 & Hi2 & Hs2).
  exists c2. split_and!; [exact Hc2|by eapply same_identity_trans|by rewrite Hs2].
Qed.

(** A sweep of another user, or one that leaves out the client. *)
Lemma sweep_misses keeps update code reason order user h ref c :
  (∀ c, same_identity c (update c)) → hub_ok h → objects h !! ref = Some c →
  userID c ≠ user ∨ registered (userID c) (connectionID c) h ≠ Some ref →
  let h' := foldl (sweep_one keeps update code reason) h (range_list order (clients_of user h)) in
  objects h' !! ref = Some c ∧
  (registered (userID c) (connectionID c) h' = Some ref → registered (userID c) (connectionID c) h = Some ref).
Proof.
  intros Hup Hok Hc Hout. destruct (sweep_user keeps update code reason order user h Hup) as (_ & Hin & Hob & Hrest);
    [apply Hok|]. cbv zeta. split.
  - rewrite Hob; [done|]. intros id Hr. destruct (proj1 (hub_registry _ Hok) _ _ _ Hr) as (c' & Hc' & Hu & Hi).
    simplify_eq. by destruct Hout.
  - destruct (decide (userID c = user)) as [Hu|Hne]; [|by rewrite Hrest by (by left)]. rewrite Hu in Hout |- *.
    destruct Hout as [|Hout]; [done|]. intros Hr.
    destruct (registered user (connectionID c) h) as [ref'|] eqn:E; [|by rewrite Hrest, E in Hr by (by right)].
    destruct (proj1 (hub_registry _ Hok) _ _ _ E) as (c' & Hc' & _).
    destruct (Hin _ _ _ E Hc') as [_ Hr']. rewrite Hr' in Hr. by destruct (keeps c'); simplify_eq.
Qed.

Lemma sweep_hits keeps update code reason order user h ref c :
  (∀ c, same_identity c (update c)) → hub_ok h → objects h !! ref = Some c →
  userID c = user → registered (userID c) (connectionID c) h = Some ref →
  let h' := foldl (sweep_one keeps update code reason) h (range_list order (clients_of user h)) in
  objects h' !! ref = Some (swept keeps update code reason c) ∧
  registered (userID c) (connectionID c) h' = if keeps c then Some ref else None.
Proof.
  intros Hup Hok Hc Hu Hr. destruct (sweep_user keeps update code reason order user h Hup) as (_ & Hin & _ & _);
    [apply Hok|]. cbv zeta. rewrite Hu in Hr |- *. by apply Hin.
Qed.

(** Every event treats every client properly. *)
Lemma step_sees h ev ref c :
  hub_ok h → event_allowed h ev → objects h !! ref = Some c → ∃ c', sees h ev ref c c'.
Proof.
  intros Hok Hev Hc.
  destruct ev as [ref' c0|ref'|ref' code reason|order user payload|order user session|user id|ref'|ref' code reason|].
  - exists c. apply sees_quiet; try done. simpl. destruct Hev as (Hn & _).
    rewrite lookup_insert_ne; [done|]. intros ->. by rewrite Hn in Hc.
  - exists c. apply sees_quiet; try done; simpl; unfold register_client; destruct (objects h !! ref') as [c0|] eqn:E; try done.
    intros Hr Hne. change (<[userID c0 := _]> (clients h)) with (<[userID c0 := <[connectionID c0 := ref']> (clients_of (userID c0) h)]> (clients h)) in Hr.
    pose proof (register_client_run ref' h c0 E) as Heq. unfold register_client in Heq. rewrite E in Heq. rewrite Heq in Hr.
    rewrite registered_put in Hr. destruct (decide _) as [Hu|]; [|done].
    apply lookup_insert_Some in Hr as [[_ ->]|[_ Hr]]; [done|]. unfold registered. by rewrite Hu.
  - destruct (removeClient_objects ref' code reason h ref c Hc) as (c' & ? & ? & ? & Hr). exists c'.
    apply sees_quiet; auto; done.
  - simpl in Hev. destruct (decide (userID c = user ∧ registered (userID c) (connectionID c) h = Some ref)) as [[Hu Hr]|Hout].
    + exists (after_delivery payload c).
      destruct (sweep_hits has_room (push payload) StatusPolicyViolation "slow client" order user h ref c) as [Hob Hreg]; try done.
      split; cbn [hub_step]; rewrite ?deliver_sweeps by apply Hok; cbn [snd addressed_one]; [done|..];
        unfold after_delivery, swept in *; destruct (has_room c) eqn:E; try done; try apply shutdown_identity.
      * right. rewrite stream_push. by replace (user =? userID c) with true by lia.
      * left. apply stream_shutdown.
      * intros _ _. split; [done|]. rewrite stream_push. by replace (user =? userID c) with true by lia.
      * intros Hr'. by rewrite Hreg in Hr'.
    + exists c. destruct (sweep_misses has_room (push payload) StatusPolicyViolation "slow client" order user h ref c) as [Hob Hreg]; try done.
      { destruct (decide (userID c = user)); [right|by left]. tauto. }
      split; cbn [hub_step]; rewrite ?deliver_sweeps by apply Hok; cbn [snd addressed_one]; [done|done|by left|].
      intros Hr _. apply Hreg in Hr. split; [done|]. destruct (user =? userID c) eqn:E; [|by rewrite app_nil_r].
      destruct Hout. split; [lia|done].
  - destruct (decide (userID c = user ∧ registered (userID c) (connectionID c) h = Some ref)) as [[Hu Hr]|Hout].
    + destruct (sweep_hits (λ c, negb (of_session session c)) id StatusPolicyViolation "session revoked" order user h ref c)
        as [Hob Hreg]; try done.
      eexists. apply sees_quiet; [done|cbn [hub_step]; rewrite disconnect_sweeps; exact Hob|..]; unfold swept;
        destruct (negb _); try done; [apply shutdown_identity|apply stream_shutdown].
    + exists c. destruct (sweep_misses (λ c, negb (of_session session c)) id StatusPolicyViolation "session revoked" order user h ref c)
        as [Hob Hreg]; try done.
      { destruct (decide (userID c = user)); [right|by left]. tauto. }
      apply sees_quiet; cbn [hub_step]; rewrite ?disconnect_sweeps; try done. intros Hr _. by apply Hreg.
  - cbn [hub_step] in *. unfold disconnectOne.
    destruct (registered user id h) as [ref'|] eqn:E.
    + destruct (removeClient_objects ref' StatusPolicyViolation "connection replaced" h ref c Hc) as (c' & ? & ? & ? & Hr).
      exists c'. apply sees_quiet; cbn [hub_step]; unfold disconnectOne; rewrite ?E; auto; done.
    + exists c. apply sees_quiet; cbn [hub_step]; unfold disconnectOne; rewrite ?E; auto; done.
  - destruct (with_object_objects ref' write_one h ref c write_one_identity stream_write_one Hc) as (c' & ? & ? & ?).
    exists c'. by apply sees_quiet.
  - destruct (with_object_objects ref' (shutdown_client code reason) h ref c (shutdown_identity _ _) (stream_shutdown _ _) Hc)
      as (c' & ? & ? & ?). exists c'. by apply sees_quiet.
  - destruct (stop_hub_objects h ref c Hc) as (c' & ? & ? & ?). exists c'. apply sees_quiet; try done.
Qed.

(** Whoever is still registered after a disconnection is of another session. *)
Lemma disconnected_gone order user session h connection ref c :
  hub_ok h → registered user connection (disconnectMatching order user session h) = Some ref →
  objects (disconnectMatching order user session h) !! ref = Some c → of_session session c = false.
Proof.
  intros Hok. rewrite disconnect_sweeps. intros Hr Hc.
  destruct (sweep_user (λ c, negb (of_session session c)) (@id webSocketClient) StatusPolicyViolation "session revoked" order user h
    same_identity_refl (hub_registry _ Hok)) as (_ & Hin & _ & Hrest).
  destruct (registered user connection h) as [ref0|] eqn:E; [|by rewrite Hrest in Hr; [rewrite E in Hr|right]].
  destruct (proj1 (hub_registry _ Hok) _ _ _ E) as (c0 & Hc0 & _).
  destruct (Hin connection ref0 c0 E Hc0) as [Hob Hreg]. rewrite Hreg in Hr.
  unfold swept in Hob. destruct (of_session session c0) eqn:Es; [done|]. simpl in Hr, Hob. simplify_eq. congruence.
Qed.

Lemma hub_run_ok evs h : hub_ok h → events_allowed h evs → hub_ok (hub_run h evs).
Proof.
  revert h. induction evs as [|ev evs IH]; intros h Hok Hevs; [done|]. destruct Hevs as [Hev Hevs].
  apply IH; [by apply hub_step_ok|done].
Qed.
End steps.

(** * The promises *)
Section promises.
Implicit Types (h : webSocketHub) (c : webSocketClient).

(** whatever the hub receives and the connections do, a registered
    pointer leads to a client that lies under its own user and connection id, no
    user without clients is kept, no queue exceeds its buffer, and the gauge counts
    the registered clients, provided that connection ids are not reused. *)
Theorem hub_keeps_registry evs h :
  hub_ok h → events_allowed h evs → hub_ok (hub_run h evs).
Proof. apply hub_run_ok. Qed.

(** A delivery queues the payload at every connection of
    the receiver that has room, closes and forgets the others as slow, counts the
    first kind, and leaves every other client and user as they were. *)
Theorem deliver_reaches_connections order user payload h n h' :
  hub_ok h → deliver order user payload h = (n, h') →
  n = Z.of_nat (List.length (List.filter (takes h) (map_to_list (clients_of user h)))) ∧
  (∀ id ref c, registered user id h = Some ref → objects h !! ref = Some c →
    if has_room c then objects h' !! ref = Some (push payload c) ∧ registered user id h' = Some ref
    else objects h' !! ref = Some (shutdown_client StatusPolicyViolation "slow client" c) ∧
         registered user id h' = None) ∧
  (∀ ref, (∀ id, registered user id h ≠ Some ref) → objects h' !! ref = objects h !! ref) ∧
  ∀ user' id, user' ≠ user → registered user' id h' = registered user' id h.
Proof.
  intros Hok. rewrite deliver_sweeps by apply Hok. intros [= <- <-].
  destruct (sweep_user has_room (push payload) StatusPolicyViolation "slow client" order user h
    (push_identity payload) (hub_registry _ Hok)) as (_ & Hin & Hout & Hrest).
  split_and!; [|intros id ref c Hr Hc|done|by intros user' id ?; apply Hrest; left].
  - f_equal. apply Permutation_length. by apply bool_filter_Permutation, range_Permutation.
  - destruct (Hin id ref c Hr Hc) as [Hob Hreg]. unfold swept in Hob. by destruct (has_room c).
Qed.

(** When a session's disconnection was handled, each of its
    connections is closed and forgotten and every other client of the hub is as it
    was; session 0 stands for all the sessions of the user. *)
Theorem disconnect_revokes_session order user session h h' :
  hub_ok h → disconnectMatching order user session h = h' →
  (∀ id ref c, registered user id h = Some ref → objects h !! ref = Some c →
    if of_session session c
    then registered user id h' = None ∧ ∃ c', objects h' !! ref = Some c' ∧ is_Some (client_closed c')
    else registered user id h' = Some ref ∧ objects h' !! ref = Some c) ∧
  (∀ id ref c, registered user id h' = Some ref → objects h' !! ref = Some c → of_session session c = false) ∧
  (∀ ref, (∀ id, registered user id h ≠ Some ref) → objects h' !! ref = objects h !! ref) ∧
  ∀ user' id, user' ≠ user → registered user' id h' = registered user' id h.
Proof.
  intros Hok. rewrite disconnect_sweeps. intros <-.
  destruct (sweep_user (λ c, negb (of_session session c)) (@id webSocketClient) StatusPolicyViolation "session revoked" order user h
    same_identity_refl (hub_registry _ Hok)) as (_ & Hin & Hout & Hrest).
  split_and!; [intros id ref c Hr Hc| |done|by intros user' id ?; apply Hrest; left].
  - destruct (Hin id ref c Hr Hc) as [Hob Hreg]. unfold swept in Hob.
    destruct (of_session session c); [|done]. split; [done|]. eexists. split; [exact Hob|].
    unfold shutdown_client. destruct (client_closed c) eqn:E; [by rewrite E|by eexists].
  - intros id ref c. pose proof (disconnected_gone order user session h id ref c Hok) as Hg.
    by rewrite disconnect_sweeps in Hg.
Qed.

(** C18: what a connection was written and still has queued is what it
    had before followed by payloads of its own user, in the order of their
    deliveries and none twice; nothing is missing as long as it stays registered. *)
Theorem connection_stream evs h ref c :
  hub_ok h → events_allowed h evs → objects h !! ref = Some c →
  ∃ c' more, objects (hub_run h evs) !! ref = Some c' ∧ same_identity c c' ∧
    stream c' = stream c ++ more ∧ more `sublist_of` addressed (userID c) evs ∧
    (registered (userID c) (connectionID c) (hub_run h evs) = Some ref → Registered ref ∉ evs →
     more = addressed (userID c) evs ∧ registered (userID c) (connectionID c) h = Some ref).
Proof.
  revert h c. induction evs as [|ev evs IH]; intros h c Hok Hevs Hc.
  { exists c, []. split_and!; [done|done|by rewrite app_nil_r|done|done]. }
  destruct Hevs as [Hev Hevs]. destruct (step_sees h ev ref c Hok Hev Hc) as (c1 & [Hob1 Hid1 Hs1 Hall1]).
  destruct (IH (hub_step h ev) c1) as (c2 & more & Hob2 & Hid2 & Hs2 & Hsub & Hall2); [by apply hub_step_ok|done|done|].
  pose proof Hid1 as (Hu & _ & Hci & _). rewrite Hu, Hci in *.
  change (addressed (userID c) (ev :: evs)) with (addressed_one (userID c) ev ++ addressed (userID c) evs).
  change (hub_run h (ev :: evs)) with (hub_run (hub_step h ev) evs).
  assert (∃ first, stream c1 = stream c ++ first ∧ first `sublist_of` addressed_one (userID c) ev) as (first & Hf & Hfs).
  { destruct Hs1 as [Hs1|Hs1]; [exists []|eexists; by split].
    split; [by rewrite app_nil_r|apply sublist_nil_l]. }
  exists c2, (first ++ more). split_and!; [done|by eapply same_identity_trans| |by apply sublist_app|].
  - by rewrite Hs2, Hf, app_assoc.
  - intros Hr Hn. rewrite not_elem_of_cons in Hn. destruct Hn as [Hne Hn].
    destruct (Hall2 Hr Hn) as [-> Hr1]. destruct (Hall1 Hr1) as [Hr0 Hs]; [by intros ->|]. split; [|done].
    rewrite Hf in Hs. by apply app_inv_head in Hs as ->.
Qed.
End promises.

(** * A run: two connections of user 1, one of which is slow, and one of user 2 *)

Definition narrow : webSocketClientConfig := WebSocketClientConfig 1 1024 1 1.
Definition made (user session : Z) (connection_id : string) : webSocketClient :=
  WebSocketClient user session connection_id narrow [] [] None.

Definition opening : list hub_event := [
  ClientMade 0 (made 1 5 "a"); Registered 0; ClientMade 1 (made 1 6 "b"); Registered 1;
  ClientMade 2 (made 2 7 "c"); Registered 2].
Definition traffic : list hub_event := [
  Delivered in_order 1 [10]; Written 0; Delivered in_order 2 [20]; Delivered in_order 1 [30];
  ConnectionDisconnected 2 "c"; Written 0; ClientShutdown 2 1008 "session revoked"].

Definition open_hub : webSocketHub := hub_run newWebSocketHub opening.

Lemma new_hub_ok : hub_ok newWebSocketHub.
Proof.
  split; [split|done|done]; unfold registered, clients_of; simpl.
  - intros user id ref. rewrite lookup_empty. simpl. by rewrite lookup_empty.
  - intros user m. by rewrite lookup_empty.
Qed.

Lemma opening_allowed : events_allowed newWebSocketHub opening.
Proof.
  unfold opening. cbn [events_allowed event_allowed].
  repeat split; try (vm_compute; reflexivity); intros c Hc; vm_compute in Hc; injection Hc as <-; vm_compute; reflexivity.
Qed.

Lemma open_hub_ok : hub_ok open_hub.
Proof. apply hub_run_ok; [exact new_hub_ok|exact opening_allowed]. Qed.

Lemma traffic_allowed h : events_allowed h traffic.
Proof. unfold traffic. cbn [events_allowed event_allowed]. tauto. Qed.

Lemma hub_keeps_registry_witness :
  hub_ok newWebSocketHub ∧ events_allowed newWebSocketHub opening ∧ hub_ok (hub_run newWebSocketHub opening).
Proof.
  split; [exact new_hub_ok|]. split; [exact opening_allowed|].
  exact (hub_keeps_registry opening newWebSocketHub new_hub_ok opening_allowed).
Defined.

Lemma deliver_reaches_connections_witness :
  ∃ h', deliver in_order 1 [10] open_hub = (2, h') ∧
    (∀ ref, (∀ id, registered 1 id open_hub ≠ Some ref) → objects h' !! ref = objects open_hub !! ref).
Proof.
  exists (deliver in_order 1 [10] open_hub).2.
  assert (deliver in_order 1 [10] open_hub = (2, (deliver in_order 1 [10] open_hub).2)) as Hd by (vm_compute; reflexivity).
  split; [exact Hd|].
  exact (proj1 (proj2 (proj2 (deliver_reaches_connections in_order 1 [10] open_hub 2 _ open_hub_ok Hd)))).
Defined.

Lemma disconnect_revokes_session_witness :
  registered 1 "a" open_hub = Some 0%nat ∧ registered 1 "a" (disconnectMatching in_order 1 5 open_hub) = None ∧
  registered 1 "b" (disconnectMatching in_order 1 5 open_hub) = Some 1%nat.
Proof.
  destruct (disconnect_revokes_session in_order 1 5 open_hub _ open_hub_ok eq_refl) as (Hd & _).
  split; [vm_compute; reflexivity|].
  split; [exact (proj1 (Hd "a"%string 0%nat (made 1 5 "a") eq_refl eq_refl))|].
  exact (proj1 (Hd "b"%string 1%nat (made 1 6 "b") eq_refl eq_refl)).
Defined.

(** The first connection stays and reads both payloads; the second is slow. *)
Lemma connection_stream_witness :
  registered 1 "a" (hub_run open_hub traffic) = Some 0%nat ∧ registered 1 "b" (hub_run open_hub traffic) = None ∧
  ∃ c', objects (hub_run open_hub traffic) !! 0%nat = Some c' ∧ stream c' = [[10]; [30]].
Proof.
  split; [vm_compute; reflexivity|]. split; [vm_compute; reflexivity|].
  destruct (connection_stream traffic open_hub 0 (made 1 5 "a") open_hub_ok (traffic_allowed _) eq_refl)
    as (c' & more & Hob & _ & Hs & _ & Hall).
  exists c'. split; [exact Hob|]. rewrite Hs. destruct (Hall eq_refl) as [Hm _]; [|rewrite Hm; reflexivity].
  unfold traffic. rewrite !not_elem_of_cons. split_and!; try discriminate. apply not_elem_of_nil.
Defined.
