(* ===== verification/Redis.v ===== *)
(** The Redis commands that the program's scripts and pipelines use, on a keyspace
    of strings and sets with expiry, and calls to the server over a network. *)
From Stdlib Require Import Ascii String.
From S2P Require Import Prelude GoStd.
Open Scope Z_scope.

(** * The keyspace.  Times are milliseconds. *)

Inductive redis_value : Type :=
| RText (s : string)
| RMembers (ms : gset string).

Record redis_entry : Type := RedisEntry { entry_value : redis_value; entry_expires : option Z }.

(** [subscriptions] counts a channel's subscribers; [published] is what was
    published, the latest last. *)
Record redis_db : Type := RedisDb {
  entries : gmap string redis_entry; clock : Z;
  subscriptions : string → nat; published : list (string * list Z)
}.

Definition with_entries (es : gmap string redis_entry) (db : redis_db) : redis_db :=
  RedisDb es (clock db) (subscriptions db) (published db).

Definition live (now : Z) (e : redis_entry) : bool :=
  match entry_expires e with Some t => now <? t | None => true end.

Definition entry_at (key : string) (db : redis_db) : option redis_entry :=
  e ← entries db !! key; if live (clock db) e then Some e else None.

Definition put_entry (key : string) (e : redis_entry) (db : redis_db) : redis_db :=
  with_entries (<[key := e]> (entries db)) db.
Definition del_entry (key : string) (db : redis_db) : redis_db := with_entries (delete key (entries db)) db.

(** * Commands, as a script calls them *)

Abbreviation script := (proc redis_db string).

Definition WRONGTYPE : string := "WRONGTYPE Operation against a key holding the wrong kind of value".

Definition GET (key : string) : script (option string) := λ db,
  match entry_at key db with
  | None => (Ok None, db)
  | Some e => match entry_value e with RText s => (Ok (Some s), db) | RMembers _ => (Err WRONGTYPE, db) end
  end.

(** [SET key value PX ms]. *)
Definition SET_PX (key value : string) (ms : Z) : script unit := λ db,
  if ms <=? 0 then (Err "ERR invalid expire time in 'set' command"%string, db)
  else (Ok tt, put_entry key (RedisEntry (RText value) (Some (clock db + ms))) db).

Definition DEL (key : string) : script unit := λ db, (Ok tt, del_entry key db).

(** The members of a set; an absent key is an empty one. *)
Definition members_at (key : string) (db : redis_db) : result string (gset string) :=
  match entry_at key db with
  | None => Ok ∅
  | Some e => match entry_value e with RMembers ms => Ok ms | RText _ => Err WRONGTYPE end
  end.

Definition expiry_at (key : string) (db : redis_db) : option Z := entry_at key db ≫= entry_expires.

Definition SADD (key member : string) : script unit := λ db,
  match members_at key db with
  | Err e => (Err e, db)
  | Ok ms => (Ok tt, put_entry key (RedisEntry (RMembers ({[member]} ∪ ms)) (expiry_at key db)) db)
  end.

(** A set that becomes empty is removed. *)
Definition SREM (key : string) (removed : list string) : script unit := λ db,
  match members_at key db with
  | Err e => (Err e, db)
  | Ok ms =>
      let rest := ms ∖ list_to_set removed in
      (Ok tt, if bool_decide (rest = ∅) then del_entry key db
              else put_entry key (RedisEntry (RMembers rest) (expiry_at key db)) db)
  end.

Definition SCARD (key : string) : script Z := λ db,
  (ms ← members_at key db; Ok (Z.of_nat (size ms)), db).

(** In some order. *)
Definition SMEMBERS (key : string) : script (list string) := λ db,
  (ms ← members_at key db; Ok (elements ms), db).

(** A key that holds no string reads as nil. *)
Definition text_at (db : redis_db) (key : string) : option string :=
  e ← entry_at key db; match entry_value e with RText s => Some s | RMembers _ => None end.
Definition MGET (keys : list string) : script (list (option string)) := λ db, (Ok (text_at db <$> keys), db).

Definition PEXPIRE (key : string) (ms : Z) : script unit := λ db,
  match entry_at key db with
  | None => (Ok tt, db)
  | Some e =>
      (Ok tt, if ms <=? 0 then del_entry key db
              else put_entry key (RedisEntry (entry_value e) (Some (clock db + ms))) db)
  end.

(** -2: no key; -1: no expiry. *)
Definition PTTL (key : string) : script Z := λ db,
  (Ok (match entry_at key db with
       | None => -2
       | Some e => match entry_expires e with Some t => t - clock db | None => -1 end
       end), db).

Definition INCR (key : string) : script Z := λ db,
  match GET key db with
  | (Err e, _) => (Err e, db)
  | (Ok v, _) =>
      match (match v with None => Some 0 | Some s => ParseInt s end) with
      | None => (Err "ERR value is not an integer or out of range"%string, db)
      | Some n =>
          if n <? int64_max
          then (Ok (n + 1), put_entry key (RedisEntry (RText (FormatInt (n + 1))) (expiry_at key db)) db)
          else (Err "ERR increment or decrement would overflow"%string, db)
      end
  end.

Definition PUBLISH (channel : string) (payload : list Z) : script Z := λ db,
  (Ok (Z.of_nat (subscriptions db channel)),
   RedisDb (entries db) (clock db) (subscriptions db) (published db ++ [(channel, payload)])).

(** * The network

    Before a call is served, other clients and the clock have done what they did;
    the call may not reach the server, or its reply may be lost. *)
Inductive trip_end : Type := TripDone | TripNotServed | TripReplyLost.
Record trip : Type := Trip { interference : redis_db → redis_db; ending : trip_end }.

Record redis_world : Type := RedisWorld { redis : redis_db; trips : list trip }.

Definition connection_failed : string := "redis connection failed".

(** One round trip.  Beyond the schedule the server is ours and answers. *)
Definition round_trip {A} (s : script A) : proc redis_world string A := λ w,
  match trips w with
  | [] => let '(r, db) := s (redis w) in (r, RedisWorld db [])
  | t :: rest =>
      let db := interference t (redis w) in
      match ending t with
      | TripNotServed => (Err connection_failed, RedisWorld db rest)
      | TripReplyLost => (Err connection_failed, RedisWorld (s db).2 rest)
      | TripDone => let '(r, db') := s db in (r, RedisWorld db' rest)
      end
  end.

(** * Reading after writing *)

Lemma entry_at_put key e db key' :
  entry_at key' (put_entry key e db) =
    if decide (key' = key) then (if live (clock db) e then Some e else None) else entry_at key' db.
Proof.
  unfold entry_at, put_entry, with_entries. simpl. destruct (decide (key' = key)) as [->|Hne].
  - by rewrite lookup_insert_eq.
  - by rewrite lookup_insert_ne.
Qed.

Lemma entry_at_del key db key' :
  entry_at key' (del_entry key db) = if decide (key' = key) then None else entry_at key' db.
Proof.
  unfold entry_at, del_entry, with_entries. simpl. destruct (decide (key' = key)) as [->|Hne].
  - by rewrite lookup_delete_eq.
  - by rewrite lookup_delete_ne.
Qed.

(** The keyspace a call meets: after what other clients did before it. *)
Definition met (w : redis_world) : redis_db :=
  match trips w with [] => redis w | t :: _ => interference t (redis w) end.

Lemma round_trip_met {A} (s : script A) w r w' :
  round_trip s w = (r, w') →
  (redis w' = (s (met w)).2 ∧ (r = (s (met w)).1 ∨ r = Err connection_failed)) ∨
  (redis w' = met w ∧ r = Err connection_failed).
Proof.
  unfold round_trip, met. destruct (trips w) as [|t rest].
  - destruct (s (redis w)) as [r0 db] eqn:E. intros; simplify_eq. left. auto.
  - destruct (ending t).
    + destruct (s _) as [r0 db] eqn:E. intros; simplify_eq. left. auto.
    + intros; simplify_eq. by right.
    + intros; simplify_eq. left. auto.
Qed.

(** A quiet server. *)
Lemma round_trip_quiet {A} (s : script A) db :
  round_trip s (RedisWorld db []) = let '(r, db') := s db in (r, RedisWorld db' []).
Proof. done. Qed.

(** What a procedure leaves of the schedule. *)
Definition consumes {A} (m : proc redis_world string A) : Prop :=
  ∀ w r w', m w = (r, w') → ∃ n, trips w' = drop n (trips w).

Lemma consumes_ret {A} (a : A) : consumes (mret a).
Proof. intros w r w' [? ?]%proc_ret_inv; subst. by exists 0%nat. Qed.
Lemma consumes_throw {A} (e : string) : consumes (mthrow e : proc redis_world string A).
Proof. intros w r w' [? ?]%proc_throw_inv; subst. by exists 0%nat. Qed.
Lemma consumes_refuse {A} (x : result string A) : consumes (refuse x).
Proof. destruct x; [apply consumes_throw|apply consumes_ret]. Qed.
Lemma consumes_round_trip {A} (s : script A) : consumes (round_trip s).
Proof.
  intros w r w'. unfold round_trip. destruct (trips w) as [|t rest] eqn:E.
  - destruct (s (redis w)). intros [= <- <-]. by exists 0%nat.
  - destruct (ending t); [destruct (s _)|..]; intros [= <- <-]; by exists 1%nat.
Qed.
Lemma consumes_bind {A B} (m : proc redis_world string A) (f : A → proc redis_world string B) :
  consumes m → (∀ a, consumes (f a)) → consumes (m ≫= f).
Proof.
  intros Hm Hf w r w' [(e & H & _)|(a & w1 & H & H')]%proc_bind_inv; apply Hm in H as (n & Hn); [by exists n|].
  apply Hf in H' as (k & Hk). exists (n + k)%nat. by rewrite Hk, Hn, drop_drop.
Qed.

Create HintDb redis.
#[export] Hint Resolve consumes_ret consumes_throw consumes_refuse consumes_round_trip consumes_bind : redis.

Lemma consumes_Forall {A} (m : proc redis_world string A) (P : trip → Prop) w r w' :
  consumes m → m w = (r, w') → Forall P (trips w) → Forall P (trips w').
Proof. intros Hm Hrun HP. destruct (Hm _ _ _ Hrun) as (n & ->). by apply Forall_drop. Qed.
