(* ===== verification/RateLimit.v ===== *)
(** [rate_limit.go]: fixed-window counters in Redis, checked and charged by one
    script; the rules of each endpoint; and whose address a request comes from. *)
From Stdlib Require Import Ascii String.
From S2P Require Import Prelude GoStd Text Redis.
Open Scope Z_scope.

(** Windows are nanoseconds. *)
Record rateLimitRule : Type := RateLimitRule { rule_key : string; rule_limit : Z; rule_window : Z }.

(** * The script [incrementWindows] *)

(** [tonumber(redis.call('GET', key) or '0')]. *)
Definition counter (key : string) : script Z :=
  v ← GET key;
  match v with
  | None => mret 0
  | Some s => match ParseInt s with Some n => mret n | None => mthrow "ERR attempt to compare nil with number"%string end
  end.

(** The first loop: nothing is charged; the longest wait of a full window. *)
Fixpoint check_windows (rules : list rateLimitRule) (allowed : bool) (retry_after_ms : Z) : script (bool * Z) :=
  match rules with
  | [] => mret (allowed, retry_after_ms)
  | r :: rest =>
      count ← counter (rule_key r);
      if rule_limit r <=? count then
        ttl ← PTTL (rule_key r);
        check_windows rest false (if retry_after_ms <? ttl then ttl else retry_after_ms)
      else check_windows rest allowed retry_after_ms
  end.

Fixpoint charge_windows (rules : list rateLimitRule) : script unit :=
  match rules with
  | [] => mret tt
  | r :: rest =>
      count ← INCR (rule_key r);
      _ ← (if count =? 1 then PEXPIRE (rule_key r) (Milliseconds (rule_window r)) else mret tt);
      charge_windows rest
  end.

Definition incrementWindows (rules : list rateLimitRule) : script (Z * Z) :=
  '(allowed, retry_after_ms) ← check_windows rules true 0;
  if allowed : bool then _ ← charge_windows rules; mret (1, 0) else mret (0, retry_after_ms).

(** * The limiter *)

Definition Allow (rules : list rateLimitRule) : proc redis_world string (bool * Z) :=
  match rules with
  | [] => mret (true, 0)
  | _ =>
      '(allowed, retryMilliseconds) ← round_trip (incrementWindows rules);
      mret (allowed =? 1, wrap64 (retryMilliseconds * millisecond))
  end.

(** * The rules of an endpoint *)
Section rules.
Context `{SHA256}.
Open Scope string_scope.

Definition dimensionKey (endpoint dimension value : string) : string :=
  "auth:rl:" ++ endpoint ++ ":" ++ dimension ++ ":" ++ hex (Sum256 (bytes_of value)).

Definition minute : Z := 60 * second.
Definition hour : Z := 60 * minute.

Definition rulesForAuthRequest (endpoint clientIP account device : string) : list rateLimitRule :=
  let global n := RateLimitRule ("auth:rl:global:" ++ endpoint) n minute in
  let dimension name value n w := RateLimitRule (dimensionKey endpoint name value) n w in
  (if bool_decide (endpoint = "register") then [global 200; dimension "ip" clientIP 10 hour]
   else if bool_decide (endpoint = "login") then
     [global 1000; dimension "ip" clientIP 30 minute]%Z ++
     (if bool_decide (account = "") then [] else [dimension "account" account 10 (5 * minute)%Z])
   else if bool_decide (endpoint = "refresh") then [global 2000; dimension "ip" clientIP 120 minute]
   else [global 1000])%list ++
  (if bool_decide (device = "") then [] else [dimension "device" device 30 minute]).

(** * The request's answer: pass, or a status, a code and perhaps Retry-After *)

Inductive rate_limit_answer : Type :=
| RateLimitPassed
| RateLimitRefused (status : Z) (code text : string) (retryAfter : option string).

(** [(retryAfter + time.Second - 1) / time.Second], at least one. *)
Definition retry_seconds (retryAfter : Z) : Z :=
  let seconds := Z.quot (wrap64 (wrap64 (retryAfter + second) - 1)) second in
  if (seconds <? 1)%Z then 1 else seconds.

(** [limiter] is false when the server runs without one. *)
Definition enforceAuthRateLimit (limiter rateLimitFailOpen : bool) (endpoint clientIP account device : string)
    (w : redis_world) : rate_limit_answer * redis_world :=
  if negb limiter then (RateLimitPassed, w)
  else
    match Allow (rulesForAuthRequest endpoint clientIP account device) w with
    | (Err _, w') =>
        (if rateLimitFailOpen then RateLimitPassed
         else RateLimitRefused 503 "AUTH_RATE_LIMIT_UNAVAILABLE"
                "authentication rate limiter is temporarily unavailable" None, w')
    | (Ok (true, _), w') => (RateLimitPassed, w')
    | (Ok (false, retryAfter), w') =>
        (RateLimitRefused 429 "AUTH_RATE_LIMITED" "too many authentication attempts"
           (Some (FormatInt (retry_seconds retryAfter))), w')
    end.
End rules.

(** * Addresses: package net *)
Class NetIP := {
  ip : Type;
  network : Type;
  SplitHostPort : string → option string;
  ParseIP : string → option ip;
  ip_text : ip → string;
  ParseCIDR : string → option network;
  network_contains : network → ip → bool
}.

Section client_address.
Context `{NetIP}.

Definition ipInNetworks (address : ip) (networks : list network) : bool :=
  existsb (λ n, network_contains n address) networks.

(** The loop over the forwarded addresses, the last one first; [None] when one of
    them does not parse. *)
Fixpoint vouched (networks : list network) (clientIP : ip) (last_first : list text) : option ip :=
  match last_first with
  | [] => Some clientIP
  | entry :: rest =>
      address ← ParseIP (string_of (TrimSpace entry));
      if ipInNetworks address networks then vouched networks address rest else Some address
  end.

(** [forwardedFor] are the values of X-Forwarded-For. *)
Definition clientIP (trustedProxyNetworks : list network) (remoteAddr : string) (forwardedFor : list string) : string :=
  let host := default remoteAddr (SplitHostPort remoteAddr) in
  match ParseIP host with
  | None => host
  | Some peerIP =>
      if negb (ipInNetworks peerIP trustedProxyNetworks) then host
      else
        match vouched trustedProxyNetworks peerIP (reverse (split_at 44 (join 44 (bytes_of <$> forwardedFor)))) with
        | Some address => ip_text address
        | None => host
        end
  end.

Definition parseTrustedProxyNetworks (value : string) : option (list network) :=
  match TrimSpace (bytes_of value) with
  | [] => Some []
  | _ => mapM (λ part, ParseCIDR (string_of (TrimSpace part))) (split_at 44 (bytes_of value))
  end.
End client_address.
