(* ===== verification/RateLimitOk.v ===== *)
(** What rate limiting promises: a request is charged in every dimension or in none,
    no window admits more than its limit, and a client cannot choose its address. *)
From Stdlib Require Import Ascii String.
From S2P Require Import Prelude GoStd Text Numerals Redis RateLimit.
Open Scope Z_scope.

Section windows.
Implicit Types (db : redis_db) (r : rateLimitRule) (rules : list rateLimitRule).

(** * One script run *)

(** A counter as the script reads it; an absent one is zero. *)
Definition reading db (key : string) : option Z :=
  match entry_at key db with
  | None => Some 0
  | Some e => match entry_value e with RText s => ParseInt s | RMembers _ => None end
  end.

Lemma counter_reading key db n : reading db key = Some n → counter key db = (Ok n, db).
Proof.
  unfold reading, counter, GET, mbind, proc_bind. destruct (entry_at key db) as [[v exp]|]; [|by intros [= ->]].
  simpl. destruct v as [s|]; [|done]. by intros ->.
Qed.

Definition under_limit db r : bool := default 0 (reading db (rule_key r)) <? rule_limit r.

Lemma check_windows_spec rules db allowed retry :
  Forall (λ r, is_Some (reading db (rule_key r))) rules →
  ∃ retry', check_windows rules allowed retry db = (Ok (allowed && forallb (under_limit db) rules, retry'), db).
Proof.
  intros Hall. revert allowed retry. induction Hall as [|r rules [n Hn] _ IH]; intros allowed retry.
  { exists retry. by rewrite andb_true_r. }
  cbn [check_windows forallb]. rewrite (proc_bind_run _ _ _ _ _ (counter_reading _ _ _ Hn)).
  unfold under_limit at 1. rewrite Hn. cbn [default from_option id]. destruct (rule_limit r <=? n) eqn:E.
  - replace (n <? rule_limit r) with false by lia. cbn [andb]. rewrite andb_false_r.
    unfold PTTL. unfold mbind, proc_bind at 1. destruct (IH false (if retry <? match entry_at (rule_key r) db with
      | Some e => match entry_expires e with Some t => t - clock db | None => -1 end
      | None => -2 end then match entry_at (rule_key r) db with
      | Some e => match entry_expires e with Some t => t - clock db | None => -1 end
      | None => -2 end else retry)) as (retry' & Hr). eauto.
  - replace (n <? rule_limit r) with true by lia. cbn [andb]. apply IH.
Qed.

(** What charging a rule makes of its entry. *)
Definition charged (n : Z) (expires : option Z) : redis_entry := RedisEntry (RText (FormatInt (n + 1))) expires.

(** A counter that is in use: its value and when it ends. *)
Definition counts db (key : string) (n t : Z) : Prop :=
  entry_at key db = Some (RedisEntry (RText (FormatInt n)) (Some t)).

Lemma counts_reading db key n t : counts db key n t → is_int64 n → reading db key = Some n.
Proof. unfold counts, reading. intros ->. simpl. apply ParseInt_FormatInt. Qed.

Lemma entry_at_live key db e : entry_at key db = Some e → live (clock db) e = true.
Proof. unfold entry_at. intros (e' & _ & He)%bind_Some. destruct (live _ e') eqn:E; by simplify_eq. Qed.

Lemma charge_new r db :
  entry_at (rule_key r) db = None → 0 < Milliseconds (rule_window r) →
  ∃ db', charge_windows [r] db = (Ok tt, db') ∧ clock db' = clock db ∧
    (∀ key, entry_at key db' = if decide (key = rule_key r)
      then Some (charged 0 (Some (clock db + Milliseconds (rule_window r)))) else entry_at key db).
Proof.
  intros Hn Hw. cbn [charge_windows]. unfold INCR, GET, mbind, proc_bind. rewrite Hn. cbn [Z.ltb].
  change (0 <? int64_max) with true. cbv iota.
  unfold expiry_at. rewrite Hn. cbn [mbind option_bind]. change (0 + 1 =? 1) with true. cbv iota.
  unfold PEXPIRE. rewrite entry_at_put, decide_True by done. cbn [live entry_expires entry_value].
  replace (Milliseconds (rule_window r) <=? 0) with false by lia.
  eexists. split; [reflexivity|]. split; [done|]. intros key. rewrite !entry_at_put.
  destruct (decide _); [|done]. unfold charged, live. cbn [entry_expires clock put_entry with_entries].
  by replace (clock db <? clock db + Milliseconds (rule_window r)) with true by lia.
Qed.

Lemma charge_counting r db n t :
  counts db (rule_key r) n t → 1 ≤ n < int64_max →
  ∃ db', charge_windows [r] db = (Ok tt, db') ∧ clock db' = clock db ∧
    (∀ key, entry_at key db' = if decide (key = rule_key r) then Some (charged n (Some t)) else entry_at key db).
Proof.
  intros Hn Hb. pose proof (entry_at_live _ _ _ Hn) as Hlive. unfold live in Hlive. cbn [entry_expires] in Hlive.
  cbn [charge_windows]. unfold INCR, GET, mbind, proc_bind. rewrite Hn. cbn [entry_value].
  rewrite ParseInt_FormatInt by (unfold is_int64, int64_min in *; lia).
  replace (n <? int64_max) with true by lia. unfold expiry_at. rewrite Hn. cbn [mbind option_bind entry_expires].
  replace (n + 1 =? 1) with false by lia.
  eexists. split; [reflexivity|]. split; [done|]. intros key. rewrite entry_at_put.
  destruct (decide _); [|done]. unfold live, charged. cbn [entry_expires]. by rewrite Hlive.
Qed.

Lemma charge_windows_cons r rules db db' :
  charge_windows [r] db = (Ok tt, db') → charge_windows (r :: rules) db = charge_windows rules db'.
Proof.
  cbn [charge_windows]. unfold mbind, proc_bind. destruct (INCR (rule_key r) db) as [[e|n] db1]; [done|].
  destruct ((if n =? 1 then PEXPIRE (rule_key r) (Milliseconds (rule_window r)) else mret tt) db1) as [[e|[]] db2]; [done|].
  by intros [= ->].
Qed.

(** * Tables of windows: each key has one limit and one length *)
Section tables.
Context (table : string → option (Z * Z)).
Context (table_ok : ∀ key limit window, table key = Some (limit, window) →
  1 ≤ limit < int64_max ∧ 0 < Milliseconds window).

Definition rules_ok rules : Prop :=
  NoDup (rule_key <$> rules) ∧ Forall (λ r, table (rule_key r) = Some (rule_limit r, rule_window r)) rules.

(** A window that is open admitted at most its limit and ends in time. *)
Definition window_ok db (key : string) (limit window : Z) : Prop :=
  entry_at key db = None ∨
  ∃ n t, counts db key n t ∧ 1 ≤ n ≤ limit ∧ t ≤ clock db + Milliseconds window.

Definition windows_ok db : Prop := ∀ key limit window, table key = Some (limit, window) → window_ok db key limit window.

Lemma window_reading db key limit window :
  windows_ok db → table key = Some (limit, window) →
  (entry_at key db = None ∧ reading db key = Some 0) ∨
  ∃ n t, counts db key n t ∧ reading db key = Some n ∧ 1 ≤ n ≤ limit.
Proof.
  intros Hok Hk. destruct (Hok _ _ _ Hk) as [Hn|(n & t & Hc & Hb & _)].
  - left. unfold reading. by rewrite Hn.
  - right. exists n, t. split_and!; try done; try apply Hb. eapply counts_reading; [done|].
    destruct (table_ok _ _ _ Hk). unfold is_int64, int64_min, int64_max in *. lia.
Qed.

(** What a charge does to the window of one of its rules. *)
Definition charges db db' r : Prop :=
  (entry_at (rule_key r) db = None → counts db' (rule_key r) 1 (clock db + Milliseconds (rule_window r))) ∧
  ∀ n t, counts db (rule_key r) n t → counts db' (rule_key r) (n + 1) t.

Lemma charge_one r db :
  windows_ok db → table (rule_key r) = Some (rule_limit r, rule_window r) → under_limit db r = true →
  ∃ db', charge_windows [r] db = (Ok tt, db') ∧ clock db' = clock db ∧ windows_ok db' ∧ charges db db' r ∧
    ∀ key, key ≠ rule_key r → entry_at key db' = entry_at key db.
Proof.
  intros Hok Hr Hu. destruct (table_ok _ _ _ Hr) as [Hl Hw]. unfold under_limit in Hu.
  assert (∃ db' n t, charge_windows [r] db = (Ok tt, db') ∧ clock db' = clock db ∧
    (∀ key, entry_at key db' = if decide (key = rule_key r) then Some (charged n (Some t)) else entry_at key db) ∧
    0 ≤ n < rule_limit r ∧ t ≤ clock db + Milliseconds (rule_window r) ∧
    (entry_at (rule_key r) db = None ∧ n = 0 ∧ t = clock db + Milliseconds (rule_window r) ∨
     counts db (rule_key r) n t)) as (db' & n & t & Hrun & Hclk & Hent & Hn & Ht & Hcase).
  { destruct (Hok _ _ _ Hr) as [Hn|(n & t & Hc & Hb & Ht)].
    - destruct (charge_new r db Hn Hw) as (db' & ? & ? & ?). exists db', 0, (clock db + Milliseconds (rule_window r)).
      split_and!; try done; try lia. by left.
    - rewrite (counts_reading _ _ _ _ Hc) in Hu by (unfold is_int64, int64_min, int64_max in *; lia). simpl in Hu.
      destruct (charge_counting r db n t Hc ltac:(lia)) as (db' & ? & ? & ?). exists db', n, t.
      split_and!; try done; try lia. by right. }
  assert (counts db' (rule_key r) (n + 1) t) as Hnew by (unfold counts; by rewrite Hent, decide_True).
  exists db'. split_and!; [done|done| | |].
  - intros key limit window Hk. unfold window_ok, counts. rewrite Hent, Hclk. destruct (decide (key = rule_key r)) as [->|Hne].
    + right. rewrite Hr in Hk. injection Hk as <- <-. exists (n + 1), t. split_and!; done || lia.
    + by apply Hok.
  - split; [intros Hnone|intros n' t' Hc'].
    + destruct Hcase as [(_ & -> & ->)|Hc]; [done|]. unfold counts in Hc. by rewrite Hnone in Hc.
    + destruct Hcase as [(Hnone & _)|Hc]; unfold counts in *; [by rewrite Hnone in Hc'|].
      rewrite Hc in Hc'. injection Hc' as Hf <-. apply (inj FormatInt) in Hf as <-. done.
  - intros key Hne. by rewrite Hent, decide_False.
Qed.

Lemma charge_windows_spec rules db :
  windows_ok db → rules_ok rules → Forall (λ r, under_limit db r = true) rules →
  ∃ db', charge_windows rules db = (Ok tt, db') ∧ clock db' = clock db ∧ windows_ok db' ∧
    Forall (charges db db') rules ∧ ∀ key, key ∉ rule_key <$> rules → entry_at key db' = entry_at key db.
Proof.
  revert db. induction rules as [|r rules IH]; intros db Hok [Hnd Hall] Hu.
  { exists db. split_and!; try done; by constructor. }
  rewrite fmap_cons in Hnd. apply NoDup_cons in Hnd as [Hni Hnd].
  apply Forall_cons in Hall as [Hr Hall], Hu as [Hur Hu].
  destruct (charge_one r db Hok Hr Hur) as (db1 & Hrun1 & Hclk1 & Hok1 & Hch1 & Hother1).
  assert (∀ x, x ∈ rules → entry_at (rule_key x) db1 = entry_at (rule_key x) db) as Hsame.
  { intros x Hx. apply Hother1. intros Heq. apply Hni. rewrite <-Heq. by apply list_elem_of_fmap_2. }
  destruct (IH db1 Hok1) as (db2 & Hrun2 & Hclk2 & Hok2 & Hch2 & Hother2); [by split| |].
  { rewrite Forall_forall in Hu |- *. intros x Hx. specialize (Hu x Hx). unfold under_limit, reading in *.
    by rewrite Hsame. }
  exists db2. rewrite (charge_windows_cons _ _ _ _ Hrun1). split_and!; [done|congruence|done| |].
  - constructor.
    + destruct Hch1 as [Hc1 Hc2]. split; [intros Hn|intros n t Hc]; unfold counts; rewrite Hother2 by done; [by apply Hc1|by apply Hc2].
    + rewrite Forall_forall in Hch2 |- *. intros x Hx. destruct (Hch2 x Hx) as [Hc1 Hc2].
      unfold charges, counts in *. rewrite Hsame, Hclk1 in Hc1 by done. rewrite Hsame in Hc2 by done. done.
  - intros key Hk. rewrite fmap_cons, not_elem_of_cons in Hk. destruct Hk as [Hk1 Hk2].
    by rewrite Hother2, Hother1.
Qed.

Lemma rules_reading rules db :
  windows_ok db → rules_ok rules → Forall (λ r, is_Some (reading db (rule_key r))) rules.
Proof.
  intros Hok [_ Hall]. apply (Forall_impl _ _ _ Hall). intros r Hr.
  destruct (window_reading db _ _ _ Hok Hr) as [[_ ->]|(n & t & _ & -> & _)]; by eexists.
Qed.

(** The script admits a request exactly when all its windows are under their limits;
    it charges all of them then, and none otherwise. *)
Lemma incrementWindows_spec rules db :
  windows_ok db → rules_ok rules →
  if forallb (under_limit db) rules then
    ∃ db', incrementWindows rules db = (Ok (1, 0), db') ∧ clock db' = clock db ∧ windows_ok db' ∧
      Forall (charges db db') rules ∧ ∀ key, key ∉ rule_key <$> rules → entry_at key db' = entry_at key db
  else ∃ retry, incrementWindows rules db = (Ok (0, retry), db).
Proof.
  intros Hok Hr. destruct (check_windows_spec rules db true 0 (rules_reading _ _ Hok Hr)) as (retry & Hc).
  unfold incrementWindows. rewrite (proc_bind_run _ _ _ _ _ Hc). cbn [andb].
  destruct (forallb (under_limit db) rules) eqn:Hu; [|by exists retry].
  destruct (charge_windows_spec rules db Hok Hr) as (db' & Hrun & Hrest).
  { apply Forall_forall. intros r Hin. rewrite forallb_forall in Hu. by apply Hu, list_elem_of_In. }
  exists db'. split; [|done]. by rewrite (proc_bind_run _ _ _ _ _ Hrun).
Qed.

(** * Time and requests *)

(** What the server goes through: time passes, and requests of any instance are
    served one after the other. *)
Inductive limiter_step : Type :=
| Tick (ms : Z)
| Request (rules : list rateLimitRule).

Definition pass (ms : Z) db : redis_db := RedisDb (entries db) (clock db + ms) (subscriptions db) (published db).

Definition charges_key (key : string) rules : bool := existsb (λ r, bool_decide (rule_key r = key)) rules.

(** How many admitted requests were charged to [key], and the state after. *)
Fixpoint admissions (key : string) (steps : list limiter_step) db : Z * redis_db :=
  match steps with
  | [] => (0, db)
  | Tick ms :: rest => admissions key rest (pass ms db)
  | Request rules :: rest =>
      let '(r, db1) := incrementWindows rules db in
      let '(n, db2) := admissions key rest db1 in
      (n + (if r is Ok (1, _) then if charges_key key rules then 1 else 0 else 0), db2)
  end.

Definition step_ok (s : limiter_step) : Prop :=
  match s with Tick ms => 0 ≤ ms | Request rules => rules_ok rules end.

Lemma entry_at_pass key ms db :
  0 ≤ ms →
  entry_at key (pass ms db) = (e ← entry_at key db; if live (clock db + ms) e then Some e else None).
Proof.
  intros Hms. unfold entry_at. cbn [entries clock pass]. destruct (entries db !! key) as [e|]; [|done].
  cbn [mbind option_bind]. destruct (live (clock db) e) eqn:E; [done|].
  unfold live in *. destruct (entry_expires e); [|done]. by replace (_ <? _) with false by lia.
Qed.

Lemma windows_ok_pass ms db : 0 ≤ ms → windows_ok db → windows_ok (pass ms db).
Proof.
  intros Hms Hok key limit window Hk. unfold window_ok, counts. rewrite entry_at_pass by done.
  destruct (Hok _ _ _ Hk) as [->|(n & t & -> & Hn & Ht)]; [by left|]. cbn [mbind option_bind].
  destruct (live _ _); [right|by left]. exists n, t. split_and!; [done|lia|lia|cbn [clock pass]; lia].
Qed.

(** The key's window is open from before and ends later, or opens from now on. *)
Definition in_window db (key : string) (window n0 finish : Z) : Prop :=
  (entry_at key db = None ∧ n0 = 0 ∧ finish < clock db + Milliseconds window) ∨
  ∃ t, counts db key n0 t ∧ finish < t.

Lemma charges_key_spec key rules :
  charges_key key rules = true ↔ ∃ r, r ∈ rules ∧ rule_key r = key.
Proof.
  unfold charges_key. rewrite existsb_exists. split; intros (r & Hr & Hk); exists r.
  - rewrite <-list_elem_of_In in Hr. by rewrite bool_decide_eq_true in Hk.
  - rewrite <-list_elem_of_In. by rewrite bool_decide_eq_true.
Qed.

Lemma request_in_window rules db db' key limit window n0 finish :
  windows_ok db → rules_ok rules → table key = Some (limit, window) → in_window db key window n0 finish →
  clock db' = clock db → Forall (charges db db') rules →
  (∀ key, key ∉ rule_key <$> rules → entry_at key db' = entry_at key db) →
  in_window db' key window (n0 + if charges_key key rules then 1 else 0) finish.
Proof.
  intros Hok [_ Hall] Hk Hin Hclk Hch Hother. destruct (charges_key key rules) eqn:E.
  - apply charges_key_spec in E as (r & Hr & <-). rewrite Forall_forall in Hch, Hall.
    destruct (Hch r Hr) as [Hc1 Hc2]. specialize (Hall r Hr). rewrite Hk in Hall. injection Hall as -> ->. right.
    destruct Hin as [(Hn & -> & Hf)|(t & Hc & Hf)]; [exists (clock db + Milliseconds (rule_window r))|exists t]; auto.
  - assert (key ∉ rule_key <$> rules) as Hni.
    { intros (r & -> & Hr)%list_elem_of_fmap. apply not_true_iff_false in E. apply E, charges_key_spec. eauto. }
    rewrite Z.add_0_r. unfold in_window, counts. by rewrite Hother, Hclk.
Qed.

Lemma pass_in_window ms db key window n0 finish :
  0 ≤ ms → clock db + ms ≤ finish → in_window db key window n0 finish → in_window (pass ms db) key window n0 finish.
Proof.
  intros Hms Hf Hin. unfold in_window, counts. rewrite entry_at_pass by done.
  destruct Hin as [(-> & -> & Hlt)|(t & Hc & Hlt)].
  - left. split_and!; [done|done|cbn [clock pass]; lia].
  - right. exists t. rewrite Hc. cbn [mbind option_bind live entry_expires].
    by replace (clock db + ms <? t) with true by lia.
Qed.

Lemma admissions_bounded key steps db n db' :
  windows_ok db → Forall step_ok steps → admissions key steps db = (n, db') →
  windows_ok db' ∧ clock db ≤ clock db' ∧
  ∀ limit window n0, table key = Some (limit, window) → in_window db key window n0 (clock db') → n0 + n ≤ limit.
Proof.
  revert db n. induction steps as [|s steps IH]; intros db n Hok Hall Hrun.
  { simpl in Hrun. simplify_eq. split_and!; [done|lia|]. intros limit window n0 Hk Hin.
    destruct (table_ok _ _ _ Hk). destruct (Hok _ _ _ Hk) as [Hn|(k & t & Hc & Hb & _)].
    - destruct Hin as [(_ & -> & _)|(t & Hc & _)]; [lia|]. unfold counts in Hc. by rewrite Hn in Hc.
    - destruct Hin as [(Hn & _)|(t' & Hc' & _)]; unfold counts in *; [by rewrite Hn in Hc|].
      rewrite Hc in Hc'. injection Hc' as Hf _. apply (inj FormatInt) in Hf as <-. lia. }
  apply Forall_cons in Hall as [Hs Hall]. destruct s as [ms|rules]; simpl in Hs, Hrun.
  - apply IH in Hrun as (Hok' & Hclk & Hb); [|by apply windows_ok_pass|done]. cbn [clock pass] in Hclk.
    split_and!; [done|lia|]. intros limit window n0 Hk Hin. eapply Hb; [done|]. by apply pass_in_window.
  - pose proof (incrementWindows_spec rules db Hok Hs) as Hspec. destruct (forallb (under_limit db) rules).
    + destruct Hspec as (db1 & Hinc & Hclk1 & Hok1 & Hch & Hother). rewrite Hinc in Hrun.
      destruct (admissions key steps db1) as [m db2] eqn:Hrec. simplify_eq.
      apply IH in Hrec as (Hok' & Hclk & Hb); [|done..]. split_and!; [done|lia|]. intros limit window n0 Hk Hin.
      pose proof (request_in_window _ _ _ _ _ _ _ _ Hok Hs Hk Hin Hclk1 Hch Hother) as Hin1.
      specialize (Hb _ _ _ Hk Hin1). lia.
    + destruct Hspec as (retry & Hinc). rewrite Hinc in Hrun.
      destruct (admissions key steps db) as [m db2] eqn:Hrec. simplify_eq.
      apply IH in Hrec as (Hok' & Hclk & Hb); [|done..]. split_and!; [done|lia|]. intros limit window n0 Hk Hin.
      specialize (Hb _ _ _ Hk Hin). lia.
Qed.

(** C22: however requests of any endpoints and instances follow each
    other, a window that starts with the first of them admits at most its limit:
    until it ends, no more requests pass that were charged to its key.  Every
    counter keeps an expiry, so no window stays closed for good. *)
Theorem window_never_over_admits key limit window steps db n db' :
  windows_ok db → Forall step_ok steps → table key = Some (limit, window) →
  admissions key steps db = (n, db') →
  windows_ok db' ∧
  (entry_at key db = None → clock db' < clock db + Milliseconds window → n ≤ limit) ∧
  ∀ n0 t, counts db key n0 t → clock db' < t → n0 + n ≤ limit.
Proof.
  intros Hok Hall Hk Hrun. destruct (admissions_bounded _ _ _ _ _ Hok Hall Hrun) as (Hok' & Hclk & Hb).
  split_and!; [done|intros Hn Hlt|intros n0 t Hc Hlt].
  - specialize (Hb limit window 0 Hk). apply Hb. by left.
  - eapply Hb; [done|]. right. eauto.
Qed.

(** On a server that answers, [Allow] admits a request exactly
    when each of its windows is under its limit.  It then charges each of them,
    opening those that were closed for their full length; a refused request is
    charged nowhere. *)
Theorem Allow_charges_all_or_none rules db :
  windows_ok db → rules_ok rules → rules ≠ [] →
  ∃ retry db', Allow rules (RedisWorld db []) = (Ok (forallb (under_limit db) rules, retry), RedisWorld db' []) ∧
    windows_ok db' ∧ (∀ key, key ∉ rule_key <$> rules → entry_at key db' = entry_at key db) ∧
    if forallb (under_limit db) rules then Forall (charges db db') rules else db' = db.
Proof.
  intros Hok Hr Hne. pose proof (incrementWindows_spec rules db Hok Hr) as Hspec.
  assert (∀ ok retry db', incrementWindows rules db = (Ok (ok, retry), db') →
    Allow rules (RedisWorld db []) = (Ok (ok =? 1, wrap64 (retry * millisecond)), RedisWorld db' [])) as Hrun.
  { intros ok retry db' Hinc. unfold Allow. destruct rules as [|r rules]; [done|].
    unfold mbind, proc_bind. by rewrite round_trip_quiet, Hinc. }
  destruct (forallb (under_limit db) rules).
  - destruct Hspec as (db' & Hinc & _ & Hok' & Hch & Hother). apply Hrun in Hinc. eauto 10.
  - destruct Hspec as (retry & Hinc). apply Hrun in Hinc. eauto 10.
Qed.
End tables.
End windows.

(** * The windows of the program *)
Section auth_windows.
Context `{SHA256}.
Open Scope string_scope.

(** A key's prefix names its window. *)
Definition auth_window_table : list (string * (Z * Z)) := [
  ("auth:rl:global:register", (200, minute)); ("auth:rl:global:login", (1000, minute));
  ("auth:rl:global:refresh", (2000, minute)); ("auth:rl:register:ip:", (10, hour));
  ("auth:rl:login:ip:", (30, minute)); ("auth:rl:login:account:", (10, (5 * minute)%Z));
  ("auth:rl:refresh:ip:", (120, minute)); ("auth:rl:register:device:", (30, minute));
  ("auth:rl:login:device:", (30, minute)); ("auth:rl:refresh:device:", (30, minute))]%Z.

Definition auth_window (key : string) : option (Z * Z) :=
  snd <$> List.find (λ p, HasPrefix p.1 key) auth_window_table.

Lemma auth_window_bounds key limit window :
  auth_window key = Some (limit, window) → (1 ≤ limit < int64_max ∧ 0 < Milliseconds window)%Z.
Proof.
  unfold auth_window. intros ([p [l w]] & [Hin _]%find_some & [= -> ->])%fmap_Some.
  apply list_elem_of_In in Hin. unfold auth_window_table in Hin.
  repeat (apply elem_of_cons in Hin as [[= -> -> ->]|Hin]; [by vm_compute|]). by apply elem_of_nil in Hin.
Qed.

Lemma auth_rules_ok endpoint address account device :
  endpoint ∈ ["register"; "login"; "refresh"] →
  rules_ok auth_window (rulesForAuthRequest endpoint address account device).
Proof.
  intros Hin. unfold rulesForAuthRequest, dimensionKey.
  generalize (hex (Sum256 (bytes_of address))), (hex (Sum256 (bytes_of account))), (hex (Sum256 (bytes_of device))).
  intros a b c.
  repeat (apply elem_of_cons in Hin as [->|Hin]); [..|by apply elem_of_nil in Hin];
    repeat match goal with
    | |- context [bool_decide (?x = ?y)] =>
        first [rewrite (bool_decide_eq_true_2 (x = y)) by reflexivity
              |rewrite (bool_decide_eq_false_2 (x = y)) by discriminate
              |destruct (bool_decide (x = y))]
    end; (split; [|repeat constructor; vm_compute; reflexivity]); cbn [fmap list_fmap app rule_key];
    repeat (apply NoDup_cons_2; [rewrite ?not_elem_of_cons; repeat split; try discriminate; apply not_elem_of_nil|]);
    apply NoDup_nil_2.
Qed.
End auth_windows.

(** * Addresses *)
Section addresses.
Context `{NetIP}.

Lemma vouched_trusted networks peer entries address rest :
  Forall (λ entry, ∃ a, ParseIP (string_of (TrimSpace entry)) = Some a ∧ ipInNetworks a networks = true) entries →
  ipInNetworks address networks = false →
  ∀ entry, ParseIP (string_of (TrimSpace entry)) = Some address →
  vouched networks peer (entries ++ entry :: rest) = Some address.
Proof.
  intros Hall Ha entry Hp. revert peer. induction Hall as [|x entries (a & Hx & Ht) _ IH]; intros peer; cbn [app vouched].
  - rewrite Hp. cbn [mbind option_bind]. by rewrite Ha.
  - rewrite Hx. cbn [mbind option_bind]. by rewrite Ht.
Qed.

(** A request that reaches the server from elsewhere than a
    trusted proxy is counted under its own address, whatever X-Forwarded-For says;
    behind trusted proxies it is counted under the last address that is not one of
    theirs, whatever a client put before it. *)
Theorem clientIP_cannot_be_forged networks remoteAddr forwardedFor peer :
  ParseIP (default remoteAddr (SplitHostPort remoteAddr)) = Some peer →
  (ipInNetworks peer networks = false →
   clientIP networks remoteAddr forwardedFor = default remoteAddr (SplitHostPort remoteAddr)) ∧
  ∀ forged entry proxies address,
    split_at 44 (join 44 (bytes_of <$> forwardedFor)) = forged ++ entry :: proxies →
    ipInNetworks peer networks = true →
    Forall (λ p, ∃ a, ParseIP (string_of (TrimSpace p)) = Some a ∧ ipInNetworks a networks = true) proxies →
    ParseIP (string_of (TrimSpace entry)) = Some address → ipInNetworks address networks = false →
    clientIP networks remoteAddr forwardedFor = ip_text address.
Proof.
  intros Hpeer. unfold clientIP. rewrite Hpeer. split; [by intros ->|].
  intros forged entry proxies address Hsplit -> Hall Hp Ha. cbn [negb]. rewrite Hsplit.
  rewrite reverse_app, reverse_cons, <-app_assoc. cbn [app].
  by rewrite (vouched_trusted networks peer (reverse proxies) address) by (done || by apply Forall_reverse).
Qed.
End addresses.

(** * The program's windows and addresses, on concrete requests *)
Section witnesses.
#[local] Instance flat_digest : SHA256.
Proof. refine {| Sum256 _ := replicate 32 0 |}. intros bs. by rewrite length_replicate. Defined.

(** Addresses as text, networks as lists of them. *)
#[local] Instance text_addresses : NetIP := {
  ip := string; network := list string; SplitHostPort := λ s, Some s;
  ParseIP := λ s, if bool_decide (s = EmptyString) then None else Some s; ip_text := λ a, a;
  ParseCIDR := λ s, Some [s]; network_contains := λ n a, bool_decide (a ∈ n)
}.

Definition idle_redis : redis_db := RedisDb ∅ 0 (λ _, 0%nat) [].
Definition register_rules : list rateLimitRule := rulesForAuthRequest "register" "10.0.0.1" "" "".

Lemma idle_windows_ok : windows_ok auth_window idle_redis.
Proof. intros key limit window _. by left. Qed.

Lemma register_rules_ok : rules_ok auth_window register_rules.
Proof. apply auth_rules_ok. by left. Qed.

(** Eleven registrations from one address within a second: the last is refused. *)
Definition eager_client : list limiter_step :=
  [Tick 100; Request register_rules] ++ concat (replicate 10 [Tick 10; Request register_rules]).

Definition address_key : string := dimensionKey "register" "ip" "10.0.0.1".

Lemma eager_client_ok : Forall (step_ok auth_window) eager_client.
Proof. repeat (constructor; [first [exact register_rules_ok | simpl; lia]|]). constructor. Qed.

Lemma window_never_over_admits_witness :
  (admissions address_key eager_client idle_redis).1 = 10 ∧
  windows_ok auth_window (admissions address_key eager_client idle_redis).2.
Proof.
  split; [vm_compute; reflexivity|].
  exact (proj1 (window_never_over_admits auth_window auth_window_bounds address_key 10 hour eager_client idle_redis
    _ _ idle_windows_ok eager_client_ok eq_refl (surjective_pairing _))).
Defined.

Lemma Allow_charges_all_or_none_witness :
  ∃ retry db', Allow register_rules (RedisWorld idle_redis []) = (Ok (true, retry), RedisWorld db' []) ∧
    windows_ok auth_window db'.
Proof.
  destruct (Allow_charges_all_or_none auth_window auth_window_bounds register_rules idle_redis idle_windows_ok
    register_rules_ok ltac:(discriminate)) as (retry & db' & Hrun & Hok & _).
  exists retry, db'. split; [exact Hrun|exact Hok].
Defined.

Lemma clientIP_cannot_be_forged_witness :
  clientIP [["10.0.0.1"; "10.0.0.2"]]%string "10.0.0.1" ["1.1.1.1, 6.6.6.6"; " 10.0.0.2"]%string = "6.6.6.6"%string.
Proof.
  refine (proj2 (clientIP_cannot_be_forged [["10.0.0.1"; "10.0.0.2"]]%string "10.0.0.1"%string
    ["1.1.1.1, 6.6.6.6"; " 10.0.0.2"]%string "10.0.0.1"%string eq_refl)
    [bytes_of "1.1.1.1"] (bytes_of " 6.6.6.6") [bytes_of " 10.0.0.2"] "6.6.6.6"%string _ _ _ _ _);
    [vm_compute; reflexivity|vm_compute; reflexivity| |vm_compute; reflexivity|vm_compute; reflexivity].
  constructor; [|constructor]. exists "10.0.0.2"%string. split; vm_compute; reflexivity.
Defined.
End witnesses.
