(* ===== verification/Presence.v ===== *)
(** [redis_presence.go]: which connection holds a user's session, on every instance:
    one Redis string per session, which expires unless it is refreshed, and one set
    of session ids per user. *)
From Stdlib Require Import Ascii String.
From S2P Require Import Prelude GoStd Json Encoding JsonText Redis.
Open Scope Z_scope.

Record webSocketPresenceRecord : Type := WebSocketPresenceRecord {
  UserID : Z; SessionID : Z; ConnectionID : string; InstanceID : string
}.
#[global] Instance webSocketPresenceRecord_eq_dec : EqDecision webSocketPresenceRecord.
Proof. solve_decision. Defined.

Definition valid (record : webSocketPresenceRecord) : bool :=
  (0 <? UserID record) && (0 <? SessionID record) && negb (bool_decide (ConnectionID record = EmptyString)) &&
  negb (bool_decide (InstanceID record = EmptyString)).

Definition record_struct (record : webSocketPresenceRecord) : json := JObject [
  ("userId"%string, JNumber (FormatInt (UserID record)));
  ("sessionId"%string, JNumber (FormatInt (SessionID record)));
  ("connectionId"%string, JText (ConnectionID record));
  ("instanceId"%string, JText (InstanceID record))].

Definition record_text (record : webSocketPresenceRecord) : string := string_of (marshal (record_struct record)).

Definition encoded (record : webSocketPresenceRecord) : result string string :=
  if negb (valid record) then Err "websocket presence identity is incomplete"%string
  else Ok (record_text record).

Definition record_fields : list (field_setter webSocketPresenceRecord) := [
  ("userId"%string, decode_int64 (λ x r, WebSocketPresenceRecord x (SessionID r) (ConnectionID r) (InstanceID r)));
  ("sessionId"%string, decode_int64 (λ x r, WebSocketPresenceRecord (UserID r) x (ConnectionID r) (InstanceID r)));
  ("connectionId"%string, decode_text (λ x r, WebSocketPresenceRecord (UserID r) (SessionID r) x (InstanceID r)));
  ("instanceId"%string, decode_text (λ x r, WebSocketPresenceRecord (UserID r) (SessionID r) (ConnectionID r) x))].

(** [json.Unmarshal]. *)
Definition decode_record (text : string) : option webSocketPresenceRecord :=
  v ← parse_document (bytes_of text); decode_struct record_fields false v (WebSocketPresenceRecord 0 0 "" "").

(** * The scripts.  [key] is the session's, [index] the user's. *)

Definition registerWebSocketPresence (key index value : string) (ttl_ms : Z) (member : string) :
    script (option string) :=
  old ← GET key;
  _ ← SET_PX key value ttl_ms;
  _ ← SADD index member;
  _ ← PEXPIRE index ttl_ms;
  mret old.

Definition refreshWebSocketPresence (key index value : string) (ttl_ms : Z) (member : string) : script Z :=
  current ← GET key;
  match current with
  | None =>
      _ ← SET_PX key value ttl_ms;
      _ ← SADD index member;
      _ ← PEXPIRE index ttl_ms;
      mret 2
  | Some current =>
      if bool_decide (current = value) then
        _ ← PEXPIRE key ttl_ms;
        _ ← SADD index member;
        _ ← PEXPIRE index ttl_ms;
        mret 1
      else mret 0
  end.

Definition unregisterWebSocketPresence (key index value member : string) : script Z :=
  current ← GET key;
  if negb (bool_decide (current = Some value)) then mret 0
  else
    _ ← DEL key;
    _ ← SREM index [member];
    card ← SCARD index;
    _ ← (if card =? 0 then DEL index else mret tt);
    mret 1.

(** * Presence *)

Inductive webSocketPresenceRefresh : Type :=
| webSocketPresenceLost
| webSocketPresenceRenewed
| webSocketPresenceRecovered.

(** Durations are nanoseconds. *)
Record redisWebSocketPresence : Type := RedisWebSocketPresence { namespace : string; ttl : Z; renewInterval : Z }.

Definition defaultWebSocketPresenceNamespace : string := "im:ws".

Definition newRedisWebSocketPresence (client : bool) (name : string) (ttl_ renew : Z) :
    result string redisWebSocketPresence :=
  if negb client then Err "websocket presence requires Redis"%string
  else if (ttl_ <=? 0) || (renew <=? 0) || (ttl_ <=? renew) then
    Err "websocket presence requires a renewal interval shorter than its TTL"%string
  else Ok (RedisWebSocketPresence
             (if bool_decide (name = EmptyString) then defaultWebSocketPresenceNamespace else name) ttl_ renew).

Section presence.
Context (presence : redisWebSocketPresence).

Definition userSessionsKey (user : Z) : string :=
  namespace presence ++ ":{user:" ++ FormatInt user ++ "}:sessions".
Definition sessionKey (user session : Z) : string :=
  namespace presence ++ ":{user:" ++ FormatInt user ++ "}:session:" ++ FormatInt session.

Abbreviation redis_proc := (proc redis_world string).

(** The script's answer is the empty text for no old value. *)
Definition Register (record : webSocketPresenceRecord) : redis_proc (option webSocketPresenceRecord) :=
  value ← refuse (encoded record);
  old ← round_trip (registerWebSocketPresence (sessionKey (UserID record) (SessionID record))
    (userSessionsKey (UserID record)) value (Milliseconds (ttl presence)) (FormatInt (SessionID record)));
  let oldValue := default EmptyString old in
  if bool_decide (oldValue = EmptyString) then mret None
  else
    match decode_record oldValue with
    | Some old => if valid old then mret (Some old)
                  else mthrow "replaced websocket presence record was invalid"%string
    | None => mthrow "replaced websocket presence record was invalid"%string
    end.

Definition Refresh (record : webSocketPresenceRecord) : redis_proc webSocketPresenceRefresh :=
  value ← refuse (encoded record);
  n ← round_trip (refreshWebSocketPresence (sessionKey (UserID record) (SessionID record))
    (userSessionsKey (UserID record)) value (Milliseconds (ttl presence)) (FormatInt (SessionID record)));
  mret (if n =? 1 then webSocketPresenceRenewed
        else if n =? 2 then webSocketPresenceRecovered else webSocketPresenceLost).

Definition Unregister (record : webSocketPresenceRecord) : redis_proc bool :=
  value ← refuse (encoded record);
  n ← round_trip (unregisterWebSocketPresence (sessionKey (UserID record) (SessionID record))
    (userSessionsKey (UserID record)) value (FormatInt (SessionID record)));
  mret (n =? 1).

(** ** Lookups *)

(** A pipeline runs its commands one after the other and reports the first error. *)
Fixpoint pipeline {A} (commands : list (script A)) : script (list A) := λ db,
  match commands with
  | [] => (Ok [], db)
  | c :: rest =>
      let '(r, db1) := c db in
      let '(rs, db2) := pipeline rest db1 in
      (x ← r; xs ← rs; Ok (x :: xs), db2)
  end.

(** Without commands nothing is sent. *)
Definition pipelined {A} (commands : list (script A)) : redis_proc (list A) :=
  match commands with [] => mret [] | _ => round_trip (pipeline commands) end.

Fixpoint check_users (userIDs : list Z) : result string unit :=
  match userIDs with
  | [] => Ok tt
  | u :: rest =>
      if u <=? 0 then Err "websocket presence lookup requires positive users"%string else check_users rest
  end.

(** A user's session index: the ids, in order, and the members that are none. *)
Definition session_id (member : string) : option Z :=
  id ← ParseInt member; if id <=? 0 then None else Some id.
Definition session_ids (members : list string) : list Z := omap session_id members.
Definition not_ids (members : list string) : list string :=
  List.filter (λ m, if session_id m is None then true else false) members.

(** The record that a session's value holds, if it is that session's. *)
Definition read_record (user session : Z) (value : option string) : option webSocketPresenceRecord :=
  text ← value;
  record ← decode_record text;
  if valid record && (UserID record =? user) && (SessionID record =? session) then Some record else None.

(** One user's records and stale members. *)
Definition read_records (user : Z) (ids : list Z) (values : list (option string)) :
    list webSocketPresenceRecord * list string :=
  let read := zip_with (λ id value, (id, read_record user id value)) ids values in
  (omap snd read, omap (λ p, if p.2 is None then Some (FormatInt p.1) else None) read).

Definition removeStaleMembersForUsers (stale : list (Z * list string)) : redis_proc unit :=
  let doomed := List.filter (λ p, negb (bool_decide (p.2 = []))) stale in
  _ ← attempt (pipelined ((λ p, SREM (userSessionsKey p.1) p.2) <$> doomed) : redis_proc (list unit));
  mret tt.

Definition LookupUsers (userIDs : list Z) : redis_proc (gmap Z (list webSocketPresenceRecord)) :=
  _ ← refuse (check_users userIDs);
  let users := merge_sort Z.le (remove_dups userIDs) in
  members ← pipelined ((λ u, SMEMBERS (userSessionsKey u)) <$> users);
  let lookups := zip users members in
  let asked := List.filter (λ l, negb (bool_decide (session_ids l.2 = []))) lookups in
  values ← pipelined ((λ l, MGET (sessionKey l.1 <$> session_ids l.2)) <$> asked);
  let found := zip_with (λ l vs, (l.1, read_records l.1 (session_ids l.2) vs)) asked values in
  let records := (λ f, (f.1, f.2.1)) <$> found in
  let stale := (λ l, (l.1, not_ids l.2 ++ from_option (λ f, f.2.2) [] (List.find (λ f, f.1 =? l.1) found))) <$> lookups in
  _ ← removeStaleMembersForUsers stale;
  mret (list_to_map records ∪ list_to_map ((λ u, (u, [])) <$> users)).

Definition LookupUser (userID : Z) : redis_proc (list webSocketPresenceRecord) :=
  if userID <=? 0 then mthrow "websocket presence lookup requires a user"%string
  else
    recordsByUser ← LookupUsers [userID];
    mret (default [] (recordsByUser !! userID)).
End presence.
