(* ===== verification/PresenceOk.v ===== *)
(** Presence: its records and keys, what each script does to them; then what a lookup
    finds. *)
From Stdlib Require Import Ascii String.
From S2P Require Import Prelude GoStd Json Numerals Encoding JsonText Redis Presence.
Open Scope Z_scope.

(** * Keys *)

Lemma string_split (a : ascii) (s1 s2 x y : string) :
  a ∉ list_ascii_of_string s1 → a ∉ list_ascii_of_string s2 →
  (s1 ++ String a x = s2 ++ String a y)%string → s1 = s2 ∧ x = y.
Proof.
  revert s2. induction s1 as [|b s1 IH]; intros [|c s2] H1 H2 Heq; cbn [list_ascii_of_string] in *;
    rewrite ?not_elem_of_cons in *.
  - by injection Heq.
  - injection Heq as -> _. by destruct H2.
  - injection Heq as -> _. by destruct H1.
  - injection Heq as -> Heq. destruct H1 as [_ H1], H2 as [_ H2]. by destruct (IH s2 H1 H2 Heq) as [-> ->].
Qed.

Lemma FormatInt_no_brace z : "}"%char ∉ list_ascii_of_string (FormatInt z).
Proof.
  intros Hin. apply (list_elem_of_fmap_2 byte_of_ascii) in Hin. fold (bytes_of (FormatInt z)) in Hin.
  change (byte_of_ascii "}") with 125 in Hin.
  assert (Forall (λ b, b ≠ 125) (bytes_of (FormatInt z))) as Hall.
  { assert (∀ p, Forall (λ b, b ≠ 125) (bytes_of (digits_of (N.pos p)))) as Hd.
    { intros p. destruct (digits_of_cons p) as (b & ds & -> & Hall & _). apply (Forall_impl _ _ _ Hall).
      intros x Hx. apply in_range_spec in Hx. lia. }
    destruct z as [|p|p]; [by repeat constructor|apply Hd|]. rewrite FormatInt_neg. constructor; [done|apply Hd]. }
  rewrite Forall_forall in Hall. by apply (Hall 125).
Qed.

Section keys.
Context (presence : redisWebSocketPresence).

Lemma sessionKey_inj user session user' session' :
  sessionKey presence user session = sessionKey presence user' session' → user = user' ∧ session = session'.
Proof.
  unfold sessionKey. intros Heq%(inj (String.append _)). apply (inj (String.append ":{user:")) in Heq.
  change ("}:session:" ++ ?x)%string with (String "}" (":session:" ++ x)) in Heq.
  apply string_split in Heq as [Hu Hs]; [|apply FormatInt_no_brace..].
  apply (inj (String.append ":session:")) in Hs. split; by apply (inj FormatInt).
Qed.

Lemma sessionKey_index user session user' : sessionKey presence user session ≠ userSessionsKey presence user'.
Proof.
  unfold sessionKey, userSessionsKey. intros Heq%(inj (String.append _)).
  apply (inj (String.append ":{user:")) in Heq.
  change ("}:session:" ++ ?x)%string with (String "}" (":session:" ++ x)) in Heq.
  change "}:sessions"%string with (String "}" ":sessions") in Heq.
  apply string_split in Heq as [_ Hs]; [|apply FormatInt_no_brace..]. discriminate Hs.
Qed.

Lemma userSessionsKey_inj user user' : userSessionsKey presence user = userSessionsKey presence user' → user = user'.
Proof.
  unfold userSessionsKey. intros Heq%(inj (String.append _)). apply (inj (String.append ":{user:")) in Heq.
  change "}:sessions"%string with (String "}" ":sessions") in Heq.
  apply string_split in Heq as [Hu _]; [|apply FormatInt_no_brace..]. by apply (inj FormatInt).
Qed.
End keys.

(** * Records as text *)

Lemma record_literals r : literals (record_struct r).
Proof. simpl. split_and!; try done; apply literal_FormatInt. Qed.

Lemma record_text_bytes r : bytes_of (record_text r) = marshal (record_struct r).
Proof. apply bytes_of_string_of, marshal_bytes. Qed.

Definition text_record (r : webSocketPresenceRecord) : Prop :=
  is_int64 (UserID r) ∧ is_int64 (SessionID r) ∧ ValidString (ConnectionID r) = true ∧
  ValidString (InstanceID r) = true.

Lemma decode_record_text r : text_record r → decode_record (record_text r) = Some r.
Proof.
  intros (Hu & Hs & Hc & Hi). unfold decode_record. rewrite record_text_bytes, parse_document_marshal;
    [|apply record_literals|vm_compute; lia].
  cbn [mbind option_bind reread record_struct List.map fst snd].
  rewrite !(json_text_id (_ : string)) by (done || reflexivity).
  unfold decode_struct. cbn [foldl]. unfold decode_member. cbn [fst snd]. unfold record_fields. lookup_fields.
  unfold decode_int64, decode_text. rewrite !ParseInt_FormatInt by done. by destruct r.
Qed.

(** * The scripts *)
Section scripts.
Context (presence : redisWebSocketPresence).
Context (ttl_positive : 0 < Milliseconds (ttl presence)).
Implicit Types (db : redis_db) (r : webSocketPresenceRecord).

Abbreviation ttl_ms := (Milliseconds (ttl presence)).
Abbreviation skey := (sessionKey presence).
Abbreviation ukey := (userSessionsKey presence).
Abbreviation key_of r := (sessionKey presence (UserID r) (SessionID r)).
Abbreviation index_of r := (userSessionsKey presence (UserID r)).

(** Who holds a session, and which sessions a user's index lists. *)
Definition owner db (user session : Z) : option string := text_at db (skey user session).
Definition indexed db (user : Z) : gset string := match members_at (ukey user) db with Ok ms => ms | Err _ => ∅ end.

(** Session keys hold text, index keys hold sets. *)
Definition keys_typed db : Prop :=
  (∀ user session ms t, entry_at (skey user session) db ≠ Some (RedisEntry (RMembers ms) t)) ∧
  ∀ user s t, entry_at (ukey user) db ≠ Some (RedisEntry (RText s) t).

Lemma GET_owner db user session : keys_typed db → GET (skey user session) db = (Ok (owner db user session), db).
Proof.
  intros [Ht _]. unfold GET, owner, text_at. destruct (entry_at (skey user session) db) as [[v t]|] eqn:E; [|done].
  cbn [entry_value mbind option_bind]. destruct v as [s|ms]; [done|]. by apply Ht in E.
Qed.

Lemma members_indexed db user : keys_typed db → members_at (ukey user) db = Ok (indexed db user).
Proof.
  intros [_ Ht]. unfold indexed, members_at. destruct (entry_at (ukey user) db) as [[v t]|] eqn:E; [|done].
  cbn [entry_value]. destruct v as [s|ms]; [|done]. by apply Ht in E.
Qed.

(** The keyspace after, as reads see it. *)
Definition reads_as db' db (entry : string → option redis_entry) : Prop :=
  clock db' = clock db ∧ ∀ key, entry_at key db' = entry key.

Lemma expiry_at_live key db : match expiry_at key db with Some t => clock db <? t | None => true end = true.
Proof.
  unfold expiry_at. destruct (entry_at key db) as [e|] eqn:E; [|done]. cbn [mbind option_bind].
  unfold entry_at in E. destruct (entries db !! key) as [e0|]; [|done]. cbn [mbind option_bind] in E.
  destruct (live (clock db) e0) eqn:El; [|done]. by injection E as ->.
Qed.

(** [SADD] and [PEXPIRE] on the index. *)
Lemma join_index db user member :
  keys_typed db →
  ∃ db', (_ ← SADD (ukey user) member; PEXPIRE (ukey user) ttl_ms) db = (Ok tt, db') ∧
    reads_as db' db (λ key, if decide (key = ukey user)
      then Some (RedisEntry (RMembers ({[member]} ∪ indexed db user)) (Some (clock db + ttl_ms)))
      else entry_at key db).
Proof.
  intros Hty. unfold SADD. unfold mbind, proc_bind. rewrite members_indexed by done.
  unfold PEXPIRE. rewrite entry_at_put, decide_True by done. unfold live. cbn [entry_expires entry_value].
  rewrite expiry_at_live. cbn [clock put_entry with_entries].
  replace (ttl_ms <=? 0) with false by lia. eexists. split; [reflexivity|]. split; [done|].
  intros key. rewrite !entry_at_put. destruct (decide _); [|done].
  unfold live. cbn [entry_expires clock put_entry with_entries]. by replace (clock db <? clock db + ttl_ms) with true by lia.
Qed.

Lemma set_session db user session value :
  ∃ db', SET_PX (skey user session) value ttl_ms db = (Ok tt, db') ∧
    reads_as db' db (λ key, if decide (key = skey user session)
      then Some (RedisEntry (RText value) (Some (clock db + ttl_ms))) else entry_at key db).
Proof.
  unfold SET_PX. replace (ttl_ms <=? 0) with false by lia. eexists. split; [reflexivity|]. split; [done|].
  intros key. rewrite entry_at_put. destruct (decide _); [|done].
  unfold live. cbn [entry_expires]. by replace (clock db <? clock db + ttl_ms) with true by lia.
Qed.

(** A session taken: its key holds the record, the index lists it, both expire a
    full time to live from now; nothing else changed. *)
Definition taken db db' (user session : Z) (value : string) : Prop :=
  reads_as db' db (λ key,
    if decide (key = ukey user) then
      Some (RedisEntry (RMembers ({[FormatInt session]} ∪ indexed db user)) (Some (clock db + ttl_ms)))
    else if decide (key = skey user session) then Some (RedisEntry (RText value) (Some (clock db + ttl_ms)))
    else entry_at key db).

Lemma keys_typed_reads db db' entry :
  reads_as db' db entry → (∀ user session ms t, entry (skey user session) ≠ Some (RedisEntry (RMembers ms) t)) →
  (∀ user s t, entry (ukey user) ≠ Some (RedisEntry (RText s) t)) → keys_typed db'.
Proof. intros [_ Hr] H1 H2. split; intros *; rewrite Hr; auto. Qed.

Lemma set_session_typed db db' user session value :
  keys_typed db →
  reads_as db' db (λ key, if decide (key = skey user session)
    then Some (RedisEntry (RText value) (Some (clock db + ttl_ms))) else entry_at key db) →
  keys_typed db' ∧ ∀ user', indexed db' user' = indexed db user'.
Proof.
  intros [Hs Hu] Hr. split.
  - eapply keys_typed_reads; [exact Hr|..]; intros *; cbv beta; case_decide as Heq; auto.
    by apply eq_sym, sessionKey_index in Heq.
  - intros user'. unfold indexed, members_at. destruct Hr as [_ Hr]. rewrite Hr, decide_False; [done|].
    intros Heq. by apply eq_sym, sessionKey_index in Heq.
Qed.

(** Setting or renewing the session, then joining the index. *)
Lemma take_session {A} (c : script unit) db db1 user session value (a : A) :
  keys_typed db → c db = (Ok tt, db1) →
  reads_as db1 db (λ key, if decide (key = skey user session)
    then Some (RedisEntry (RText value) (Some (clock db + ttl_ms))) else entry_at key db) →
  ∃ db', (_ ← c; _ ← SADD (ukey user) (FormatInt session); _ ← PEXPIRE (ukey user) ttl_ms; mret a) db =
    (Ok a, db') ∧ taken db db' user session value.
Proof.
  intros Hty Hset Hr1. destruct (set_session_typed _ _ _ _ _ Hty Hr1) as [Hty1 Hi1].
  destruct (join_index db1 user (FormatInt session) Hty1) as (db2 & Hjoin & Hclk & Hr2).
  exists db2. split.
  - rewrite (proc_bind_run _ _ _ _ _ Hset). unfold mbind, proc_bind in Hjoin |- *.
    destruct (SADD _ _ db1) as [[e|[]] db3]; [done|]. destruct (PEXPIRE _ _ db3) as [[e|[]] db4]; [done|].
    by injection Hjoin as ->.
  - destruct Hr1 as [Hclk1 Hr1]. split; [congruence|]. intros key. rewrite Hr2, Hi1, Hclk1.
    destruct (decide _); [done|]. apply Hr1.
Qed.

Lemma owner_reads db db' user session :
  entry_at (skey user session) db' = entry_at (skey user session) db → owner db' user session = owner db user session.
Proof. unfold owner, text_at. by intros ->. Qed.

Lemma indexed_reads db db' user :
  entry_at (ukey user) db' = entry_at (ukey user) db → indexed db' user = indexed db user.
Proof. unfold indexed, members_at. by intros ->. Qed.

Lemma taken_spec db db' user session value :
  keys_typed db → taken db db' user session value →
  keys_typed db' ∧ owner db' user session = Some value ∧
  (∀ u s, (u, s) ≠ (user, session) → owner db' u s = owner db u s) ∧
  ∀ u, indexed db' u = (if decide (u = user) then {[FormatInt session]} else ∅) ∪ indexed db u.
Proof.
  intros [Hs Hu] Ht. split_and!.
  - eapply keys_typed_reads; [exact Ht|..]; intros *; cbv beta; repeat case_decide; auto;
      by match goal with
         | H : skey _ _ = ukey _ |- _ => apply sessionKey_index in H
         | H : ukey _ = skey _ _ |- _ => apply eq_sym, sessionKey_index in H
         end.
  - destruct Ht as [_ Hr]. unfold owner, text_at. rewrite Hr, decide_False, decide_True; [done|done|].
    apply sessionKey_index.
  - intros u s Hne. destruct Ht as [_ Hr]. apply owner_reads. rewrite Hr, !decide_False; [done| |apply sessionKey_index].
    intros [-> ->]%sessionKey_inj. done.
  - intros u. destruct Ht as [_ Hr]. destruct (decide (u = user)) as [->|Hne].
    + unfold indexed at 1, members_at. by rewrite Hr, decide_True.
    + rewrite (left_id_L ∅ (∪)). apply indexed_reads. rewrite Hr, !decide_False; [done|..].
      * intros Heq. by apply eq_sym, sessionKey_index in Heq.
      * by intros ->%userSessionsKey_inj.
Qed.

Lemma register_script db user session value :
  keys_typed db →
  ∃ db', registerWebSocketPresence (skey user session) (ukey user) value ttl_ms (FormatInt session) db =
    (Ok (owner db user session), db') ∧ taken db db' user session value.
Proof.
  intros Hty. unfold registerWebSocketPresence.
  rewrite (proc_bind_run _ _ _ _ _ (GET_owner db user session Hty)).
  destruct (set_session db user session value) as (db1 & Hset & Hr1). by eapply take_session.
Qed.

(** A key that holds [value] is renewed as if it were set again. *)
Lemma renew_session db user session value :
  owner db user session = Some value →
  ∃ db', PEXPIRE (skey user session) ttl_ms db = (Ok tt, db') ∧
    reads_as db' db (λ key, if decide (key = skey user session)
      then Some (RedisEntry (RText value) (Some (clock db + ttl_ms))) else entry_at key db).
Proof.
  unfold owner, text_at, PEXPIRE. destruct (entry_at (skey user session) db) as [[v t]|]; [|done].
  cbn [mbind option_bind entry_value]. destruct v as [s|]; [|done]. intros [= ->].
  replace (ttl_ms <=? 0) with false by lia. eexists. split; [reflexivity|]. split; [done|].
  intros key. rewrite entry_at_put. destruct (decide _); [|done].
  unfold live. cbn [entry_expires]. by replace (clock db <? clock db + ttl_ms) with true by lia.
Qed.

Lemma refresh_script db user session value :
  keys_typed db →
  ∃ n db', refreshWebSocketPresence (skey user session) (ukey user) value ttl_ms (FormatInt session) db = (Ok n, db') ∧
    match owner db user session with
    | None => n = 2 ∧ taken db db' user session value
    | Some held => if bool_decide (held = value) then n = 1 ∧ taken db db' user session value else n = 0 ∧ db' = db
    end.
Proof.
  intros Hty. unfold refreshWebSocketPresence.
  rewrite (proc_bind_run _ _ _ _ _ (GET_owner db user session Hty)).
  destruct (owner db user session) as [held|] eqn:E.
  - case_bool_decide as Hv; [subst held|by eexists _, _].
    destruct (renew_session db user session value E) as (db1 & Hset & Hr1).
    destruct (take_session _ db db1 user session value 1 Hty Hset Hr1) as (db' & ? & ?). by exists 1, db'.
  - destruct (set_session db user session value) as (db1 & Hset & Hr1).
    destruct (take_session _ db db1 user session value 2 Hty Hset Hr1) as (db' & ? & ?). by exists 2, db'.
Qed.

(** A session given up. *)
Definition released db db' (user session : Z) : Prop :=
  keys_typed db' ∧ clock db' = clock db ∧ owner db' user session = None ∧
  (∀ u s, (u, s) ≠ (user, session) → owner db' u s = owner db u s) ∧
  ∀ u, indexed db' u = if decide (u = user) then indexed db u ∖ {[FormatInt session]} else indexed db u.

(** Only keys differ. *)
Definition same_server db db' : Prop :=
  clock db' = clock db ∧ subscriptions db' = subscriptions db ∧ published db' = published db.

Lemma SREM_index db user removed :
  keys_typed db →
  ∃ db', SREM (ukey user) removed db = (Ok tt, db') ∧ same_server db db' ∧ keys_typed db' ∧
    (∀ u s, owner db' u s = owner db u s) ∧
    ∀ u, indexed db' u = if decide (u = user) then indexed db u ∖ list_to_set removed else indexed db u.
Proof.
  intros Hty. unfold SREM. rewrite members_indexed by done. eexists. split; [reflexivity|].
  set (rest := indexed db user ∖ list_to_set removed).
  set (db' := if bool_decide (rest = ∅) then _ else _).
  assert (same_server db db' ∧ ∀ key, entry_at key db' = if decide (key = ukey user)
    then (if bool_decide (rest = ∅) then None else Some (RedisEntry (RMembers rest) (expiry_at (ukey user) db)))
    else entry_at key db) as [Hclk Hr].
  { unfold db'. case_bool_decide; (split; [done|]); intros key; [apply entry_at_del|].
    rewrite entry_at_put. destruct (decide _); [|done]. unfold live. cbn [entry_expires]. by rewrite expiry_at_live. }
  assert (∀ u, u ≠ user → entry_at (ukey u) db' = entry_at (ukey u) db) as Hother.
  { intros u Hne. rewrite Hr, decide_False; [done|]. by intros ->%userSessionsKey_inj. }
  assert (∀ u s, entry_at (skey u s) db' = entry_at (skey u s) db) as Hsess.
  { intros u s. rewrite Hr, decide_False; [done|]. apply sessionKey_index. }
  split_and!; [done|split| |].
  - intros u s ms t. rewrite Hsess. apply Hty.
  - intros u s t. destruct (decide (u = user)) as [->|Hne]; [|rewrite Hother by done; apply Hty].
    rewrite Hr, decide_True by done. by case_bool_decide.
  - intros u s. by apply owner_reads.
  - intros u. destruct (decide (u = user)) as [->|Hne]; [|by apply indexed_reads, Hother].
    unfold indexed at 1, members_at. rewrite Hr, decide_True by done. case_bool_decide as He; [|done]. by fold rest.
Qed.

Lemma unregister_script db user session value :
  keys_typed db →
  ∃ n db', unregisterWebSocketPresence (skey user session) (ukey user) value (FormatInt session) db = (Ok n, db') ∧
    if bool_decide (owner db user session = Some value) then n = 1 ∧ released db db' user session
    else n = 0 ∧ db' = db.
Proof.
  intros Hty. unfold unregisterWebSocketPresence.
  rewrite (proc_bind_run _ _ _ _ _ (GET_owner db user session Hty)).
  case_bool_decide as Ho; cbn [negb]; [|by eexists _, _].
  assert (DEL (skey user session) db = (Ok tt, del_entry (skey user session) db)) as Hdel by done.
  rewrite (proc_bind_run _ _ _ _ _ Hdel). set (db1 := del_entry (skey user session) db).
  assert (∀ u, entry_at (ukey u) db1 = entry_at (ukey u) db) as Hidx.
  { intros u. unfold db1. rewrite entry_at_del, decide_False; [done|]. intros Heq. by apply eq_sym, sessionKey_index in Heq. }
  assert (keys_typed db1) as Hty1.
  { split; [intros u s ms t|intros u s t; rewrite Hidx; apply Hty]. unfold db1. rewrite entry_at_del.
    case_decide; [done|apply Hty]. }
  destruct (SREM_index db1 user [FormatInt session] Hty1) as (db2 & Hrem & Hclk & Hty2 & Ho2 & Hi2).
  rewrite (proc_bind_run _ _ _ _ _ Hrem).
  assert (SCARD (ukey user) db2 = (Ok (Z.of_nat (size (indexed db2 user))), db2)) as Hcard.
  { unfold SCARD. by rewrite members_indexed. }
  rewrite (proc_bind_run _ _ _ _ _ Hcard).
  assert (released db db2 user session) as Hrel.
  { split_and!; [done|apply Hclk|..].
    - rewrite Ho2. unfold owner, text_at, db1. by rewrite entry_at_del, decide_True.
    - intros u s Hne. rewrite Ho2. apply owner_reads. unfold db1. rewrite entry_at_del, decide_False; [done|].
      by intros [-> ->]%sessionKey_inj.
    - intros u. rewrite Hi2. rewrite (indexed_reads db db1) by apply Hidx. case_decide; [|done]. set_solver. }
  destruct (_ =? 0) eqn:Ec.
  - exists 1, (del_entry (ukey user) db2). split; [reflexivity|]. split; [done|].
    destruct Hrel as (Htyr & Hclkr & Hor & Hotr & Hir).
    assert (∀ u s, owner (del_entry (ukey user) db2) u s = owner db2 u s) as Hsame.
    { intros u s. apply owner_reads. rewrite entry_at_del, decide_False; [done|]. apply sessionKey_index. }
    assert (∀ u, indexed (del_entry (ukey user) db2) u = indexed db2 u) as Hsamei.
    { intros u. destruct (decide (u = user)) as [->|Hne].
      - unfold indexed at 1, members_at. rewrite entry_at_del, decide_True by done.
        assert (size (indexed db2 user) = 0%nat) as Hz by lia. apply size_empty_inv in Hz. set_solver.
      - apply indexed_reads. rewrite entry_at_del, decide_False; [done|]. by intros ->%userSessionsKey_inj. }
    split_and!; [split|done|by rewrite Hsame|intros u s Hne; rewrite Hsame; by apply Hotr|intros u; rewrite Hsamei; apply Hir].
    + intros u s ms t. rewrite entry_at_del. case_decide; [done|apply Htyr].
    + intros u s t. rewrite entry_at_del. case_decide; [done|apply Htyr].
  - exists 1, db2. by split.
Qed.

(** * The operations, whatever the network does *)

(** Nobody else's session changed. *)
Definition others_kept (r : webSocketPresenceRecord) db db' : Prop :=
  keys_typed db' ∧ ∀ u s, (u, s) ≠ (UserID r, SessionID r) → owner db' u s = owner db u s.

Abbreviation owner_of db r := (owner db (UserID r) (SessionID r)).

Lemma others_kept_refl r db : keys_typed db → others_kept r db db.
Proof. by split. Qed.

Lemma taken_others r db db' :
  keys_typed db → taken db db' (UserID r) (SessionID r) (record_text r) →
  others_kept r db db' ∧ owner_of db' r = Some (record_text r).
Proof. intros Hty Ht. by destruct (taken_spec _ _ _ _ _ Hty Ht) as (? & ? & ? & _). Qed.

Lemma released_others r db db' :
  released db db' (UserID r) (SessionID r) → others_kept r db db' ∧ owner_of db' r = None.
Proof. by intros (? & _ & ? & ? & _). Qed.

Lemma Register_spec r w res w' :
  keys_typed (met w) → valid r = true → Register presence r w = (res, w') →
  others_kept r (met w) (redis w') ∧
  (owner_of (redis w') r = Some (record_text r) ∨ redis w' = met w ∧ res = Err connection_failed) ∧
  match res with
  | Ok None => default EmptyString (owner_of (met w) r) = EmptyString
  | Ok (Some old) => ∃ text, owner_of (met w) r = Some text ∧ decode_record text = Some old
  | Err _ => True
  end.
Proof.
  intros Hty Hv Hrun. unfold Register, encoded in Hrun. rewrite Hv in Hrun. cbn [negb] in Hrun.
  apply proc_bind_inv in Hrun as [(e & Hx & _)|(v & w0 & [= <- <-] & Hrun)]; [done|].
  destruct (register_script (met w) (UserID r) (SessionID r) (record_text r) Hty) as (db' & Hs & Ht).
  apply taken_others in Ht as [Hk Ho]; [|done].
  apply proc_bind_inv in Hrun as [(e & Hx & ->)|(old & w1 & Hx & Hrun)]; apply round_trip_met in Hx; rewrite Hs in Hx;
    cbn [fst snd] in Hx.
  - destruct Hx as [[-> [?|[= ->]]]|[-> [= ->]]]; [done|by split_and!; [| left|]|].
    split_and!; [by apply others_kept_refl|by right|done].
  - destruct Hx as [[Hdb [[= ->]|?]]|[_ ?]]; [|done..].
    assert (w' = w1 ∧ match res with
      | Ok None => default EmptyString (owner_of (met w) r) = EmptyString
      | Ok (Some old) => ∃ text, owner_of (met w) r = Some text ∧ decode_record text = Some old
      | Err _ => True end) as [-> Hres]; [|rewrite Hdb; auto].
    case_bool_decide as He; [by apply proc_ret_inv in Hrun as [-> ->]|].
    destruct (decode_record _) as [old|] eqn:Ed; [|by apply proc_throw_inv in Hrun as [-> ->]].
    destruct (valid old); [|by apply proc_throw_inv in Hrun as [-> ->]]. apply proc_ret_inv in Hrun as [-> ->].
    split; [done|]. destruct (owner_of (met w) r) as [text|]; [|done]. by exists text.
Qed.

Lemma Refresh_spec r w res w' :
  keys_typed (met w) → valid r = true → Refresh presence r w = (res, w') →
  others_kept r (met w) (redis w') ∧
  match res with
  | Ok webSocketPresenceRenewed => owner_of (met w) r = Some (record_text r) ∧ owner_of (redis w') r = Some (record_text r)
  | Ok webSocketPresenceRecovered => owner_of (met w) r = None ∧ owner_of (redis w') r = Some (record_text r)
  | Ok webSocketPresenceLost => ∃ held, owner_of (met w) r = Some held ∧ held ≠ record_text r ∧ redis w' = met w
  | Err _ => redis w' = met w ∨ owner_of (redis w') r = Some (record_text r) ∧
      (owner_of (met w) r = None ∨ owner_of (met w) r = Some (record_text r))
  end.
Proof.
  intros Hty Hv Hrun. unfold Refresh, encoded in Hrun. rewrite Hv in Hrun. cbn [negb] in Hrun.
  apply proc_bind_inv in Hrun as [(e & Hx & _)|(v & w0 & [= <- <-] & Hrun)]; [done|].
  destruct (refresh_script (met w) (UserID r) (SessionID r) (record_text r) Hty) as (n & db' & Hs & Ho).
  assert (others_kept r (met w) db' ∧
    (n = 2 ∧ owner_of (met w) r = None ∧ owner_of db' r = Some (record_text r) ∨
     n = 1 ∧ owner_of (met w) r = Some (record_text r) ∧ owner_of db' r = Some (record_text r) ∨
     n = 0 ∧ db' = met w ∧ ∃ held, owner_of (met w) r = Some held ∧ held ≠ record_text r)) as [Hk Hcase].
  { destruct (owner_of (met w) r) as [held|].
    - case_bool_decide as He; destruct Ho as [-> Ho].
      + apply taken_others in Ho as [? ?]; [|done]. subst. eauto 10.
      + rewrite Ho. split; [by apply others_kept_refl|]. eauto 10.
    - destruct Ho as [-> Ho]. apply taken_others in Ho as [? ?]; [|done]. eauto 10. }
  apply proc_bind_inv in Hrun as [(e & Hx & ->)|(k & w1 & Hx & Hrun)]; apply round_trip_met in Hx; rewrite Hs in Hx;
    cbn [fst snd] in Hx.
  - destruct Hx as [[-> _]|[-> _]]; [|split; [by apply others_kept_refl|by left]]. split; [done|].
    destruct Hcase as [(_ & ? & ?)|[(_ & ? & ?)|(_ & ? & _)]]; auto.
  - destruct Hx as [[Hdb [[= ->]|?]]|[_ ?]]; [|done..]. apply proc_ret_inv in Hrun as [-> ->]. rewrite Hdb.
    split; [done|]. destruct Hcase as [(-> & ? & ?)|[(-> & ? & ?)|(-> & -> & held & ? & ?)]]; simpl; eauto.
Qed.

Lemma Unregister_spec r w res w' :
  keys_typed (met w) → valid r = true → Unregister presence r w = (res, w') →
  others_kept r (met w) (redis w') ∧
  match res with
  | Ok true => owner_of (met w) r = Some (record_text r) ∧ owner_of (redis w') r = None
  | Ok false => owner_of (met w) r ≠ Some (record_text r) ∧ redis w' = met w
  | Err _ => redis w' = met w ∨ owner_of (met w) r = Some (record_text r) ∧ owner_of (redis w') r = None
  end.
Proof.
  intros Hty Hv Hrun. unfold Unregister, encoded in Hrun. rewrite Hv in Hrun. cbn [negb] in Hrun.
  apply proc_bind_inv in Hrun as [(e & Hx & _)|(v & w0 & [= <- <-] & Hrun)]; [done|].
  destruct (unregister_script (met w) (UserID r) (SessionID r) (record_text r) Hty) as (n & db' & Hs & Ho).
  assert (others_kept r (met w) db' ∧
    (n = 1 ∧ owner_of (met w) r = Some (record_text r) ∧ owner_of db' r = None ∨
     n = 0 ∧ db' = met w ∧ owner_of (met w) r ≠ Some (record_text r))) as [Hk Hcase].
  { case_bool_decide; destruct Ho as [-> Ho]; [apply released_others in Ho as [? ?]; auto|].
    rewrite Ho. split; [by apply others_kept_refl|auto]. }
  apply proc_bind_inv in Hrun as [(e & Hx & ->)|(k & w1 & Hx & Hrun)]; apply round_trip_met in Hx; rewrite Hs in Hx;
    cbn [fst snd] in Hx.
  - destruct Hx as [[-> _]|[-> _]]; [|split; [by apply others_kept_refl|by left]]. split; [done|].
    destruct Hcase as [(_ & ? & ?)|(_ & ? & _)]; auto.
  - destruct Hx as [[Hdb [[= ->]|?]]|[_ ?]]; [|done..]. apply proc_ret_inv in Hrun as [-> ->]. rewrite Hdb.
    split; [done|]. destruct Hcase as [(-> & ? & ?)|(-> & -> & ?)]; simpl; eauto.
Qed.
End scripts.

(** * Lookups *)

Section lookup.
Context (presence : redisWebSocketPresence).
Context (ttl_positive : 0 < Milliseconds (ttl presence)).
Implicit Types (db : redis_db) (r : webSocketPresenceRecord) (u s : Z).

Abbreviation skey := (sessionKey presence).
Abbreviation ukey := (userSessionsKey presence).
Abbreviation owner_at := (owner presence).
Abbreviation index_at := (indexed presence).

(** Commands that only read. *)
Lemma pipeline_reads {A B} (f : B → script A) (g : B → A) l db :
  (∀ x, f x db = (Ok (g x), db)) → pipeline (f <$> l) db = (Ok (g <$> l), db).
Proof. intros Hf. induction l as [|x l IH]; [done|]. cbn [fmap list_fmap pipeline]. by rewrite Hf, IH. Qed.

Lemma pipelined_reads {A B} (f : B → script A) (g : B → A) l db :
  (∀ x, f x db = (Ok (g x), db)) → pipelined (f <$> l) (RedisWorld db []) = (Ok (g <$> l), RedisWorld db []).
Proof.
  intros Hf. destruct l as [|x l]; [done|]. change (pipelined (f <$> x :: l)) with (round_trip (pipeline (f <$> x :: l))).
  rewrite round_trip_quiet. by rewrite (pipeline_reads f g).
Qed.

Lemma SMEMBERS_index db u : keys_typed presence db → SMEMBERS (ukey u) db = (Ok (elements (index_at db u)), db).
Proof. intros Hty. unfold SMEMBERS. by rewrite members_indexed. Qed.

Lemma check_users_ok userIDs : Forall (λ u, 0 < u) userIDs → check_users userIDs = Ok tt.
Proof. induction 1 as [|u l Hu _ IH]; [done|]. simpl. by replace (u <=? 0) with false by lia. Qed.

(** One user's reading of the keyspace. *)
Definition session_record db u s : option webSocketPresenceRecord := read_record u s (owner_at db u s).
Definition records_of db u : list webSocketPresenceRecord :=
  omap (session_record db u) (session_ids (elements (index_at db u))).
Definition stale_of db u : list string :=
  not_ids (elements (index_at db u)) ++
  omap (λ s, if session_record db u s is None then Some (FormatInt s) else None) (session_ids (elements (index_at db u))).

Lemma read_records_eq db u ids :
  read_records u ids (owner_at db u <$> ids) =
  (omap (session_record db u) ids, omap (λ s, if session_record db u s is None then Some (FormatInt s) else None) ids).
Proof.
  unfold read_records. f_equal; induction ids as [|s ids IH]; [done| |done|]; cbn [fmap list_fmap zip_with omap list_omap snd fst];
    rewrite IH; by unfold session_record.
Qed.

Lemma session_id_FormatInt s : 0 < s → is_int64 s → session_id (FormatInt s) = Some s.
Proof.
  intros Hp Hs. unfold session_id. rewrite ParseInt_FormatInt by done. cbn [mbind option_bind].
  by replace (s <=? 0) with false by lia.
Qed.

(** Stale members are not live. *)
Lemma stale_not_live db u s r :
  session_record db u s = Some r → 0 < s → is_int64 s → FormatInt s ∉ stale_of db u.
Proof.
  intros Hr Hp Hs Hin. apply elem_of_app in Hin as [Hin|Hin].
  - unfold not_ids in Hin. apply list_elem_of_In, filter_In in Hin as [_ Hf]. by rewrite session_id_FormatInt in Hf.
  - apply list_elem_of_omap in Hin as (s' & _ & Hs'). destruct (session_record db u s') eqn:E; [done|].
    injection Hs' as Heq. apply (inj FormatInt) in Heq as ->. by rewrite E in Hr.
Qed.

(** ** Forgetting stale members *)

(** Only members in [stale] went. *)
Record pruned db db' (stale : Z → list string) : Prop := Pruned {
  pr_typed : keys_typed presence db';
  pr_server : same_server db db';
  pr_owner : ∀ u s, owner_at db' u s = owner_at db u s;
  pr_index : ∀ u m, m ∈ index_at db' u → m ∈ index_at db u;
  pr_kept : ∀ u m, m ∈ index_at db u → m ∉ stale u → m ∈ index_at db' u
}.

Lemma prune_pipeline (stale : Z → list string) l db :
  keys_typed presence db →
  ∃ res db', pipeline ((λ p : Z * list string, SREM (ukey p.1) p.2) <$> l) db = (res, db') ∧
    (Forall (λ p, p.2 = stale p.1) l → pruned db db' stale).
Proof.
  revert db. induction l as [|[u members] l IH]; intros db Hty; [by eexists _, db|].
  destruct (SREM_index presence db u members Hty) as (db1 & Hrem & (? & ? & ?) & Hty1 & Ho1 & Hi1).
  destruct (IH db1 Hty1) as (res & db2 & Hrun & Hp). eexists _, db2. split.
  { cbn [fmap list_fmap pipeline]. cbn [fst snd]. rewrite Hrem, Hrun. done. }
  intros [Hm Hl]%Forall_cons. simpl in Hm. destruct (Hp Hl) as [? (? & ? & ?) Hpo Hpi Hpk]. split; [done|split_and!; congruence|..].
  - intros u' s. by rewrite Hpo, Ho1.
  - intros u' m Hm'. apply Hpi in Hm'. rewrite Hi1 in Hm'. case_decide; set_solver.
  - intros u' m Hm' Hn. apply Hpk; [|done]. rewrite Hi1. case_decide as Hu; [|done]. subst u'.
    apply elem_of_difference. split; [done|]. by rewrite elem_of_list_to_set, Hm.
Qed.

Lemma pruned_refl db stale : keys_typed presence db → pruned db db stale.
Proof. by split. Qed.

Lemma removeStale_spec (stale : Z → list string) l db :
  keys_typed presence db → Forall (λ p, p.2 = stale p.1) l →
  ∃ db', removeStaleMembersForUsers presence l (RedisWorld db []) = (Ok tt, RedisWorld db' []) ∧ pruned db db' stale.
Proof.
  intros Hty Hl. unfold removeStaleMembersForUsers.
  set (doomed := List.filter (λ p, negb (bool_decide (p.2 = []))) l).
  assert (Forall (λ p, p.2 = stale p.1) doomed) as Hd.
  { apply Forall_forall. intros p Hp. apply list_elem_of_In, filter_In in Hp as [Hp _].
    rewrite Forall_forall in Hl. by apply Hl, list_elem_of_In. }
  destruct (prune_pipeline stale doomed db Hty) as (res & db' & Hrun & Hp). destruct doomed as [|p doomed].
  { exists db. split; [done|by apply pruned_refl]. }
  exists db'. split; [|by apply Hp]. unfold mbind, proc_bind, attempt.
  change (pipelined ((λ p0 : Z * list string, SREM (ukey p0.1) p0.2) <$> p :: doomed))
    with (round_trip (pipeline ((λ p0 : Z * list string, SREM (ukey p0.1) p0.2) <$> p :: doomed))).
  by rewrite round_trip_quiet, Hrun.
Qed.

(** ** The lookup *)

Definition entries_of db (users : list Z) : list (Z * list string) := (λ u, (u, elements (index_at db u))) <$> users.

Definition has_ids (l : Z * list string) : bool := negb (bool_decide (session_ids l.2 = [])).

Lemma MGET_owners db u ids : MGET (skey u <$> ids) db = (Ok (owner_at db u <$> ids), db).
Proof. unfold MGET. by rewrite <-list_fmap_compose. Qed.

Lemma zip_fmap {A B} (g : A → B) l : zip l (g <$> l) = (λ x, (x, g x)) <$> l.
Proof. induction l as [|x l IH]; [done|]. cbn [fmap list_fmap zip_with]. by rewrite IH. Qed.

Lemma zip_with_fmap_same {A B C} (h : A → B → C) (g : A → B) l : zip_with h l (g <$> l) = (λ x, h x (g x)) <$> l.
Proof. induction l as [|x l IH]; [done|]. cbn [fmap list_fmap zip_with]. by rewrite IH. Qed.

(** What the second pipeline found for one entry. *)
Definition found_of db (l : Z * list string) : Z * (list webSocketPresenceRecord * list string) :=
  (l.1, read_records l.1 (session_ids l.2) (owner_at db l.1 <$> session_ids l.2)).

Lemma find_found db u (entries : list (Z * list string)) members :
  NoDup entries.*1 → (u, members) ∈ entries →
  List.find (λ f, f.1 =? u) (found_of db <$> List.filter has_ids entries) =
  if has_ids (u, members) then Some (found_of db (u, members)) else None.
Proof.
  induction entries as [|[v ms] entries IH]; [by intros _ []%elem_of_nil|]. intros Hnd Hin.
  rewrite fmap_cons in Hnd. apply NoDup_cons in Hnd as [Hv Hnd]. cbn [List.filter].
  apply elem_of_cons in Hin as [[= <- <-]|Hin].
  - destruct (has_ids (u, members)); cbn [fmap list_fmap List.find]; [cbn [found_of fst]; by rewrite Z.eqb_refl|].
    destruct (List.find _ _) as [f|] eqn:E; [|done]. apply find_some in E as [Hf Hu]. apply list_elem_of_In in Hf.
    apply list_elem_of_fmap in Hf as ([w ws] & -> & Hw). apply list_elem_of_In, filter_In in Hw as [Hw _].
    destruct Hv. apply list_elem_of_In in Hw. apply (list_elem_of_fmap_2 fst) in Hw. cbn [found_of fst] in Hu, Hw.
    by apply Z.eqb_eq in Hu as ->.
  - assert (v ≠ u) as Hne by (intros ->; apply Hv; by apply (list_elem_of_fmap_2 fst) in Hin).
    destruct (has_ids (v, ms)); [|by apply IH]. cbn [fmap list_fmap List.find]. cbn [found_of fst].
    replace (v =? u) with false by lia. by apply IH.
Qed.

Lemma stale_entries db users :
  NoDup users →
  Forall (λ p, p.2 = stale_of db p.1)
    ((λ l, (l.1, not_ids l.2 ++ from_option (λ f, f.2.2) []
       (List.find (λ f, f.1 =? l.1) (found_of db <$> List.filter has_ids (entries_of db users))))) <$> entries_of db users).
Proof.
  intros Hnd. apply Forall_fmap, Forall_forall. intros l Hl.
  assert (NoDup (entries_of db users).*1) as Hnd'.
  { unfold entries_of. rewrite <-list_fmap_compose. change (fst ∘ _) with (@id Z). by rewrite list_fmap_id. }
  pose proof Hl as (u & -> & Hu)%list_elem_of_fmap. simpl. rewrite (find_found db u _ (elements (index_at db u))) by done.
  unfold has_ids, stale_of. cbn [snd]. case_bool_decide as Hi; cbn [negb from_option found_of snd fst].
  - by rewrite Hi.
  - by rewrite read_records_eq.
Qed.

Lemma records_map db users u :
  NoDup users →
  (list_to_map ((λ f, (f.1, f.2.1)) <$> (found_of db <$> List.filter has_ids (entries_of db users))) ∪
   list_to_map ((λ u, (u, [])) <$> users) : gmap Z (list webSocketPresenceRecord)) !! u =
  if decide (u ∈ users) then Some (records_of db u) else None.
Proof.
  intros Hnd. rewrite lookup_union.
  assert (NoDup (entries_of db users).*1) as Hnd'.
  { unfold entries_of. rewrite <-list_fmap_compose. change (fst ∘ _) with (@id Z). by rewrite list_fmap_id. }
  assert (∀ x : list webSocketPresenceRecord,
    (list_to_map ((λ u, (u, [])) <$> users) : gmap Z (list webSocketPresenceRecord)) !! u = Some x ↔ u ∈ users ∧ x = []) as Hz.
  { intros x. rewrite <-elem_of_list_to_map.
    - rewrite list_elem_of_fmap. split; [by intros (? & [= -> ->] & ?)|intros [? ->]; by exists u].
    - rewrite <-list_fmap_compose. change (fst ∘ _) with (@id Z). by rewrite list_fmap_id. }
  set (found := (λ f, (f.1, f.2.1)) <$> (found_of db <$> List.filter has_ids (entries_of db users))).
  assert (NoDup found.*1) as Hnf.
  { unfold found. rewrite <-!list_fmap_compose. change (fst ∘ ((λ f, (f.1, f.2.1)) ∘ found_of db)) with (@fst Z (list string)).
    revert Hnd'. generalize (entries_of db users). intros l. induction l as [|x l IH]; [done|].
    rewrite fmap_cons, NoDup_cons. intros [Hx Hl]. cbn [List.filter]. destruct (has_ids x); [|by apply IH].
    rewrite fmap_cons. apply NoDup_cons. split; [|by apply IH]. intros (y & Hxy & Hy)%list_elem_of_fmap.
    apply Hx. cbn in Hxy. rewrite Hxy. apply list_elem_of_fmap_2. by apply list_elem_of_In, filter_In in Hy as [?%list_elem_of_In _]. }
  assert (∀ x, (list_to_map found : gmap Z (list webSocketPresenceRecord)) !! u = Some x ↔
    u ∈ users ∧ session_ids (elements (index_at db u)) ≠ [] ∧ x = records_of db u) as Hf.
  { intros x. rewrite <-elem_of_list_to_map by done. unfold found. rewrite <-list_fmap_compose, list_elem_of_fmap. split.
    - intros (l & Heq & Hl). apply list_elem_of_In, filter_In in Hl as [Hl Hi]. apply list_elem_of_In in Hl.
      apply list_elem_of_fmap in Hl as (v & -> & Hv). unfold has_ids in Hi. simpl in Hi.
      cbn [compose found_of fst snd] in Heq. rewrite read_records_eq in Heq. injection Heq as -> ->. apply negb_true_iff, bool_decide_eq_false in Hi. done.
    - intros (Hu & Hi & ->). exists (u, elements (index_at db u)). split; [cbn [compose found_of fst snd]; by rewrite read_records_eq|].
      apply list_elem_of_In, filter_In. split; [by apply list_elem_of_In, (list_elem_of_fmap_2 (λ u, (u, elements (index_at db u))))|].
      unfold has_ids. by rewrite bool_decide_eq_false_2. }
  case_decide as Hu.
  - destruct (decide (session_ids (elements (index_at db u)) = [])) as [He|He].
    + destruct (list_to_map found !! u) as [x|]; [by destruct (proj1 (Hf x) eq_refl) as (_ & ? & _)|].
      assert ((list_to_map ((λ u, (u, [])) <$> users) : gmap Z (list webSocketPresenceRecord)) !! u = Some []) as -> by (by apply Hz).
      unfold records_of. by rewrite He.
    + assert ((list_to_map found : gmap Z (list webSocketPresenceRecord)) !! u = Some (records_of db u)) as -> by (by apply Hf).
      by destruct (list_to_map ((λ u, (u, [])) <$> users) !! u).
  - destruct (list_to_map found !! u) as [x|]; [by destruct (proj1 (Hf x) eq_refl) as (? & _)|].
    destruct (list_to_map ((λ u, (u, [])) <$> users) !! u) as [x|]; [by destruct (proj1 (Hz x) eq_refl) as [? _]|]. done.
Qed.

Lemma LookupUsers_quiet userIDs db :
  keys_typed presence db → Forall (λ u, 0 < u) userIDs →
  ∃ m db', LookupUsers presence userIDs (RedisWorld db []) = (Ok m, RedisWorld db' []) ∧
    pruned db db' (stale_of db) ∧ ∀ u, m !! u = if decide (u ∈ userIDs) then Some (records_of db u) else None.
Proof.
  intros Hty Hpos. set (users := merge_sort Z.le (remove_dups userIDs)).
  assert (NoDup users) as Hnd.
  { unfold users. rewrite merge_sort_Permutation. apply NoDup_remove_dups. }
  destruct (removeStale_spec (stale_of db) _ db Hty (stale_entries db users Hnd)) as (db' & Hprune & Hp).
  eexists _, db'. split; [|split; [exact Hp|]].
  - unfold LookupUsers. fold users. rewrite check_users_ok by done. cbn [refuse].
    erewrite proc_bind_run; [|reflexivity].
    erewrite proc_bind_run; [|by apply (pipelined_reads _ (λ u, elements (index_at db u))); intros; apply SMEMBERS_index].
    rewrite zip_fmap. fold (entries_of db users). fold has_ids.
    erewrite proc_bind_run; [|apply (pipelined_reads _ (λ l, owner_at db l.1 <$> session_ids l.2)); intros; apply MGET_owners].
    rewrite zip_with_fmap_same. change (λ x : Z * list string, (x.1, read_records x.1 (session_ids x.2)
      (owner_at db x.1 <$> session_ids x.2))) with (found_of db).
    erewrite proc_bind_run; [|exact Hprune]. reflexivity.
  - intros u. pose proof (records_map db users u Hnd) as Hm. rewrite Hm.
    assert (u ∈ users ↔ u ∈ userIDs) as Hin by (unfold users; by rewrite merge_sort_Permutation, elem_of_remove_dups).
    by destruct (decide (u ∈ users)), (decide (u ∈ userIDs)); tauto.
Qed.

(** Pruning leaves every user's records. *)
Lemma session_id_inv m s : session_id m = Some s → 0 < s ∧ ParseInt m = Some s.
Proof.
  unfold session_id. destruct (ParseInt m) as [z|]; [|done]. cbn [mbind option_bind].
  destruct (z <=? 0) eqn:E; [done|]. intros [= ->]. split; [lia|done].
Qed.

Lemma pruned_records db db' u r :
  keys_typed presence db → pruned db db' (stale_of db) → r ∈ records_of db' u ↔ r ∈ records_of db u.
Proof.
  intros Hty [Hty' _ Ho Hi Hk].
  assert (∀ s, session_record db' u s = session_record db u s) as Hs by (intros s; unfold session_record; by rewrite Ho).
  unfold records_of. rewrite !list_elem_of_omap. split; intros (s & Hin & Hr).
  - rewrite Hs in Hr. exists s. split; [|done]. apply list_elem_of_omap in Hin as (m & Hm & Hsm).
    apply list_elem_of_omap. exists m. split; [|done]. apply elem_of_elements. by apply Hi, elem_of_elements.
  - exists s. rewrite Hs. split; [|done]. apply list_elem_of_omap in Hin as (m & Hm & Hsm).
    apply list_elem_of_omap. exists m. split; [|done]. apply elem_of_elements. apply Hk; [by apply elem_of_elements|].
    intros [Hin|Hin]%elem_of_app.
    + unfold not_ids in Hin. apply list_elem_of_In, filter_In in Hin as [_ Hf]. by rewrite Hsm in Hf.
    + apply list_elem_of_omap in Hin as (s' & _ & Hs'). destruct (session_record db u s') eqn:E; [done|].
      injection Hs' as <-. apply session_id_inv in Hsm as [_ ->%ParseInt_FormatInt_inv]. by rewrite E in Hr.
Qed.
End lookup.
