(* ===== verification/PresencePromises.v ===== *)
(** What presence promises: a connection that lost its session to another can neither
    take it back nor remove it, and a lookup finds who is there. *)
From Stdlib Require Import Ascii String.
From S2P Require Import Prelude GoStd Json Numerals Encoding JsonText Redis Presence PresenceOk.
Open Scope Z_scope.

(** What the connections of the servers do to presence. *)
Inductive presence_op : Type :=
| Registers (record : webSocketPresenceRecord)
| Refreshes (record : webSocketPresenceRecord)
| Unregisters (record : webSocketPresenceRecord).

Definition op_record (op : presence_op) : webSocketPresenceRecord :=
  match op with Registers r | Refreshes r | Unregisters r => r end.

Definition presence_step (presence : redisWebSocketPresence) (w : redis_world) (op : presence_op) : redis_world :=
  match op with
  | Registers r => (Register presence r w).2
  | Refreshes r => (Refresh presence r w).2
  | Unregisters r => (Unregister presence r w).2
  end.

Definition same_session (r r' : webSocketPresenceRecord) : bool :=
  (UserID r =? UserID r') && (SessionID r =? SessionID r').

(** An operation that leaves the session of [r] to it: it is another session's, or
    [r]'s own except for giving it up, or another connection's except for taking it. *)
Definition yields_to (r : webSocketPresenceRecord) (op : presence_op) : bool :=
  valid (op_record op) &&
  if negb (same_session r (op_record op)) then true
  else if bool_decide (op_record op = r) then (if op is Unregisters _ then false else true)
  else (if op is Registers _ then false else true).

Section promises.
Context (presence : redisWebSocketPresence).
Context (ttl_positive : 0 < Milliseconds (ttl presence)).
Implicit Types (db : redis_db) (r : webSocketPresenceRecord).

(** [r] holds its session. *)
Definition holds r db : Prop :=
  keys_typed presence db ∧ owner presence db (UserID r) (SessionID r) = Some (record_text r).

(** What happens between the calls (time that passes, other keys) leaves it to it. *)
Definition tolerates r (t : trip) : Prop := ∀ db, holds r db → holds r (interference t db).

Lemma record_text_inj r r' : text_record r → text_record r' → record_text r = record_text r' → r = r'.
Proof. intros Hr Hr' Heq. apply decode_record_text in Hr, Hr'. rewrite Heq in Hr. congruence. Qed.

Lemma met_holds r w : holds r (redis w) → Forall (tolerates r) (trips w) → holds r (met w).
Proof. unfold met. intros Hh Ht. destruct (trips w); [done|]. apply Forall_cons in Ht as [Ht _]. by apply Ht. Qed.

Lemma step_trips P w op : Forall P (trips w) → Forall P (trips (presence_step presence w op)).
Proof.
  destruct op as [r|r|r]; simpl.
  - destruct (Register presence r w) as [res w'] eqn:E. apply (consumes_Forall (Register presence r)) with res; [|done].
    unfold Register. apply consumes_bind; [auto with redis|intros v]. apply consumes_bind; [auto with redis|intros old].
    repeat case_match; auto with redis.
  - destruct (Refresh presence r w) as [res w'] eqn:E. apply (consumes_Forall (Refresh presence r)) with res; [|done].
    unfold Refresh. auto with redis.
  - destruct (Unregister presence r w) as [res w'] eqn:E. apply (consumes_Forall (Unregister presence r)) with res; [|done].
    unfold Unregister. auto with redis.
Qed.

(** The operation of another session. *)
Lemma others_hold r r' db db' :
  holds r db → others_kept presence r' db db' → same_session r r' = false → holds r db'.
Proof.
  intros [_ Ho] [Hty Hk] Hs. split; [done|]. rewrite Hk; [done|]. intros [= Hu Hse].
  unfold same_session in Hs. lia.
Qed.

Lemma step_holds r w op :
  text_record r → text_record (op_record op) → holds r (met w) → yields_to r op = true →
  holds r (redis (presence_step presence w op)).
Proof.
  intros Hr Ht Hh [Hv Hy]%andb_true_iff. pose proof Hh as [Hty Ho].
  destruct (same_session r (op_record op)) eqn:Hs; cbn [negb] in Hy.
  - apply andb_true_iff in Hs as [Hu%Z.eqb_eq Hse%Z.eqb_eq].
    destruct op as [r'|r'|r']; simpl in *; case_bool_decide as Heq; try done.
    + subst r'. destruct (Register presence r w) as [res w'] eqn:E.
      destruct (Register_spec presence ttl_positive r w res w' Hty Hv E) as ([Hty' _] & [Ho'|[Hdb _]] & _); [done|].
      simpl. by rewrite Hdb.
    + subst r'. destruct (Refresh presence r w) as [res w'] eqn:E.
      destruct (Refresh_spec presence ttl_positive r w res w' Hty Hv E) as ([Hty' _] & Hres). split; [done|]. simpl.
      destruct res as [e|[]]; [destruct Hres as [->|[? _]]; done|..]; try (by destruct Hres).
      destruct Hres as (held & Hh' & Hne & _). by rewrite Ho in Hh'; simplify_eq.
    + assert (record_text r ≠ record_text r') by (intros ?%record_text_inj; congruence).
      destruct (Refresh presence r' w) as [res w'] eqn:E.
      destruct (Refresh_spec presence ttl_positive r' w res w' Hty Hv E) as ([Hty' _] & Hres). split; [done|]. simpl.
      rewrite <-Hu, <-Hse, Ho in Hres. destruct res as [e|[]]; [| |by destruct Hres; simplify_eq..].
      * destruct Hres as [->|[_ [?|?]]]; [done|done|]. simplify_eq.
      * destruct Hres as (held & _ & _ & ->). done.
    + assert (record_text r ≠ record_text r') by (intros ?%record_text_inj; congruence).
      destruct (Unregister presence r' w) as [res w'] eqn:E.
      destruct (Unregister_spec presence ttl_positive r' w res w' Hty Hv E) as ([Hty' _] & Hres). split; [done|]. simpl.
      rewrite <-Hu, <-Hse, Ho in Hres. destruct res as [e|[]]; [|by destruct Hres; simplify_eq|by destruct Hres as [_ ->]].
      destruct Hres as [->|[? _]]; [done|]. simplify_eq.
  - destruct op as [r'|r'|r']; simpl in *.
    + destruct (Register presence r' w) as [res w'] eqn:E.
      destruct (Register_spec presence ttl_positive r' w res w' Hty Hv E) as (Hk & _). by eapply others_hold.
    + destruct (Refresh presence r' w) as [res w'] eqn:E.
      destruct (Refresh_spec presence ttl_positive r' w res w' Hty Hv E) as (Hk & _). by eapply others_hold.
    + destruct (Unregister presence r' w) as [res w'] eqn:E.
      destruct (Unregister_spec presence ttl_positive r' w res w' Hty Hv E) as (Hk & _). by eapply others_hold.
Qed.

(** C19: once a connection holds its session, and while its
    record lives, whatever the network does to the calls, the other connections of the session, one it replaced
    included, neither take the session over nor remove it by refreshing or
    unregistering, and the operations of other sessions do not touch it; only another
    registration or its own unregistration ends it. *)
Theorem replaced_connection_cannot_return r ops w :
  text_record r → Forall (λ op, text_record (op_record op) ∧ yields_to r op = true) ops →
  Forall (tolerates r) (trips w) → holds r (redis w) →
  holds r (redis (foldl (presence_step presence) w ops)).
Proof.
  intros Hr Hops. revert w. induction Hops as [|op ops [Ht Hy] _ IH]; intros w Htr Hh; [done|].
  apply IH; [by apply step_trips|]. apply step_holds; [done..|by apply met_holds|done].
Qed.

(** [r] is where a lookup looks for it. *)
Definition present r db : Prop := holds r db ∧ FormatInt (SessionID r) ∈ indexed presence db (UserID r).

Lemma valid_positive r : valid r = true → 0 < UserID r ∧ 0 < SessionID r.
Proof. unfold valid. rewrite !andb_true_iff. lia. Qed.

Lemma read_record_held r :
  text_record r → valid r = true → read_record (UserID r) (SessionID r) (Some (record_text r)) = Some r.
Proof.
  intros Hr Hv. unfold read_record. apply bind_Some. exists (record_text r). split; [done|].
  apply bind_Some. exists r. split; [by apply decode_record_text|]. by rewrite Hv, !Z.eqb_refl.
Qed.

Lemma present_recorded r db :
  text_record r → valid r = true → present r db →
  session_record presence db (UserID r) (SessionID r) = Some r ∧ r ∈ records_of presence db (UserID r).
Proof.
  intros Hr Hv [[_ Ho] Hi]. assert (session_record presence db (UserID r) (SessionID r) = Some r) as Hs.
  { unfold session_record. rewrite Ho. by apply read_record_held. }
  split; [done|]. apply list_elem_of_omap. exists (SessionID r). split; [|done].
  apply list_elem_of_omap. exists (FormatInt (SessionID r)). split; [by apply elem_of_elements|].
  apply session_id_FormatInt; [by apply valid_positive|apply Hr].
Qed.

Lemma read_record_Some u s value r :
  read_record u s value = Some r →
  UserID r = u ∧ SessionID r = s ∧ valid r = true ∧ ∃ text, value = Some text ∧ decode_record text = Some r.
Proof.
  unfold read_record. rewrite bind_Some. intros (text & -> & (r' & Hd & Hr)%bind_Some).
  destruct (valid r' && (UserID r' =? u) && (SessionID r' =? s)) eqn:Hv; [|discriminate].
  injection Hr as ->. rewrite !andb_true_iff, !Z.eqb_eq in Hv. destruct Hv as [[??]?]. eauto 10.
Qed.

Lemma recorded_owner r db u :
  r ∈ records_of presence db u →
  UserID r = u ∧ valid r = true ∧ ∃ text, owner presence db u (SessionID r) = Some text ∧ decode_record text = Some r.
Proof.
  intros (s & _ & Hs)%list_elem_of_omap. apply read_record_Some in Hs as (? & <- & ? & ?). done.
Qed.

(** On a server that answers, a lookup answers for exactly the
    users it was asked for; it finds every record that holds its session and is
    listed, and finds nothing but what the sessions of that user hold; the pruning
    that follows takes no session from its owner and forgets no such record. *)
Theorem LookupUsers_finds_live userIDs db :
  keys_typed presence db → Forall (λ u, 0 < u) userIDs →
  ∃ m db', LookupUsers presence userIDs (RedisWorld db []) = (Ok m, RedisWorld db' []) ∧
    (∀ u, is_Some (m !! u) ↔ u ∈ userIDs) ∧
    (∀ r, text_record r → valid r = true → UserID r ∈ userIDs → present r db →
      (∃ records, m !! UserID r = Some records ∧ r ∈ records) ∧ present r db') ∧
    (∀ u records r, m !! u = Some records → r ∈ records →
      UserID r = u ∧ valid r = true ∧
      ∃ text, owner presence db u (SessionID r) = Some text ∧ decode_record text = Some r) ∧
    ∀ u s, owner presence db' u s = owner presence db u s.
Proof.
  intros Hty Hpos. destruct (LookupUsers_quiet presence ttl_positive userIDs db Hty Hpos) as (m & db' & Hrun & Hp & Hm).
  exists m, db'. split_and!; [done|..].
  - intros u. rewrite Hm. case_decide as Hu; split; intros Hx; [done|by eexists|by apply is_Some_None in Hx|done].
  - intros r Hr Hv Hu Hpr. destruct (present_recorded r db Hr Hv Hpr) as [Hs Hin]. split.
    + exists (records_of presence db (UserID r)). by rewrite Hm, decide_True.
    + destruct Hp as [Hty' _ Hpo _ Hk], Hpr as [[_ Ho] Hi]. split; [split; [done|by rewrite Hpo]|].
      apply Hk; [done|]. apply (stale_not_live _ _ _ _ r); [done|by apply valid_positive|apply Hr].
  - intros u records r. rewrite Hm. case_decide; [|done]. intros [= <-]. apply recorded_owner.
  - apply Hp.
Qed.
End promises.

(** * A session that moves from one connection to another *)

Definition some_presence : redisWebSocketPresence := RedisWebSocketPresence "im:ws" (60 * second) (20 * second).
Definition first_connection : webSocketPresenceRecord := WebSocketPresenceRecord 7 3 "c1" "east-1".
Definition second_connection : webSocketPresenceRecord := WebSocketPresenceRecord 7 3 "c2" "west-1".
Definition empty_redis : redis_db := RedisDb ∅ 0 (λ _, 0%nat) [].

Definition moved : redis_world :=
  foldl (presence_step some_presence) (RedisWorld empty_redis []) [Registers first_connection; Registers second_connection].

Lemma empty_typed : keys_typed some_presence empty_redis.
Proof. split; intros *; unfold entry_at; cbn [entries empty_redis]; rewrite lookup_empty; discriminate. Qed.

Lemma moved_holds : holds some_presence second_connection (redis moved).
Proof.
  unfold moved. cbn [foldl presence_step].
  destruct (Register some_presence first_connection _) as [res w] eqn:E1.
  destruct (Register_spec some_presence eq_refl first_connection (RedisWorld empty_redis []) res w empty_typed eq_refl E1)
    as ([Hty _] & _).
  assert (w = RedisWorld (redis w) []) as Hw by (vm_compute in E1; by injection E1 as _ <-).
  cbn [snd]. destruct (Register some_presence second_connection w) as [res' w'] eqn:E2. cbn [snd].
  destruct (Register_spec some_presence eq_refl second_connection w res' w') as ([Hty' _] & [Ho|[_ Hres]] & _);
    [by rewrite Hw|reflexivity|exact E2|split; [exact Hty'|exact Ho]|].
  subst res'. rewrite Hw in E2. vm_compute in E1. injection E1 as _ <-. vm_compute in E2. discriminate.
Qed.

(** The first connection refreshes and unregisters, another session of the user comes
    and goes, and the second connection refreshes over a network that loses a reply. *)
Definition afterwards : list presence_op := [
  Refreshes first_connection; Registers (WebSocketPresenceRecord 7 4 "c9" "east-1"); Unregisters first_connection;
  Refreshes second_connection; Unregisters (WebSocketPresenceRecord 7 4 "c9" "east-1")].
Definition faulty : list trip := [Trip id TripDone; Trip id TripReplyLost; Trip id TripNotServed].

Lemma replaced_connection_cannot_return_witness :
  holds some_presence second_connection (redis moved) ∧
  holds some_presence second_connection (redis (foldl (presence_step some_presence) (RedisWorld (redis moved) faulty) afterwards)) ∧
  yields_to second_connection (Registers first_connection) = false.
Proof.
  split; [exact moved_holds|]. split; [|reflexivity].
  apply (replaced_connection_cannot_return some_presence eq_refl second_connection afterwards); [..|exact moved_holds].
  - vm_compute. intuition discriminate.
  - repeat apply Forall_cons_2; try apply Forall_nil_2; (split; [vm_compute; intuition discriminate|reflexivity]).
  - repeat apply Forall_cons_2; try apply Forall_nil_2; by intros db Hdb.
Defined.

(** User 7's new connection is found, user 8 is not there. *)
Lemma LookupUsers_finds_live_witness :
  ∃ m db', LookupUsers some_presence [7; 8] (RedisWorld (redis moved) []) = (Ok m, RedisWorld db' []) ∧
    (∃ records, m !! 7 = Some records ∧ second_connection ∈ records) ∧
    ∀ records, m !! 8 = Some records → records = [].
Proof.
  destruct (LookupUsers_finds_live some_presence eq_refl [7; 8] (redis moved) (proj1 moved_holds)) as (m & db' & Hrun & _ & Hin & _).
  { repeat constructor. }
  exists m, db'. split; [exact Hrun|]. split.
  - refine (proj1 (Hin second_connection _ eq_refl _ (conj moved_holds _))); [vm_compute; intuition discriminate|apply list_elem_of_here|].
    refine (bool_decide_unpack _ _). vm_compute. exact I.
  - intros records Hr. vm_compute in Hrun. injection Hrun as Hm _. rewrite <-Hm in Hr. vm_compute in Hr. by injection Hr as <-.
Defined.
