(* ===== verification/Router.v ===== *)
(** [realtime_router.go]: one instance's way to every connection of a user.  Its own
    connections hang on its hub; the instances that hold the others are found in
    Redis and are sent commands through it.  Counters of routed calls are left out. *)
From Stdlib Require Import Ascii String.
From S2P Require Import Prelude GoStd Json Encoding JsonText JsonRaw Hub Redis Presence.
Open Scope Z_scope.

(** * Commands between instances *)

Definition realtimeCommandDeliver : string := "deliver".
Definition realtimeCommandDisconnect : string := "disconnect".

(** [command_Payload] is a raw value, empty for none. *)
Record realtimeInstanceCommand : Type := RealtimeInstanceCommand {
  command_Type : string; command_ReceiverID : Z; command_ConnectionID : string; command_Payload : list Z
}.

(** [json.Marshal], which fails on a payload that is not JSON; [omitempty]. *)
Definition command_text (command : realtimeInstanceCommand) : option (list Z) :=
  payload ← (if bool_decide (command_Payload command = []) then Some []
             else raw ← raw_text (command_Payload command); Some [quoted "payload" ++ 58 :: raw]);
  Some (123 :: separated (
    [quoted "type" ++ 58 :: quoted (command_Type command)] ++
    (if command_ReceiverID command =? 0 then []
     else [quoted "receiverId" ++ 58 :: bytes_of (FormatInt (command_ReceiverID command))]) ++
    (if bool_decide (command_ConnectionID command = EmptyString) then []
     else [quoted "connectionId" ++ 58 :: quoted (command_ConnectionID command)]) ++
    payload) ++ [125]).

Definition command_fields : list (string * (list Z → realtimeInstanceCommand → option realtimeInstanceCommand)) := [
  ("type"%string, reparse (decode_text (λ x c,
    RealtimeInstanceCommand x (command_ReceiverID c) (command_ConnectionID c) (command_Payload c))));
  ("receiverId"%string, reparse (decode_int64 (λ x c,
    RealtimeInstanceCommand (command_Type c) x (command_ConnectionID c) (command_Payload c))));
  ("connectionId"%string, reparse (decode_text (λ x c,
    RealtimeInstanceCommand (command_Type c) (command_ReceiverID c) x (command_Payload c))));
  ("payload"%string, λ text c,
    Some (RealtimeInstanceCommand (command_Type c) (command_ReceiverID c) (command_ConnectionID c) text))].

Definition decode_command (bs : list Z) : option realtimeInstanceCommand :=
  decode_raw_struct command_fields bs (RealtimeInstanceCommand "" 0 "" []).

(** * The router *)

(** The router's namespace is its presence's.  The constructor is told whether there
    are a client and a hub. *)
Record redisRealtimeRouter : Type := RedisRealtimeRouter {
  router_presence : redisWebSocketPresence; instanceID : string
}.

Definition newRedisRealtimeRouter (client : bool) (presence : option redisWebSocketPresence) (hub : bool)
    (instance : string) : result string redisRealtimeRouter :=
  match presence with
  | Some presence =>
      if negb client || negb hub || bool_decide (instance = EmptyString)
      then Err "realtime router requires Redis, presence, hub and instance identity"%string
      else Ok (RedisRealtimeRouter presence instance)
  | None => Err "realtime router requires Redis, presence, hub and instance identity"%string
  end.

(** What a call to the hub meets: what the hub did before it, how the call's select
    ends and the order in which the hub ranges over the clients. *)
Record hub_trip : Type := HubTrip { hub_before : list hub_event; hub_select : select_end; hub_range : range_order }.

(** A set is ranged over in some order, another each time. *)
Record instance_order : Type := InstanceOrder {
  instance_list : gset string → list string;
  instance_Permutation : ∀ X, instance_list X ≡ₚ elements X
}.
Definition instances_in_order : instance_order := InstanceOrder elements (λ X, reflexivity _).

(** An instance of the server, and Redis as it meets it. *)
Record router_world : Type := RouterWorld {
  hub : webSocketHub; hub_trips : list hub_trip; instance_orders : list instance_order; remote : redis_world
}.

Abbreviation router_proc := (proc router_world string).

(** Beyond the schedule the hub answers at once. *)
Definition on_hub {A} (call : select_end → range_order → proc webSocketHub string A) : router_proc A := λ w,
  match hub_trips w with
  | [] => let '(r, h) := call SelectAnswered in_order (hub w) in (r, RouterWorld h [] (instance_orders w) (remote w))
  | t :: rest =>
      let '(r, h) := call (hub_select t) (hub_range t) (hub_run (hub w) (hub_before t)) in
      (r, RouterWorld h rest (instance_orders w) (remote w))
  end.

Definition on_redis {A} (m : proc redis_world string A) : router_proc A := λ w,
  let '(r, w') := m (remote w) in (r, RouterWorld (hub w) (hub_trips w) (instance_orders w) w').

Definition next_order : router_proc instance_order := λ w,
  (Ok (default instances_in_order (head (instance_orders w))),
   RouterWorld (hub w) (hub_trips w) (tail (instance_orders w)) (remote w)).

Section router.
Context (router : redisRealtimeRouter).

Definition instanceChannel (instance : string) : string :=
  namespace (router_presence router) ++ ":instance:" ++ instance.

(** ** Delivering *)

Definition publishLocal (receiverID : Z) (payload : list Z) : router_proc Z :=
  on_hub (λ how order, Hub.Publish how order receiverID payload).

Fixpoint publish_instances (encoded : list Z) (delivered : Z) (instances : list string) : router_proc Z :=
  match instances with
  | [] => mret delivered
  | instance :: rest =>
      subscribers ← on_redis (round_trip (PUBLISH (instanceChannel instance) encoded));
      publish_instances encoded (delivered + subscribers) rest
  end.

(** The instances other than this one that hold connections. *)
Definition remoteInstances (records : list webSocketPresenceRecord) : gset string :=
  list_to_set (List.filter (λ instance, negb (bool_decide (instance = instanceID router))) (InstanceID <$> records)).

(** What an error leaves out is how many were delivered, which no caller reads. *)
Definition publishRemote (receiverID : Z) (payload : list Z) (delivered : Z)
    (records : list webSocketPresenceRecord) : router_proc Z :=
  if bool_decide (remoteInstances records = ∅) then mret delivered
  else
    match command_text (RealtimeInstanceCommand realtimeCommandDeliver receiverID "" payload) with
    | None => mthrow "json: error calling MarshalJSON for type json.RawMessage"%string
    | Some encoded =>
        order ← next_order;
        publish_instances encoded delivered (instance_list order (remoteInstances records))
    end.

Definition Publish (receiverID : Z) (payload : list Z) : router_proc Z :=
  delivered ← publishLocal receiverID payload;
  records ← on_redis (LookupUser (router_presence router) receiverID);
  publishRemote receiverID payload delivered records.

(** [redisRealtimeBatchRouter]: what presence said when the batch was prepared. *)
Definition batch_Publish (found : result string (gmap Z (list webSocketPresenceRecord)))
    (receiverID : Z) (payload : list Z) : router_proc Z :=
  delivered ← publishLocal receiverID payload;
  match found with
  | Err lookupErr => mthrow lookupErr
  | Ok recordsByUser =>
      match recordsByUser !! receiverID with
      | None => mthrow ("user " ++ FormatInt receiverID ++ " was not prepared in the Presence batch")%string
      | Some records => publishRemote receiverID payload delivered records
      end
  end.

(** A failed lookup is kept for the batch's deliveries. *)
Definition PrepareDeliveryBatch (userIDs : list Z) : router_proc (option (Z → list Z → router_proc Z)) :=
  found ← attempt (on_redis (LookupUsers (router_presence router) userIDs));
  mret (Some (batch_Publish found)).

(** ** Disconnecting *)

Definition DisconnectReplaced (record : webSocketPresenceRecord) : router_proc unit :=
  if negb (valid record) then mthrow "replaced websocket connection is invalid"%string
  else if bool_decide (InstanceID record = instanceID router) then
    on_hub (λ how _, DisconnectConnection how (UserID record) (ConnectionID record))
  else
    match command_text (RealtimeInstanceCommand realtimeCommandDisconnect (UserID record) (ConnectionID record) []) with
    | None => mthrow "json: error calling MarshalJSON for type json.RawMessage"%string
    | Some encoded =>
        _ ← on_redis (round_trip (PUBLISH (instanceChannel (InstanceID record)) encoded));
        mret tt
    end.

Fixpoint disconnect_records (records : list webSocketPresenceRecord) (errors : list string) :
    router_proc (list string) :=
  match records with
  | [] => mret errors
  | record :: rest =>
      outcome ← attempt (DisconnectReplaced record);
      disconnect_records rest (errors ++ match outcome with Err e => [e] | Ok _ => [] end)
  end.

(** [errors.Join]. *)
Definition newline : string := String (ascii_of_nat 10) EmptyString.
Definition join_errors (errors : list string) : router_proc unit :=
  match errors with [] => mret tt | _ => mthrow (String.concat newline errors) end.

(** Disconnecting here, and then everywhere that presence knows of. *)
Definition disconnect_everywhere (here : select_end → range_order → proc webSocketHub string unit)
    (userID : Z) (chosen : webSocketPresenceRecord → bool) : router_proc unit :=
  local ← attempt (on_hub here);
  let localErrors := match local with Err e => [e] | Ok _ => [] end in
  found ← attempt (on_redis (LookupUser (router_presence router) userID));
  match found with
  | Err e => join_errors (localErrors ++ [e])
  | Ok records =>
      disconnectErrors ← disconnect_records (List.filter chosen records) localErrors;
      join_errors disconnectErrors
  end.

Definition DisconnectSession (userID sessionID : Z) : router_proc unit :=
  disconnect_everywhere (λ how order, Hub.DisconnectSession how order userID sessionID) userID
    (λ record, SessionID record =? sessionID).
Definition DisconnectUser (userID : Z) : router_proc unit :=
  disconnect_everywhere (λ how order, Hub.DisconnectUser how order userID) userID (λ _, true).

(** ** Receiving *)

Definition handleCommand (payload : list Z) : router_proc unit :=
  match decode_command payload with
  | None => mthrow "decode command"%string
  | Some command =>
      if bool_decide (command_Type command = realtimeCommandDeliver) then
        if (command_ReceiverID command <=? 0) || bool_decide (command_Payload command = []) then
          mthrow "delivery command is incomplete"%string
        else
          _ ← on_hub (λ how order, Hub.Publish how order (command_ReceiverID command) (command_Payload command));
          mret tt
      else if bool_decide (command_Type command = realtimeCommandDisconnect) then
        if (command_ReceiverID command <=? 0) || bool_decide (command_ConnectionID command = EmptyString) then
          mthrow "disconnect command is incomplete"%string
        else on_hub (λ how _, DisconnectConnection how (command_ReceiverID command) (command_ConnectionID command))
      else mthrow "unsupported command type"%string
  end.

(** One subscription: whether it was made, the messages that came and whether the
    context ended it. *)
Record subscription : Type := Subscription { subscribed : bool; arrived : list (list Z); context_ended : bool }.

(** A message that fails is only logged. *)
Fixpoint handle_all (messages : list (list Z)) : router_proc unit :=
  match messages with
  | [] => mret tt
  | message :: rest => _ ← attempt (handleCommand message); handle_all rest
  end.

Definition receive (s : subscription) : router_proc unit :=
  if negb (subscribed s) then mthrow (if context_ended s then context_error else connection_failed)
  else
    _ ← handle_all (arrived s);
    mthrow (if context_ended s then context_error else "realtime Redis subscription closed"%string).

(** The wait before the next subscription, in nanoseconds; [jitter] is random, from 0 to
    half the backoff. *)
Definition first_backoff : Z := 250 * millisecond.
Definition max_backoff : Z := 10 * second.
Definition reconnect_delay (backoff jitter : Z) : Z := backoff / 2 + jitter.
Definition next_backoff (backoff : Z) : Z :=
  if backoff <? max_backoff then Z.min (backoff * 2) max_backoff else backoff.

(** The subscriptions until the context ends, which may be while one lasts or while
    the router waits; what it waited for. *)
Fixpoint run_from (backoff : Z) (rounds : list (subscription * Z * bool)) : router_proc (list Z) :=
  match rounds with
  | [] => mret []
  | (s, jitter, wait_ended) :: rest =>
      _ ← attempt (receive s);
      if context_ended s then mret []
      else
        let delay := reconnect_delay backoff jitter in
        if (wait_ended : bool) then mret [delay]
        else delays ← run_from (next_backoff backoff) rest; mret (delay :: delays)
  end.
Definition Run : list (subscription * Z * bool) → router_proc (list Z) := run_from first_backoff.
End router.

(** [newRealtimeInstanceID]: the host's name and a token, when they could be had. *)
Definition newRealtimeInstanceID (configured : string) (hostname token : result string string) : result string string :=
  base ← (if bool_decide (configured = EmptyString) then hostname else Ok configured);
  raw ← token;
  Ok (base ++ "-" ++ substring 0 12 raw)%string.
