(* ===== verification/RouterPromises.v ===== *)
(** The router: its commands on the wire and what one delivery does; then what
    publishing and disconnecting promise. *)
From Stdlib Require Import Ascii String.
From S2P Require Import Prelude GoStd Json Numerals Encoding JsonText JsonRaw Hub HubPromises Redis Presence.
From S2P Require Import PresenceOk PresencePromises Router HubOk.
Open Scope Z_scope.

(** * Commands *)

(** A payload that [json.Marshal] wrote, or none. *)
Definition payload_json (payload : list Z) (v : option json) : Prop :=
  match v with
  | None => payload = []
  | Some v => payload = marshal v ∧ literals v ∧ (nesting v < max_nesting_depth)%nat
  end.

Definition command_ok (c : realtimeInstanceCommand) (v : option json) : Prop :=
  ValidString (command_Type c) = true ∧ ValidString (command_ConnectionID c) = true ∧
  is_int64 (command_ReceiverID c) ∧ payload_json (command_Payload c) v.

Definition command_struct (c : realtimeInstanceCommand) (v : option json) : json := JObject (
  [("type"%string, JText (command_Type c))] ++
  (if command_ReceiverID c =? 0 then [] else [("receiverId"%string, JNumber (FormatInt (command_ReceiverID c)))]) ++
  (if bool_decide (command_ConnectionID c = EmptyString) then []
   else [("connectionId"%string, JText (command_ConnectionID c))]) ++
  match v with None => [] | Some v => [("payload"%string, v)] end).

Lemma marshal_nonempty v : literals v → marshal v ≠ [].
Proof. intros Hl. destruct (marshal_head v Hl) as (b & bs & -> & _). done. Qed.

Lemma command_text_struct c v :
  payload_json (command_Payload c) v → command_text c = Some (marshal (command_struct c v)).
Proof.
  intros Hp. unfold command_text, command_struct. cbn [marshal]. rewrite !map_app.
  destruct v as [v|]; cbn [payload_json] in Hp.
  - destruct Hp as (-> & Hl & Hn). rewrite (bool_decide_eq_false_2 (marshal v = [])) by (by apply marshal_nonempty).
    rewrite raw_text_marshal by (done || lia). cbn [mbind option_bind].
    destruct (_ =? 0), (bool_decide _); reflexivity.
  - rewrite Hp. cbn [bool_decide decide decide_rel]. destruct (_ =? 0), (bool_decide (_ = EmptyString)); reflexivity.
Qed.

Lemma command_struct_literals c v : payload_json (command_Payload c) v → literals (command_struct c v).
Proof.
  intros Hp. unfold command_struct.
  destruct (_ =? 0), (bool_decide _), v as [v|]; simpl; split_and!; try done; try apply literal_FormatInt; apply Hp.
Qed.

Lemma command_struct_nesting c v :
  payload_json (command_Payload c) v → (nesting (command_struct c v) ≤ max_nesting_depth)%nat.
Proof.
  intros Hp. assert (match v with None => 0 | Some v => nesting v end < max_nesting_depth)%nat as Hn.
  { destruct v as [v|]; [apply Hp|unfold max_nesting_depth; lia]. }
  revert Hn. generalize max_nesting_depth. intros depth Hn. unfold command_struct.
  destruct (_ =? 0), (bool_decide _), v as [v|]; simpl; lia.
Qed.

Lemma reparse_marshal {S} (set : json → S → option S) v s :
  literals v → (nesting v ≤ max_nesting_depth)%nat → reparse set (marshal v) s = set (reread v) s.
Proof. intros Hl Hn. unfold reparse. by rewrite parse_document_marshal. Qed.

Lemma reparse_text {S} (set : string → S → S) t s :
  ValidString t = true → reparse (decode_text set) (marshal (JText t)) s = Some (set t s).
Proof. intros Ht. rewrite reparse_marshal by (done || (simpl; lia)). simpl. by rewrite json_text_id. Qed.

Lemma reparse_int64 {S} (set : Z → S → S) z s :
  is_int64 z → reparse (decode_int64 set) (marshal (JNumber (FormatInt z))) s = Some (set z s).
Proof.
  intros Hz. rewrite reparse_marshal by (apply literal_FormatInt || (simpl; lia)). simpl. by rewrite ParseInt_FormatInt.
Qed.

Lemma decode_command_struct c v : command_ok c v → decode_command (marshal (command_struct c v)) = Some c.
Proof.
  intros (Ht & Hc & Hr & Hp). pose proof (command_struct_literals c v Hp) as Hl.
  pose proof (command_struct_nesting c v Hp) as Hn. unfold decode_command, decode_raw_struct.
  rewrite parse_document_marshal by done. unfold command_struct in Hl, Hn |- *. cbn [app] in Hl, Hn |- *.
  cbn [mbind option_bind reread]. rewrite raw_object_marshal by done. cbn [mbind option_bind List.map].
  rewrite !map_app.
  destruct (command_ReceiverID c =? 0) eqn:Er, (bool_decide (command_ConnectionID c = EmptyString)) eqn:Ec, v as [v|];
    cbn [List.map app foldl fst snd]; rewrite !(json_text_id (_ : string)) by reflexivity;
    unfold command_fields; lookup_fields; cbn [mbind option_bind];
    rewrite ?reparse_text by done; cbn [mbind option_bind]; rewrite ?reparse_int64 by done; cbn [mbind option_bind];
    rewrite ?reparse_text by done; cbn [mbind option_bind]; f_equal; destruct c as [t r id p]; cbn in *;
    try apply bool_decide_eq_true in Ec; try apply Z.eqb_eq in Er; subst; f_equal; cbn in *; try done; by destruct Hp.
Qed.

Lemma decode_command_text c v :
  command_ok c v → ∃ bs, command_text c = Some bs ∧ decode_command bs = Some c.
Proof.
  intros Hok. exists (marshal (command_struct c v)). split; [|by apply decode_command_struct].
  apply command_text_struct, Hok.
Qed.

(** * Calls that are answered *)

(** The next call to the hub is answered: it meets [h] and ranges in [order]. *)
Definition answers (w : router_world) (order : range_order) (h : webSocketHub) : Prop :=
  match hub_trips w with
  | [] => order = in_order ∧ h = hub w
  | t :: _ => hub_select t = SelectAnswered ∧ order = hub_range t ∧ h = hub_run (hub w) (hub_before t)
  end.

Definition after_call (w : router_world) (h : webSocketHub) : router_world :=
  RouterWorld h (tail (hub_trips w)) (instance_orders w) (remote w).

Lemma on_hub_answered {A} (call : select_end → range_order → proc webSocketHub string A) w order h :
  answers w order h →
  on_hub call w = let '(r, h') := call SelectAnswered order h in (r, after_call w h').
Proof.
  unfold answers, on_hub, after_call. destruct (hub_trips w) as [|t rest].
  - by intros [-> ->].
  - by intros (-> & -> & ->).
Qed.

Lemma publishLocal_answered receiver payload w order h :
  answers w order h →
  publishLocal receiver payload w =
    (Ok (deliver order receiver payload h).1, after_call w (deliver order receiver payload h).2).
Proof.
  intros Ha. unfold publishLocal. rewrite (on_hub_answered _ _ _ _ Ha). unfold Hub.Publish, hub_call.
  by destruct (deliver order receiver payload h).
Qed.

(** What more was published. *)
Definition with_published (more : list (string * list Z)) (db : redis_db) : redis_db :=
  RedisDb (entries db) (clock db) (subscriptions db) (published db ++ more).

(** The subscribers of a list of channels. *)
Definition subscribers_of (db : redis_db) (channels : list string) : Z :=
  foldr (λ channel n, Z.of_nat (subscriptions db channel) + n) 0 channels.

Section router.
Context (router : redisRealtimeRouter).
Context (ttl_positive : 0 < Milliseconds (ttl (router_presence router))).
Implicit Types (db : redis_db) (w : router_world) (h : webSocketHub).

Abbreviation channel := (instanceChannel router).
Abbreviation presence := (router_presence router).

Lemma publish_instances_quiet encoded n ids h ts os db :
  publish_instances router encoded n ids (RouterWorld h ts os (RedisWorld db [])) =
    (Ok (n + subscribers_of db (channel <$> ids)),
     RouterWorld h ts os (RedisWorld (with_published ((λ id, (channel id, encoded)) <$> ids) db) [])).
Proof.
  revert n db. induction ids as [|id ids IH]; intros n db.
  - cbn. rewrite Z.add_0_r. unfold with_published. rewrite app_nil_r. by destruct db.
  - cbn [publish_instances]. unfold mbind, proc_bind. unfold on_redis at 1. cbn [remote]. rewrite round_trip_quiet.
    unfold PUBLISH at 1. cbn [hub hub_trips instance_orders]. rewrite IH. cbn [fmap list_fmap]. f_equal; [f_equal|].
    + change (subscribers_of ?d (channel id :: ?l)) with (Z.of_nat (subscriptions d (channel id)) + subscribers_of d l).
      change (subscribers_of (RedisDb ?e ?c (subscriptions db) ?p) ?l) with (subscribers_of db l). cbn [list_fmap fmap]. lia.
    + unfold with_published. cbn [entries clock subscriptions published]. by rewrite <-app_assoc.
Qed.

(** The instances that a call ranges over. *)
Definition ranged (os : list instance_order) (records : list webSocketPresenceRecord) : list string :=
  instance_list (default instances_in_order (head os)) (remoteInstances router records).

Lemma ranged_Permutation os records : ranged os records ≡ₚ elements (remoteInstances router records).
Proof. apply instance_Permutation. Qed.

Lemma elem_of_ranged os records id :
  id ∈ ranged os records ↔ id ≠ instanceID router ∧ ∃ r, r ∈ records ∧ InstanceID r = id.
Proof.
  rewrite ranged_Permutation, elem_of_elements. unfold remoteInstances. rewrite elem_of_list_to_set. split.
  - intros [Hin Hne]%list_elem_of_In%filter_In. apply list_elem_of_In, list_elem_of_fmap in Hin as (r & -> & Hr).
    apply negb_true_iff, bool_decide_eq_false in Hne. eauto.
  - intros (Hne & r & Hr & <-). apply list_elem_of_In, filter_In.
    split; [by apply list_elem_of_In, list_elem_of_fmap_2|]. by rewrite bool_decide_eq_false_2.
Qed.

Definition deliver_command (receiver : Z) (payload : list Z) : realtimeInstanceCommand :=
  RealtimeInstanceCommand realtimeCommandDeliver receiver "" payload.
Definition deliver_text (receiver : Z) (v : json) : list Z :=
  marshal (command_struct (deliver_command receiver (marshal v)) (Some v)).

Definition payload_value (v : json) : Prop := literals v ∧ (nesting v < max_nesting_depth)%nat.

Lemma publishRemote_quiet receiver v n records h ts os db :
  payload_value v →
  publishRemote router receiver (marshal v) n records (RouterWorld h ts os (RedisWorld db [])) =
    (Ok (n + subscribers_of db (channel <$> ranged os records)),
     RouterWorld h ts (if bool_decide (remoteInstances router records = ∅) then os else tail os)
       (RedisWorld (with_published ((λ id, (channel id, deliver_text receiver v)) <$> ranged os records) db) [])).
Proof.
  intros Hv. unfold publishRemote. case_bool_decide as He.
  - assert (ranged os records = []) as ->.
    { apply Permutation_nil_r. by rewrite ranged_Permutation, He, elements_empty. }
    cbn. rewrite Z.add_0_r. unfold with_published. rewrite app_nil_r. by destruct db.
  - rewrite (command_text_struct _ (Some v)) by (by split). unfold mbind, proc_bind, next_order at 1.
    cbn [hub hub_trips instance_orders remote]. apply publish_instances_quiet.
Qed.

Lemma handle_deliver receiver v w order h :
  payload_value v → 0 < receiver → is_int64 receiver → answers w order h →
  handleCommand (deliver_text receiver v) w = (Ok tt, after_call w (deliver order receiver (marshal v) h).2).
Proof.
  intros [Hl Hn] Hr Hi Ha. unfold handleCommand, deliver_text. rewrite decode_command_struct by done.
  cbn [command_Type command_ReceiverID command_Payload deliver_command].
  rewrite (bool_decide_eq_true_2 (_ = _)) by done. rewrite (bool_decide_eq_false_2 (marshal v = [])) by (by apply marshal_nonempty).
  replace (receiver <=? 0) with false by lia. cbn [orb].
  pose proof (publishLocal_answered receiver (marshal v) w order h Ha) as Hp. unfold publishLocal in Hp.
  unfold mbind, proc_bind. by rewrite Hp.
Qed.

Lemma LookupUser_quiet user db :
  keys_typed presence db → 0 < user →
  ∃ db', LookupUser presence user (RedisWorld db []) = (Ok (records_of presence db user), RedisWorld db' []) ∧
    pruned presence db db' (stale_of presence db).
Proof.
  intros Hty Hu. destruct (LookupUsers_quiet presence ttl_positive [user] db Hty) as (m & db' & Hrun & Hp & Hm); [by constructor|].
  exists db'. split; [|done]. unfold LookupUser. replace (user <=? 0) with false by lia.
  rewrite (proc_bind_run _ _ _ _ _ Hrun), Hm, decide_True by apply list_elem_of_here. done.
Qed.

Lemma Publish_quiet receiver v w order h db :
  payload_value v → 0 < receiver → keys_typed presence db → answers w order h → remote w = RedisWorld db [] →
  ∃ db' os', pruned presence db db' (stale_of presence db) ∧
    Publish router receiver (marshal v) w =
      (Ok ((deliver order receiver (marshal v) h).1 +
           subscribers_of db (channel <$> ranged (instance_orders w) (records_of presence db receiver))),
       RouterWorld (deliver order receiver (marshal v) h).2 (tail (hub_trips w)) os'
         (RedisWorld (with_published ((λ id, (channel id, deliver_text receiver v)) <$>
           ranged (instance_orders w) (records_of presence db receiver)) db') [])).
Proof.
  intros Hv Hr Hty Ha Hrem. destruct (LookupUser_quiet receiver db Hty Hr) as (db' & Hrun & Hp). eexists db', _.
  split; [done|]. unfold Publish. rewrite (proc_bind_run _ _ _ _ _ (publishLocal_answered _ _ _ _ _ Ha)).
  unfold mbind at 1, proc_bind at 1. unfold on_redis. cbn [after_call remote hub hub_trips instance_orders].
  rewrite Hrem, Hrun. rewrite publishRemote_quiet by done.
  assert (subscriptions db' = subscriptions db) as Hs by (apply (pr_server _ _ _ _ Hp)).
  unfold subscribers_of. by rewrite Hs.
Qed.
End router.

(** * What the router promises *)

Section promises.
Context (router : redisRealtimeRouter).
Context (ttl_positive : 0 < Milliseconds (ttl (router_presence router))).
Implicit Types (db : redis_db) (w : router_world) (h : webSocketHub).

Abbreviation channel := (instanceChannel router).
Abbreviation presence := (router_presence router).

(** C20: publishing a payload delivers it on this instance's hub
    and sends one command to each other instance that presence has a live record of
    the receiver for; handling that command delivers the same payload, byte for
    byte, to the receiver on that instance's hub.  The answer counts the connections
    here and the subscribers there. *)
Theorem publish_reaches_everywhere receiver v w order h db :
  payload_value v → 0 < receiver → is_int64 receiver →
  keys_typed presence db → answers w order h → remote w = RedisWorld db [] →
  ∃ ids command w',
    Publish router receiver (marshal v) w =
      (Ok ((deliver order receiver (marshal v) h).1 + subscribers_of db (channel <$> ids)), w') ∧
    hub w' = (deliver order receiver (marshal v) h).2 ∧
    published (redis (remote w')) = published db ++ ((λ id, (channel id, command)) <$> ids) ∧
    NoDup ids ∧
    (∀ id, id ∈ ids ↔ id ≠ instanceID router ∧ ∃ r, r ∈ records_of presence db receiver ∧ InstanceID r = id) ∧
    ∀ x order' h', answers x order' h' →
      handleCommand command x = (Ok tt, after_call x (deliver order' receiver (marshal v) h').2).
Proof.
  intros Hv Hr Hi Hty Ha Hrem.
  destruct (Publish_quiet router ttl_positive receiver v w order h db Hv Hr Hty Ha Hrem) as (db' & os' & Hp & Hrun).
  eexists (ranged router (instance_orders w) (records_of presence db receiver)), (deliver_text receiver v), _.
  split_and!; [exact Hrun|done| | |intros id; apply elem_of_ranged|intros; by apply handle_deliver].
  - cbn [remote redis with_published published]. by destruct (pr_server _ _ _ _ Hp) as (_ & _ & ->).
  - rewrite ranged_Permutation. apply NoDup_elements.
Qed.

(** The router of a prepared batch delivers to a user it was
    prepared for exactly as publishing at the moment of the preparation would have:
    the same answer, the same hub and the same commands; to another user it only
    delivers here, and says so. *)
Theorem batch_publishes_alike userIDs receiver v w order h db :
  payload_value v → 0 < receiver → Forall (λ u, 0 < u) userIDs →
  keys_typed presence db → answers w order h → remote w = RedisWorld db [] →
  ∃ batch w1, PrepareDeliveryBatch router userIDs w = (Ok (Some batch), w1) ∧ hub w1 = hub w ∧
    let '(rb, wb) := batch receiver (marshal v) w1 in
    let '(rp, wp) := Publish router receiver (marshal v) w in
    hub wb = hub wp ∧
    if bool_decide (receiver ∈ userIDs)
    then rb = rp ∧ published (redis (remote wb)) = published (redis (remote wp))
    else rb = Err ("user " ++ FormatInt receiver ++ " was not prepared in the Presence batch")%string ∧
         published (redis (remote wb)) = published db.
Proof.
  intros Hv Hr Hall Hty Ha Hrem.
  destruct (Publish_quiet router ttl_positive receiver v w order h db Hv Hr Hty Ha Hrem) as (db' & os' & Hp & ->).
  destruct (LookupUsers_quiet presence ttl_positive userIDs db Hty Hall) as (m & db1 & Hrun & Hp1 & Hm).
  set (w1 := RouterWorld (hub w) (hub_trips w) (instance_orders w) (RedisWorld db1 [])).
  exists (batch_Publish router (Ok m)), w1. split; [|split; [done|]].
  { unfold PrepareDeliveryBatch, mbind, proc_bind, attempt, on_redis. by rewrite Hrem, Hrun. }
  assert (answers w1 order h) as Ha1 by exact Ha. destruct (pr_server _ _ _ _ Hp) as (_ & _ & Hpub).
  destruct (pr_server _ _ _ _ Hp1) as (_ & Hs1 & Hpub1). unfold batch_Publish.
  rewrite (proc_bind_run _ _ _ _ _ (publishLocal_answered _ _ _ _ _ Ha1)), Hm. case_bool_decide as Hin.
  - rewrite decide_True by done. unfold after_call. cbn [hub_trips instance_orders remote w1].
    rewrite publishRemote_quiet by done. split; [done|]. unfold subscribers_of. rewrite Hs1. split; [done|].
    cbn [remote redis with_published published]. by rewrite Hpub, Hpub1.
  - by rewrite decide_False.
Qed.

(** ** Disconnecting *)

Definition disconnect_command (r : webSocketPresenceRecord) : realtimeInstanceCommand :=
  RealtimeInstanceCommand realtimeCommandDisconnect (UserID r) (ConnectionID r) [].
Definition disconnect_text (r : webSocketPresenceRecord) : list Z := marshal (command_struct (disconnect_command r) None).

Definition elsewhere (r : webSocketPresenceRecord) : bool := negb (bool_decide (InstanceID r = instanceID router)).

(** The records of a user that presence finds can be sent. *)
Definition sendable (user : Z) (r : webSocketPresenceRecord) : Prop := UserID r = user ∧ valid r = true ∧ text_record r.

Lemma sendable_identity user r : sendable user r → 0 < user ∧ ConnectionID r ≠ EmptyString.
Proof.
  intros (<- & Hv & _). unfold valid in Hv. rewrite !andb_true_iff, !negb_true_iff, !bool_decide_eq_false in Hv.
  destruct Hv as [[[? _] ?] _]. split; [lia|done].
Qed.

Lemma DisconnectConnection_answered user r h :
  sendable user r →
  DisconnectConnection SelectAnswered user (ConnectionID r) h = (Ok tt, disconnectOne user (ConnectionID r) h).
Proof.
  intros [Hu Hc]%sendable_identity. unfold DisconnectConnection. rewrite bool_decide_eq_false_2 by done.
  by replace (user <=? 0) with false by lia.
Qed.

Lemma handle_disconnect user r x order h :
  sendable user r → answers x order h →
  handleCommand (disconnect_text r) x = (Ok tt, after_call x (disconnectOne user (ConnectionID r) h)).
Proof.
  intros Hs Ha. pose proof (sendable_identity user r Hs) as [Hu Hc]. pose proof Hs as (Hur & _ & Hi & _ & Ht & _).
  unfold handleCommand, disconnect_text. rewrite decode_command_struct by done.
  cbn [command_Type command_ReceiverID command_ConnectionID disconnect_command].
  rewrite (bool_decide_eq_false_2 (_ = _)), (bool_decide_eq_true_2 (_ = _)), (bool_decide_eq_false_2 (_ = EmptyString)) by done.
  rewrite Hur. replace (user <=? 0) with false by lia. cbn [orb].
  rewrite (on_hub_answered _ _ _ _ Ha). by rewrite (DisconnectConnection_answered user r h Hs).
Qed.

Definition disconnect_here (user : Z) (h : webSocketHub) (r : webSocketPresenceRecord) : webSocketHub :=
  if elsewhere r then h else disconnectOne user (ConnectionID r) h.

Lemma disconnect_records_quiet user records h os db :
  Forall (sendable user) records →
  disconnect_records router records [] (RouterWorld h [] os (RedisWorld db [])) =
    (Ok [], RouterWorld (foldl (disconnect_here user) h records) [] os
      (RedisWorld (with_published ((λ r, (channel (InstanceID r), disconnect_text r)) <$> List.filter elsewhere records) db) [])).
Proof.
  revert h db. induction records as [|r records IH]; intros h db Hall.
  { cbn. unfold with_published. rewrite app_nil_r. by destruct db. }
  apply Forall_cons in Hall as [Hr Hall]. pose proof Hr as (Hu & Hv & _). cbn [disconnect_records foldl List.filter].
  unfold mbind at 1, proc_bind at 1, attempt at 1, DisconnectReplaced, disconnect_here at 2, elsewhere at 1 2. rewrite Hv. cbn [negb].
  case_bool_decide as Hhere; cbn [negb].
  - unfold on_hub at 1. cbn [hub_trips hub instance_orders remote]. rewrite Hu, DisconnectConnection_answered by done.
    cbn [app]. by apply IH.
  - rewrite (command_text_struct _ None) by done. unfold mbind at 1, proc_bind at 1, on_redis at 1. cbn [remote].
    rewrite round_trip_quiet. unfold PUBLISH at 1. cbn [hub_trips hub instance_orders remote app].
    unfold mret, proc_ret. cbn [app]. rewrite IH by done. do 3 f_equal. unfold with_published.
    cbn [entries clock subscriptions published fmap list_fmap]. by rewrite <-app_assoc.
Qed.

(** No client of the session is registered. *)
Definition session_gone (user session : Z) (h : webSocketHub) : Prop :=
  ∀ id ref c, registered user id h = Some ref → objects h !! ref = Some c → sessionID c ≠ session.

Lemma disconnectOne_keeps user session id h :
  hub_ok h → session_gone user session h →
  hub_ok (disconnectOne user id h) ∧ session_gone user session (disconnectOne user id h).
Proof.
  intros Hok Hg. unfold disconnectOne. destruct (registered user id h) as [ref|]; [|done].
  split; [by apply removeClient_ok|]. intros id' ref' c' Hr Hc.
  set (h' := removeClient _ _ _ _) in *.
  assert (registered user id' h = Some ref' ∧ ∃ c, objects h !! ref' = Some c) as [Hr0 [c Hc0]].
  { destruct (objects h !! ref') as [c|] eqn:Hc0.
    - destruct (removeClient_objects ref StatusPolicyViolation "connection replaced" h ref' c Hc0) as (? & _ & _ & _ & Hreg).
      split; [by apply Hreg|by eexists].
    - pose proof (removeClient_ok ref StatusPolicyViolation "connection replaced" h Hok) as Hok'.
      destruct (objects h' !! ref') eqn:E; [|done]. exfalso. revert E. unfold h', removeClient.
      destruct (objects h !! ref) as [c1|]; [|congruence]. destruct (clients h !! userID c1); [|congruence].
      case_bool_decide; [|congruence]. unfold shutdown, with_object. cbn [objects]. rewrite lookup_alter_Some.
      intros [(_ & ? & ? & _)|[_ ?]]; congruence. }
  destruct (removeClient_objects ref StatusPolicyViolation "connection replaced" h ref' c Hc0) as (c2 & Hc2 & (_ & Hs & _) & _).
  fold h' in Hc2. rewrite Hc in Hc2. injection Hc2 as <-. rewrite Hs. by eapply Hg.
Qed.

Lemma disconnect_here_keeps user session records h :
  hub_ok h → session_gone user session h → session_gone user session (foldl (disconnect_here user) h records).
Proof.
  revert h. induction records as [|r records IH]; intros h Hok Hg; [done|]. cbn [foldl]. unfold disconnect_here at 2.
  destruct (elsewhere r); [by apply IH|]. destruct (disconnectOne_keeps user session (ConnectionID r) h Hok Hg). by apply IH.
Qed.

(** Between two hubs one connection of a user went: it is not registered any more,
    its client is closed, and every other registration is as it was. *)
Definition connection_removed (user : Z) (id : string) (h h' : webSocketHub) : Prop :=
  (∀ user' id', registered user' id' h' = if decide (user' = user ∧ id' = id) then None else registered user' id' h) ∧
  (∀ ref, registered user id h = Some ref → closed ref h') ∧
  ∀ ref c, registered user id h ≠ Some ref → objects h !! ref = Some c → objects h' !! ref = Some c.

Lemma disconnectOne_removes user id h : hub_ok h → connection_removed user id h (disconnectOne user id h).
Proof.
  intros [[Hrg _] _ _]. unfold disconnectOne. destruct (registered user id h) as [ref|] eqn:E.
  - destruct (Hrg user id ref E) as (c & Hc & Hu & Hi). subst user id.
    destruct (removeClient_spec ref StatusPolicyViolation "connection replaced" h c Hc E) as [Hreg Hob]. split_and!.
    + exact Hreg.
    + rewrite E. intros ref' [= <-]. by eapply removeClient_closes.
    + intros ref' c' Hne Hc'. rewrite Hob. rewrite lookup_alter_ne; [done|]. congruence.
  - split_and!; [|by rewrite E|done]. intros user' id'. case_decide as Hd; [|done]. by destruct Hd as [-> ->].
Qed.

(** C21: disconnecting a session leaves no connection of it on this instance's hub,
    and for each live record of it that presence has for another instance, that
    instance is sent a command for the recorded connection; handling the command
    there unregisters and closes that connection and leaves every other one alone.
    A connection elsewhere that presence has no record of is sent nothing. *)
Theorem session_disconnected_everywhere user session w db :
  0 < user → 0 < session → hub_trips w = [] → remote w = RedisWorld db [] → hub_ok (hub w) →
  keys_typed presence db → Forall text_record (records_of presence db user) →
  ∃ w', DisconnectSession router user session w = (Ok tt, w') ∧ session_gone user session (hub w') ∧
    published (redis (remote w')) = published db ++ ((λ r, (channel (InstanceID r), disconnect_text r)) <$>
      List.filter elsewhere (List.filter (λ r, SessionID r =? session) (records_of presence db user))) ∧
    ∀ r x order h, r ∈ records_of presence db user → answers x order h → hub_ok h →
      ∃ h', handleCommand (disconnect_text r) x = (Ok tt, after_call x h') ∧
        connection_removed user (ConnectionID r) h h'.
Proof.
  intros Hu Hs Htr Hrem Hok Hty Htext. destruct (LookupUser_quiet router ttl_positive user db Hty Hu) as (db' & Hrun & Hp).
  assert (Forall (sendable user) (records_of presence db user)) as Hall.
  { rewrite Forall_forall in Htext |- *. intros r Hr. split; [|split]; [..|by apply Htext]; by apply recorded_owner in Hr as (? & ? & _). }
  assert (Forall (sendable user) (List.filter (λ r, SessionID r =? session) (records_of presence db user))) as Hsel.
  { rewrite Forall_forall in Hall |- *. intros r [Hr _]%list_elem_of_In%filter_In. by apply Hall, list_elem_of_In. }
  eexists. split_and!.
  - unfold DisconnectSession, disconnect_everywhere. unfold mbind at 1, proc_bind at 1, attempt at 1.
    unfold on_hub. rewrite Htr. unfold Hub.DisconnectSession, hub_call. unfold mbind at 1, proc_bind at 1, attempt, on_redis.
    cbn [remote hub hub_trips instance_orders]. rewrite Hrem, Hrun.
    rewrite (proc_bind_run _ _ _ _ _ (disconnect_records_quiet user _ _ _ _ Hsel)). reflexivity.
  - cbn [hub]. apply disconnect_here_keeps; [rewrite disconnect_sweeps; by apply sweep_hub_ok|].
    intros id ref c Hr Hc. pose proof (disconnected_gone in_order user session (hub w) id ref c Hok Hr Hc) as Hgone.
    unfold of_session in Hgone. lia.
  - cbn [remote redis with_published published]. by destruct (pr_server _ _ _ _ Hp) as (_ & _ & ->).
  - intros r x order h Hr Ha Hh. rewrite Forall_forall in Hall. eexists.
    split; [by apply (handle_disconnect user r x order h (Hall r Hr))|by apply disconnectOne_removes].
Qed.

(** ** Reconnecting *)

(** The backoff after [n] lost subscriptions. *)
Definition backoff_after (n : nat) : Z := Z.min (first_backoff * 2 ^ Z.of_nat n) max_backoff.

Fixpoint jitters_ok (n : nat) (rounds : list (subscription * Z * bool)) : Prop :=
  match rounds with
  | [] => True
  | (_, jitter, _) :: rest => 0 ≤ jitter ≤ backoff_after n / 2 ∧ jitters_ok (S n) rest
  end.

Lemma next_backoff_after n : next_backoff (backoff_after n) = backoff_after (S n).
Proof.
  unfold next_backoff, backoff_after. rewrite Nat2Z.inj_succ, Z.pow_succ_r by lia.
  assert (0 < 2 ^ Z.of_nat n) by (apply Z.pow_pos_nonneg; lia).
  unfold first_backoff, max_backoff, millisecond, second. destruct (_ <? _) eqn:E; lia.
Qed.

(** Whatever the subscriptions bring, the receiving loop itself never
    fails; before it subscribes again it waits at least half of the backoff and at
    most the backoff, which starts at 250 ms, doubles and stays at 10 s. *)
Theorem Run_backs_off rounds w :
  jitters_ok 0 rounds →
  ∃ delays w', Run rounds w = (Ok delays, w') ∧ (List.length delays ≤ List.length rounds)%nat ∧
    ∀ n delay, delays !! n = Some delay → backoff_after n / 2 ≤ delay ≤ backoff_after n.
Proof.
  assert (∀ k w, jitters_ok k rounds → ∃ delays w', run_from (backoff_after k) rounds w = (Ok delays, w') ∧
    (List.length delays ≤ List.length rounds)%nat ∧
    ∀ n delay, delays !! n = Some delay → backoff_after (k + n) / 2 ≤ delay ≤ backoff_after (k + n)) as Hall.
  { clear. induction rounds as [|[[s jitter] ended] rounds IH]; intros k w Hj; [by exists [], w|].
    destruct Hj as [Hj Hrest]. cbn [run_from]. unfold mbind at 1, proc_bind at 1, attempt.
    destruct (receive s w) as [res w1]. destruct (context_ended s); [by exists [], w1; split_and!; [|simpl; lia|]|].
    assert (backoff_after k / 2 ≤ reconnect_delay (backoff_after k) jitter ≤ backoff_after k) as Hd.
    { unfold reconnect_delay. revert Hj. generalize (backoff_after k). intros b Hj. div_lia. }
    destruct ended.
    { eexists _, w1. split_and!; [reflexivity|simpl; lia|]. intros [|n] delay Hn; [|done].
      injection Hn as <-. by rewrite Nat.add_0_r. }
    rewrite next_backoff_after. destruct (IH (S k) w1 Hrest) as (delays & w' & Hrun & Hlen & Hdel).
    eexists _, w'. split_and!; [by rewrite (proc_bind_run _ _ _ _ _ Hrun)|simpl; lia|].
    intros [|n] delay Hn; [injection Hn as <-; by rewrite Nat.add_0_r|]. rewrite Nat.add_succ_r. by apply Hdel. }
  intros Hj. by apply (Hall 0%nat).
Qed.
End promises.

(** * A run: user 7 has a connection here and, for another session, one on west-1 *)

Definition east_router : redisRealtimeRouter := RedisRealtimeRouter some_presence "east-1".

Definition east_hub : webSocketHub :=
  hub_run newWebSocketHub [ClientMade 0 (made 7 2 "a"); Registered 0; ClientMade 1 (made 7 3 "b"); Registered 1].

Lemma east_hub_ok : hub_ok east_hub.
Proof.
  apply hub_run_ok; [exact new_hub_ok|]. cbn [events_allowed event_allowed].
  repeat split; try (vm_compute; reflexivity); intros c Hc; vm_compute in Hc; injection Hc as <-; vm_compute; reflexivity.
Qed.

Definition east_world : router_world := RouterWorld east_hub [] [] (RedisWorld (redis moved) []).

Definition hi : json := JText "hi".
Lemma hi_value : payload_value hi.
Proof. split; [exact I|]. vm_compute. lia. Qed.

Lemma moved_records : records_of some_presence (redis moved) 7 = [second_connection].
Proof. vm_compute. reflexivity. Qed.

Lemma int64_7 : is_int64 7.
Proof. vm_compute. intuition discriminate. Qed.

Lemma publish_reaches_everywhere_witness :
  ∃ command w', Publish east_router 7 (marshal hi) east_world = (Ok 2, w') ∧
    published (redis (remote w')) = [("im:ws:instance:west-1"%string, command)] ∧
    handleCommand command east_world = (Ok tt, after_call east_world (deliver in_order 7 (marshal hi) east_hub).2).
Proof.
  destruct (publish_reaches_everywhere east_router eq_refl 7 hi east_world in_order east_hub (redis moved) hi_value eq_refl int64_7
    (proj1 moved_holds) (conj eq_refl eq_refl) eq_refl) as (ids & command & w' & Hrun & _ & Hpub & Hnd & Hids & Hcmd).
  assert (ids = ["west-1"%string]) as Hi.
  { apply Permutation_singleton_r, NoDup_Permutation; [exact Hnd|apply NoDup_singleton|]. intros id.
    rewrite Hids, list_elem_of_singleton. change (router_presence east_router) with some_presence. rewrite moved_records. split.
    - intros (_ & r & Hr & <-). apply list_elem_of_singleton in Hr as ->. reflexivity.
    - intros ->. split; [discriminate|]. exists second_connection. split; [apply list_elem_of_here|reflexivity]. }
  exists command, w'. rewrite Hi in Hrun, Hpub. split; [|split].
  - rewrite Hrun. vm_compute. reflexivity.
  - rewrite Hpub. vm_compute. reflexivity.
  - exact (Hcmd east_world in_order east_hub (conj eq_refl eq_refl)).
Defined.

Lemma batch_publishes_alike_witness :
  ∃ batch w1, PrepareDeliveryBatch east_router [7; 8] east_world = (Ok (Some batch), w1) ∧
    (batch 7 (marshal hi) w1).1 = (Publish east_router 7 (marshal hi) east_world).1.
Proof.
  destruct (batch_publishes_alike east_router eq_refl [7; 8] 7 hi east_world in_order east_hub (redis moved) hi_value eq_refl)
    as (batch & w1 & Hrun & _ & Hsame);
    [repeat constructor|exact (proj1 moved_holds)|exact (conj eq_refl eq_refl)|reflexivity|].
  exists batch, w1. split; [exact Hrun|].
  destruct (batch 7 (marshal hi) w1) as [rb wb], (Publish east_router 7 (marshal hi) east_world) as [rp wp].
  destruct Hsame as [_ [Hr _]]. exact Hr.
Defined.

Lemma session_disconnected_everywhere_witness :
  ∃ w', DisconnectSession east_router 7 3 east_world = (Ok tt, w') ∧ session_gone 7 3 (hub w') ∧
    (fst <$> published (redis (remote w'))) = ["im:ws:instance:west-1"%string].
Proof.
  destruct (session_disconnected_everywhere east_router eq_refl 7 3 east_world (redis moved) eq_refl eq_refl eq_refl eq_refl
    east_hub_ok (proj1 moved_holds)) as (w' & Hrun & Hgone & Hpub & _).
  { change (router_presence east_router) with some_presence. rewrite moved_records. apply Forall_singleton.
    vm_compute. intuition discriminate. }
  exists w'. split; [exact Hrun|]. split; [exact Hgone|]. rewrite Hpub. vm_compute. reflexivity.
Defined.

(** Two subscriptions are lost; the third lasts until the context ends. *)
Lemma Run_backs_off_witness :
  let lost := Subscription true [[0]] false in
  let rounds := [(lost, 0, false); (lost, 100 * millisecond, false); (Subscription true [] true, 0, false)] in
  jitters_ok 0 rounds ∧ ∃ delays w', Run rounds east_world = (Ok delays, w') ∧ delays = [125 * millisecond; 350 * millisecond].
Proof.
  intros lost rounds. assert (jitters_ok 0 rounds) as Hj by (vm_compute; intuition discriminate). split; [exact Hj|].
  destruct (Run_backs_off rounds east_world Hj) as (delays & w' & Hrun & _). exists delays, w'. split; [exact Hrun|].
  assert ((Run rounds east_world).1 = Ok [125 * millisecond; 350 * millisecond]) as Hd by (vm_compute; reflexivity).
  rewrite Hrun in Hd. by injection Hd.
Defined.
