(* ===== verification/OutboxRows.v ===== *)
(** What the worker's statements do to the outbox table: the life cycle of an
    event as a step relation, and the simulation of every statement by it. *)
From S2P Require Import Prelude GoStd Tables Driver Json Schema Changes MessageStore Outbox.
Open Scope Z_scope.

(** * The life cycle of an event *)

Inductive event_step : outbox_row → outbox_row → Prop :=
| step_claim env leaseMs i e e' :
    terminal e = false → event_next_attempt_at e ≤ current_timestamp env →
    lease_over (current_timestamp env) e = true →
    claimed_row env leaseMs i e = Ok e' → event_step e e'
| step_publish env token e :
    held_under (event_id e) token e = true → event_step e (published_row env e)
| step_die env token text e :
    held_under (event_id e) token e = true → event_step e (dead_row text env e)
| step_retry env token delayMs text e :
    held_under (event_id e) token e = true → event_step e (retry_row delayMs text env e).

Definition event_reaches : outbox_row → outbox_row → Prop := rtc event_step.

Lemma held_under_live id token e :
  held_under id token e = true ↔
  event_id e = id ∧ event_lock_token e = Some token ∧ terminal e = false.
Proof. unfold held_under. rewrite !andb_true_iff, !bool_decide_eq_true, negb_true_iff. tauto. Qed.

Lemma claimed_row_inv env leaseMs i e e' :
  claimed_row env leaseMs i e = Ok e' →
  event_attempt_count e < 2 ^ 31 - 1 ∧
  e' = OutboxRow (event_id e) (event_type e) (event_payload_version e) (event_message_id e) (event_payload e)
    (event_attempt_count e + 1) (event_next_attempt_at e) (Some (after_milliseconds env leaseMs))
    (Some (generated_uuid env i)) (event_ready_at e) (event_published_at e) (event_dead_at e)
    (event_last_error e) (event_created_at e).
Proof.
  unfold claimed_row, next_attempt_count. destruct (_ <? _) eqn:E; [|done].
  rewrite ok_bind. intros [= <-]. split; [lia|done].
Qed.

(** An event's identity, payload and age never change; attempts are counted. *)
Lemma event_step_same e e' :
  event_step e e' →
  same_event e e' ∧ event_created_at e' = event_created_at e ∧ event_ready_at e' = event_ready_at e ∧
  event_attempt_count e ≤ event_attempt_count e' ∧ terminal e = false.
Proof.
  intros Hs. destruct Hs as [env ms i e e' Ht _ _ Hc|env tok e Hh|env tok tx e Hh|env tok ms tx e Hh];
    [apply claimed_row_inv in Hc as [_ ->]|apply held_under_live in Hh as (_ & _ & Ht)..];
    split_and!; try done; simpl; lia.
Qed.

Lemma same_event_refl e : same_event e e.
Proof. by split_and!. Qed.

Lemma same_event_trans e1 e2 e3 : same_event e1 e2 → same_event e2 e3 → same_event e1 e3.
Proof. intros (? & ? & ? & ?) (? & ? & ? & ?). split_and!; congruence. Qed.

Lemma event_reaches_same e e' :
  event_reaches e e' → same_event e e' ∧ event_attempt_count e ≤ event_attempt_count e'.
Proof.
  induction 1 as [e|e1 e2 e3 Hs _ [IH1 IH2]]; [split; [apply same_event_refl|done]|].
  apply event_step_same in Hs as (? & _ & _ & ? & _). split; [by eapply same_event_trans|lia].
Qed.

(** A finished event takes no step. *)
Lemma event_reaches_terminal e e' : terminal e = true → event_reaches e e' → e' = e.
Proof.
  intros Ht Hr. destruct Hr as [|e1 e2 e3 Hs _]; [done|].
  apply event_step_same in Hs as (_ & _ & _ & _ & Hf). congruence.
Qed.

Definition is_published (e : outbox_row) : Prop := event_published_at e ≠ None.

(** How the outbox table evolves: an event takes steps, or is deleted once it has
    been published; new ones come. *)
Definition lifecycle (d d' : database) : Prop :=
  ∀ e, e ∈ outbox d → ∃ e', event_reaches e e' ∧ (e' ∈ outbox d' ∨ is_published e').

#[global] Instance lifecycle_preorder : PreOrder lifecycle.
Proof.
  split.
  - intros d e He. exists e. split; [apply rtc_refl|by left].
  - intros d1 d2 d3 H1 H2 e He. destruct (H1 e He) as (e' & Hr & [He'|Hp]); [|by eauto].
    destruct (H2 e' He') as (e'' & Hr' & Hor). exists e''. split; [by etrans|done].
Qed.

(** * Rewriting rows *)

(** The row an UPDATE leaves: the last of its new rows for that event. *)
Definition replaced (es : list outbox_row) (x : outbox_row) : outbox_row :=
  foldl (λ x e, if bool_decide (event_id x = event_id e) then e else x) x es.

Lemma replaced_other es x : (∀ e, e ∈ es → event_id e ≠ event_id x) → replaced es x = x.
Proof.
  induction es as [|e es IH]; intros H; [done|]. simpl.
  rewrite bool_decide_eq_false_2 by (intros Heq; by apply (H e); [left|]).
  apply IH. intros y Hy. apply H. by right.
Qed.

Lemma replaced_in es x e :
  NoDup (event_id <$> es) → e ∈ es → event_id e = event_id x → replaced es x = e.
Proof.
  revert x. induction es as [|y es IH]; intros x Hnd He Hid; [by apply elem_of_nil in He|].
  rewrite fmap_cons in Hnd. apply NoDup_cons in Hnd as [Hy Hnd]. simpl.
  apply elem_of_cons in He as [->|He].
  - rewrite bool_decide_eq_true_2 by done. apply replaced_other.
    intros z Hz Heq. apply Hy. rewrite <-Heq. by apply list_elem_of_fmap_2.
  - rewrite bool_decide_eq_false_2; [by apply IH|].
    intros Heq. apply Hy. rewrite <-Heq, <-Hid. by apply list_elem_of_fmap_2.
Qed.

(** Row changes that only rewrite events. *)
Definition put_events (es : list outbox_row) : list change := PutEvent <$> es.

Lemma put_events_frame es d :
  users (apply_changes (put_events es) d) = users d ∧
  conversations (apply_changes (put_events es) d) = conversations d ∧
  members (apply_changes (put_events es) d) = members d ∧
  messages (apply_changes (put_events es) d) = messages d ∧
  sync_states (apply_changes (put_events es) d) = sync_states d ∧
  outbox (apply_changes (put_events es) d) = replaced es <$> outbox d.
Proof.
  revert d. induction es as [|e es IH]; intros d; [simpl; by rewrite list_fmap_id|].
  change (apply_changes (put_events (e :: es)) d) with (apply_changes (put_events es) (apply_change (PutEvent e) d)).
  destruct (IH (apply_change (PutEvent e) d)) as (-> & -> & -> & -> & -> & ->).
  split_and!; try done. simpl. unfold sql_update. rewrite <-list_fmap_compose. done.
Qed.

Section steps.
Context `{TimeText}.

(** New rows that stand for old ones of the table and pass the checks. *)
Definition rewrites (d : database) (es : list outbox_row) : Prop :=
  NoDup (event_id <$> es) ∧
  ∀ e, e ∈ es → check_event_ok e ∧ ∃ e0, e0 ∈ outbox d ∧ event_step e0 e.

Lemma put_events_schema es d : schema_ok d → rewrites d es → schema_ok (apply_changes (put_events es) d).
Proof.
  revert d. induction es as [|e es IH]; intros d Hok [Hnd Hes]; [done|].
  change (apply_changes (put_events (e :: es)) d)
    with (apply_changes (put_events es) (apply_change (PutEvent e) d)).
  rewrite fmap_cons in Hnd. apply NoDup_cons in Hnd as [Hne Hnd].
  destruct (Hes e ltac:(by left)) as (Hc & e0 & He0 & Hs).
  pose proof (proj1 (event_step_same _ _ Hs)) as Hsame.
  apply IH; [by eapply put_event_ok|]. split; [done|]. intros e1 He1.
  destruct (Hes e1 ltac:(by right)) as (Hc1 & e01 & He01 & Hs1). split; [done|].
  exists e01. split; [|done]. simpl. apply elem_of_update. exists e01. split; [done|].
  rewrite bool_decide_eq_false_2; [done|]. intros Heq. apply Hne. rewrite <-Heq.
  destruct (proj1 (event_step_same _ _ Hs1)) as (<- & _). by apply list_elem_of_fmap_2.
Qed.

Lemma put_events_committed es d :
  committed_ok d → rewrites d es →
  committed_ok (apply_changes (put_events es) d) ∧ evolves [] d (apply_changes (put_events es) d).
Proof.
  intros [Hok Hall] Hes. pose proof (put_events_frame es d) as (Hu & Hc & Hm & Hg & Hs & _).
  split; [split; [by apply put_events_schema|]|].
  - intros c. rewrite Hc. intros Hin. eapply (conversation_ok_more d); [by rewrite Hm|by rewrite Hg|auto].
  - apply evolves_intro; rewrite ?Hu, ?Hc, ?Hm, ?Hg, ?Hs; try done.
    + intros c Hin. exists c. split; [done|apply conversation_evolves_refl].
    + intros s Hin. by exists s.
Qed.

Lemma put_events_lifecycle es d : schema_ok d → rewrites d es → lifecycle d (apply_changes (put_events es) d).
Proof.
  intros Hok [Hnd Hes] x Hx. pose proof (put_events_frame es d) as (_ & _ & _ & _ & _ & Ho).
  exists (replaced es x). rewrite Ho. split; [|left; by apply list_elem_of_fmap_2].
  destruct (decide (event_id x ∈ event_id <$> es)) as [(e & Hid & He)%list_elem_of_fmap|Hn].
  - rewrite (replaced_in es x e) by done. destruct (Hes e He) as (_ & e0 & He0 & Hs).
    replace x with e0; [by apply rtc_once|]. eapply unique_key_inj; [apply Hok|done|done|].
    destruct (proj1 (event_step_same _ _ Hs)) as (<- & _). done.
  - rewrite replaced_other; [apply rtc_refl|]. intros e He Hid. apply Hn. rewrite <-Hid.
    by apply list_elem_of_fmap_2.
Qed.

(** Row changes that only delete published events. *)
Definition delete_events (ids : list string) : list change := DeleteEvent <$> ids.

Lemma delete_events_frame ids d :
  users (apply_changes (delete_events ids) d) = users d ∧
  conversations (apply_changes (delete_events ids) d) = conversations d ∧
  members (apply_changes (delete_events ids) d) = members d ∧
  messages (apply_changes (delete_events ids) d) = messages d ∧
  sync_states (apply_changes (delete_events ids) d) = sync_states d ∧
  ∀ e, e ∈ outbox (apply_changes (delete_events ids) d) ↔ e ∈ outbox d ∧ event_id e ∉ ids.
Proof.
  revert d. induction ids as [|id ids IH]; intros d; [set_solver|].
  change (apply_changes (delete_events (id :: ids)) d)
    with (apply_changes (delete_events ids) (apply_change (DeleteEvent id) d)).
  destruct (IH (apply_change (DeleteEvent id) d)) as (-> & -> & -> & -> & -> & Ho).
  split_and!; try done. intros e. rewrite Ho. simpl. rewrite elem_of_delete, bool_decide_eq_false.
  set_solver.
Qed.

Lemma delete_events_schema ids d : schema_ok d → schema_ok (apply_changes (delete_events ids) d).
Proof.
  revert d. induction ids as [|id ids IH]; intros d Hok; [done|].
  change (apply_changes (delete_events (id :: ids)) d)
    with (apply_changes (delete_events ids) (apply_change (DeleteEvent id) d)).
  by apply IH, delete_event_ok.
Qed.

(** * The statements *)

Lemma claim_rows_inv env ms i rows evs us :
  claim_rows env ms i rows = Ok (evs, us) →
  ∃ es, us = put_events es ∧ evs = returned_event <$> es ∧
    Forall2 (λ e e', check_event_ok e' ∧ ∃ k, claimed_row env ms k e = Ok e') rows es ∧
    ∀ k e', es !! k = Some e' → event_lock_token e' = Some (generated_uuid env (i + k)).
Proof.
  revert i evs us. induction rows as [|e rows IH]; intros i evs us Hrun; simpl in Hrun.
  { injection Hrun as <- <-. by exists []. }
  apply result_bind_ok in Hrun as (e' & Hc & Hrun). apply result_bind_ok in Hrun as (u & Hu & Hrun).
  apply result_bind_ok in Hrun as ([evs' us'] & Hr & [= <- <-]).
  apply IH in Hr as (es & -> & -> & Hall & Htok).
  unfold update_event in Hu. apply result_bind_ok in Hu as ([] & Hck & [= <-]).
  exists (e' :: es). split_and!; [done|done|constructor; eauto|].
  intros [|k] x Hx; simpl in Hx.
  - injection Hx as <-. apply claimed_row_inv in Hc as [_ ->]. simpl. by rewrite Nat.add_0_r.
  - rewrite (Htok _ _ Hx). f_equal. f_equal. lia.
Qed.

Lemma candidates_in types limit env d e :
  e ∈ claim_candidates types limit env d →
  e ∈ outbox d ∧ claimable types (current_timestamp env) e = true ∧ row_held env (event_id e) = false.
Proof.
  unfold claim_candidates, sql_limit. intros He.
  assert (e ∈ List.filter (λ e, negb (row_held env (event_id e)))
    (merge_sort claim_order (sql_where (claimable types (current_timestamp env)) (outbox d)))) as Hin.
  { erewrite <-take_drop. apply elem_of_app. by left. }
  apply list_elem_of_In, filter_In in Hin as [Hin Hh]. apply list_elem_of_In in Hin.
  rewrite merge_sort_Permutation, elem_of_where in Hin. rewrite negb_true_iff in Hh. tauto.
Qed.

Lemma candidates_nodup types limit env d :
  schema_ok d → NoDup (event_id <$> claim_candidates types limit env d).
Proof.
  intros Hok. unfold claim_candidates, sql_limit.
  apply (unique_key_sublist event_id _ _ (sublist_take _ _)).
  apply (unique_key_sublist event_id _ _ (where_sublist _ _)).
  unfold unique_key. rewrite merge_sort_Permutation.
  apply (unique_key_sublist event_id _ _ (where_sublist _ _)). apply Hok.
Qed.

Lemma claimable_step types env ms k e e' :
  claimable types (current_timestamp env) e = true → claimed_row env ms k e = Ok e' → event_step e e'.
Proof.
  unfold claimable. rewrite !andb_true_iff, negb_true_iff, Z.leb_le. intros (((? & _) & ?) & ?) Hc.
  by eapply step_claim.
Qed.

Lemma same_ids (P : outbox_row → outbox_row → Prop) rows es :
  (∀ e e', P e e' → event_id e' = event_id e) → Forall2 P rows es → event_id <$> es = event_id <$> rows.
Proof. intros HP. induction 1; [done|]. rewrite !fmap_cons. f_equal; auto. Qed.

Lemma claim_statement_inv limit ms types env d evs us :
  schema_ok d → claim_statement limit ms types env d = Ok (evs, us) →
  ∃ es, us = put_events es ∧ evs = returned_event <$> es ∧ rewrites d es ∧
    Forall2 (λ e e', check_event_ok e' ∧ ∃ k, claimed_row env ms k e = Ok e')
      (claim_candidates types limit env d) es ∧
    ∀ k e', es !! k = Some e' → event_lock_token e' = Some (generated_uuid env k).
Proof.
  intros Hok Hrun. unfold claim_statement, with_text in Hrun. destruct (forallb _ _); [|done].
  apply claim_rows_inv in Hrun as (es & -> & -> & Hall & Htok). exists es.
  split_and!; try done. split.
  - erewrite same_ids; [by apply candidates_nodup| |exact Hall].
    intros e e' (_ & k & Hc). by apply claimed_row_inv in Hc as [_ ->].
  - intros e' He'. apply list_elem_of_lookup in He' as (k & Hk).
    destruct (Forall2_lookup_r _ _ _ _ _ Hall Hk) as (e & He & Hck & j & Hc). split; [done|].
    apply list_elem_of_lookup_2, candidates_in in He as (Hin & Hcl & _).
    exists e. split; [done|]. by eapply claimable_step.
Qed.

Lemma mapM_update_inv (f : outbox_row → outbox_row) rows us :
  mapM (λ e, update_event (f e)) rows = Ok us →
  us = put_events (f <$> rows) ∧ Forall (λ e, check_event_ok (f e)) rows.
Proof.
  revert us. induction rows as [|e rows IH]; intros us Hrun; simpl in Hrun; [injection Hrun as <-; by split|].
  apply result_bind_ok in Hrun as (u & Hu & Hrun). apply result_bind_ok in Hrun as (us' & Hr & [= <-]).
  unfold update_event in Hu. apply result_bind_ok in Hu as ([] & Hck & [= <-]).
  destruct (IH _ Hr) as [-> ?]. split; [done|by constructor].
Qed.

(** A mark: exactly the rows where [p], and each takes a step. *)
Lemma mark_statement_inv p f env d n us :
  mark_statement p f env d = Ok (n, us) →
  us = put_events (f env <$> sql_where p (outbox d)) ∧ n = rows_affected p (outbox d) ∧
  Forall (λ e, check_event_ok (f env e)) (sql_where p (outbox d)).
Proof.
  unfold mark_statement. intros Hrun. apply result_bind_ok in Hrun as (us' & Hm & [= <- <-]).
  apply mapM_update_inv in Hm as [-> ?]. done.
Qed.

Lemma mark_rewrites p (f : stmt_env → outbox_row → outbox_row) env d :
  (∀ e, p e = true → event_step e (f env e)) → schema_ok d →
  Forall (λ e, check_event_ok (f env e)) (sql_where p (outbox d)) →
  rewrites d (f env <$> sql_where p (outbox d)).
Proof.
  intros Hp Hok Hck. rewrite Forall_forall in Hck. split.
  - rewrite <-list_fmap_compose.
    rewrite (list_fmap_ext _ event_id (sql_where p (outbox d))).
    + apply (unique_key_sublist event_id _ _ (where_sublist _ _)). apply Hok.
    + intros i e He%list_elem_of_lookup_2%elem_of_where. simpl.
      by destruct (proj1 (event_step_same _ _ (Hp e (proj2 He)))) as (-> & _).
  - intros e' (e & -> & He)%list_elem_of_fmap. split; [by apply Hck|].
    apply elem_of_where in He as [He Hpe]. eauto.
Qed.
End steps.

(** * The claim order *)
Section claim_order.
Context (k1 k2 : outbox_row → Z).

#[global] Instance event_before_total : Total (event_before k1 k2).
Proof.
  intros x y. unfold event_before.
  destruct (Z.lt_trichotomy (k1 x) (k1 y)) as [?|[?|?]]; [auto| |auto].
  destruct (Z.lt_trichotomy (k2 x) (k2 y)) as [?|[?|?]]; [auto| |right; auto].
  destruct (total String.le (event_id x) (event_id y)); [left|right]; auto 8 using eq_sym.
Qed.

#[global] Instance event_before_trans : Transitive (event_before k1 k2).
Proof.
  intros x y z [H1|[E1 [H1|[F1 H1]]]] [H2|[E2 [H2|[F2 H2]]]]; unfold event_before;
    try (left; lia); right; (split; [lia|]); try (left; lia).
  right. split; [lia|]. by etrans.
Qed.
End claim_order.

#[global] Instance claim_order_total : Total claim_order := event_before_total _ _.
#[global] Instance claim_order_trans : Transitive claim_order := event_before_trans _ _.
#[global] Instance published_order_total : Total published_order := event_before_total _ _.
#[global] Instance published_order_trans : Transitive published_order := event_before_trans _ _.

Lemma sorted_split {A} (R : A → A → Prop) (l : list A) n x :
  StronglySorted R l → x ∈ drop n l → Forall (λ y, R y x) (take n l).
Proof.
  revert n. induction l as [|y l IH]; intros n Hs Hx; [by rewrite drop_nil in Hx; apply elem_of_nil in Hx|].
  destruct n as [|n]; [constructor|]. simpl in *. apply StronglySorted_inv in Hs as [Hs Hall].
  constructor; [|auto]. rewrite Forall_forall in Hall. apply Hall.
  rewrite <-(take_drop n l), elem_of_app. by right.
Qed.

Lemma sorted_filter {A} (R : A → A → Prop) p (l : list A) :
  StronglySorted R l → StronglySorted R (List.filter p l).
Proof.
  induction 1 as [|x l _ IH Hall]; simpl; [constructor|]. destruct (p x); [|done].
  constructor; [done|]. rewrite Forall_forall in Hall |- *.
  intros y Hy. apply Hall. apply list_elem_of_In, filter_In in Hy as [Hy _]. by apply list_elem_of_In.
Qed.

(** The first rows of an order: whoever is left out comes after everyone taken,
    and only when the limit is reached. *)
Lemma first_come {A} (R : A → A → Prop) `{!Total R, !Transitive R} (l : list A) n x :
  StronglySorted R l → x ∈ l →
  x ∈ take n l ∨ List.length (take n l) = n ∧ Forall (λ y, R y x) (take n l).
Proof.
  intros Hs Hx. rewrite <-(take_drop n l), elem_of_app in Hx. destruct Hx as [?|Hx]; [by left|right].
  split; [|by apply sorted_split]. rewrite length_take.
  assert (n < List.length l)%nat; [|lia].
  apply list_elem_of_lookup in Hx as (i & Hi). rewrite lookup_drop in Hi. apply lookup_lt_Some in Hi. lia.
Qed.

Lemma claim_first_come types limit env d e :
  e ∈ outbox d → claimable types (current_timestamp env) e = true → row_held env (event_id e) = false →
  e ∈ claim_candidates types limit env d ∨
  List.length (claim_candidates types limit env d) = Z.to_nat limit ∧
    Forall (λ x, claim_order x e) (claim_candidates types limit env d).
Proof.
  intros He Hc Hh. apply first_come; try apply _.
  - apply sorted_filter. apply StronglySorted_merge_sort; apply _.
  - apply list_elem_of_In, filter_In. rewrite Hh. split; [|done]. apply list_elem_of_In.
    by rewrite merge_sort_Permutation, elem_of_where.
Qed.

(** * The worker's calls among other connections *)

(** Other connections evolve the tables, and their workers follow the life cycle. *)
Definition outbox_evolves (us : list change) (d d' : database) : Prop := evolves us d d' ∧ lifecycle d d'.

#[global] Instance outbox_evolves_preorder us : PreOrder (outbox_evolves us).
Proof.
  split.
  - intros d. by split.
  - intros d1 d2 d3 [? ?] [? ?]. split; by etrans.
Qed.

Abbreviation outbox_world_ok := (world_ok committed_ok schema_ok outbox_evolves).
Abbreviation outbox_drift := (drift outbox_evolves).

Section calls.
Context `{TimeText}.

(** A worker between two calls. *)
Record worker_ok (w : db_world) : Prop := WorkerOk {
  wk_world : outbox_world_ok w;
  wk_tx : w_tx w = []
}.

Definition advances (w w' : db_world) : Prop := worker_ok w' ∧ outbox_evolves [] (w_db w) (w_db w').

Lemma advances_refl w : worker_ok w → advances w w.
Proof. by split. Qed.

Lemma advances_trans w1 w2 w3 : advances w1 w2 → advances w2 w3 → advances w1 w3.
Proof. intros [_ ?] [? ?]. split; [done|by etrans]. Qed.

(** A statement that keeps the tables in order and moves events along. *)
Definition orderly {A} (st : db_statement A) : Prop := ∀ env d a us,
  committed_ok d → st env d = Ok (a, us) →
  committed_ok (apply_changes us d) ∧ outbox_evolves [] d (apply_changes us d).

Lemma exec_spec {A} (st : db_statement A) w r w' :
  orderly st → worker_ok w → exec st w = (r, w') →
  advances w w' ∧ ∃ d1, committed_ok d1 ∧ outbox_evolves [] (w_db w) d1 ∧
    (w_db w' = d1 ∧ (r = Err (OutboxDatabaseError ConnError) ∨
                     ∃ env x, st env d1 = Err x ∧ r = Err (OutboxDatabaseError x)) ∨
     ∃ env a us, st env d1 = Ok (a, us) ∧ w_db w' = apply_changes us d1 ∧
       (r = Ok a ∨ r = Err (OutboxDatabaseError ConnError))).
Proof.
  intros Hst [Hw Htx] Hrun. apply run_error_inv in Hrun as (r0 & Hrun & ->).
  apply auto_statement_spec with (C := committed_ok) (V := schema_ok) (ext := outbox_evolves) in Hrun;
    try done; try apply _; try apply committed_schema; cycle 1.
  { intros w1 env a us Hw1 _ Hq. by apply (Hst _ _ _ _ (ok_db _ _ _ _ Hw1) Hq). }
  destruct Hrun as (Hw' & Htx' & w1 & Hw1 & Hd & Hcase).
  pose proof (drift_db _ _ _ Hd) as Hd1. rewrite Htx in Hd1. pose proof (ok_db _ _ _ _ Hw1) as Hc1.
  destruct Hcase as [[-> Hcase]|(env & a & us & Hq & Hdb & Hr)].
  - split; [split; [by split|done]|]. exists (w_db w1). split_and!; [done|done|]. left. split; [done|].
    destruct Hcase as [->|(env & x & ? & ->)]; [by left|right; eauto].
  - split; [split; [by split|]|].
    + etrans; [exact Hd1|]. rewrite Hdb. by eapply Hst.
    + exists (w_db w1). split_and!; [done|done|]. right. exists env, a, us.
      split_and!; [done|done|]. destruct Hr as [->| ->]; auto.
Qed.

Lemma with_text_orderly {A} texts (st : db_statement A) : orderly st → orderly (with_text texts st).
Proof. intros Hst env d a us Hd Hrun. unfold with_text in Hrun. destruct (forallb _ _); [eauto|done]. Qed.

Lemma claim_orderly limit ms types : orderly (claim_statement limit ms types).
Proof.
  intros env d a us Hd Hrun. pose proof (committed_schema _ Hd) as Hok.
  apply claim_statement_inv in Hrun as (es & -> & _ & Hrw & _); [|done].
  destruct (put_events_committed es d Hd Hrw). split; [done|]. split; [done|].
  by apply put_events_lifecycle.
Qed.

Lemma mark_orderly p (f : stmt_env → outbox_row → outbox_row) :
  (∀ env e, p e = true → event_step e (f env e)) → orderly (mark_statement p f).
Proof.
  intros Hp env d a us Hd Hrun. pose proof (committed_schema _ Hd) as Hok.
  apply mark_statement_inv in Hrun as (-> & _ & Hck).
  apply mark_rewrites in Hck; [|by auto|done]. destruct (put_events_committed _ d Hd Hck).
  split; [done|]. split; [done|]. by apply put_events_lifecycle.
Qed.

Lemma held_under_self id token e : held_under id token e = true → held_under (event_id e) token e = true.
Proof. rewrite !held_under_live. tauto. Qed.

Lemma mark_published_orderly id token : orderly (mark_published_statement id token).
Proof. apply mark_orderly. intros env e Hh. eapply step_publish, held_under_self, Hh. Qed.

Lemma mark_batch_orderly claimed : orderly (mark_batch_statement claimed).
Proof.
  apply mark_orderly. intros env e Hh. apply existsb_exists in Hh as (c & _ & Hh).
  eapply step_publish, held_under_self, Hh.
Qed.

Lemma mark_dead_orderly id token text : orderly (mark_dead_statement id token text).
Proof. apply with_text_orderly, mark_orderly. intros env e Hh. eapply step_die, held_under_self, Hh. Qed.

Lemma mark_retry_orderly id token ms text : orderly (mark_retry_statement id token ms text).
Proof. apply with_text_orderly, mark_orderly. intros env e Hh. eapply step_retry, held_under_self, Hh. Qed.

Lemma doomed_in olderThan n d e :
  e ∈ doomed olderThan n d → e ∈ outbox d ∧ ∃ t, event_published_at e = Some t ∧ t < olderThan.
Proof.
  unfold doomed, sql_limit. intros He.
  assert (e ∈ merge_sort published_order (sql_where (published_before olderThan) (outbox d))) as Hin.
  { erewrite <-take_drop. apply elem_of_app. by left. }
  rewrite merge_sort_Permutation, elem_of_where in Hin. destruct Hin as [? Hp]. split; [done|].
  unfold published_before in Hp. destruct (event_published_at e) as [t|]; [|done].
  exists t. split; [done|lia].
Qed.

Lemma cleanup_orderly olderThan n : orderly (cleanup_statement olderThan n).
Proof.
  intros env d a us Hd Hrun. unfold cleanup_statement in Hrun. injection Hrun as <- <-.
  pose proof (committed_schema _ Hd) as Hok.
  assert (((λ e, DeleteEvent (event_id e)) <$> doomed olderThan n d) =
    delete_events (event_id <$> doomed olderThan n d)) as ->
    by (unfold delete_events; by rewrite <-list_fmap_compose).
  set (ids := event_id <$> doomed olderThan n d).
  destruct (delete_events_frame ids d) as (Hu & Hc & Hm & Hg & Hs & Ho).
  pose proof (delete_events_schema ids d Hok) as Hok'. split.
  - split; [done|]. intros c. rewrite Hc. intros Hin.
    eapply (conversation_ok_more d); [by rewrite Hm|by rewrite Hg|by apply Hd].
  - split.
    + apply evolves_intro; rewrite ?Hu, ?Hc, ?Hm, ?Hg, ?Hs; try done.
      * intros c Hin. exists c. split; [done|apply conversation_evolves_refl].
      * intros s Hin. by exists s.
    + intros e He. exists e. split; [apply rtc_refl|].
      destruct (decide (event_id e ∈ ids)) as [(x & Hid & Hx)%list_elem_of_fmap|Hn].
      * right. apply doomed_in in Hx as (Hxo & t & Ht & _).
        assert (e = x) as -> by (eapply unique_key_inj; [apply Hok|done..]). unfold is_published. congruence.
      * left. by apply Ho.
Qed.
End calls.
