(* ===== verification/Delivery.v ===== *)
(** What the outbox worker promises: properties of the model in [Outbox], each with
    a concrete instance. *)
From Stdlib Require Import Ascii String.
From S2P Require Import Prelude GoStd Tables Driver Json Schema Changes MessageStore Outbox OutboxRows Sending.
Open Scope Z_scope.

(** * Arithmetic *)

(** What [newOutboxWorker] demands. *)
Record config_ok (cfg : outboxWorkerConfig) : Prop := ConfigOk {
  cfg_types : EventTypes cfg ≠ [];
  cfg_batch : 0 < BatchSize cfg ∧ 0 < Concurrency cfg ∧ 0 < MaxAttempts cfg;
  cfg_lease : 0 < AttemptTimeout cfg < LeaseDuration cfg;
  cfg_poll : 0 < PollInterval cfg;
  cfg_backoff : 0 < BaseBackoff cfg ≤ MaxBackoff cfg
}.

Lemma newOutboxWorker_checks Int64N db pub cfg worker :
  newOutboxWorker Int64N db pub cfg = Ok worker →
  db = true ∧ pub = true ∧ config_ok cfg ∧
  worker = OutboxWorker cfg (default (equalJitter Int64N) (jitter cfg)).
Proof.
  unfold newOutboxWorker. intros H.
  repeat match type of H with
  | (if ?b then _ else _) = _ => let E := fresh "E" in destruct b eqn:E; [discriminate H|]
  end. injection H as <-. bool_arith. apply bool_decide_eq_false in E0.
  destruct db, pub; try done. split_and!; try done. constructor; [done|..]; lia.
Qed.

(** [newOutboxWorker] accepts exactly the configurations whose
    sizes and durations are positive, whose attempt timeout is shorter than the lease
    and whose base backoff is at most the maximum, given a database and a publisher;
    a missing jitter becomes [equalJitter]. *)
Theorem newOutboxWorker_accepts Int64N db pub cfg :
  (∃ worker, newOutboxWorker Int64N db pub cfg = Ok worker ∧ config worker = cfg ∧
     worker_jitter worker = default (equalJitter Int64N) (jitter cfg)) ↔
  db = true ∧ pub = true ∧ config_ok cfg.
Proof.
  split.
  - intros (worker & H & _). by apply newOutboxWorker_checks in H as (? & ? & ? & _).
  - intros (-> & -> & [Ht (? & ? & ?) ? ? ?]). unfold newOutboxWorker. cbn [negb orb].
    rewrite bool_decide_eq_false_2 by done.
    repeat match goal with |- context [if ?b then _ else _] => replace b with false by lia end.
    eexists. done.
Qed.

(** The delay before the [attempt]th attempt doubles from the base up to the maximum. *)
Lemma backoff_loop_spec fuel attempt maxBackoff current delay :
  0 < delay ≤ maxBackoff → is_int64 maxBackoff → 1 ≤ current → attempt - current ≤ Z.of_nat fuel →
  backoff_loop fuel attempt maxBackoff current delay =
    (delay * 2 ^ Z.max 0 (attempt - current)) `min` maxBackoff.
Proof.
  revert current delay. induction fuel as [|fuel IH]; intros current delay Hd Hm Hc Hf; cbn [backoff_loop].
  { rewrite Z.max_l by lia. lia. }
  destruct ((current <? attempt) && (delay <? maxBackoff)) eqn:E.
  - bool_arith. apply Z.ltb_lt in H, H0.
    assert (2 ^ Z.max 0 (attempt - current) = 2 * 2 ^ Z.max 0 (attempt - (current + 1))) as Hp.
    { rewrite !Z.max_r by lia. rewrite <-Z.pow_succ_r by lia. f_equal. lia. }
    pose proof (Z.pow_pos_nonneg 2 (Z.max 0 (attempt - (current + 1))) ltac:(lia) ltac:(lia)) as Hpos.
    destruct (_ <? delay) eqn:E2.
    + apply Z.ltb_lt in E2. rewrite Hp. assert (maxBackoff < delay * 2) by div_lia. nia.
    + apply Z.ltb_ge in E2. assert (delay * 2 ≤ maxBackoff) by div_lia.
      rewrite wrap64_id by (unfold is_int64, int64_min in *; lia).
      rewrite IH by (done || lia). rewrite Hp. f_equal. lia.
  - apply andb_false_iff in E as [E|E].
    + apply Z.ltb_ge in E. rewrite Z.max_l by lia. lia.
    + apply Z.ltb_ge in E. pose proof (Z.pow_pos_nonneg 2 (Z.max 0 (attempt - current)) ltac:(lia) ltac:(lia)). nia.
Qed.

(** The retry delay handed to the jitter is
    [min (base * 2^(attempt-1)) max]: the doubling never overflows an int64 and
    never passes the configured maximum, whatever the attempt number. *)
Theorem retryDelay_doubles worker attempt :
  config_ok (config worker) → is_int64 (MaxBackoff (config worker)) →
  retryDelay worker attempt =
    worker_jitter worker
      ((BaseBackoff (config worker) * 2 ^ Z.max 0 (attempt - 1)) `min` MaxBackoff (config worker)).
Proof.
  intros Hc Hm. unfold retryDelay. pose proof (cfg_backoff _ Hc).
  rewrite backoff_loop_spec by (done || lia). f_equal.
  destruct (_ <? _) eqn:E; [apply Z.ltb_lt in E; lia|done].
Qed.

Lemma equalJitter_range Int64N delay :
  (∀ n, 0 < n → 0 ≤ Int64N n < n) → 0 ≤ delay → is_int64 delay →
  Z.quot delay 2 ≤ equalJitter Int64N delay ≤ delay.
Proof.
  intros Hr Hd Hi. unfold equalJitter. destruct (_ <=? 0) eqn:E; [div_lia|].
  apply Z.leb_gt in E. pose proof (Hr (Z.quot delay 2 + 1) ltac:(lia)).
  unfold is_int64, int64_min, int64_max in *.
  rewrite wrap64_id; unfold is_int64, int64_min, int64_max; div_lia.
Qed.

(** Equal jitter returns between half the delay and the delay, and
    does not overflow, for every int64 delay. *)
Theorem equalJitter_bounds Int64N delay :
  (∀ n, 0 < n → 0 ≤ Int64N n < n) → 0 ≤ delay → is_int64 delay →
  Z.quot delay 2 ≤ equalJitter Int64N delay ≤ delay.
Proof. apply equalJitter_range. Qed.

Lemma truncateRunes_runes value limit :
  0 ≤ limit → runes_of (truncateRunes value limit) = take (Z.to_nat limit) (runes_of value).
Proof.
  intros Hl. unfold truncateRunes. destruct (_ <=? limit) eqn:E.
  - apply Z.leb_le in E. rewrite take_ge by lia. done.
  - rewrite runes_of_string_of_runes. pose proof (runes_scalar value) as Hs.
    rewrite <-(list_fmap_id (take _ _)) at 2. apply list_fmap_ext.
    intros i r Hi. rewrite Forall_forall in Hs. apply Hs.
    apply list_elem_of_lookup_2 in Hi. rewrite <-(take_drop (Z.to_nat limit) (runes_of value)), elem_of_app. by left.
Qed.

Lemma truncateRunes_short value limit : 0 ≤ limit → char_length (truncateRunes value limit) ≤ limit.
Proof.
  intros Hl. unfold char_length, RuneCountInString. rewrite truncateRunes_runes by done.
  rewrite length_take. lia.
Qed.

(** [truncateRunes] keeps the first [limit] runes (so the result has
    at most [limit] of them) and leaves a string that is short enough untouched. *)
Theorem truncateRunes_limits value limit :
  0 ≤ limit →
  runes_of (truncateRunes value limit) = take (Z.to_nat limit) (runes_of value) ∧
  char_length (truncateRunes value limit) ≤ limit ∧
  (char_length value ≤ limit → truncateRunes value limit = value).
Proof.
  intros Hl. split; [by apply truncateRunes_runes|]. split; [by apply truncateRunes_short|].
  intros Hv. unfold char_length, RuneCountInString in Hv. unfold truncateRunes.
  destruct (_ <=? limit) eqn:E; [done|]. apply Z.leb_gt in E. lia.
Qed.

(** * Claiming *)
Section claiming.
Context `{TimeText}.

(** The row of an event under the lease it was claimed with. *)
Definition leased (d : database) (until : Z) (ev : outboxEvent) : Prop :=
  ∃ e', e' ∈ outbox d ∧ returned_event e' = ev ∧ event_lock_token e' = Some (LockToken ev) ∧
    event_locked_until e' = Some until ∧ terminal e' = false.

Lemma claim_statement_events limit ms types env d evs us :
  schema_ok d → claim_statement limit ms types env d = Ok (evs, us) →
  EventID <$> evs = event_id <$> claim_candidates types limit env d ∧
  ∀ ev, ev ∈ evs → ∃ e e' k, e ∈ claim_candidates types limit env d ∧ claimed_row env ms k e = Ok e' ∧
    e' ∈ outbox (apply_changes us d) ∧ returned_event e' = ev ∧ check_event_ok e'.
Proof.
  intros Hok Hst. apply claim_statement_inv in Hst as (es & -> & -> & Hrw & Hall & _); [|done].
  destruct (put_events_frame es d) as (_ & _ & _ & _ & _ & Ho). split.
  - rewrite <-list_fmap_compose. change (EventID ∘ returned_event) with event_id.
    apply (same_ids (λ e e', check_event_ok e' ∧ ∃ k, claimed_row env ms k e = Ok e')); [|done].
    intros a b (_ & k & Hk). by apply claimed_row_inv in Hk as [_ ->].
  - intros ev (e' & -> & He')%list_elem_of_fmap.
    apply list_elem_of_lookup in He' as (i & Hi).
    destruct (Forall2_lookup_r _ _ _ _ _ Hall Hi) as (e & He & Hck & k & Hc).
    apply list_elem_of_lookup_2 in He, Hi. exists e, e', k. split_and!; try done.
    rewrite Ho. rewrite <-(replaced_in es e e'); [|apply Hrw|done|by apply claimed_row_inv in Hc as [_ ->]].
    apply list_elem_of_fmap_2. by apply candidates_in in He as (? & _ & _).
Qed.

(** a claim takes at most [limit] events, each due, unfinished and
    under no live lease; it counts the attempt and leases the row to the
    event's own token until now plus the lease duration.  An event it does not
    return is untouched, and one that was due as well comes after all that were
    claimed, the limit being reached. *)
Theorem claim_leases_oldest limit ms types env d evs us :
  schema_ok d → 0 < limit → claim_statement limit ms types env d = Ok (evs, us) →
  (Z.of_nat (List.length evs) ≤ limit ∧ NoDup (EventID <$> evs)) ∧
  (∀ ev, ev ∈ evs → ∃ e, e ∈ outbox d ∧ claimable types (current_timestamp env) e = true ∧
     EventID ev = event_id e ∧ AttemptCount ev = event_attempt_count e + 1 ∧
     leased (apply_changes us d) (after_milliseconds env ms) ev) ∧
  (∀ e, e ∈ outbox d → event_id e ∉ EventID <$> evs →
     e ∈ outbox (apply_changes us d) ∧
     (claimable types (current_timestamp env) e = true → row_held env (event_id e) = false →
      Z.of_nat (List.length evs) = limit ∧
      ∀ x, x ∈ outbox d → event_id x ∈ EventID <$> evs → claim_order x e)).
Proof.
  intros Hok Hl Hst. pose proof (claim_statement_events _ _ _ _ _ _ _ Hok Hst) as [Hids Hevs].
  assert (List.length evs = List.length (claim_candidates types limit env d)) as Hlen
    by (rewrite <-(length_fmap EventID evs), Hids; apply length_fmap).
  split_and!.
  - rewrite Hlen. unfold claim_candidates, sql_limit. rewrite length_take. lia.
  - rewrite Hids. by apply candidates_nodup.
  - intros ev Hev. destruct (Hevs ev Hev) as (e & e' & k & He & Hc & Ho & <- & _).
    destruct (candidates_in _ _ _ _ _ He) as (Hin & Hcl & _). exists e.
    apply claimed_row_inv in Hc as [_ ->]. split_and!; try done.
    eexists. split; [exact Ho|]. split_and!; try done. simpl. unfold claimable in Hcl.
    rewrite !andb_true_iff, negb_true_iff in Hcl. tauto.
  - intros e He Hn. rewrite Hids in Hn.
    assert (e ∉ claim_candidates types limit env d) as Hnc.
    { intros Hc. apply Hn. by apply list_elem_of_fmap_2. }
    split.
    + apply claim_statement_inv in Hst as (es & -> & -> & Hrw & Hall & _); [|done].
      destruct (put_events_frame es d) as (_ & _ & _ & _ & _ & ->).
      rewrite <-(replaced_other es e); [by apply list_elem_of_fmap_2|]. intros x Hx Heq. apply Hn.
      rewrite <-Heq, <-Hids, <-list_fmap_compose. by apply (list_elem_of_fmap_2 event_id).
    + intros Hcl Hh. destruct (claim_first_come types limit env d e He Hcl Hh) as [?|[Hfull Hall]]; [done|].
      split; [lia|]. intros x Hx Hxe. rewrite Hids in Hxe.
      apply list_elem_of_fmap in Hxe as (y & Hxy & Hy). rewrite Forall_forall in Hall.
      assert (x = y) as ->; [|by apply Hall].
      eapply unique_key_inj; [apply Hok|done| |done]. by apply candidates_in in Hy as (? & _ & _).
Qed.

(** As long as a lease runs, no other claim takes the event: a
    claim whose clock has not reached the end of an earlier claim's lease
    returns none of the events that one returned. *)
Theorem lease_excludes_claims limit1 ms1 types1 env1 limit2 ms2 types2 env2 d evs1 us1 evs2 us2 :
  schema_ok d →
  claim_statement limit1 ms1 types1 env1 d = Ok (evs1, us1) →
  claim_statement limit2 ms2 types2 env2 (apply_changes us1 d) = Ok (evs2, us2) →
  current_timestamp env2 < after_milliseconds env1 ms1 →
  ∀ id, id ∈ EventID <$> evs1 → id ∉ EventID <$> evs2.
Proof.
  intros Hok H1 H2 Ht id (ev & -> & Hev)%list_elem_of_fmap.
  destruct (claim_statement_events _ _ _ _ _ _ _ Hok H1) as [_ Hevs].
  destruct (Hevs ev Hev) as (e & e' & k & He & Hc & Ho & <- & _).
  assert (schema_ok (apply_changes us1 d)) as Hok1.
  { apply claim_statement_inv in H1 as (es & -> & _ & Hrw & _); [|done]. by apply put_events_schema. }
  rewrite (proj1 (claim_statement_events _ _ _ _ _ _ _ Hok1 H2)).
  intros (x & Hid & Hx)%list_elem_of_fmap. apply candidates_in in Hx as (Hin & Hcl & _).
  assert (x = e') as -> by (eapply unique_key_inj; [apply Hok1|done..]).
  apply claimed_row_inv in Hc as [_ ->]. unfold claimable, lease_over in Hcl. simpl in Hcl.
  rewrite !andb_true_iff, Z.leb_le in Hcl. lia.
Qed.
End claiming.

(** * The worker among other connections *)
Section working.
Context `{TimeText}.

Lemma exec_rows_spec st n w r w' :
  orderly st → worker_ok w → exec_rows n st w = (r, w') →
  advances w w' ∧ ∃ d1, committed_ok d1 ∧ outbox_evolves [] (w_db w) d1 ∧
    (w_db w' = d1 ∧ (∃ x, r = Err (OutboxDatabaseError x)) ∨
     ∃ env k us, st env d1 = Ok (k, us) ∧ w_db w' = apply_changes us d1 ∧
       (k = n ∧ r = Ok tt ∨ k ≠ n ∧ r = Err errOutboxLeaseLost ∨ r = Err (OutboxDatabaseError ConnError))).
Proof.
  intros Hst Hw Hrun. apply proc_bind_inv in Hrun as [(x & Hrun & ->)|(k & w1 & Hrun & Hr)];
    apply exec_spec in Hrun as (Ha & d1 & Hd1 & He & Hcase); try done.
  - split; [done|]. exists d1. split_and!; [done|done|].
    destruct Hcase as [[-> [Hx|(env & y & _ & Hx)]]|(env & a & us & Hq & Hdb & [Hx|Hx])]; simplify_eq;
      [by eauto..|right; eauto 10].
  - assert (w' = w1 ∧ ((k = n ∧ r = Ok tt) ∨ (k ≠ n ∧ r = Err errOutboxLeaseLost))) as [-> Hres].
    { destruct (k =? n) eqn:E; [apply proc_ret_inv in Hr as [-> ->]|apply proc_throw_inv in Hr as [-> ->]];
        (split; [done|]); [left|right]; (split; [lia|done]). }
    split; [done|]. exists d1. split_and!; [done|done|].
    destruct Hcase as [[_ [Hx|(env & y & _ & Hx)]]|(env & a & us & Hq & Hdb & [Hx|Hx])]; simplify_eq.
    right. exists env, a, us. split_and!; [done|done|tauto].
Qed.

Lemma markFailed_statement worker ev err :
  ∃ st, markFailed worker ev err = exec_rows 1 st ∧ orderly st.
Proof.
  unfold markFailed. destruct (gives_up _ _ _); eexists; (split; [done|]);
    [apply mark_dead_orderly|apply mark_retry_orderly].
Qed.

Lemma markFailed_keeps worker ev err w r w' :
  worker_ok w → markFailed worker ev err w = (r, w') → advances w w'.
Proof.
  intros Hw Hrun. destruct (markFailed_statement worker ev err) as (st & Heq & Hst).
  rewrite Heq in Hrun. by apply exec_rows_spec in Hrun as [? _].
Qed.

Lemma mark_failures_keeps worker outcomes w r w' :
  worker_ok w → mark_failures worker outcomes w = (r, w') → advances w w'.
Proof.
  revert w r w'. induction outcomes as [|o outcomes IH]; intros w r w' Hw Hrun; simpl in Hrun.
  { apply proc_ret_inv in Hrun as [_ ->]. by apply advances_refl. }
  destruct (outcome_err o) as [err|]; [|by eapply IH].
  apply proc_bind_inv in Hrun as [([] & _)|(r1 & w1 & H1 & Hrun)].
  apply attempt_inv in H1 as (r0 & H1 & _). apply markFailed_keeps in H1; [|done].
  apply proc_bind_inv in Hrun as [([] & _)|(errs & w2 & H2 & Hrun)].
  apply IH in H2; [|apply H1]. apply proc_ret_inv in Hrun as [_ ->]. by eapply advances_trans.
Qed.

Lemma markPublishedBatch_keeps evs w r w' :
  worker_ok w → markPublishedBatch evs w = (r, w') → advances w w'.
Proof.
  intros Hw Hrun. destruct evs as [|ev evs].
  - apply proc_ret_inv in Hrun as [_ ->]. by apply advances_refl.
  - apply exec_rows_spec in Hrun as [? _]; [done|apply mark_batch_orderly|done].
Qed.

Lemma completeDeliveryBatch_keeps worker outcomes w r w' :
  worker_ok w → completeDeliveryBatch worker outcomes w = (r, w') → advances w w'.
Proof.
  intros Hw Hrun. unfold completeDeliveryBatch in Hrun.
  apply proc_bind_inv in Hrun as [([] & _)|(r1 & w1 & H1 & Hrun)].
  assert (advances w w1) as Ha.
  { destruct (successful outcomes); [apply proc_ret_inv in H1 as [_ ->]; by apply advances_refl|].
    apply attempt_inv in H1 as (r0 & H1 & _). by eapply markPublishedBatch_keeps. }
  apply proc_bind_inv in Hrun as [([] & _)|(errs & w2 & H2 & Hrun)].
  apply mark_failures_keeps in H2; [|apply Ha]. apply proc_ret_inv in Hrun as [_ ->].
  by eapply advances_trans.
Qed.

Lemma RunOnce_keeps worker publisher w r w' :
  worker_ok w → RunOnce worker publisher w = (r, w') → advances w w'.
Proof.
  intros Hw Hrun. apply proc_bind_inv in Hrun as [([] & _)|(r1 & w1 & H1 & Hrun)].
  apply attempt_inv in H1 as (r0 & H1 & [= ->]).
  apply exec_spec in H1 as [Ha _]; [|apply claim_orderly|done].
  destruct r0 as [x|[|ev evs]]; [apply proc_ret_inv in Hrun as [_ ->]; done..|].
  apply proc_bind_inv in Hrun as [([] & _)|(errs & w2 & H2 & Hrun)].
  apply completeDeliveryBatch_keeps in H2; [|apply Ha]. apply proc_ret_inv in Hrun as [_ ->].
  by eapply advances_trans.
Qed.

Lemma Run_advances worker turns w r w' :
  worker_ok w → Run worker turns w = (r, w') → advances w w'.
Proof.
  revert w r w'. induction turns as [|t turns IH]; intros w r w' Hw Hrun; simpl in Hrun.
  { apply proc_ret_inv in Hrun as [_ ->]. by apply advances_refl. }
  apply proc_bind_inv in Hrun as [([] & _)|(r1 & w1 & H1 & Hrun)].
  apply RunOnce_keeps in H1; [|done]. destruct (continueAfterBatch _ _ _).
  - eapply advances_trans; [exact H1|]. eapply IH; [apply H1|done].
  - apply proc_ret_inv in Hrun as [_ ->]. done.
Qed.

(** C7: however its calls fail and whatever other connections commit, a
    running worker keeps every invariant of the tables and loses no event: each
    event is still there or has been published; it keeps its identity and payload,
    its attempts are never uncounted, and once published or dead it never
    changes. *)
Theorem Run_loses_no_event worker turns w r w' :
  worker_ok w → Run worker turns w = (r, w') →
  committed_ok (w_db w') ∧ evolves [] (w_db w) (w_db w') ∧
  ∀ e, e ∈ outbox (w_db w) → ∃ e', event_reaches e e' ∧
    (e' ∈ outbox (w_db w') ∨ is_published e') ∧
    same_event e e' ∧ event_attempt_count e ≤ event_attempt_count e' ∧ (terminal e = true → e' = e).
Proof.
  intros Hw Hrun. destruct (Run_advances _ _ _ _ _ Hw Hrun) as [[Hw' _] [Hev Hlc]].
  split; [apply (ok_db _ _ _ _ Hw')|]. split; [done|]. intros e He.
  destruct (Hlc e He) as (e' & Hr & Hin). exists e'. destruct (event_reaches_same _ _ Hr).
  split_and!; try done. intros Ht. by eapply event_reaches_terminal.
Qed.

(** What a mark did: in the tables [d1] it met, the row was leased under the
    token, and became [row]. *)
Definition marked (ev : outboxEvent) (row : stmt_env → outbox_row → outbox_row) (d1 d' : database) : Prop :=
  ∃ env e, e ∈ outbox d1 ∧ held_under (EventID ev) (LockToken ev) e = true ∧
    d' = apply_changes [PutEvent (row env e)] d1.

Lemma mark_one ev row env d k us :
  schema_ok d → mark_statement (held_under (EventID ev) (LockToken ev)) row env d = Ok (k, us) →
  (k = 1 ∧ marked ev row d (apply_changes us d)) ∨
  (k = 0 ∧ us = [] ∧ ∀ e, e ∈ outbox d → held_under (EventID ev) (LockToken ev) e = false).
Proof.
  intros Hok Hrun. apply mark_statement_inv in Hrun as (-> & -> & _).
  destruct (sql_exists (held_under (EventID ev) (LockToken ev)) (outbox d)) eqn:E.
  - apply sql_exists_true in E as (e & He & Hh). left. unfold rows_affected.
    rewrite (where_key event_id _ _ e); [|apply Hok|done|done|].
    + split; [done|]. exists env, e. done.
    + intros y _ Hy. apply held_under_live in Hy as [-> _], Hh as [-> _]. done.
  - rewrite sql_exists_false in E. right. rewrite where_none by done.
    split_and!; [by apply rows_affected_0|done|done].
Qed.

Lemma exec_rows_lease ev row (st : db_statement Z) w r w' :
  orderly st → (∀ env d k us, st env d = Ok (k, us) →
    mark_statement (held_under (EventID ev) (LockToken ev)) row env d = Ok (k, us)) →
  worker_ok w → exec_rows 1 st w = (r, w') →
  ∃ d1, committed_ok d1 ∧ outbox_evolves [] (w_db w) d1 ∧
    match r with
    | Ok _ => marked ev row d1 (w_db w')
    | Err errOutboxLeaseLost => w_db w' = d1 ∧
        ∀ e, e ∈ outbox d1 → held_under (EventID ev) (LockToken ev) e = false
    | Err _ => w_db w' = d1 ∨ marked ev row d1 (w_db w')
    end.
Proof.
  intros Hst Heq Hw Hrun. apply exec_rows_spec in Hrun as (_ & d1 & Hd1 & Hev & Hcase); [|done..].
  exists d1. split; [done|]. split; [done|].
  destruct Hcase as [[-> [x ->]]|(env & k & us & Hq & -> & Hr)]; [by left|].
  apply Heq, mark_one in Hq as [[-> Hm]|(-> & -> & Hn)]; [| |by apply committed_schema].
  - destruct Hr as [[_ ->]|[[? _]| ->]]; [done|done|by right].
  - destruct Hr as [[? _]|[[_ ->]| ->]]; [done|done|by left].
Qed.

(** an outcome is recorded only by the holder of the lease.  When
    [markPublished] or [markFailed] returns nil, the row was unfinished and leased
    under the event's token, and it is now published, respectively dead (permanent
    failure or attempts used up) or due again after the backoff; "lease lost" means
    that no row was, and nothing was written. *)
Theorem marks_need_the_lease worker ev err w r w' (failed : bool) :
  worker_ok w →
  (if failed then markFailed worker ev err else markPublished ev) w = (r, w') →
  let row := if failed then
      if gives_up worker ev err then dead_row (truncateRunes (error_text err) 2000)
      else retry_row (Milliseconds (failure_delay worker ev err)) (truncateRunes (error_text err) 2000)
    else published_row in
  ∃ d1, committed_ok d1 ∧ outbox_evolves [] (w_db w) d1 ∧
    match r with
    | Ok _ => marked ev row d1 (w_db w')
    | Err errOutboxLeaseLost => w_db w' = d1 ∧
        ∀ e, e ∈ outbox d1 → held_under (EventID ev) (LockToken ev) e = false
    | Err _ => w_db w' = d1 ∨ marked ev row d1 (w_db w')
    end.
Proof.
  intros Hw Hrun row. unfold row; clear row. destruct failed; [unfold markFailed in Hrun; destruct (gives_up _ _ _)|].
  - eapply exec_rows_lease in Hrun; [exact Hrun|apply mark_dead_orderly| |done].
    intros env d k us Hq. unfold mark_dead_statement, with_text in Hq. by destruct (forallb _ _).
  - eapply exec_rows_lease in Hrun; [exact Hrun|apply mark_retry_orderly| |done].
    intros env d k us Hq. unfold mark_retry_statement, with_text in Hq. by destruct (forallb _ _).
  - eapply exec_rows_lease in Hrun; [exact Hrun|apply mark_published_orderly|done|done].
Qed.

(** a publish error whose first 2000 characters hold a NUL byte
    or ill-formed UTF-8 is never recorded: [markFailed] always fails, so the event
    is neither rescheduled nor, after its last attempt, declared dead. *)
Theorem unstorable_error_text worker ev err w :
  worker_ok w → valid_text (truncateRunes (error_text err) 2000) = false →
  ∃ x, (markFailed worker ev err w).1 = Err (OutboxDatabaseError x).
Proof.
  intros Hw Hv. destruct (markFailed worker ev err w) as [r w'] eqn:Hrun.
  assert (∀ p f, exec_rows 1 (with_text [truncateRunes (error_text err) 2000] (mark_statement p f)) w = (r, w') →
    orderly (with_text [truncateRunes (error_text err) 2000] (mark_statement p f)) →
    ∃ x, r = Err (OutboxDatabaseError x)) as Hone.
  { intros p f Hx Ho. apply exec_rows_spec in Hx as (_ & d1 & _ & _ & [[_ Hx]|(env & k & us & Hq & _)]); [done| |done..].
    unfold with_text in Hq. simpl in Hq. by rewrite Hv in Hq. }
  unfold markFailed in Hrun. destruct (gives_up _ _ _);
    (eapply Hone; [exact Hrun|]); [exact (mark_dead_orderly _ _ _)|exact (mark_retry_orderly _ _ _ _)].
Qed.

(** [cleanupPublished] refuses a batch size that is not
    positive; otherwise it deletes at most that many events, all published before
    the cutoff, and no other row, and returns how many. *)
Theorem cleanup_deletes_published olderThan n w r w' :
  worker_ok w → cleanupPublished olderThan n w = (r, w') →
  match r with
  | Err CleanupBatchNotPositive => n ≤ 0 ∧ w' = w
  | Err _ => 0 < n
  | Ok k => 0 ≤ k ≤ n ∧ ∃ d1 gone, outbox_evolves [] (w_db w) d1 ∧ Z.of_nat (List.length gone) = k ∧
      (∀ e, e ∈ gone → e ∈ outbox d1 ∧ ∃ t, event_published_at e = Some t ∧ t < olderThan) ∧
      ∀ e, e ∈ outbox (w_db w') ↔ e ∈ outbox d1 ∧ e ∉ gone
  end.
Proof.
  intros Hw Hrun. unfold cleanupPublished in Hrun. destruct (n <=? 0) eqn:E.
  { apply proc_throw_inv in Hrun as [-> ->]. split; [lia|done]. }
  apply exec_spec in Hrun as (_ & d1 & Hd1 & Hev & Hcase); [|apply cleanup_orderly|done].
  destruct Hcase as [[_ [->|(env & x & _ & ->)]]|(env & k & us & Hq & Hdb & [->| ->])]; [lia|lia| |lia].
  unfold cleanup_statement in Hq. injection Hq as <- <-. split.
  { unfold doomed, sql_limit. rewrite length_take. lia. }
  exists d1, (doomed olderThan n d1). split_and!; [done|done|by intros e; apply doomed_in|].
  assert (w_db w' = apply_changes (delete_events (event_id <$> doomed olderThan n d1)) d1) as ->
    by (unfold delete_events; by rewrite <-list_fmap_compose).
  destruct (delete_events_frame (event_id <$> doomed olderThan n d1) d1) as (_ & _ & _ & _ & _ & Ho).
  intros e. rewrite Ho. split; intros [He Hn]; (split; [done|]).
  - intros Hin. apply Hn. by apply list_elem_of_fmap_2.
  - intros (x & Hid & Hx)%list_elem_of_fmap. apply Hn. destruct (doomed_in _ _ _ _ Hx) as [Hxo _].
    assert (e = x) as -> by (eapply unique_key_inj; [apply (so_event_ids _ (committed_schema _ Hd1))|done..]). done.
Qed.
End working.
