(* ===== verification/Settling.v ===== *)
(** Liveness of the outbox worker: with working calls, one [RunOnce] settles every
    event it claims. *)
From Stdlib Require Import Ascii String.
From S2P Require Import Prelude GoStd Tables Driver Json Schema Changes MessageStore Outbox OutboxRows Sending Delivery.
Open Scope Z_scope.

(** * Checks of the rewritten rows *)
Section checks.
Implicit Types (e : outbox_row) (env : stmt_env).

(** A row that satisfies the table's checks and is not older than the clock. *)
Definition row_ready (now : Z) e : Prop := check_event_ok e ∧ terminal e = false ∧ event_created_at e ≤ now.

Lemma check_event_facts e :
  check_event_ok e ↔
  (in_range 1 100 (char_length (event_type e)) = true ∧ 0 < event_payload_version e ∧
   0 ≤ event_attempt_count e ∧ event_created_at e ≤ event_next_attempt_at e ∧
   opt_none (event_locked_until e) = opt_none (event_lock_token e)) ∧
  opt_ge (event_ready_at e) (event_created_at e) = true ∧
  opt_ge (event_published_at e) (event_created_at e) = true ∧
  opt_ge (event_dead_at e) (event_created_at e) = true ∧
  opt_none (event_published_at e) || opt_none (event_dead_at e) = true ∧
  negb (is_message_created e) || opt_none (event_published_at e) ||
    negb (opt_none (event_ready_at e)) = true ∧
  negb (is_message_created e) || negb (opt_none (event_published_at e)) ||
    negb (opt_none (event_dead_at e)) ||
    ((event_payload_version e =? 4) && negb (opt_none (event_ready_at e))) = true ∧
  match event_last_error e with Some s => char_length s <=? 2000 | None => true end = true.
Proof.
  unfold check_event_ok, check_event. rewrite !first_violation_cons, eqb_true_iff, Z.ltb_lt, !Z.leb_le.
  tauto.
Qed.

Lemma terminal_false e : terminal e = false ↔ event_published_at e = None ∧ event_dead_at e = None.
Proof. unfold terminal. destruct (event_published_at e), (event_dead_at e); naive_solver. Qed.

Lemma check_claimed env ms k e e' :
  check_event_ok e → terminal e = false → claimed_row env ms k e = Ok e' → check_event_ok e'.
Proof.
  rewrite !check_event_facts, terminal_false. intros ((? & ? & ? & ? & ?) & ?) [] Hc.
  apply claimed_row_inv in Hc as [_ ->]. simpl in *. split; [|done]. split_and!; try done; lia.
Qed.

Lemma check_published env e :
  row_ready (current_timestamp env) e → check_event_ok (published_row env e).
Proof.
  intros (Hc & Ht & Hnow). apply check_event_facts in Hc as ((? & ? & ? & ? & ?) & ? & Hp & ? & ? & ? & Hr & ?).
  apply terminal_false in Ht as [Hpn Hdn]. apply check_event_facts.
  unfold published_row, release_row, is_message_created in *. simpl. rewrite Hpn, Hdn in *. simpl in *.
  split_and!; try done; [lia|..].
  - destruct (bool_decide _); [|done]. simpl in *. by apply andb_true_iff in Hr as [_ ->].
  - destruct (bool_decide _); done.
Qed.

Lemma check_dead env text e :
  char_length text ≤ 2000 → row_ready (current_timestamp env) e → check_event_ok (dead_row text env e).
Proof.
  intros Hl (Hc & Ht & Hnow). apply check_event_facts in Hc as ((? & ? & ? & ? & ?) & ? & Hp & ? & ? & ? & Hr & ?).
  apply terminal_false in Ht as [Hpn Hdn]. apply check_event_facts.
  unfold dead_row, release_row, is_message_created in *. simpl. rewrite Hpn, Hdn in *. simpl in *.
  split_and!; try done; try lia; destruct (bool_decide _); done.
Qed.

Lemma check_retry env ms text e :
  char_length text ≤ 2000 → 0 ≤ ms → row_ready (current_timestamp env) e →
  check_event_ok (retry_row ms text env e).
Proof.
  intros Hl Hms (Hc & Ht & Hnow). apply check_event_facts in Hc as ((? & ? & ? & ? & ?) & ? & Hp & ? & ? & ? & Hr & ?).
  apply check_event_facts. unfold retry_row, release_row, after_milliseconds, is_message_created in *. simpl in *.
  split_and!; try done; lia.
Qed.
End checks.

(** * One mark on quiet tables *)
Section quiet_marks.
Context `{TimeText}.
Implicit Types (p : outbox_row → bool) (d : database).

Lemma update_event_ok e : check_event_ok e → update_event e = Ok (PutEvent e).
Proof. unfold check_event_ok, update_event. by intros ->. Qed.

Lemma mapM_update_ok (f : outbox_row → outbox_row) rows :
  Forall (λ e, check_event_ok (f e)) rows →
  mapM (λ e, update_event (f e)) rows = Ok (put_events (f <$> rows)).
Proof.
  induction 1 as [|e rows He _ IH]; [done|]. cbn [mapM]. rewrite (update_event_ok _ He), ok_bind.
  by rewrite IH.
Qed.

(** An UPDATE is a map over the table. *)
Lemma marked_rows p (f : outbox_row → outbox_row) d x :
  schema_ok d → (∀ e, event_id (f e) = event_id e) →
  x ∈ outbox (apply_changes (put_events (f <$> sql_where p (outbox d))) d) ↔
  ∃ e, e ∈ outbox d ∧ x = if p e then f e else e.
Proof.
  intros Hok Hf. destruct (put_events_frame (f <$> sql_where p (outbox d)) d) as (_ & _ & _ & _ & _ & ->).
  assert (event_id <$> (f <$> sql_where p (outbox d)) = event_id <$> sql_where p (outbox d)) as Hids.
  { rewrite <-list_fmap_compose. apply list_fmap_ext. intros i e _. apply Hf. }
  assert (∀ e, e ∈ outbox d → replaced (f <$> sql_where p (outbox d)) e = if p e then f e else e) as Hr.
  { intros e He. destruct (p e) eqn:Hp.
    - apply replaced_in; [|apply list_elem_of_fmap_2; by apply elem_of_where|apply Hf].
      rewrite Hids. apply (unique_key_sublist event_id _ _ (where_sublist _ _)). apply Hok.
    - apply replaced_other. intros y (z & -> & Hz)%list_elem_of_fmap. rewrite Hf. intros Heq.
      apply elem_of_where in Hz as [Hz Hpz].
      assert (z = e) as -> by (eapply unique_key_inj; [apply Hok|done..]). congruence. }
  rewrite list_elem_of_fmap. split; intros (e & Hx & He).
  - exists e. split; [done|]. by rewrite <-Hr.
  - exists e. rewrite Hr by done. done.
Qed.

Record quiet_at (T : Z) (e : event database change) : Prop := QuietAt {
  qa_quiet : quiet e;
  qa_clock : T ≤ ev_now e
}.

(** The state between two calls of the worker on quiet tables. *)
Record calm_tables (T : Z) (d : database) : Prop := CalmTables {
  ct_ok : committed_ok d;
  ct_old : ∀ e, e ∈ outbox d → event_created_at e ≤ T
}.

Definition id_row (p : outbox_row → bool) (f : stmt_env → outbox_row → outbox_row)
    (env : stmt_env) (e : outbox_row) : outbox_row := if p e then f env e else e.

Lemma quiet_mark p (f : stmt_env → outbox_row → outbox_row) (st : db_statement Z) T n d us ev es :
  calm_tables T d → quiet_at T ev →
  (∀ env e, p e = true → event_step e (f env e)) →
  (∀ env, st env d = mark_statement p f env d) →
  (∀ env e, T ≤ current_timestamp env → e ∈ outbox d → p e = true → check_event_ok (f env e)) →
  (∀ env e, event_id (f env e) = event_id e ∧ event_created_at (f env e) = event_created_at e) →
  rows_affected p (outbox d) = n →
  ∃ d' env, exec_rows n st (World d [] us (ev :: es)) = (Ok tt, World d' [] us es) ∧
    T ≤ current_timestamp env ∧ calm_tables T d' ∧
    ∀ x, x ∈ outbox d' ↔ ∃ e, e ∈ outbox d ∧ x = id_row p f env e.
Proof.
  intros [Hd Hold] [Hq Hclk] Hstep Hst Hck Hf Hn. set (env := stmt_env_of (ev_now ev) ev).
  pose proof (committed_schema _ Hd) as Hok.
  assert (Forall (λ e, check_event_ok (f env e)) (sql_where p (outbox d))) as Hall.
  { apply Forall_forall. intros e [He Hpe]%elem_of_where. by apply Hck. }
  assert (st env d = Ok (n, put_events (f env <$> sql_where p (outbox d)))) as Hrun.
  { rewrite Hst. unfold mark_statement. rewrite mapM_update_ok by done. by rewrite ok_bind, Hn. }
  exists (apply_changes (put_events (f env <$> sql_where p (outbox d))) d), env.
  assert (∀ x, x ∈ outbox (apply_changes (put_events (f env <$> sql_where p (outbox d))) d) ↔
    ∃ e, e ∈ outbox d ∧ x = id_row p f env e) as Hrows.
  { intros x. apply marked_rows; [done|]. intros e. apply Hf. }
  split_and!; [|done| |done].
  - unfold exec_rows, exec. erewrite proc_bind_run.
    2:{ apply run_error_run. by apply auto_statement_quiet. }
    by rewrite Z.eqb_refl.
  - split.
    + apply put_events_committed; [done|]. apply mark_rewrites; auto.
    + intros x (e & He & ->)%Hrows. unfold id_row. destruct (p e); [rewrite (proj2 (Hf env e))|]; auto.
Qed.
End quiet_marks.

(** * A batch on quiet tables *)
Section settling.
Context `{TimeText} (worker : outboxWorker) (T : Z).
Context (jitter_positive : ∀ delay, 0 ≤ delay → is_int64 delay → 0 ≤ worker_jitter worker delay).
Context (config_checked : config_ok (config worker)) (backoff_int64 : is_int64 (MaxBackoff (config worker))).

(** The row is under the lease the event was claimed with. *)
Definition held (d : database) (ev : outboxEvent) : Prop :=
  ∃ e, e ∈ outbox d ∧ returned_event e = ev ∧ event_lock_token e = Some (LockToken ev) ∧
    terminal e = false ∧ check_event_ok e.

(** The outcome is recorded and the lease given back. *)
Definition settled (d : database) (o : outboxPublishOutcome) : Prop :=
  ∃ e, e ∈ outbox d ∧ event_id e = EventID (outcome_event o) ∧ event_lock_token e = None ∧
    match outcome_err o with
    | None => is_published e
    | Some err =>
        event_last_error e = Some (truncateRunes (error_text err) 2000) ∧
        if gives_up worker (outcome_event o) err then event_dead_at e ≠ None
        else terminal e = false ∧ ∃ now, T ≤ now ∧
          event_next_attempt_at e = now + Milliseconds (failure_delay worker (outcome_event o) err) * 1000
    end.

(** What is asked of an outcome: a storable error text. *)
Definition storable_outcome (o : outboxPublishOutcome) : Prop :=
  ∀ err, outcome_err o = Some err → valid_text (truncateRunes (error_text err) 2000) = true.

Lemma failure_delay_nonneg ev err : 0 ≤ Milliseconds (failure_delay worker ev err).
Proof.
  assert (0 ≤ failure_delay worker ev err).
  { unfold failure_delay.
    assert (0 ≤ retryDelay worker (AttemptCount ev)).
    { unfold retryDelay. pose proof (cfg_backoff _ config_checked).
      rewrite backoff_loop_spec by (done || lia).
      pose proof (Z.pow_pos_nonneg 2 (Z.max 0 (AttemptCount ev - 1)) ltac:(lia) ltac:(lia)).
      unfold is_int64, int64_min in *. apply jitter_positive; destruct (_ <? _); nia. }
    destruct (error_failure err) as [f|]; [|done]. destruct (_ <? retryAfter f) eqn:E; lia. }
  unfold Milliseconds, millisecond. apply Z.quot_pos; lia.
Qed.

Lemma held_unique d ev e :
  schema_ok d → held d ev → e ∈ outbox d → event_id e = EventID ev →
  held_under (EventID ev) (LockToken ev) e = true ∧ check_event_ok e ∧ terminal e = false.
Proof.
  intros Hok (x & Hx & <- & Htok & Ht & Hck) He Hid.
  assert (e = x) as -> by (eapply unique_key_inj; [apply Hok|done..]).
  split; [|done]. by apply held_under_live.
Qed.

Lemma held_affected d ev :
  schema_ok d → held d ev → rows_affected (held_under (EventID ev) (LockToken ev)) (outbox d) = 1.
Proof.
  intros Hok Hh. pose proof Hh as (x & Hx & Hev & Htok & Ht & Hck). unfold rows_affected.
  assert (event_id x = EventID ev) as Hxid by (by rewrite <-Hev).
  rewrite (where_key event_id _ _ x); [done|apply Hok|done|by apply held_under_live|].
  intros y _ [Hy _]%held_under_live. congruence.
Qed.

(** One failed event, its record working. *)
Lemma markFailed_settles d us ev err e0 es :
  calm_tables T d → held d ev → quiet_at T e0 → storable_outcome (OutboxPublishOutcome ev (Some err)) →
  ∃ d', markFailed worker ev err (World d [] us (e0 :: es)) = (Ok tt, World d' [] us es) ∧
    calm_tables T d' ∧ settled d' (OutboxPublishOutcome ev (Some err)) ∧
    ∀ x, x ∈ outbox d → event_id x ≠ EventID ev → x ∈ outbox d'.
Proof.
  intros Hd Hh Hq Htext. pose proof (committed_schema _ (ct_ok _ _ Hd)) as Hok.
  specialize (Htext err eq_refl). set (text := truncateRunes (error_text err) 2000) in *.
  assert (char_length text ≤ 2000) as Hlen by (apply truncateRunes_short; lia).
  set (row := if gives_up worker ev err then dead_row text
    else retry_row (Milliseconds (failure_delay worker ev err)) text).
  set (p := held_under (EventID ev) (LockToken ev)).
  assert (∃ st, markFailed worker ev err = exec_rows 1 st ∧ ∀ env, st env d = mark_statement p row env d)
    as (st & -> & Hst).
  { unfold markFailed, row. destruct (gives_up _ _ _); eexists; (split; [done|]); intros env;
      unfold mark_dead_statement, mark_retry_statement, with_text; fold text; simpl; by rewrite Htext. }
  destruct (quiet_mark p row st T 1 d us e0 es) as (d' & env & Hrun & Hnow & Hd' & Hrows); try done.
  - intros env e Hp. apply held_under_self in Hp. unfold row.
    destruct (gives_up _ _ _); [by eapply step_die|by eapply step_retry].
  - intros env e Hnow He Hp. apply held_under_live in Hp as (Hid & _).
    destruct (held_unique d ev e Hok Hh He Hid) as (_ & Hck & Ht).
    assert (row_ready (current_timestamp env) e) as Hr.
    { split_and!; [done|done|]. etrans; [by apply (ct_old _ _ Hd)|done]. }
    unfold row. destruct (gives_up _ _ _); [by apply check_dead|].
    apply check_retry; [done|apply failure_delay_nonneg|done].
  - intros env e. unfold row. by destruct (gives_up _ _ _).
  - by apply held_affected.
  - exists d'. split_and!; [done|done| |].
    + pose proof Hh as (x & Hx & Hev & _). assert (event_id x = EventID ev) as Hxid by (by rewrite <-Hev).
      destruct (held_unique d ev x Hok Hh Hx Hxid) as (Hp & _ & Ht).
      exists (row env x). split_and!.
      * apply Hrows. exists x. unfold id_row, p. by rewrite Hp.
      * simpl. rewrite <-Hxid. unfold row. by destruct (gives_up _ _ _).
      * unfold row. by destruct (gives_up _ _ _).
      * simpl. unfold row. destruct (gives_up _ _ _); [done|]. split; [done|]. split; [done|].
        by exists (current_timestamp env).
    + intros x Hx Hne. apply Hrows. exists x. split; [done|]. unfold id_row, p.
      destruct (held_under _ _ x) eqn:Hp; [|done]. by apply held_under_live in Hp as [? _].
Qed.

Lemma held_mono d d' ev :
  held d ev → (∀ x, x ∈ outbox d → event_id x = EventID ev → x ∈ outbox d') → held d' ev.
Proof.
  intros (x & Hx & Hev & Htok & Ht & Hck) Hsub. exists x. split_and!; try done.
  apply Hsub; [done|]. by rewrite <-Hev.
Qed.

Lemma settled_mono d d' o :
  settled d o → (∀ x, x ∈ outbox d → event_id x = EventID (outcome_event o) → x ∈ outbox d') → settled d' o.
Proof. intros (x & Hx & Hid & Hrest) Hsub. exists x. split; [by apply Hsub|]. done. Qed.

Abbreviation outcome_id := (λ o, EventID (outcome_event o)).

Lemma mark_failures_settles outcomes d us events :
  calm_tables T d → NoDup (outcome_id <$> outcomes) → Forall (quiet_at T) events →
  (List.length outcomes ≤ List.length events)%nat → Forall storable_outcome outcomes →
  (∀ o, o ∈ outcomes → outcome_failed o = true → held d (outcome_event o)) →
  ∃ d' events', mark_failures worker outcomes (World d [] us events) = (Ok [], World d' [] us events') ∧
    calm_tables T d' ∧ (∀ o, o ∈ outcomes → outcome_failed o = true → settled d' o) ∧
    ∀ x, x ∈ outbox d → (∀ o, o ∈ outcomes → outcome_failed o = true → event_id x ≠ EventID (outcome_event o)) →
      x ∈ outbox d'.
Proof.
  revert d events. induction outcomes as [|o outcomes IH]; intros d events Hd Hnd Hq Hlen Htext Hheld.
  { exists d, events. split_and!; try done. intros o Ho. by apply elem_of_nil in Ho. }
  rewrite fmap_cons in Hnd. apply NoDup_cons in Hnd as [Hno Hnd]. apply Forall_cons in Htext as [Ht Htext].
  assert (∀ o', o' ∈ outcomes → EventID (outcome_event o') ≠ EventID (outcome_event o)) as Hdiff.
  { intros o' Ho' Heq. apply Hno. rewrite <-Heq. by apply (list_elem_of_fmap_2 outcome_id). }
  simpl. destruct o as [ev [err|]]; simpl in *.
  - destruct events as [|e0 events]; [simpl in Hlen; lia|]. apply Forall_cons in Hq as [Hq0 Hq].
    destruct (markFailed_settles d us ev err e0 events) as (d1 & Hrun & Hd1 & Hs1 & Hk1); try done.
    { apply (Hheld (OutboxPublishOutcome ev (Some err))); [by left|done]. }
    destruct (IH d1 events) as (d' & events' & Hrun' & Hd' & Hs' & Hk'); try done; [simpl in Hlen; lia| |].
    { intros o' Ho' Hf. eapply held_mono; [apply Hheld; [by right|done]|]. intros x Hx Hid.
      apply Hk1; [done|]. rewrite Hid. by apply Hdiff. }
    exists d', events'. split_and!; [|done| |].
    + unfold mbind, proc_bind, attempt. rewrite Hrun, Hrun'. done.
    + intros o' [->|Ho']%elem_of_cons Hf; [|by apply Hs'].
      eapply settled_mono; [exact Hs1|]. intros x Hx Hid. apply Hk'; [done|].
      intros o' Ho' _. rewrite Hid. apply not_eq_sym. by apply Hdiff.
    + intros x Hx Hno'. apply Hk'.
      * apply Hk1; [done|]. apply (Hno' (OutboxPublishOutcome ev (Some err))); [by left|done].
      * intros o' Ho' Hf. apply Hno'; [by right|done].
  - destruct (IH d events) as (d' & events' & Hrun' & Hd' & Hs' & Hk'); try done; [simpl in *; lia| |].
    { intros o' Ho'. apply Hheld. by right. }
    exists d', events'. split_and!; [done|done| |].
    + intros o' [->|Ho']%elem_of_cons Hf; [done|by apply Hs'].
    + intros x Hx Hno'. apply Hk'; [done|]. intros o' Ho' Hf. apply Hno'; [by right|done].
Qed.

(** The rows of several claimed events. *)
Lemma held_all_affected d evs :
  schema_ok d → NoDup (EventID <$> evs) → (∀ ev, ev ∈ evs → held d ev) →
  rows_affected (λ e, existsb (λ c, held_under c.1 c.2 e) ((λ e, (EventID e, LockToken e)) <$> evs)) (outbox d) =
    Z.of_nat (List.length evs).
Proof.
  intros Hok Hnd Hheld. unfold rows_affected. f_equal.
  rewrite <-(length_fmap EventID evs), <-(length_fmap event_id (sql_where _ _)).
  apply Permutation_length, NoDup_Permutation; [|done|].
  { apply (unique_key_sublist event_id _ _ (where_sublist _ _)). apply Hok. }
  intros id. rewrite !list_elem_of_fmap. split.
  - intros (e & -> & [He Hp]%elem_of_where). apply existsb_exists in Hp as (c & Hc & Hp).
    apply list_elem_of_In, list_elem_of_fmap in Hc as (ev & -> & Hev). exists ev.
    by apply held_under_live in Hp as [? _].
  - intros (ev & -> & Hev). pose proof (Hheld ev Hev) as (e & He & Hre & _).
    assert (event_id e = EventID ev) as Hid by (by rewrite <-Hre).
    exists e. split; [done|]. apply elem_of_where. split; [done|]. apply existsb_exists.
    exists (EventID ev, LockToken ev). split; [|apply (held_unique d ev e Hok (Hheld ev Hev) He Hid)].
    apply list_elem_of_In. by apply (list_elem_of_fmap_2 (λ e, (EventID e, LockToken e))).
Qed.

(** The successful events are published by one UPDATE. *)
Lemma markPublishedBatch_settles evs d us e0 es :
  evs ≠ [] → calm_tables T d → NoDup (EventID <$> evs) → (∀ ev, ev ∈ evs → held d ev) → quiet_at T e0 →
  ∃ d', markPublishedBatch evs (World d [] us (e0 :: es)) = (Ok tt, World d' [] us es) ∧ calm_tables T d' ∧
    (∀ ev, ev ∈ evs → settled d' (OutboxPublishOutcome ev None)) ∧
    ∀ x, x ∈ outbox d → (∀ ev, ev ∈ evs → event_id x ≠ EventID ev) → x ∈ outbox d'.
Proof.
  intros Hne Hd Hnd Hheld Hq. pose proof (committed_schema _ (ct_ok _ _ Hd)) as Hok.
  set (p := λ e, existsb (λ c, held_under c.1 c.2 e) ((λ e, (EventID e, LockToken e)) <$> evs)).
  assert (∀ e, p e = true → ∃ ev, ev ∈ evs ∧ held_under (EventID ev) (LockToken ev) e = true) as Hp.
  { intros e (c & Hc & Hp)%existsb_exists. apply list_elem_of_In, list_elem_of_fmap in Hc as (ev & -> & Hev).
    by exists ev. }
  destruct (quiet_mark p published_row (mark_batch_statement ((λ e, (EventID e, LockToken e)) <$> evs)) T
    (Z.of_nat (List.length evs)) d us e0 es) as (d' & env & Hrun & Hnow & Hd' & Hrows); try done.
  - intros env e (ev & _ & Hh)%Hp. by eapply step_publish, held_under_self.
  - intros env e Hnow He (ev & Hev & Hh)%Hp. apply held_under_live in Hh as (Hid & _).
    destruct (held_unique d ev e Hok (Hheld ev Hev) He Hid) as (_ & Hck & Ht). apply check_published.
    split_and!; [done|done|]. etrans; [by apply (ct_old _ _ Hd)|done].
  - by apply held_all_affected.
  - exists d'. split_and!; [by destruct evs|done| |].
    + intros ev Hev. pose proof (Hheld ev Hev) as (x & Hx & Hre & _).
      assert (event_id x = EventID ev) as Hxid by (by rewrite <-Hre).
      destruct (held_unique d ev x Hok (Hheld ev Hev) Hx Hxid) as (Hh & _ & Ht).
      exists (published_row env x). split_and!; [|done|done|done].
      apply Hrows. exists x. split; [done|]. unfold id_row. replace (p x) with true; [done|].
      symmetry. apply existsb_exists. exists (EventID ev, LockToken ev). split; [|done].
      apply list_elem_of_In. by apply (list_elem_of_fmap_2 (λ e, (EventID e, LockToken e))).
    + intros x Hx Hno. apply Hrows. exists x. split; [done|]. unfold id_row.
      destruct (p x) eqn:Hpx; [|done]. apply Hp in Hpx as (ev & Hev & Hh).
      exfalso. apply (Hno ev Hev). by apply held_under_live in Hh as [? _].
Qed.

Lemma completeDeliveryBatch_settles outcomes d us events :
  calm_tables T d → NoDup (outcome_id <$> outcomes) → Forall (quiet_at T) events →
  (List.length outcomes < List.length events)%nat → Forall storable_outcome outcomes →
  (∀ o, o ∈ outcomes → held d (outcome_event o)) →
  ∃ d' events', completeDeliveryBatch worker outcomes (World d [] us events) = (Ok [], World d' [] us events') ∧
    ∀ o, o ∈ outcomes → settled d' o.
Proof.
  intros Hd Hnd Hq Hlen Htext Hheld. destruct events as [|e0 events]; [simpl in Hlen; lia|].
  apply Forall_cons in Hq as [Hq0 Hq].
  assert (∀ ev, ev ∈ successful outcomes → ∃ o, o ∈ outcomes ∧ outcome_event o = ev ∧ outcome_failed o = false) as Hsucc.
  { intros ev (o & -> & Ho)%list_elem_of_fmap. apply list_elem_of_In, filter_In in Ho as [Ho Hf].
    exists o. split; [by apply list_elem_of_In|]. by apply negb_true_iff in Hf. }
  assert (∃ d1 events1,
    (match successful outcomes with [] => mret (Ok tt) | _ => attempt (markPublishedBatch (successful outcomes)) end
      : batch_proc _) (World d [] us (e0 :: events)) = (Ok (Ok tt), World d1 [] us events1) ∧
    Forall (quiet_at T) events1 ∧ (List.length outcomes ≤ List.length events1)%nat ∧ calm_tables T d1 ∧
    (∀ o, o ∈ outcomes → outcome_failed o = false → settled d1 o) ∧
    ∀ x, x ∈ outbox d → (∀ ev, ev ∈ successful outcomes → event_id x ≠ EventID ev) → x ∈ outbox d1)
    as (d1 & events1 & Hrun1 & Hq1 & Hlen1 & Hd1 & Hs1 & Hk1).
  { assert (∀ o, o ∈ outcomes → outcome_failed o = false → outcome_event o ∈ successful outcomes) as Hin.
    { intros o Ho Hf. apply list_elem_of_fmap_2, list_elem_of_In, filter_In. rewrite Hf.
      split; [by apply list_elem_of_In|done]. }
    destruct (decide (successful outcomes = [])) as [Hnil|Hne].
    - rewrite Hnil in *. exists d, (e0 :: events).
      split_and!; [done|by constructor|simpl in *; lia|done| |by auto].
      intros o Ho Hf. by apply Hin, elem_of_nil in Ho.
    - destruct (markPublishedBatch_settles (successful outcomes) d us e0 events) as (d1 & Hrun & Hd1 & Hs & Hk); try done.
      + unfold successful. rewrite <-list_fmap_compose.
        apply (unique_key_sublist outcome_id outcomes); [apply (where_sublist _ outcomes)|done].
      + intros ev (o & Ho & <- & _)%Hsucc. by apply Hheld.
      + exists d1, events. split_and!; [|done|simpl in Hlen; lia|done| |done].
        * destruct (successful outcomes); [done|]. unfold attempt. by rewrite Hrun.
        * intros [ev [err|]] Ho Hf; [done|]. apply Hs. by apply (Hin (OutboxPublishOutcome ev None)). }
  assert (∀ o o', o ∈ outcomes → o' ∈ outcomes → EventID (outcome_event o) = EventID (outcome_event o') → o = o') as Huniq.
  { intros o o' Ho Ho' Heq. by apply (unique_key_inj outcome_id outcomes). }
  destruct (mark_failures_settles outcomes d1 us events1) as (d' & events' & Hrun' & Hd' & Hs' & Hk'); try done.
  { intros o Ho Hf. eapply held_mono; [by apply Hheld|]. intros x Hx Hid. apply Hk1; [done|].
    intros ev (o' & Ho' & <- & Hf')%Hsucc. rewrite Hid. intros Heq.
    assert (o = o') as -> by auto. congruence. }
  exists d', events'. split.
  - unfold completeDeliveryBatch. rewrite (proc_bind_run _ _ _ _ _ Hrun1), (proc_bind_run _ _ _ _ _ Hrun'). done.
  - intros o Ho. destruct (outcome_failed o) eqn:Hf; [by apply Hs'|].
    eapply settled_mono; [by apply Hs1|]. intros x Hx Hid. apply Hk'; [done|].
    intros o' Ho' Hf'. rewrite Hid. intros Heq. assert (o = o') as -> by auto. congruence.
Qed.

Lemma claim_rows_succeeds env ms i rows :
  Forall (λ e, check_event_ok e ∧ terminal e = false ∧ event_attempt_count e < 2 ^ 31 - 1) rows →
  ∃ evs us, claim_rows env ms i rows = Ok (evs, us).
Proof.
  revert i. induction rows as [|e rows IH]; intros i Hall; [by exists [], []|].
  apply Forall_cons in Hall as [(Hck & Ht & Hn) Hall]. destruct (IH (S i) Hall) as (evs & us & Hrun).
  destruct (claimed_row env ms i e) as [x|e'] eqn:Hc.
  { unfold claimed_row, next_attempt_count in Hc. destruct (_ <? _) eqn:E; [done|lia]. }
  cbn [claim_rows]. rewrite Hc, ok_bind, (update_event_ok e'), ok_bind, Hrun, ok_bind by (by eapply check_claimed).
  by do 2 eexists.
Qed.

Lemma claim_settles limit ms types d us e0 es :
  calm_tables T d → quiet_at T e0 → forallb valid_text types = true →
  (∀ e, e ∈ outbox d → event_attempt_count e < 2 ^ 31 - 1) →
  ∃ evs d1, exec (claim_statement limit ms types) (World d [] us (e0 :: es)) = (Ok evs, World d1 [] us es) ∧
    EventID <$> evs = event_id <$> claim_candidates types limit (stmt_env_of (ev_now e0) e0) d ∧
    calm_tables T d1 ∧ ∀ ev, ev ∈ evs → held d1 ev.
Proof.
  intros [Hd Hold] [Hq _] Htypes Hatt. pose proof (committed_schema _ Hd) as Hok.
  set (env := stmt_env_of (ev_now e0) e0).
  destruct (claim_rows_succeeds env ms 0 (claim_candidates types limit env d)) as (evs & us' & Hrows).
  { apply Forall_forall. intros e (He & Hcl & _)%candidates_in. split_and!; [| |by apply Hatt].
    - by destruct (so_event_rows _ Hok e He).
    - unfold claimable in Hcl. rewrite !andb_true_iff, negb_true_iff in Hcl. tauto. }
  assert (claim_statement limit ms types env d = Ok (evs, us')) as Hst.
  { unfold claim_statement, with_text. by rewrite Htypes. }
  destruct (claim_statement_events _ _ _ _ _ _ _ Hok Hst) as [Hids Hevs].
  exists evs, (apply_changes us' d). split_and!; [|done| |].
  - unfold exec. erewrite run_error_run; [done|]. by apply auto_statement_quiet.
  - destruct (claim_orderly _ _ _ _ _ _ _ Hd Hst) as [Hd1 _]. split; [done|].
    apply claim_statement_inv in Hst as (es' & -> & _ & Hrw & _); [|done].
    destruct (put_events_frame es' d) as (_ & _ & _ & _ & _ & ->). intros x (e & -> & He)%list_elem_of_fmap.
    destruct (decide (event_id e ∈ event_id <$> es')) as [(y & Hy & Hye)%list_elem_of_fmap|Hn].
    + rewrite (replaced_in es' e y); [|apply Hrw|done|done]. destruct (proj2 Hrw y Hye) as (_ & e1 & He1 & Hs).
      apply event_step_same in Hs as (_ & -> & _). by apply Hold.
    + rewrite replaced_other; [by apply Hold|]. intros y Hy Heq. apply Hn. rewrite <-Heq. by apply list_elem_of_fmap_2.
  - intros ev Hev. destruct (Hevs ev Hev) as (e & e' & k & He & Hc & Ho & <- & Hck). exists e'.
    apply claimed_row_inv in Hc as [_ ->]. split_and!; try done. simpl.
    apply candidates_in in He as (_ & Hcl & _). unfold claimable in Hcl.
    rewrite !andb_true_iff, negb_true_iff in Hcl. tauto.
Qed.

(** What became of a claimed event: the preparation failed for all, or the
    prepared publisher answered. *)
Definition outcome_of (publisher : outboxPublisher) (evs : list outboxEvent) (ev : outboxEvent) : outboxPublishOutcome :=
  match prepared_publisher publisher evs with
  | Err failure => OutboxPublishOutcome ev (Some failure)
  | Ok publish => publish_one publisher publish ev
  end.

Lemma delivery_outcomes_all publisher evs :
  delivery_outcomes publisher evs ≡ₚ outcome_of publisher evs <$> evs.
Proof.
  unfold delivery_outcomes, outcome_of. destruct (prepared_publisher publisher evs); [done|].
  apply arrival_permutation.
Qed.

Lemma outcome_of_event publisher evs ev : outcome_event (outcome_of publisher evs ev) = ev.
Proof. unfold outcome_of. by destruct (prepared_publisher _ _). Qed.

(** C5: with working calls and nobody else writing, one [RunOnce] claims
    the due events and settles every one of them: published if its [Publish]
    returned nil, otherwise dead when the failure is permanent or the attempts are
    used up, otherwise released and due again after its backoff.  It reports
    their number and no error. *)
Theorem RunOnce_settles publisher d start e0 events :
  calm_tables T d → Forall (quiet_at T) (e0 :: events) →
  (Z.to_nat (claimLimit worker) < List.length events)%nat →
  forallb valid_text (EventTypes (config worker)) = true →
  (∀ e, e ∈ outbox d → event_attempt_count e < 2 ^ 31 - 1) →
  (∀ evs ev, storable_outcome (outcome_of publisher evs ev)) →
  ∃ evs w', RunOnce worker publisher (World d [] start (e0 :: events)) =
      (Ok (Z.of_nat (List.length evs), inr []), w') ∧
    EventID <$> evs = event_id <$> claim_candidates (EventTypes (config worker)) (claimLimit worker)
      (stmt_env_of (ev_now e0) e0) d ∧
    ∀ ev, ev ∈ evs → settled (w_db w') (outcome_of publisher evs ev).
Proof.
  intros Hd Hq Hlen Htypes Hatt Htext. apply Forall_cons in Hq as [Hq0 Hq].
  destruct (claim_settles (claimLimit worker) (Milliseconds (LeaseDuration (config worker)))
    (EventTypes (config worker)) d start e0 events Hd Hq0 Htypes Hatt) as (evs & d1 & Hrun & Hids & Hd1 & Hheld).
  assert (attempt (F := Empty_set) (claim worker) (World d [] start (e0 :: events)) =
    (Ok (Ok evs), World d1 [] start events)) as Hgo by (unfold attempt, claim; by rewrite Hrun).
  destruct (decide (evs = [])) as [->|Hne].
  { exists [], (World d1 [] start events). split_and!; [|done|].
    { unfold RunOnce. by rewrite (proc_bind_run _ _ _ _ _ Hgo). } intros ev Hev. by apply elem_of_nil in Hev. }
  pose proof (delivery_outcomes_all publisher evs) as Hperm.
  assert (List.length evs ≤ Z.to_nat (claimLimit worker))%nat as Hle.
  { rewrite <-(length_fmap EventID), Hids, length_fmap. unfold claim_candidates, sql_limit. rewrite length_take. lia. }
  destruct (completeDeliveryBatch_settles (delivery_outcomes publisher evs) d1 start events)
    as (d' & events' & Hrun' & Hs); try done.
  - rewrite Hperm, <-list_fmap_compose.
    rewrite (list_fmap_ext _ EventID evs) by (intros i ev _; simpl; by rewrite outcome_of_event).
    rewrite Hids. by apply candidates_nodup, committed_schema, Hd.
  - rewrite Hperm, length_fmap. lia.
  - rewrite Hperm. apply Forall_fmap, Forall_forall. intros ev _. apply Htext.
  - intros o. rewrite Hperm. intros (ev & -> & Hev)%list_elem_of_fmap. rewrite outcome_of_event. by apply Hheld.
  - exists evs, (World d' [] start events'). split_and!; [|done|].
    + unfold RunOnce. rewrite (proc_bind_run _ _ _ _ _ Hgo). destruct evs; [done|]. unfold deliverBatch. by rewrite (proc_bind_run _ _ _ _ _ Hrun').
    + intros ev Hev. apply Hs. rewrite Hperm. by apply list_elem_of_fmap_2.
Qed.
End settling.

(** * The promises at concrete inputs *)
Section delivery_examples.
#[local] Existing Instance binary_time.

Definition no_random (n : Z) : Z := 0.
Definition default_worker : outboxWorker :=
  OutboxWorker (defaultOutboxWorkerConfig no_random) (equalJitter no_random).

Lemma default_config_ok : config_ok (defaultOutboxWorkerConfig no_random).
Proof. by constructor. Qed.

Lemma default_backoff_int64 : is_int64 (MaxBackoff (config default_worker)).
Proof. by split. Qed.

Lemma retryDelay_doubles_witness : retryDelay default_worker 4 = equalJitter no_random (8 * second).
Proof. rewrite (retryDelay_doubles default_worker 4 default_config_ok default_backoff_int64). reflexivity. Defined.

Lemma equalJitter_bounds_witness : 5 ≤ equalJitter (λ n, n - 1) 10 ≤ 10.
Proof. apply (equalJitter_bounds (λ n, n - 1) 10); [intros; lia|lia|by split]. Defined.

Lemma truncateRunes_limits_witness :
  runes_of (truncateRunes "hello" 2) = [104; 101] ∧ char_length (truncateRunes "hello" 2) ≤ 2 ∧
  (char_length "hello" ≤ 2 → truncateRunes "hello" 2 = "hello"%string).
Proof. apply (truncateRunes_limits "hello" 2). lia. Defined.

(** The event that sending a message left, claimed. *)
Definition claim_env (now : Z) : stmt_env := stmt_env_of now (quiet_event now).
Definition hello_claim : result db_error (list outboxEvent * list change) :=
  claim_statement 16 30000 ["message.created"%string] (claim_env 200) after_hello.
Definition hello_event : outboxEvent :=
  OutboxEvent "5" "message.created" 4 12 (message_created_payload hello_message) 1 "200" (Some 105).
Definition hello_changes : list change := match hello_claim with Ok (_, us) => us | Err _ => [] end.

Lemma hello_claimed :
  claim_statement 16 30000 ["message.created"%string] (claim_env 200) after_hello = Ok ([hello_event], hello_changes).
Proof. vm_compute. reflexivity. Qed.

Lemma claim_leases_oldest_witness :
  Z.of_nat (List.length [hello_event]) ≤ 16 ∧ leased (apply_changes hello_changes after_hello) 30000200 hello_event.
Proof.
  destruct (claim_leases_oldest 16 30000 ["message.created"%string] (claim_env 200) after_hello
    [hello_event] hello_changes (committed_schema _ after_hello_ok) ltac:(lia) hello_claimed) as ([Hlen _] & Hev & _).
  split; [exact Hlen|]. destruct (Hev hello_event ltac:(by left)) as (_ & _ & _ & _ & _ & Hl). exact Hl.
Defined.

Lemma lease_excludes_claims_witness : "5"%string ∉ EventID <$> ([] : list outboxEvent).
Proof.
  refine (lease_excludes_claims 16 30000 ["message.created"%string] (claim_env 200)
    16 30000 ["message.created"%string] (claim_env 300) after_hello [hello_event] hello_changes [] []
    (committed_schema _ after_hello_ok) hello_claimed _ _ "5"%string _).
  - vm_compute. reflexivity.
  - vm_compute. reflexivity.
  - by left.
Defined.

Definition later_events : list (event database change) := quiet_event <$> (seqZ 100 24).
Definition later_world (d : database) : db_world := World d [] 0 later_events.

Lemma later_world_ok d : committed_ok d → worker_ok (later_world d).
Proof.
  intros Hd. split; [|done]. constructor; [done|by apply committed_schema|].
  apply Forall_fmap, Forall_true. intros n. apply quiet_respects; [apply _|done].
Qed.

Definition working_publisher : outboxPublisher :=
  Publisher (λ _, None) None (λ _, None) (λ l, l) (λ l, Permutation_refl l).

Lemma Run_loses_no_event_witness :
  committed_ok (w_db (Run default_worker [Turn working_publisher true false] (later_world after_hello)).2).
Proof.
  exact (proj1 (Run_loses_no_event default_worker [Turn working_publisher true false] (later_world after_hello)
    _ _ (later_world_ok _ after_hello_ok) (surjective_pairing _))).
Defined.

(** A stale token: the event of the example under another lease. *)
Definition claimed_tables : database := apply_changes hello_changes after_hello.
Lemma claimed_tables_ok : committed_ok claimed_tables.
Proof. by apply (claim_orderly 16 30000 ["message.created"%string] (claim_env 200) after_hello [hello_event] hello_changes after_hello_ok hello_claimed). Qed.

Lemma marks_need_the_lease_witness :
  ∃ d1, committed_ok d1 ∧ outbox_evolves [] claimed_tables d1 ∧
    marked hello_event published_row d1 (w_db (markPublished hello_event (later_world claimed_tables)).2).
Proof.
  refine (marks_need_the_lease default_worker hello_event (PublishError "x" None) (later_world claimed_tables)
    (Ok tt) (markPublished hello_event (later_world claimed_tables)).2 false
    (later_world_ok _ claimed_tables_ok) _).
  vm_compute. reflexivity.
Defined.

Definition nul_text : string := String (Ascii.ascii_of_nat 0) EmptyString.

Lemma unstorable_error_text_witness :
  ∃ x, (markFailed default_worker hello_event (permanentPublishError nul_text) (later_world claimed_tables)).1 =
    Err (OutboxDatabaseError x).
Proof.
  apply (unstorable_error_text default_worker hello_event (permanentPublishError nul_text)
    (later_world claimed_tables) (later_world_ok _ claimed_tables_ok)).
  vm_compute. reflexivity.
Defined.

Lemma cleanup_deletes_published_witness :
  ∃ d1 gone, outbox_evolves [] after_hello d1 ∧ Z.of_nat (List.length gone) = 0 ∧
    ∀ e, e ∈ outbox (w_db (cleanupPublished 500 10 (later_world after_hello)).2) ↔ e ∈ outbox d1 ∧ e ∉ gone.
Proof.
  destruct (cleanup_deletes_published 500 10 (later_world after_hello) (Ok 0)
    (cleanupPublished 500 10 (later_world after_hello)).2 (later_world_ok _ after_hello_ok)
    ltac:(vm_compute; reflexivity)) as (_ & d1 & gone & Hev & Hlen & _ & Hrows).
  exists d1, gone. split; [exact Hev|]. split; [exact Hlen|exact Hrows].
Defined.

(** Testing every event of a table. *)
Lemma outbox_all (p : outbox_row → bool) d :
  forallb p (outbox d) = true → ∀ e, e ∈ outbox d → p e = true.
Proof. rewrite forallb_forall. intros Hp e He. by apply Hp, list_elem_of_In. Qed.

Lemma after_hello_calm : calm_tables 150 after_hello.
Proof.
  split; [exact after_hello_ok|]. intros e He. apply Z.leb_le. revert e He.
  apply (outbox_all (λ e, event_created_at e <=? 150)). vm_compute. reflexivity.
Qed.

Lemma after_hello_attempts e : e ∈ outbox after_hello → event_attempt_count e < 2 ^ 31 - 1.
Proof.
  intros He. apply Z.ltb_lt. revert e He.
  apply (outbox_all (λ e, event_attempt_count e <? 2 ^ 31 - 1)). vm_compute. reflexivity.
Qed.

Lemma default_jitter_nonneg delay : 0 ≤ delay → is_int64 delay → 0 ≤ worker_jitter default_worker delay.
Proof.
  intros Hd Hi. pose proof (equalJitter_range no_random delay ltac:(intros; unfold no_random; lia) Hd Hi).
  pose proof (Z.quot_pos delay 2 Hd ltac:(lia)). simpl. lia.
Qed.

Lemma due_hello :
  event_id <$> claim_candidates (EventTypes (config default_worker)) (claimLimit default_worker)
    (stmt_env_of (ev_now (quiet_event 100)) (quiet_event 100)) after_hello = ["5"%string].
Proof. vm_compute. reflexivity. Qed.

Lemma RunOnce_settles_witness :
  ∃ evs w', RunOnce default_worker working_publisher
      (World after_hello [] 0 (quiet_event 100 :: (quiet_event <$> seqZ 101 23))) =
      (Ok (Z.of_nat (List.length evs), inr []), w') ∧
    EventID <$> evs = ["5"%string] ∧
    ∀ ev, ev ∈ evs → settled default_worker 150 (w_db w') (outcome_of working_publisher evs ev).
Proof.
  destruct (RunOnce_settles default_worker 150 default_jitter_nonneg default_config_ok default_backoff_int64
    working_publisher after_hello 0 (quiet_event 100) (quiet_event <$> seqZ 101 23) after_hello_calm)
    as (evs & w' & Hrun & Hids & Hset).
  - apply Forall_fmap. repeat constructor; simpl; lia.
  - apply (bool_decide_unpack _). vm_compute. exact I.
  - vm_compute. reflexivity.
  - exact after_hello_attempts.
  - intros evs ev err Hx. discriminate Hx.
  - exists evs, w'. split; [exact Hrun|]. split; [|exact Hset]. rewrite Hids. exact due_hello.
Defined.
End delivery_examples.
