(* ===== verification/ClientStore.v ===== *)
(** [internal/headlessclient/store.go]: the client's state, sealed in one file that
    is replaced as a whole. *)
From Stdlib Require Import Ascii String.
From S2P Require Import Prelude GoStd.
Open Scope Z_scope.

Definition stateVersion : Z := 1.
Definition stateMagic : list Z := bytes_of "IMHC1".

Record AuthState : Type := MkAuthState {
  SessionID : Z; DeviceID : string; SessionExpiresAt : string; AccessToken : string;
  AccessTokenExpiresAt : string; RefreshToken : string; RefreshTokenExpiresAt : string
}.

Record PendingRefresh : Type := MkPendingRefresh {
  pending_RefreshToken : string; pending_IdempotencyKey : string
}.
#[global] Instance PendingRefresh_eq_dec : EqDecision PendingRefresh.
Proof. solve_decision. Defined.

Record Message : Type := MkMessage {
  msg_ID : Z; msg_ConversationID : Z; msg_ConversationSeq : Z; msg_ClientMessageID : string;
  msg_SenderID : Z; msg_ReceiverID : Z; msg_Content : string; msg_CreatedAt : string
}.

Record ConversationState : Type := MkConversationState {
  AppliedCursor : Z; AckedCursor : Z; PendingACK : Z; Messages : gmap string Message
}.

(** A nil map and an empty one are the same value here; [normalize] replaces the
    first by the second. *)
Record State : Type := MkState {
  Version : Z; Auth : option AuthState; Pending : option PendingRefresh;
  Conversations : gmap string ConversationState
}.

Definition zero_state : State := MkState 0 None None ∅.
Definition normalize (s : State) : State := MkState stateVersion (Auth s) (Pending s) (Conversations s).

(** * What JSON text carries exactly: valid UTF-8, and keys that are numbers *)

Definition text_auth (a : AuthState) : Prop :=
  Forall (λ t, ValidString t = true) [DeviceID a; SessionExpiresAt a; AccessToken a; AccessTokenExpiresAt a;
    RefreshToken a; RefreshTokenExpiresAt a].
Definition text_pending (p : PendingRefresh) : Prop :=
  Forall (λ t, ValidString t = true) [pending_RefreshToken p; pending_IdempotencyKey p].
Definition text_message (m : Message) : Prop :=
  Forall (λ t, ValidString t = true) [msg_ClientMessageID m; msg_Content m; msg_CreatedAt m].
Definition text_conversation (c : ConversationState) : Prop :=
  map_Forall (λ k m, (∃ z, k = FormatInt z) ∧ text_message m) (Messages c).

Record text_state (s : State) : Prop := TextState {
  ts_auth : ∀ a, Auth s = Some a → text_auth a;
  ts_pending : ∀ p, Pending s = Some p → text_pending p;
  ts_conversations : map_Forall (λ k c, (∃ z, k = FormatInt z) ∧ text_conversation c) (Conversations s)
}.

(** * What the store asks of its libraries *)

(** [encoding/json] on [State]. *)
Class StateCodec := {
  marshal_state : State → list Z;
  unmarshal_state : list Z → option State;
  unmarshal_marshal : ∀ s, text_state s → unmarshal_state (marshal_state s) = Some s
}.

(** * The file *)

(** How a write of the file ends: all of [persist] succeeds; it fails, or the
    process dies, before the rename; or after it (the directory's sync). *)
Inductive write_end : Type := WriteDone | FailsBeforeRename | FailsAfterRename.

(** What one call of the store meets. *)
Record store_event : Type := StoreEvent {
  file_readable : bool; file_nonce : list Z; file_write : write_end
}.

Inductive client_error : Type :=
| ClientError (text : string)
| APIError (status : Z) (code : string)
| ErrMessageGap.
#[global] Instance client_error_eq_dec : EqDecision client_error.
Proof. solve_decision. Defined.

(** The client's file, the store calls to come, and the server it talks to. *)
Record client_world (S : Type) : Type := ClientWorld {
  cw_file : option (list Z);
  cw_events : list store_event;
  cw_server : S
}.
Arguments ClientWorld {S} _ _ _.
Arguments cw_file {S} _.
Arguments cw_events {S} _.
Arguments cw_server {S} _.

Definition NewFileStore (path : string) (key : list Z) : result client_error unit :=
  if bool_decide (path = EmptyString) then Err (ClientError "state path is required")
  else if negb (List.length key =? 32)%nat then Err (ClientError "state encryption key must contain 32 bytes")
  else Ok tt.

Section store.
Context `{AEAD, StateCodec} {S : Type}.
Implicit Types (s : State) (w : client_world S).

Definition envelope (nonce : list Z) (s : State) : list Z :=
  stateMagic ++ nonce ++ aead_seal nonce (marshal_state s) stateMagic.

(** [load], the file having been read. *)
Definition load_file (file : option (list Z)) : result client_error State :=
  match file with
  | None => Ok (normalize zero_state)
  | Some encoded =>
      let n := List.length stateMagic in
      if (List.length encoded <? n + NonceSize)%nat || negb (bool_decide (take n encoded = stateMagic))
      then Err (ClientError "client state has an invalid envelope")
      else
        match aead_open (take NonceSize (drop n encoded)) (drop (n + NonceSize) encoded) stateMagic with
        | None => Err (ClientError "decrypt client state")
        | Some plaintext =>
            match unmarshal_state plaintext with
            | None => Err (ClientError "decode client state")
            | Some s =>
                if Version s =? stateVersion then Ok (normalize s)
                else Err (ClientError "unsupported client state version")
            end
        end
  end.

Definition next_call : proc (client_world S) client_error store_event := λ w,
  match cw_events w with
  | [] => (Err (ClientError "client stopped"), w)
  | e :: es => (Ok e, ClientWorld (cw_file w) es (cw_server w))
  end.

Definition load (e : store_event) : proc (client_world S) client_error State := λ w,
  if file_readable e then (load_file (cw_file w), w) else (Err (ClientError "read client state"), w).

Definition persist (e : store_event) (s : State) : proc (client_world S) client_error unit := λ w,
  let renamed := ClientWorld (Some (envelope (file_nonce e) s)) (cw_events w) (cw_server w) in
  match file_write e with
  | WriteDone => (Ok tt, renamed)
  | FailsBeforeRename => (Err (ClientError "write client state"), w)
  | FailsAfterRename => (Err (ClientError "sync client state directory"), renamed)
  end.

Definition Snapshot : proc (client_world S) client_error State :=
  e ← next_call; load e.

(** [Update]: the function's result besides the state is what its closure sets. *)
Definition Update {A} (update : State → result client_error (State * A)) : proc (client_world S) client_error A :=
  e ← next_call;
  s ← load e;
  match update s with
  | Err x => mthrow x
  | Ok (s', a) => _ ← persist e (normalize s'); mret a
  end.

(** * The stored state *)

Definition nonces_ok (w : client_world S) : Prop :=
  Forall (λ e, List.length (file_nonce e) = NonceSize) (cw_events w).

Lemma load_envelope nonce s :
  List.length nonce = NonceSize → text_state s → Version s = stateVersion →
  load_file (Some (envelope nonce s)) = Ok s.
Proof.
  intros Hn Ht Hv. unfold load_file, envelope.
  set (body := aead_seal nonce (marshal_state s) stateMagic).
  rewrite take_app_length, bool_decide_eq_true_2 by done. rewrite !length_app.
  replace (_ <? _)%nat with false by (symmetry; apply Nat.ltb_ge; lia). cbn [negb orb].
  rewrite <-drop_drop, !drop_app_length, (take_app_length' nonce), (drop_app_length' nonce) by done.
  unfold body. rewrite open_seal by done. rewrite unmarshal_marshal by done.
  rewrite Hv, Z.eqb_refl. f_equal. unfold normalize. rewrite <-Hv. by destruct s.
Qed.

Lemma load_file_version file s : load_file file = Ok s → Version s = stateVersion.
Proof.
  unfold load_file. destruct file as [encoded|]; [|by intros [= <-]].
  destruct (_ || _); [done|]. destruct (aead_open _ _ _); [|done].
  destruct (unmarshal_state _); [|done]. destruct (_ =? _); [by intros [= <-]|done].
Qed.

Lemma normalize_version s : Version (normalize s) = stateVersion.
Proof. done. Qed.

Lemma normalize_text s : text_state s → text_state (normalize s).
Proof. intros [? ? ?]. by constructor. Qed.

Lemma next_call_inv w r w' :
  next_call w = (r, w') →
  cw_file w' = cw_file w ∧ cw_server w' = cw_server w ∧ (nonces_ok w → nonces_ok w') ∧
  match r with Ok e => cw_events w = e :: cw_events w' | Err _ => True end.
Proof.
  unfold next_call, nonces_ok. destruct (cw_events w) as [|e es] eqn:E; intros [= <- <-]; simpl;
    [by rewrite E|]. split_and!; try done. by intros [_ ?]%Forall_cons.
Qed.

Lemma load_inv e w r w' :
  load e w = (r, w') → w' = w ∧ match r with Ok s => load_file (cw_file w) = Ok s | Err _ => True end.
Proof. unfold load. destruct (file_readable e); intros [= <- <-]; [|done]. by destruct (load_file _). Qed.

Lemma Snapshot_inv w r w' :
  Snapshot w = (r, w') →
  cw_file w' = cw_file w ∧ cw_server w' = cw_server w ∧ (nonces_ok w → nonces_ok w') ∧
  match r with Ok s => load_file (cw_file w) = Ok s | Err _ => True end.
Proof.
  intros Hrun. apply proc_bind_inv in Hrun as [(x & Hc & ->)|(e & w1 & Hc & Hrun)];
    apply next_call_inv in Hc as (Hf & Hs & Hn & _); [done|].
  apply load_inv in Hrun as [-> Hl]. rewrite Hf in Hl. by destruct r.
Qed.

(** Errors of the store itself, and of the update it was given. *)
Definition store_failure {A} (r : result client_error A) : Prop := ∃ text, r = Err (ClientError text).

Lemma load_file_failure file x : load_file file = Err x → ∃ text, x = ClientError text.
Proof.
  unfold load_file. destruct file as [encoded|]; [|done].
  destruct (_ || _); [intros [= <-]; eauto|]. destruct (aead_open _ _ _); [|intros [= <-]; eauto].
  destruct (unmarshal_state _); [|intros [= <-]; eauto]. destruct (_ =? _); [done|intros [= <-]; eauto].
Qed.

(** The file after an update: as before, or the sealed new state; the latter when
    the update returned nil. *)
Lemma Update_inv {A} (update : State → result client_error (State * A)) w r w' :
  Update update w = (r, w') →
  cw_server w' = cw_server w ∧ (nonces_ok w → nonces_ok w') ∧
  ((cw_file w' = cw_file w ∧
      (store_failure r ∨ ∃ s x, load_file (cw_file w) = Ok s ∧ update s = Err x ∧ r = Err x)) ∨
   ∃ s s' a nonce, load_file (cw_file w) = Ok s ∧ update s = Ok (s', a) ∧
     (nonces_ok w → List.length nonce = NonceSize) ∧ cw_file w' = Some (envelope nonce (normalize s')) ∧
     (r = Ok a ∨ store_failure r)).
Proof.
  unfold store_failure. intros Hrun.
  apply proc_bind_inv in Hrun as [(x & Hc & ->)|(e & w1 & Hc & Hrun)];
    pose proof (next_call_inv _ _ _ Hc) as (Hf & Hs & Hn & He).
  { split_and!; [done|done|]. left. split; [done|]. left. unfold next_call in Hc.
    destruct (cw_events w); [injection Hc as <-; by eexists|done]. }
  apply proc_bind_inv in Hrun as [(x & Hl & ->)|(s & w2 & Hl & Hrun)];
    pose proof (load_inv _ _ _ _ Hl) as [-> Hl'].
  { split_and!; [done|done|]. left. split; [done|]. left. unfold load in Hl.
    destruct (file_readable e); [|injection Hl as <-; by eexists].
    injection Hl as Hl. apply load_file_failure in Hl as [t ->]. by eexists. }
  rewrite Hf in Hl'. destruct (update s) as [x|[s' a]] eqn:Hu; [apply proc_throw_inv in Hrun as [-> ->]; eauto 12|].
  assert (nonces_ok w → List.length (file_nonce e) = NonceSize) as Hlen.
  { unfold nonces_ok. rewrite He. by intros [? _]%Forall_cons. }
  unfold mbind, proc_bind, persist in Hrun.
  destruct (file_write e); injection Hrun as <- <-; simpl; (split; [done|]); (split; [done|]);
    [right|left|right]; [|by eauto|]; exists s, s', a, (file_nonce e); split_and!; eauto.
Qed.
End store.
