(* ===== verification/Client.v ===== *)
(** [internal/headlessclient/client.go]: authentication, realtime messages, page
    synchronisation and acknowledgements of the headless client. *)
From Stdlib Require Import Ascii String.
From S2P Require Import Prelude GoStd ClientStore.
Open Scope Z_scope.

(** * HTTP *)

(** A reply after the transport: its status, the [code] of an error body, the size
    of the body, and what the body decodes to. *)
Inductive http_reply (A : Type) : Type :=
| NoReply
| HttpReply (status : Z) (code : string) (size : Z) (body : option A).
Arguments NoReply {A}.
Arguments HttpReply {A} _ _ _ _.

Record messagePage : Type := MessagePage {
  page_ConversationID : Z; page_Messages : list Message; page_NextCursor : Z;
  page_SnapshotCursor : Z; page_HasMore : bool
}.

(** The endpoints the client calls, on a server state. *)
Class IMServer (S : Type) := {
  post_refresh : string → string → S → http_reply AuthState * S;
  get_messages : string → Z → Z → Z → option Z → S → http_reply messagePage * S;
  post_ack : string → Z → Z → S → http_reply Z * S
}.

Definition maxResponseBodyBytes : Z := 8 * 2 ^ 20.

(** What [doJSON] makes of a reply; [zero] is the output it was given. *)
Definition read_reply {A} (zero : A) (reply : http_reply A) : result client_error A :=
  match reply with
  | NoReply => Err (ClientError "send IM request")
  | HttpReply status code size body =>
      if (status <? 200) || (300 <=? status) then Err (APIError status code)
      else if status =? 204 then Ok zero
      else if maxResponseBodyBytes <? size then Err (ClientError "IM response exceeds the size limit")
      else match body with Some a => Ok a | None => Err (ClientError "decode IM response") end
  end.

Section client.
Context `{AEAD, StateCodec} {S : Type} `{!IMServer S}.
Implicit Types (w : client_world S).

Abbreviation client_proc := (proc (client_world S) client_error).

Definition doJSON {A} (zero : A) (call : S → http_reply A * S) : client_proc A := λ w,
  let '(reply, server) := call (cw_server w) in
  (read_reply zero reply, ClientWorld (cw_file w) (cw_events w) server).

Definition fail {A} (text : string) : client_proc A := mthrow (ClientError text).

(** * Authentication *)

Definition PersistAuth (auth : AuthState) : client_proc unit :=
  if bool_decide (AccessToken auth = EmptyString) || bool_decide (RefreshToken auth = EmptyString) ||
     (SessionID auth <=? 0) || bool_decide (DeviceID auth = EmptyString)
  then fail "complete authentication state is required"
  else Update (λ s, Ok (MkState (Version s) (Some auth) None (Conversations s), tt)).

(** The first update of [Refresh]: what is pending, new or from before. *)
Definition begin_refresh (idempotencyKey : string) (s : State) : result client_error (State * PendingRefresh) :=
  match Auth s with
  | None => Err (ClientError "client is not authenticated")
  | Some auth =>
      if bool_decide (RefreshToken auth = EmptyString) then Err (ClientError "client is not authenticated")
      else
        let pending := default (MkPendingRefresh (RefreshToken auth) idempotencyKey) (Pending s) in
        if bool_decide (pending_IdempotencyKey pending = idempotencyKey)
        then Ok (MkState (Version s) (Auth s) (Some pending) (Conversations s), pending)
        else Err (ClientError "a different refresh operation is already pending")
  end.

Definition finish_refresh (pending : PendingRefresh) (response : AuthState) (s : State) :
    result client_error (State * unit) :=
  if bool_decide (Pending s = Some pending)
  then Ok (MkState (Version s) (Some response) None (Conversations s), tt)
  else Err (ClientError "pending refresh changed before commit").

Definition zero_auth : AuthState :=
  MkAuthState 0 EmptyString EmptyString EmptyString EmptyString EmptyString EmptyString.

Definition Refresh (idempotencyKey : string) : client_proc unit :=
  if bool_decide (idempotencyKey = EmptyString) then fail "refresh idempotency key is required"
  else
    pending ← Update (begin_refresh idempotencyKey);
    response ← doJSON zero_auth (post_refresh (pending_RefreshToken pending) (pending_IdempotencyKey pending));
    Update (finish_refresh pending response).

(** * Messages *)

Inductive ApplyResult : Type := Applied | Duplicate.

Definition new_conversation : ConversationState := MkConversationState 0 0 0 ∅.

(** The update of [applyMessage]. *)
Definition apply_update (m : Message) (s : State) : result client_error (State * ApplyResult) :=
  let key := FormatInt (msg_ConversationID m) in
  let conversation := default new_conversation (Conversations s !! key) in
  let messageKey := FormatInt (msg_ConversationSeq m) in
  let store c := MkState (Version s) (Auth s) (Pending s) (<[key := c]> (Conversations s)) in
  if msg_ConversationSeq m <=? AppliedCursor conversation then
    match Messages conversation !! messageKey with
    | Some existing =>
        if msg_ID existing =? msg_ID m then Ok (store conversation, Duplicate)
        else Err (ClientError "message cursor conflicts with durable local state")
    | None => Err (ClientError "message cursor conflicts with durable local state")
    end
  else if negb (msg_ConversationSeq m =? wrap64 (AppliedCursor conversation + 1)) then Err ErrMessageGap
  else
    let applied := msg_ConversationSeq m in
    Ok (store (MkConversationState applied (AckedCursor conversation)
                 (if PendingACK conversation <? applied then applied else PendingACK conversation)
                 (<[messageKey := m]> (Messages conversation))), Applied).

Definition applyMessage (m : Message) : client_proc ApplyResult :=
  if (msg_ID m <=? 0) || (msg_ConversationID m <=? 0) || (msg_ConversationSeq m <=? 0)
  then fail "message identity and cursor must be positive"
  else Update (apply_update m).

Record RealtimeEnvelope : Type := MkRealtimeEnvelope {
  env_Type : string; env_ConversationID : Z; env_ConversationSeq : Z; env_Message : Message
}.

Definition ApplyRealtime (envelope : RealtimeEnvelope) : client_proc ApplyResult :=
  if negb (bool_decide (env_Type envelope = "message.created"%string)) || (env_ConversationID envelope <=? 0)
  then fail "invalid realtime message envelope"
  else if negb (msg_ConversationID (env_Message envelope) =? env_ConversationID envelope) ||
          negb (msg_ConversationSeq (env_Message envelope) =? env_ConversationSeq envelope)
  then fail "realtime envelope and message cursor disagree"
  else applyMessage (env_Message envelope).

Fixpoint apply_all (ms : list Message) : client_proc unit :=
  match ms with
  | [] => mret tt
  | m :: rest => _ ← applyMessage m; apply_all rest
  end.

(** * Synchronisation *)

Definition conversation_state (conversationID : Z) (s : State) : option ConversationState :=
  Conversations s !! FormatInt conversationID.

Definition applied_cursor (conversationID : Z) (s : State) : Z :=
  match conversation_state conversationID s with Some c => AppliedCursor c | None => 0 end.

Definition zero_page : messagePage := MessagePage 0 [] 0 0 false.

(** The endless loop of [SyncConversation] runs on fuel. *)
Inductive sync_end : Type := Synced | OutOfFuel.

(** One round of the loop: the snapshot cursor to go on with, if any. *)
Definition sync_round (conversationID pageLimit snapshotCursor : Z) : client_proc (option Z) :=
  s ← Snapshot;
  match Auth s with
  | None => fail "client is not authenticated"
  | Some auth =>
      let after := applied_cursor conversationID s in
      page ← doJSON zero_page (get_messages (AccessToken auth) conversationID after pageLimit
        (if 0 <? snapshotCursor then Some snapshotCursor else None));
      if negb (page_ConversationID page =? conversationID) || (page_NextCursor page <? after)
      then fail "sync page cursor is invalid"
      else if negb (snapshotCursor =? 0) && negb (page_SnapshotCursor page =? snapshotCursor)
      then fail "sync snapshot changed between pages"
      else
        _ ← apply_all (page_Messages page);
        s ← Snapshot;
        match conversation_state conversationID s with
        | None => fail "sync page did not advance to the advertised cursor"
        | Some c =>
            if negb (AppliedCursor c =? page_NextCursor page)
            then fail "sync page did not advance to the advertised cursor"
            else mret (if page_HasMore page then
                         Some (if snapshotCursor =? 0 then page_SnapshotCursor page else snapshotCursor)
                       else None)
        end
  end.

Fixpoint sync_loop (fuel : nat) (conversationID pageLimit snapshotCursor : Z) : client_proc sync_end :=
  match fuel with
  | O => mret OutOfFuel
  | Datatypes.S fuel =>
      more ← sync_round conversationID pageLimit snapshotCursor;
      match more with
      | None => mret Synced
      | Some snapshotCursor => sync_loop fuel conversationID pageLimit snapshotCursor
      end
  end.

Definition SyncConversation (fuel : nat) (conversationID pageLimit : Z) : client_proc sync_end :=
  if (conversationID <=? 0) || (pageLimit <=? 0) || (200 <? pageLimit)
  then fail "valid conversation and page limit are required"
  else sync_loop fuel conversationID pageLimit 0.

(** * Acknowledgement *)

(** The update after the server's answer. *)
Definition ack_update (conversationKey : string) (applied : Z) (s : State) : result client_error (State * unit) :=
  match Conversations s !! conversationKey with
  | None => Err (ClientError "conversation disappeared before ACK commit")
  | Some c =>
      let acked := if AckedCursor c <? applied then applied else AckedCursor c in
      let pending := if PendingACK c <=? applied then 0 else PendingACK c in
      Ok (MkState (Version s) (Auth s) (Pending s)
            (<[conversationKey := MkConversationState (AppliedCursor c) acked pending (Messages c)]>
               (Conversations s)), tt)
  end.

Definition FlushACK (conversationID : Z) : client_proc unit :=
  s ← Snapshot;
  match Auth s with
  | None => fail "client is not authenticated"
  | Some auth =>
      match conversation_state conversationID s with
      | None => mret tt
      | Some c =>
          if PendingACK c <=? AckedCursor c then mret tt
          else
            applied ← doJSON 0 (post_ack (AccessToken auth) conversationID (PendingACK c));
            if applied <? PendingACK c then fail "server acknowledged an older cursor"
            else Update (ack_update (FormatInt conversationID) applied)
      end
  end.
End client.
