(* ===== verification/ClientLog.v ===== *)
(** What the headless client keeps on disk: a gap-free log per conversation, and an
    acknowledgement that is never forgotten. *)
From Stdlib Require Import Ascii String.
From S2P Require Import Prelude GoStd ClientStore Client.
Open Scope Z_scope.

(** * The invariant of a stored conversation *)

(** The log of conversation [id] holds exactly the messages 1 to [AppliedCursor],
    each under its own number; what is applied is acknowledged or waits to be. *)
Record conversation_log (id : Z) (c : ConversationState) : Prop := ConversationLog {
  cl_id : 0 < id;
  cl_cursors : 0 ≤ AppliedCursor c ≤ int64_max ∧ 0 ≤ AckedCursor c ∧ 0 ≤ PendingACK c;
  cl_pending : AppliedCursor c ≤ AckedCursor c `max` PendingACK c ∧ PendingACK c ≤ AppliedCursor c;
  cl_complete : ∀ n, 1 ≤ n ≤ AppliedCursor c → ∃ m, Messages c !! FormatInt n = Some m;
  cl_messages : ∀ k m, Messages c !! k = Some m →
    k = FormatInt (msg_ConversationSeq m) ∧ 1 ≤ msg_ConversationSeq m ≤ AppliedCursor c ∧
    msg_ConversationID m = id ∧ 0 < msg_ID m
}.

Definition client_log (s : State) : Prop := ∀ key c, Conversations s !! key = Some c →
  ∃ id, key = FormatInt id ∧ conversation_log id c.

(** Every stored message satisfies [P]. *)
Definition log_all (P : Message → Prop) (s : State) : Prop := ∀ key c k m,
  Conversations s !! key = Some c → Messages c !! k = Some m → P m.

Lemma client_log_lookup s id c :
  client_log s → Conversations s !! FormatInt id = Some c → conversation_log id c.
Proof. intros Hs Hc. destruct (Hs _ _ Hc) as (id' & Heq & Hl). by apply (inj FormatInt) in Heq as ->. Qed.

Lemma client_log_insert s id c v a p :
  client_log s → conversation_log id c →
  client_log (MkState v a p (<[FormatInt id := c]> (Conversations s))).
Proof.
  intros Hs Hc key c'. simpl. rewrite lookup_insert_Some. intros [[<- <-]|[_ Hk]]; [by exists id|by apply Hs].
Qed.

Lemma log_all_insert P s key c v a p :
  log_all P s → (∀ k m, Messages c !! k = Some m → P m) →
  log_all P (MkState v a p (<[key := c]> (Conversations s))).
Proof.
  intros Hs Hc key' c' k m. simpl. rewrite lookup_insert_Some. intros [[<- <-]|[_ Hk]]; [by apply Hc|by eapply Hs].
Qed.

Lemma new_conversation_log id : 0 < id → conversation_log id new_conversation.
Proof.
  intros Hid. constructor; simpl; [done|by unfold int64_max|done|lia|].
  intros k m. by rewrite lookup_empty.
Qed.

(** * One message *)

(** What [apply_update] does on every branch. *)
Lemma apply_update_cases m s :
  client_log s → 0 < msg_ConversationID m → 0 < msg_ConversationSeq m ≤ int64_max →
  let applied := applied_cursor (msg_ConversationID m) s in
  match apply_update m s with
  | Ok (s', Applied) => msg_ConversationSeq m = applied + 1 ∧
      applied_cursor (msg_ConversationID m) s' = msg_ConversationSeq m ∧
      ∃ c', conversation_state (msg_ConversationID m) s' = Some c' ∧
        Messages c' !! FormatInt (msg_ConversationSeq m) = Some m ∧
        s' = MkState (Version s) (Auth s) (Pending s) (<[FormatInt (msg_ConversationID m) := c']> (Conversations s))
  | Ok (s', Duplicate) => s' = s ∧ msg_ConversationSeq m ≤ applied ∧
      ∃ c old, conversation_state (msg_ConversationID m) s = Some c ∧
        Messages c !! FormatInt (msg_ConversationSeq m) = Some old ∧ msg_ID old = msg_ID m
  | Err ErrMessageGap => applied + 1 < msg_ConversationSeq m
  | Err _ => msg_ConversationSeq m ≤ applied ∧
      ∃ c old, conversation_state (msg_ConversationID m) s = Some c ∧
        Messages c !! FormatInt (msg_ConversationSeq m) = Some old ∧ msg_ID old ≠ msg_ID m
  end.
Proof.
  intros Hs Hid Hseq. unfold apply_update, applied_cursor, conversation_state.
  set (key := FormatInt (msg_ConversationID m)).
  destruct (Conversations s !! key) as [c|] eqn:Hc; cbn [from_option id].
  - pose proof (client_log_lookup s _ _ Hs Hc) as Hl. pose proof (cl_cursors _ _ Hl) as ((Ha1 & Ha2) & _).
    destruct (_ <=? AppliedCursor c) eqn:E; [apply Z.leb_le in E|apply Z.leb_gt in E].
    + assert (1 ≤ msg_ConversationSeq m ≤ AppliedCursor c) as Hle by lia.
      destruct (cl_complete _ _ Hl _ Hle) as (old & Hold). rewrite Hold.
      destruct (msg_ID old =? msg_ID m) eqn:Eid.
      * split_and!; [|done|exists c, old; split_and!; try done; lia].
        rewrite insert_id by done. by destruct s.
      * split; [done|]. exists c, old. split_and!; try done. lia.
    + destruct (negb _) eqn:Eg; [|].
      * apply negb_true_iff, Z.eqb_neq in Eg. rewrite wrap64_id in Eg by (unfold is_int64, int64_min; lia). lia.
      * apply negb_false_iff, Z.eqb_eq in Eg. rewrite wrap64_id in Eg by (unfold is_int64, int64_min; lia).
        cbn [Conversations]. rewrite lookup_insert_eq. split; [done|]. split; [done|].
        eexists. split; [done|]. split; [|done]. simpl. apply lookup_insert_eq.
  - cbn [AppliedCursor new_conversation].
    destruct (_ <=? 0) eqn:E; [apply Z.leb_le in E; lia|].
    rewrite (wrap64_id (0 + 1)) by by split.
    destruct (negb _) eqn:Eg.
    + apply negb_true_iff, Z.eqb_neq in Eg. lia.
    + apply negb_false_iff, Z.eqb_eq in Eg. cbn [Conversations]. rewrite lookup_insert_eq.
      split; [lia|]. split; [done|]. eexists. split; [done|]. split; [|done]. simpl. apply lookup_insert_eq.
Qed.

(** A message the client accepts as well formed, as JSON text delivers it. *)
Definition message_valid (m : Message) : Prop :=
  0 < msg_ID m ∧ 0 < msg_ConversationID m ∧ 0 < msg_ConversationSeq m ≤ int64_max ∧ text_message m.

Lemma apply_applied_log id c m :
  conversation_log id c → msg_ConversationID m = id → 0 < msg_ID m →
  msg_ConversationSeq m = AppliedCursor c + 1 → msg_ConversationSeq m ≤ int64_max →
  conversation_log id (MkConversationState (msg_ConversationSeq m) (AckedCursor c)
    (if PendingACK c <? msg_ConversationSeq m then msg_ConversationSeq m else PendingACK c)
    (<[FormatInt (msg_ConversationSeq m) := m]> (Messages c))).
Proof.
  intros [Hid (Ha & Hk & Hp) [Hcov Hpa] Hcomp Hmsgs] Hcid Hmid Hseq Hmax. constructor; simpl.
  - done.
  - destruct (PendingACK c <? _) eqn:E; lia.
  - destruct (PendingACK c <? _) eqn:E; [apply Z.ltb_lt in E|apply Z.ltb_ge in E]; lia.
  - intros n Hn. destruct (decide (n = msg_ConversationSeq m)) as [->|Hne]; [by rewrite lookup_insert_eq; eauto|].
    rewrite lookup_insert_ne by (intros Heq; by apply (inj FormatInt) in Heq). apply Hcomp. lia.
  - intros k m'. rewrite lookup_insert_Some. intros [[<- <-]|[_ Hk']]; [split_and!; (done || lia)|].
    destruct (Hmsgs k m' Hk') as (? & ? & ? & ?). split_and!; (done || lia).
Qed.

Lemma apply_update_keeps P m s s' r :
  client_log s → log_all P s → text_state s → message_valid m → P m →
  apply_update m s = Ok (s', r) → client_log s' ∧ log_all P s' ∧ text_state s'.
Proof.
  intros Hs HP Ht (Hmid & Hcid & Hseq & Hmt) HPm Hrun. unfold apply_update in Hrun.
  set (key := FormatInt (msg_ConversationID m)) in *.
  set (c := default new_conversation (Conversations s !! key)) in *.
  assert (conversation_log (msg_ConversationID m) c ∧ (∀ k m', Messages c !! k = Some m' → P m') ∧ text_conversation c)
    as (Hl & HPc & Htc).
  { unfold c. destruct (Conversations s !! key) as [c0|] eqn:Hc; cbn [from_option id].
    - split_and!; [by apply client_log_lookup in Hc|by intros; eapply HP|by apply (ts_conversations _ Ht) in Hc as [_ ?]].
    - split_and!; [by apply new_conversation_log|by intros k m'; cbn; rewrite lookup_empty|by apply map_Forall_empty]. }
  assert (∀ c', conversation_log (msg_ConversationID m) c' → (∀ k m', Messages c' !! k = Some m' → P m') →
    text_conversation c' → s' = MkState (Version s) (Auth s) (Pending s) (<[key := c']> (Conversations s)) →
    client_log s' ∧ log_all P s' ∧ text_state s') as Hstore.
  { intros c' Hl' HP' Ht' ->. split_and!; [by apply client_log_insert|by apply log_all_insert|].
    destruct Ht as [? ? Htcs]. constructor; simpl; try done. apply map_Forall_insert_2; [|done].
    split; [by eexists|done]. }
  destruct (_ <=? AppliedCursor c) eqn:E.
  - destruct (Messages c !! _) as [old|]; [|done]. destruct (_ =? _); [|done]. injection Hrun as <- <-.
    by apply (Hstore c).
  - destruct (negb _) eqn:Eg; [done|]. injection Hrun as <- <-. apply negb_false_iff, Z.eqb_eq in Eg.
    apply Z.leb_gt in E. pose proof (cl_cursors _ _ Hl) as ((? & ?) & _).
    rewrite wrap64_id in Eg by (unfold is_int64, int64_min; lia).
    apply (Hstore _ (apply_applied_log _ c m Hl eq_refl Hmid Eg (proj2 Hseq))); [| |done].
    + intros k m'. simpl. rewrite lookup_insert_Some. intros [[_ <-]|[_ Hk]]; [done|by eapply HPc].
    + unfold text_conversation. simpl. apply map_Forall_insert_2; [|done]. split; [by eexists|done].
Qed.

Lemma ack_update_keeps P id applied s s' :
  client_log s → log_all P s → text_state s → 0 ≤ applied ≤ int64_max →
  ack_update (FormatInt id) applied s = Ok (s', tt) → client_log s' ∧ log_all P s' ∧ text_state s'.
Proof.
  intros Hs HP Ht Ha Hrun. unfold ack_update in Hrun.
  destruct (Conversations s !! FormatInt id) as [c|] eqn:Hc; [|done]. injection Hrun as <-.
  pose proof (client_log_lookup s _ _ Hs Hc) as [Hid (Hac & Hk & Hp) [Hcov Hpa] Hcomp Hmsgs].
  destruct (ts_conversations _ Ht _ _ Hc) as [_ Htc]. split_and!.
  - apply client_log_insert; [done|]. constructor; simpl; [done| | |done|done].
    + destruct (AckedCursor c <? applied) eqn:E1; destruct (PendingACK c <=? applied) eqn:E2; lia.
    + destruct (AckedCursor c <? applied) eqn:E1; [apply Z.ltb_lt in E1|apply Z.ltb_ge in E1];
        (destruct (PendingACK c <=? applied) eqn:E2; [apply Z.leb_le in E2|apply Z.leb_gt in E2]); lia.
  - apply log_all_insert; [done|]. intros k m Hm. simpl in Hm. by eapply HP.
  - destruct Ht as [? ? Htcs]. constructor; simpl; try done. apply map_Forall_insert_2; [|done].
    split; [by eexists|done].
Qed.

(** * The client on its file *)

(** What decoding a JSON reply gives: valid UTF-8 and 64-bit integers. *)
Class DecodedReplies (S : Type) `{!IMServer S} := {
  refresh_decoded : ∀ t k s status code size a s',
    post_refresh t k s = (HttpReply status code size (Some a), s') → text_auth a;
  messages_decoded : ∀ t id after limit snap s status code size page s',
    get_messages t id after limit snap s = (HttpReply status code size (Some page), s') →
    Forall (λ m, text_message m ∧ msg_ConversationSeq m ≤ int64_max) (page_Messages page);
  ack_decoded : ∀ t id cursor s status code size applied s',
    post_ack t id cursor s = (HttpReply status code size (Some applied), s') → applied ≤ int64_max
}.

Lemma read_reply_ok {A} (zero : A) reply a :
  read_reply zero reply = Ok a →
  a = zero ∨ ∃ status code size, reply = HttpReply status code size (Some a) ∧ 200 ≤ status < 300.
Proof.
  destruct reply as [|status code size body]; simpl; [done|].
  destruct (_ || _) eqn:E; [done|]. apply orb_false_iff in E as [E1%Z.ltb_ge E2%Z.leb_gt].
  destruct (_ =? 204); [intros [= ->]; by left|]. destruct (_ <? size); [done|].
  destruct body as [b|]; [|done]. intros [= ->]. right. exists status, code, size. split; [done|lia].
Qed.

Section operations.
Context `{AEAD, StateCodec} {S : Type} `{!IMServer S, !DecodedReplies S}.
Implicit Types (w : client_world S) (P : Message → Prop).

(** The file holds a well-formed state whose messages satisfy [P]. *)
Definition state_ok P (s : State) : Prop := client_log s ∧ log_all P s ∧ text_state s.

Record file_ok P w : Prop := FileOk {
  fo_nonces : nonces_ok w;
  fo_state : ∃ s, load_file (cw_file w) = Ok s ∧ state_ok P s
}.

Lemma state_ok_normalize P s : state_ok P s → state_ok P (normalize s).
Proof. intros (Hl & Hp & Ht). split_and!; [done|done|by apply normalize_text]. Qed.

(** No file yet. *)
Lemma state_ok_zero P : state_ok P (normalize zero_state).
Proof.
  split_and!.
  - intros key c. simpl. by rewrite lookup_empty.
  - intros key c k m. simpl. by rewrite lookup_empty.
  - constructor; simpl; [done|done|by apply map_Forall_empty].
Qed.

Lemma Snapshot_keeps P w r w' :
  file_ok P w → Snapshot w = (r, w') →
  file_ok P w' ∧ cw_server w' = cw_server w ∧ cw_file w' = cw_file w ∧
  match r with Ok s => load_file (cw_file w) = Ok s ∧ state_ok P s | Err _ => True end.
Proof.
  intros [Hn (s & Hl & Hs)] Hrun. apply Snapshot_inv in Hrun as (Hf & Hsv & Hn' & Hr).
  split_and!; [|done|done|].
  - constructor; [by apply Hn'|]. exists s. by rewrite Hf.
  - destruct r as [|s0]; [done|]. rewrite Hl in Hr. injection Hr as <-. done.
Qed.

Lemma store_failure_error {A} (r : result client_error A) : store_failure r → is_ok r = false.
Proof. by intros [t ->]. Qed.

Lemma Update_keeps {A} P (update : State → result client_error (State * A)) w r w' :
  (∀ s s' a, state_ok P s → update s = Ok (s', a) → state_ok P s') →
  file_ok P w → Update update w = (r, w') →
  file_ok P w' ∧ cw_server w' = cw_server w ∧ ∃ s, load_file (cw_file w) = Ok s ∧ state_ok P s ∧
  ((cw_file w' = cw_file w ∧ (store_failure r ∨ ∃ x, update s = Err x ∧ r = Err x)) ∨
   ∃ s' a, update s = Ok (s', a) ∧ load_file (cw_file w') = Ok (normalize s') ∧ (r = Ok a ∨ store_failure r)).
Proof.
  intros Hup [Hn (s & Hl & Hs)] Hrun.
  apply Update_inv in Hrun as (Hsv & Hn' & [[Hf Hr]|(s0 & s' & a & nonce & Hl0 & Hu & Hlen & Hf & Hr)]).
  - split_and!; [|done|]; [constructor; [by apply Hn'|]; exists s; by rewrite Hf|].
    exists s. split_and!; [done|done|]. left. split; [done|].
    destruct Hr as [?|(s0 & x & Hl0 & Hu & ->)]; [by left|right]. rewrite Hl in Hl0. injection Hl0 as <-. eauto.
  - rewrite Hl in Hl0. injection Hl0 as <-. pose proof (Hup _ _ _ Hs Hu) as Hs'.
    assert (load_file (cw_file w') = Ok (normalize s')) as Hl'.
    { rewrite Hf. apply load_envelope; [by apply Hlen|apply normalize_text, Hs'|done]. }
    split_and!; [|done|].
    + constructor; [by apply Hn'|]. exists (normalize s'). split; [done|]. by apply state_ok_normalize.
    + exists s. split_and!; [done|done|]. right. by exists s', a.
Qed.

Lemma doJSON_keeps {A} P (zero : A) call w r w' :
  file_ok P w → doJSON zero call w = (r, w') →
  file_ok P w' ∧ cw_file w' = cw_file w ∧ cw_server w' = (call (cw_server w)).2 ∧
  r = read_reply zero (call (cw_server w)).1.
Proof.
  intros [Hn Hs] Hrun. unfold doJSON in Hrun. destruct (call (cw_server w)) as [reply sv].
  injection Hrun as <- <-. split_and!; [by constructor|done|done|done].
Qed.

Lemma applyMessage_keeps P m w r w' :
  text_message m → msg_ConversationSeq m ≤ int64_max → P m →
  file_ok P w → applyMessage m w = (r, w') → file_ok P w' ∧ cw_server w' = cw_server w.
Proof.
  intros Ht Hmax HP Hw Hrun. unfold applyMessage in Hrun. destruct (_ || _) eqn:E.
  { apply proc_throw_inv in Hrun as [_ ->]. done. }
  apply orb_false_iff in E as [E E3%Z.leb_gt]. apply orb_false_iff in E as [E1%Z.leb_gt E2%Z.leb_gt].
  apply Update_keeps with (P := P) in Hrun as (? & ? & _); [done| |done].
  intros s s' a (Hl & Hp & Hts) Hu. by eapply apply_update_keeps.
Qed.

Lemma apply_all_keeps P ms w r w' :
  Forall (λ m, text_message m ∧ msg_ConversationSeq m ≤ int64_max) ms → Forall P ms →
  file_ok P w → apply_all ms w = (r, w') → file_ok P w' ∧ cw_server w' = cw_server w.
Proof.
  intros Ht HP. revert w r w'. induction Ht as [|m ms [Hm1 Hm2] Ht IH]; intros w r w' Hw Hrun; simpl in Hrun.
  { apply proc_ret_inv in Hrun as [_ ->]. done. }
  apply Forall_cons in HP as [HPm HP].
  apply proc_bind_inv in Hrun as [(x & Ha & ->)|(x & w1 & Ha & Hrun)];
    apply applyMessage_keeps with (P := P) in Ha as [Hw1 Hs1]; try done.
  destruct (IH HP w1 r w' Hw1 Hrun). split; [done|congruence].
Qed.
End operations.
