(* ===== verification/ClientPromises.v ===== *)
(** What the headless client promises: its file is replaced as a whole, its log has
    no gap, acknowledgements and refreshes survive failures. *)
From Stdlib Require Import Ascii String.
From S2P Require Import Prelude GoStd ClientStore Client ClientLog.
Open Scope Z_scope.

(** * Calls *)

Inductive client_call : Type :=
| CallPersistAuth (auth : AuthState)
| CallRefresh (idempotencyKey : string)
| CallRealtime (envelope : RealtimeEnvelope)
| CallSync (fuel : nat) (conversationID pageLimit : Z)
| CallFlush (conversationID : Z).

(** The arguments are text that JSON carries, and 64-bit integers. *)
Definition call_valid (c : client_call) : Prop :=
  match c with
  | CallPersistAuth auth => text_auth auth
  | CallRefresh key => ValidString key = true
  | CallRealtime e => text_message (env_Message e) ∧ msg_ConversationSeq (env_Message e) ≤ int64_max
  | CallSync _ _ _ | CallFlush _ => True
  end.

Section promises.
Context `{AEAD, StateCodec} {S : Type} `{!IMServer S, !DecodedReplies S}.
Implicit Types (w : client_world S) (P : Message → Prop).

Definition run_call (c : client_call) : proc (client_world S) client_error unit :=
  match c with
  | CallPersistAuth auth => PersistAuth auth
  | CallRefresh key => Refresh key
  | CallRealtime e => _ ← ApplyRealtime e; mret tt
  | CallSync fuel id limit => _ ← SyncConversation fuel id limit; mret tt
  | CallFlush id => FlushACK id
  end.

(** Calls one after the other, whatever each returns. *)
Fixpoint run_calls (calls : list client_call) w : client_world S :=
  match calls with
  | [] => w
  | c :: rest => run_calls rest (run_call c w).2
  end.

Lemma PersistAuth_keeps P auth w r w' :
  text_auth auth → file_ok P w → PersistAuth auth w = (r, w') → file_ok P w'.
Proof.
  intros Ha Hw Hrun. unfold PersistAuth in Hrun. destruct (_ || _).
  { apply proc_throw_inv in Hrun as [_ ->]. done. }
  apply Update_keeps with (P := P) in Hrun as (? & _); [done| |done].
  intros s s' [] (Hl & Hp & [_ _ Hc]) [= <-]. split_and!; [done|done|].
  constructor; simpl; [by intros a [= <-]|done|done].
Qed.

Lemma begin_refresh_keeps P key s s' p :
  ValidString key = true → state_ok P s → begin_refresh key s = Ok (s', p) → state_ok P s'.
Proof.
  intros Hk (Hl & Hp & Ht) Hrun. unfold begin_refresh in Hrun.
  destruct (Auth s) as [auth|] eqn:Ha; [|done]. destruct (bool_decide (RefreshToken auth = _)); [done|].
  destruct (bool_decide _); [|done]. injection Hrun as <- <-. split_and!; [done|done|].
  destruct Ht as [Hta Htp Htc]. constructor; simpl; [by rewrite <-Ha|intros p [= <-]|done].
  destruct (Pending s) as [p0|]; simpl; [by apply Htp|].
  pose proof (Hta auth Ha) as Htok. unfold text_auth in Htok. rewrite !Forall_cons in Htok.
  repeat constructor; simpl; tauto.
Qed.

Lemma finish_refresh_keeps P p response s s' :
  text_auth response → state_ok P s → finish_refresh p response s = Ok (s', tt) → state_ok P s'.
Proof.
  intros Hr (Hl & Hp & [_ _ Hc]) Hrun. unfold finish_refresh in Hrun.
  destruct (bool_decide _); [|done]. injection Hrun as <-. split_and!; [done|done|].
  constructor; simpl; [by intros a [= <-]|done|done].
Qed.

Lemma decoded_auth t k sv response :
  Ok response = read_reply zero_auth (post_refresh t k sv).1 → text_auth response.
Proof.
  intros Hr. symmetry in Hr. apply read_reply_ok in Hr as [->|(st & code & size & Hr & _)]; [by repeat constructor|].
  destruct (post_refresh t k sv) as [reply sv'] eqn:Hp. simpl in Hr. subst reply. by eapply refresh_decoded.
Qed.

Lemma Refresh_keeps P key w r w' :
  ValidString key = true → file_ok P w → Refresh key w = (r, w') → file_ok P w'.
Proof.
  intros Hk Hw Hrun. unfold Refresh in Hrun. destruct (bool_decide _).
  { apply proc_throw_inv in Hrun as [_ ->]. done. }
  apply proc_bind_inv in Hrun as [(x & Hb & ->)|(p & w1 & Hb & Hrun)];
    apply Update_keeps with (P := P) in Hb as (Hw1 & _); try done;
    try (by intros ? ? ?; apply begin_refresh_keeps).
  apply proc_bind_inv in Hrun as [(x & Hj & ->)|(response & w2 & Hj & Hrun)];
    apply doJSON_keeps with (P := P) in Hj as (Hw2 & _ & _ & Hr); try done.
  assert (text_auth response) as Hresp by (by eapply decoded_auth).
  apply Update_keeps with (P := P) in Hrun as (? & _); [done| |done].
  intros s s' []. by apply finish_refresh_keeps.
Qed.

Lemma ApplyRealtime_keeps P e w r w' :
  text_message (env_Message e) → msg_ConversationSeq (env_Message e) ≤ int64_max → P (env_Message e) →
  file_ok P w → ApplyRealtime e w = (r, w') → file_ok P w'.
Proof.
  intros Ht Hm HP Hw Hrun. unfold ApplyRealtime in Hrun.
  destruct (_ || _); [apply proc_throw_inv in Hrun as [_ ->]; done|].
  destruct (_ || _); [apply proc_throw_inv in Hrun as [_ ->]; done|].
  by apply applyMessage_keeps with (P := P) in Hrun as [? _].
Qed.

Lemma sync_round_keeps P id limit snapshot w r w' :
  (∀ m, P m) → file_ok P w → sync_round id limit snapshot w = (r, w') → file_ok P w'.
Proof.
  intros HP Hw Hrun. unfold sync_round in Hrun.
  apply proc_bind_inv in Hrun as [(x & Hs & ->)|(s & w1 & Hs & Hrun)];
    apply Snapshot_keeps with (P := P) in Hs as (Hw1 & _); try done.
  destruct (Auth s) as [auth|]; [|apply proc_throw_inv in Hrun as [_ ->]; done].
  apply proc_bind_inv in Hrun as [(x & Hj & ->)|(page & w2 & Hj & Hrun)];
    apply doJSON_keeps with (P := P) in Hj as (Hw2 & _ & _ & Hr); try done.
  destruct (_ || _); [apply proc_throw_inv in Hrun as [_ ->]; done|].
  destruct (_ && _); [apply proc_throw_inv in Hrun as [_ ->]; done|].
  assert (Forall (λ m, text_message m ∧ msg_ConversationSeq m ≤ int64_max) (page_Messages page)) as Hm.
  { symmetry in Hr. apply read_reply_ok in Hr as [->|(st & code & size & Hr & _)]; [constructor|].
    destruct (get_messages _ _ _ _ _ _) as [reply sv] eqn:Hp. simpl in Hr. subst reply. by eapply messages_decoded. }
  apply proc_bind_inv in Hrun as [(x & Ha & ->)|([] & w3 & Ha & Hrun)];
    apply apply_all_keeps with (P := P) in Ha as [Hw3 _]; try done;
    try by apply Forall_true.
  apply proc_bind_inv in Hrun as [(x & Hs2 & ->)|(s2 & w4 & Hs2 & Hrun)];
    apply Snapshot_keeps with (P := P) in Hs2 as (Hw4 & _); try done.
  destruct (conversation_state id s2) as [c|]; [|apply proc_throw_inv in Hrun as [_ ->]; done].
  destruct (negb _); [apply proc_throw_inv in Hrun as [_ ->]|apply proc_ret_inv in Hrun as [_ ->]]; done.
Qed.

Lemma sync_loop_keeps P fuel id limit snapshot w r w' :
  (∀ m, P m) → file_ok P w → sync_loop fuel id limit snapshot w = (r, w') → file_ok P w'.
Proof.
  intros HP. revert snapshot w r w'. induction fuel as [|fuel IH]; intros snapshot w r w' Hw Hrun; simpl in Hrun.
  { apply proc_ret_inv in Hrun as [_ ->]. done. }
  apply proc_bind_inv in Hrun as [(x & Hs & ->)|(more & w1 & Hs & Hrun)];
    apply sync_round_keeps with (P := P) in Hs; try done.
  destruct more as [snap|]; [by eapply IH|apply proc_ret_inv in Hrun as [_ ->]; done].
Qed.

(** A flush leaves the file alone, or records the server's answer in it. *)
Lemma FlushACK_run P id w r w' :
  file_ok P w → FlushACK id w = (r, w') →
  file_ok P w' ∧ ∃ s, (load_file (cw_file w) = Ok s ∧ state_ok P s) ∧
    ((cw_file w' = cw_file w ∧
      (r = Ok tt → ∀ c, conversation_state id s = Some c → PendingACK c ≤ AckedCursor c)) ∨
     ∃ c applied s', conversation_state id s = Some c ∧ PendingACK c ≤ applied ∧
       ack_update (FormatInt id) applied s = Ok (s', tt) ∧ load_file (cw_file w') = Ok (normalize s')).
Proof.
  intros Hw Hrun. pose proof (fo_state _ _ Hw) as (s & Hl & Hs). unfold FlushACK in Hrun.
  apply proc_bind_inv in Hrun as [(x & Hq & ->)|(s0 & w1 & Hq & Hrun)];
    apply Snapshot_keeps with (P := P) in Hq as (Hw1 & _ & Hf1 & Hr1); try done.
  { split; [done|]. exists s. split; [done|]. left. by split. }
  destruct Hr1 as [Hl0 _]. rewrite Hl in Hl0. injection Hl0 as <-.
  assert (∀ x, (r, w') = (Err x, w1) → file_ok P w' ∧ ∃ s, (load_file (cw_file w) = Ok s ∧ state_ok P s) ∧
    ((cw_file w' = cw_file w ∧ (r = Ok tt → ∀ c, conversation_state id s = Some c → PendingACK c ≤ AckedCursor c)) ∨
     ∃ c applied s', conversation_state id s = Some c ∧ PendingACK c ≤ applied ∧
       ack_update (FormatInt id) applied s = Ok (s', tt) ∧ load_file (cw_file w') = Ok (normalize s'))) as Hfail.
  { intros x [= -> ->]. split; [done|]. exists s. split; [done|]. left. by split. }
  destruct (Auth s) as [auth|]; [|apply proc_throw_inv in Hrun as [-> ->]; by eapply Hfail].
  destruct (conversation_state id s) as [c|] eqn:Hc.
  2:{ apply proc_ret_inv in Hrun as [-> ->]. split; [done|]. exists s. split; [done|]. left. by rewrite Hc. }
  destruct (_ <=? AckedCursor c) eqn:E; [apply Z.leb_le in E|apply Z.leb_gt in E].
  { apply proc_ret_inv in Hrun as [-> ->]. split; [done|]. exists s. split; [done|]. left. split; [done|].
    intros _ c0. rewrite Hc. by intros [= <-]. }
  apply proc_bind_inv in Hrun as [(x & Hj & ->)|(applied & w2 & Hj & Hrun)];
    apply doJSON_keeps with (P := P) in Hj as (Hw2 & Hf2 & _ & Hr2); try done.
  { split; [done|]. exists s. split; [done|]. left. by rewrite Hf2. }
  destruct (_ <? PendingACK c) eqn:E2; [apply Z.ltb_lt in E2|apply Z.ltb_ge in E2].
  { apply proc_throw_inv in Hrun as [-> ->]. split; [done|]. exists s. split; [done|]. left. by rewrite Hf2. }
  assert (0 ≤ applied ≤ int64_max) as Happ.
  { pose proof (client_log_lookup s id c (proj1 Hs) Hc) as Hlog. pose proof (cl_cursors _ _ Hlog).
    symmetry in Hr2. apply read_reply_ok in Hr2 as [->|(st & code & size & Hr2 & _)]; [by split|].
    destruct (post_ack _ _ _ _) as [reply sv] eqn:Hp. simpl in Hr2. subst reply.
    pose proof (ack_decoded _ _ _ _ _ _ _ _ _ Hp). lia. }
  apply Update_keeps with (P := P) in Hrun as (Hw' & _ & s1 & Hl1 & _ & Hcase); [| |done].
  2:{ intros s1 s2 [] (? & ? & ?). by apply ack_update_keeps. }
  rewrite Hf2, Hf1, Hl in Hl1. injection Hl1 as <-. split; [done|]. exists s. split; [done|].
  destruct Hcase as [[Hf Hr]|(s' & [] & Hu & Hl' & _)].
  - left. split; [congruence|]. intros ->. by destruct Hr as [[? [=]]|(? & _ & [=])].
  - right. exists c, applied, s'. done.
Qed.

Lemma run_call_keeps c w :
  call_valid c → file_ok (λ _, True) w → file_ok (λ _, True) (run_call c w).2.
Proof.
  intros Hc Hw. destruct (run_call c w) as [r w'] eqn:Hrun. destruct c; simpl in *.
  - by eapply PersistAuth_keeps.
  - by eapply Refresh_keeps.
  - destruct Hc. apply proc_bind_inv in Hrun as [(x & Ha & ->)|(x & w1 & Ha & Hrun)];
      apply ApplyRealtime_keeps with (P := λ _, True) in Ha; try done. by apply proc_ret_inv in Hrun as [_ ->].
  - apply proc_bind_inv in Hrun as [(x & Ha & ->)|(x & w1 & Ha & Hrun)].
    + unfold SyncConversation in Ha. destruct (_ || _);
        [apply proc_throw_inv in Ha as [_ ->]; done|by apply sync_loop_keeps with (P := λ _, True) in Ha].
    + apply proc_ret_inv in Hrun as [_ ->]. unfold SyncConversation in Ha. destruct (_ || _);
        [apply proc_throw_inv in Ha as [_ ->]; done|by apply sync_loop_keeps with (P := λ _, True) in Ha].
  - by apply FlushACK_run with (P := λ _, True) in Hrun as [? _].
Qed.

Lemma begin_refresh_eq key s auth :
  Auth s = Some auth → RefreshToken auth ≠ EmptyString →
  let p := default (MkPendingRefresh (RefreshToken auth) key) (Pending s) in
  begin_refresh key s =
    if bool_decide (pending_IdempotencyKey p = key)
    then Ok (MkState (Version s) (Auth s) (Some p) (Conversations s), p)
    else Err (ClientError "a different refresh operation is already pending").
Proof. intros Ha Hrt. unfold begin_refresh. by rewrite Ha, bool_decide_eq_false_2. Qed.

(** The second half of a refresh, the request being on file. *)
Lemma send_refresh P p v a cs w r w' :
  file_ok P w → load_file (cw_file w) = Ok (normalize (MkState v a (Some p) cs)) →
  (response ← doJSON zero_auth (post_refresh (pending_RefreshToken p) (pending_IdempotencyKey p));
   Update (finish_refresh p response)) w = (r, w') →
  cw_server w' = (post_refresh (pending_RefreshToken p) (pending_IdempotencyKey p) (cw_server w)).2 ∧
  ∃ s', load_file (cw_file w') = Ok s' ∧
    (s' = normalize (MkState v a (Some p) cs) ∧ is_ok r = false ∨
     ∃ response, s' = normalize (MkState stateVersion (Some response) None cs) ∧
       read_reply zero_auth
         (post_refresh (pending_RefreshToken p) (pending_IdempotencyKey p) (cw_server w)).1 = Ok response).
Proof.
  intros Hw Hl Hrun.
  apply proc_bind_inv in Hrun as [(x & Hj & ->)|(response & w2 & Hj & Hrun)];
    apply doJSON_keeps with (P := P) in Hj as (Hw2 & Hf2 & Hsv2 & Hr2); try done.
  { split; [done|]. eexists. rewrite Hf2. split; [exact Hl|]. by left. }
  apply Update_keeps with (P := P) in Hrun as (_ & Hsv & s0 & Hl0 & _ & Hcase); [| |done].
  2:{ intros s1 s2 []. apply finish_refresh_keeps. by eapply decoded_auth. }
  rewrite Hf2, Hl in Hl0. injection Hl0 as <-. split; [congruence|].
  unfold finish_refresh in Hcase. cbn [Pending normalize] in Hcase. rewrite bool_decide_eq_true_2 in Hcase by done.
  destruct Hcase as [[Hf Hr]|(s' & a' & [= <- <-] & Hl' & Hr)].
  - eexists. rewrite Hf, Hf2. split; [exact Hl|]. left. split; [done|].
    destruct Hr as [Hr|(x & [=] & _)]. by apply store_failure_error.
  - eexists. split; [exact Hl'|]. right. by exists response.
Qed.

(** * The properties *)

(** C33: whatever calls the client makes, whatever the server answers
    and wherever a write of the file fails or the process dies, the file always
    opens to a state in which each conversation holds exactly the messages 1 to its
    applied cursor, and every applied message is acknowledged or waits to be. *)
Theorem client_log_has_no_gap calls w :
  Forall call_valid calls → nonces_ok w → cw_file w = None →
  ∃ s, load_file (cw_file (run_calls calls w)) = Ok s ∧
    ∀ key c, Conversations s !! key = Some c → ∃ id, key = FormatInt id ∧ conversation_log id c.
Proof.
  intros Hcalls Hn Hf. assert (file_ok (λ _, True) w) as Hw.
  { constructor; [done|]. exists (normalize zero_state). rewrite Hf. split; [done|]. apply state_ok_zero. }
  assert (file_ok (λ _, True) (run_calls calls w)) as [_ (s & Hl & Hs & _)].
  { clear Hn Hf. revert w Hw. induction Hcalls as [|c calls Hc _ IH]; intros w Hw; [done|].
    simpl. by apply IH, run_call_keeps. }
  by exists s.
Qed.

(** An update replaces the stored state as a whole or not at all:
    wherever writing the file fails, the file then opens to the old state or to the
    new one; to the new one when the call succeeds, to the old one when the update
    itself refuses. *)
Theorem Update_is_atomic {A} (update : State → result client_error (State * A)) w s r w' :
  nonces_ok w → load_file (cw_file w) = Ok s →
  (∀ s' a, update s = Ok (s', a) → text_state s') →
  Update update w = (r, w') →
  match update s with
  | Err _ => load_file (cw_file w') = Ok s ∧ is_ok r = false
  | Ok (s', a) =>
      (load_file (cw_file w') = Ok s ∨ load_file (cw_file w') = Ok (normalize s')) ∧
      ∀ b, r = Ok b → b = a ∧ load_file (cw_file w') = Ok (normalize s')
  end.
Proof.
  intros Hn Hl Ht Hrun.
  apply Update_inv in Hrun as (_ & _ & [[Hf Hr]|(s0 & s' & a & nonce & Hl0 & Hu & Hlen & Hf & Hr)]).
  - rewrite Hf, Hl. destruct Hr as [[t ->]|(s1 & x & Hl1 & Hu & ->)].
    + destruct (update s) as [|[s' a]]; [done|]. split; [by left|done].
    + rewrite Hl in Hl1. injection Hl1 as <-. by rewrite Hu.
  - rewrite Hl in Hl0. injection Hl0 as <-. rewrite Hu.
    assert (load_file (cw_file w') = Ok (normalize s')) as Hl'.
    { rewrite Hf. apply load_envelope; [by apply Hlen|by eapply normalize_text, Ht|done]. }
    split; [by right|]. intros b ->. destruct Hr as [[= ->]|(x & [=])]. done.
Qed.

(** A message is applied exactly when it is the next of its
    conversation, and is then stored; one at or before the cursor is a duplicate if
    the stored message has its id and a conflict otherwise; one further ahead is a
    gap.  Only an applied message changes the file. *)
Theorem applyMessage_appends P m w s r w' :
  file_ok P w → message_valid m → P m → load_file (cw_file w) = Ok s → applyMessage m w = (r, w') →
  let applied := applied_cursor (msg_ConversationID m) s in
  match r with
  | Ok Applied => msg_ConversationSeq m = applied + 1 ∧
      ∃ s' c', load_file (cw_file w') = Ok s' ∧ conversation_state (msg_ConversationID m) s' = Some c' ∧
        AppliedCursor c' = msg_ConversationSeq m ∧ Messages c' !! FormatInt (msg_ConversationSeq m) = Some m
  | Ok Duplicate => load_file (cw_file w') = Ok s ∧ msg_ConversationSeq m ≤ applied ∧
      ∃ c old, conversation_state (msg_ConversationID m) s = Some c ∧
        Messages c !! FormatInt (msg_ConversationSeq m) = Some old ∧ msg_ID old = msg_ID m
  | Err ErrMessageGap => load_file (cw_file w') = Ok s ∧ applied + 1 < msg_ConversationSeq m
  | Err _ => load_file (cw_file w') = Ok s ∨ msg_ConversationSeq m = applied + 1
  end.
Proof.
  intros Hw Hm HPm Hl Hrun applied. pose proof Hm as (Hid & Hcid & Hseq & Hmt).
  unfold applyMessage in Hrun. destruct (_ || _) eqn:E.
  { exfalso. apply orb_true_iff in E as [E|E%Z.leb_le]; [|lia]. apply orb_true_iff in E as [E%Z.leb_le|E%Z.leb_le]; lia. }
  pose proof (fo_state _ _ Hw) as (s0 & Hl0 & Hs). rewrite Hl in Hl0. injection Hl0 as <-.
  pose proof (apply_update_cases m s (proj1 Hs) Hcid Hseq) as Hcases. cbv zeta in Hcases.
  pose proof Hs as (Hlog & HP & Hts).
  apply Update_keeps with (P := P) in Hrun as (_ & _ & s0 & Hl0 & _ & Hcase); [| |done].
  2:{ intros s1 s2 a (? & ? & ?) Hu. by eapply apply_update_keeps. }
  rewrite Hl in Hl0. injection Hl0 as <-.
  destruct Hcase as [[Hf Hr]|(s' & a & Hu & Hl' & Hr)].
  - rewrite Hf, Hl. destruct Hr as [[t ->]|(x & Hu & ->)]; [by left|]. rewrite Hu in Hcases.
    destruct x; [by left|by left|done].
  - rewrite Hu in Hcases. rewrite Hl'. destruct a.
    + destruct Hcases as (Hnext & Hcur & c' & Hc' & Hm' & _). destruct Hr as [->|[t ->]]; [|by right].
      split; [done|]. exists (normalize s'), c'. split_and!; try done.
      unfold applied_cursor in Hcur. by rewrite Hc' in Hcur.
    + destruct Hcases as (-> & Hle & Hold).
      assert (normalize s = s) as ->; [|destruct Hr as [->|[t ->]]; [done|by left]].
      apply load_file_version in Hl. unfold normalize. rewrite <-Hl. by destruct s.
Qed.

(** When a flush returns nil, everything the conversation had
    applied is acknowledged; the log is as before and no acknowledgement is taken
    back. *)
Theorem FlushACK_acknowledges P id w w' :
  file_ok P w → FlushACK id w = (Ok tt, w') →
  ∃ s s', load_file (cw_file w) = Ok s ∧ load_file (cw_file w') = Ok s' ∧
    ∀ c, conversation_state id s = Some c → ∃ c', conversation_state id s' = Some c' ∧
      AppliedCursor c' = AppliedCursor c ∧ Messages c' = Messages c ∧
      AckedCursor c ≤ AckedCursor c' ∧ AppliedCursor c ≤ AckedCursor c'.
Proof.
  intros Hw Hrun. apply FlushACK_run with (P := P) in Hrun as (_ & s & (Hl & Hs) & Hcase); [|done].
  exists s. destruct Hcase as [[Hf Hp]|(c & applied & s' & Hc & Hle & Hu & Hl')].
  - exists s. rewrite Hf. split_and!; [done|done|]. intros c Hc. exists c. split_and!; try done.
    pose proof (Hp eq_refl c Hc). pose proof (cl_pending _ _ (client_log_lookup _ _ _ (proj1 Hs) Hc)). lia.
  - exists (normalize s'). split_and!; [done|done|]. intros c0 Hc0. unfold conversation_state in *.
    rewrite Hc in Hc0. injection Hc0 as <-. pose proof (cl_pending _ _ (client_log_lookup _ _ _ (proj1 Hs) Hc)).
    unfold ack_update in Hu. rewrite Hc in Hu. injection Hu as <-. eexists. simpl.
    split; [apply lookup_insert_eq|]. simpl.
    destruct (_ <? applied) eqn:E; [apply Z.ltb_lt in E|apply Z.ltb_ge in E]; split_and!; (done || lia).
Qed.

(** A refresh in progress is finished only under its own key: with
    another key nothing is sent and nothing changes; with its key exactly the
    recorded token and key are sent, whatever failed before.  Until the answer is
    stored the pending refresh stays on file, and then it is gone. *)
Theorem Refresh_is_retryable P key auth w s r w' :
  file_ok P w → load_file (cw_file w) = Ok s → Auth s = Some auth → RefreshToken auth ≠ EmptyString →
  key ≠ EmptyString → ValidString key = true → Refresh key w = (r, w') →
  let p := default (MkPendingRefresh (RefreshToken auth) key) (Pending s) in
  let request := post_refresh (pending_RefreshToken p) key in
  if decide (pending_IdempotencyKey p = key) then
    (cw_server w' = cw_server w ∨ cw_server w' = (request (cw_server w)).2) ∧
    ∃ s', load_file (cw_file w') = Ok s' ∧ Conversations s' = Conversations s ∧
      (Auth s' = Auth s ∧ (Pending s' = Pending s ∨ Pending s' = Some p) ∧ is_ok r = false ∨
       Pending s' = None ∧ ∃ response, read_reply zero_auth (request (cw_server w)).1 = Ok response ∧
         Auth s' = Some response)
  else is_ok r = false ∧ cw_file w' = cw_file w ∧ cw_server w' = cw_server w.
Proof.
  intros Hw Hl Ha Hrt Hkey Hkv Hrun p request. unfold Refresh in Hrun. rewrite bool_decide_eq_false_2 in Hrun by done.
  pose proof (begin_refresh_eq key s auth Ha Hrt) as Hbegin. fold p in Hbegin.
  apply proc_bind_inv in Hrun as [(x & Hb & ->)|(p0 & w1 & Hb & Hrun)];
    apply Update_keeps with (P := P) in Hb as (Hw1 & Hsv1 & s0 & Hl0 & _ & Hcase); try done;
    try (by intros ? ? ?; apply begin_refresh_keeps); rewrite Hl in Hl0; injection Hl0 as <-;
    rewrite Hbegin in Hcase.
  - destruct (decide _) as [Hd|Hd].
    + split; [by left|]. rewrite bool_decide_eq_true_2 in Hcase by done.
      destruct Hcase as [[Hf _]|(s' & a & [= <- <-] & Hl' & _)].
      * exists s. rewrite Hf. split_and!; [done|done|]. left. split_and!; [done|by left|done].
      * eexists. split; [exact Hl'|]. split; [done|]. left. split_and!; [done|by right|done].
    + rewrite bool_decide_eq_false_2 in Hcase by done. by destruct Hcase as [[Hf _]|(s' & a & [=] & _)].
  - destruct Hcase as [[_ [[t [=]]|(x & _ & [=])]]|(s' & a & Hu & Hl1 & [[= ->]|[t [=]]])].
    destruct (bool_decide _) eqn:Hd; [|done]. injection Hu as <- <-.
    apply bool_decide_eq_true in Hd. rewrite decide_True by done.
    assert (cw_server w' = (request (cw_server w)).2 ∧ ∃ s', load_file (cw_file w') = Ok s' ∧
      (s' = normalize (MkState (Version s) (Auth s) (Some p) (Conversations s)) ∧ is_ok r = false ∨
       ∃ response, s' = normalize (MkState stateVersion (Some response) None (Conversations s)) ∧
         read_reply zero_auth (request (cw_server w)).1 = Ok response)) as (Hsv & s' & Hl' & Hcase).
    { rewrite <-Hsv1. unfold request. rewrite <-Hd. by eapply send_refresh. }
    split; [by right|]. exists s'. split; [done|]. destruct Hcase as [[-> Hr]|(response & -> & Hr)].
    + split; [done|]. left. split_and!; [done|by right|done].
    + split; [done|]. right. split; [done|]. by exists response.
Qed.
End promises.
