(* ===== verification/ClientSync.v ===== *)
(** Synchronisation: what the client asks of a server, that its loop ends and leaves
    it with everything the server had, and that the server of this repository
    keeps that promise. *)
From Stdlib Require Import Ascii String.
From S2P Require Import Prelude GoStd Tables Driver Json Schema Changes MessageStore MessageService Sending.
From S2P Require Import Numerals ConversationSync Encoding ClientStore Client ClientLog ClientPromises.
Open Scope Z_scope.

(** * What a server promises *)

(** One page of conversation [id], read while the server went from [s] to [s']. *)
Record serves {S : Type} (stored : S → Message → Prop) (last_seq : S → Z → Z) (s s' : S)
    (id after : Z) (snap : option Z) (page : messagePage) : Prop := Serves {
  sv_stored : Forall (stored s') (page_Messages page);
  sv_next : after ≤ page_NextCursor page ≤ page_SnapshotCursor page;
  sv_asked : ∀ x, snap = Some x → page_SnapshotCursor page = x;
  sv_fresh : snap = None → last_seq s id ≤ page_SnapshotCursor page;
  sv_more : page_HasMore page = (page_NextCursor page <? page_SnapshotCursor page);
  sv_progress : after < page_SnapshotCursor page → after < page_NextCursor page
}.

(** The promise of [GET /conversations/{id}/messages]: committed messages stay, and
    a page is honest about what it holds and what lies beyond. *)
Class SyncServer (S : Type) `{!IMServer S} := {
  server_ok : S → Prop;
  stored : S → Message → Prop;
  last_seq : S → Z → Z;
  page_promise : ∀ t id after limit snap s reply s',
    server_ok s → 0 < id → 0 ≤ after → 1 ≤ limit ≤ 200 → (∀ x, snap = Some x → 0 < x) →
    get_messages t id after limit snap s = (reply, s') →
    server_ok s' ∧ (∀ m, stored s m → stored s' m) ∧ last_seq s id ≤ last_seq s' id ∧
    ∀ page, read_reply zero_page reply = Ok page → page_ConversationID page = id →
      serves stored last_seq s s' id after snap page
}.

Section sync.
Context `{AEAD, StateCodec} {S : Type} `{!IMServer S, !DecodedReplies S, !SyncServer S}.
Implicit Types (w : client_world S).

(** The client's log holds only what the server has. *)
Record synced_world w : Prop := SyncedWorld {
  sw_server : server_ok (cw_server w);
  sw_file : file_ok (stored (cw_server w)) w
}.

Lemma file_ok_mono (P Q : Message → Prop) w : (∀ m, P m → Q m) → file_ok P w → file_ok Q w.
Proof.
  intros HPQ [Hn (s & Hl & Hlog & HP & Ht)]. constructor; [done|]. exists s. split; [done|].
  split_and!; [done| |done]. intros key c k m Hc Hm. by eapply HPQ, HP.
Qed.

(** The server only gains messages. *)
Definition server_grows (id : Z) w w' : Prop :=
  (∀ m, stored (cw_server w) m → stored (cw_server w') m) ∧
  last_seq (cw_server w) id ≤ last_seq (cw_server w') id.

Definition sync_step (id : Z) w w' : Prop := synced_world w' ∧ server_grows id w w'.

Lemma sync_step_refl id w : synced_world w → sync_step id w w.
Proof. intros Hw. split; [done|]. by split. Qed.

Lemma sync_step_trans id w1 w2 w3 : sync_step id w1 w2 → sync_step id w2 w3 → sync_step id w1 w3.
Proof. intros [_ [? ?]] [? [? ?]]. split; [done|]. split; [by auto|lia]. Qed.

(** Steps that do not involve the server. *)
Lemma local_step id w w' :
  synced_world w → file_ok (stored (cw_server w)) w' → cw_server w' = cw_server w → sync_step id w w'.
Proof. intros [Hs _] Hf Heq. split; [constructor; by rewrite Heq|]. split; by rewrite Heq. Qed.

Lemma snapshot_step id w r w' :
  synced_world w → Snapshot w = (r, w') →
  sync_step id w w' ∧ cw_server w' = cw_server w ∧ cw_file w' = cw_file w ∧
  ∀ s, r = Ok s → load_file (cw_file w) = Ok s ∧ client_log s.
Proof.
  intros Hw Hrun. apply Snapshot_keeps with (P := stored (cw_server w)) in Hrun as (Hf & Hsv & Hfile & Hr); [|apply Hw].
  split_and!; [by apply local_step|done|done|]. intros s ->. by destruct Hr as [? (? & _)].
Qed.

Lemma fetch_step id t after limit snap w r w' :
  synced_world w → 0 < id → 0 ≤ after → 1 ≤ limit ≤ 200 → (∀ x, snap = Some x → 0 < x) →
  doJSON zero_page (get_messages t id after limit snap) w = (r, w') →
  sync_step id w w' ∧ cw_file w' = cw_file w ∧
  ∀ page, r = Ok page → page_ConversationID page = id →
    serves stored last_seq (cw_server w) (cw_server w') id after snap page ∧
    Forall (λ m, text_message m ∧ msg_ConversationSeq m ≤ int64_max) (page_Messages page).
Proof.
  intros Hw Hid Ha Hl Hsn Hrun. pose proof Hw as [Hsv Hf].
  apply doJSON_keeps with (P := stored (cw_server w)) in Hrun as (Hf' & Hfile & Hsv' & ->); [|done].
  destruct (get_messages t id after limit snap (cw_server w)) as [reply sv] eqn:Hcall. simpl in Hsv'.
  pose proof Hcall as Hprom. apply page_promise in Hprom as (Hok & Hmono & Hlast & Hpage); [|done..].
  split; [|split; [done|]].
  - split; [constructor; rewrite Hsv'; [done|by eapply file_ok_mono]|]. split; by rewrite Hsv'.
  - simpl. intros page Hr Hpid. rewrite Hsv'. split; [by apply Hpage|].
    apply read_reply_ok in Hr as [->|(st & code & size & -> & _)]; [constructor|]. by eapply messages_decoded.
Qed.

Lemma apply_all_step id ms w r w' :
  synced_world w → Forall (stored (cw_server w)) ms →
  Forall (λ m, text_message m ∧ msg_ConversationSeq m ≤ int64_max) ms →
  apply_all ms w = (r, w') → sync_step id w w' ∧ cw_server w' = cw_server w.
Proof.
  intros Hw Hst Ht Hrun. apply apply_all_keeps with (P := stored (cw_server w)) in Hrun as [? ?]; [|done|done|apply Hw].
  split; [by apply local_step|done].
Qed.

Lemma applied_cursor_nonneg id s : client_log s → 0 ≤ applied_cursor id s.
Proof.
  intros Hs. unfold applied_cursor. destruct (conversation_state id s) as [c|] eqn:Hc; [|done].
  by apply (cl_cursors _ _ (client_log_lookup _ _ _ Hs Hc)).
Qed.

(** What a round that goes on, or ends, has done. *)
Definition round_done (id snapshot : Z) (s : State) w w' (more : option Z) : Prop :=
  ∃ s' snap, load_file (cw_file w') = Ok s' ∧
    (snapshot = 0 → last_seq (cw_server w) id ≤ snap) ∧ (snapshot ≠ 0 → snap = snapshot) ∧
    match more with
    | None => applied_cursor id s' = snap
    | Some x => x = snap ∧ applied_cursor id s < applied_cursor id s' < snap
    end.

(** The last part of a round: the page is applied. *)
Lemma apply_page_spec id after snapshot page s w0 w r w' :
  synced_world w → sync_step id w0 w → 0 ≤ snapshot → after = applied_cursor id s →
  Forall (λ m, text_message m ∧ msg_ConversationSeq m ≤ int64_max) (page_Messages page) →
  serves stored last_seq (cw_server w0) (cw_server w) id after
    (if 0 <? snapshot then Some snapshot else None) page →
  (_ ← apply_all (page_Messages page);
   s ← Snapshot;
   match conversation_state id s with
   | None => fail "sync page did not advance to the advertised cursor"
   | Some c =>
       if negb (AppliedCursor c =? page_NextCursor page)
       then fail "sync page did not advance to the advertised cursor"
       else mret (if page_HasMore page then
                    Some (if snapshot =? 0 then page_SnapshotCursor page else snapshot)
                  else None)
   end) w = (r, w') →
  sync_step id w0 w' ∧ ∀ more, r = Ok more → round_done id snapshot s w0 w' more.
Proof.
  intros Hw Hstep Hsn -> Ht [Hst Hnext Hasked Hfresh Hmore Hprog] Hrun.
  apply proc_bind_inv in Hrun as [(x & Ha & ->)|([] & w3 & Ha & Hrun)];
    apply apply_all_step with (id := id) in Ha as [Hs3 Hsv3]; try done.
  { split; [by eapply sync_step_trans|done]. }
  assert (sync_step id w0 w3) as H03 by (by eapply sync_step_trans).
  apply proc_bind_inv in Hrun as [(x & Hq & ->)|(s' & w4 & Hq & Hrun)];
    apply snapshot_step with (id := id) in Hq as (Hs4 & _ & Hf4 & Hl4); try apply H03.
  { split; [by eapply sync_step_trans|done]. }
  assert (sync_step id w0 w4) as H04 by (by eapply sync_step_trans).
  destruct (Hl4 s' eq_refl) as [Hl' _].
  destruct (conversation_state id s') as [c|] eqn:Hc; [|apply proc_throw_inv in Hrun as [-> ->]; done].
  destruct (negb _) eqn:Ec; [apply proc_throw_inv in Hrun as [-> ->]; done|].
  apply negb_false_iff, Z.eqb_eq in Ec. apply proc_ret_inv in Hrun as [-> ->]. split; [done|].
  intros more [= <-]. exists s', (page_SnapshotCursor page). rewrite Hf4. split; [done|].
  assert (applied_cursor id s' = page_NextCursor page) as Happ by (unfold applied_cursor; by rewrite Hc).
  assert (snapshot ≠ 0 → page_SnapshotCursor page = snapshot) as Hask.
  { intros Hne. apply Hasked. destruct (0 <? snapshot) eqn:E; [done|lia]. }
  split_and!; [|done|].
  - intros ->. by apply Hfresh.
  - rewrite Happ, Hmore. destruct (_ <? page_SnapshotCursor page) eqn:E;
      [apply Z.ltb_lt in E|apply Z.ltb_ge in E]; [|lia].
    destruct (snapshot =? 0) eqn:E0; [apply Z.eqb_eq in E0|apply Z.eqb_neq in E0]; (split; [by auto using eq_sym|lia]).
Qed.

Lemma sync_round_spec id limit snapshot w r w' s :
  synced_world w → 0 < id → 1 ≤ limit ≤ 200 → 0 ≤ snapshot → load_file (cw_file w) = Ok s →
  sync_round id limit snapshot w = (r, w') →
  sync_step id w w' ∧ ∀ more, r = Ok more → round_done id snapshot s w w' more.
Proof.
  intros Hw Hid Hlim Hsnap Hl Hrun. unfold sync_round in Hrun.
  apply proc_bind_inv in Hrun as [(x & Hs & ->)|(s0 & w1 & Hs & Hrun)];
    apply snapshot_step with (id := id) in Hs as (Hs1 & Hsv1 & Hf1 & Hr1); try done.
  destruct (Hr1 s0 eq_refl) as [Hl0 Hlog]. rewrite Hl in Hl0. injection Hl0 as <-.
  destruct (Auth s) as [auth|]; [|apply proc_throw_inv in Hrun as [-> ->]; done].
  assert (∀ x, (if 0 <? snapshot then Some snapshot else None) = Some x → 0 < x) as Hpos.
  { intros x Hx. destruct (0 <? snapshot) eqn:E; [injection Hx as <-; lia|done]. }
  apply proc_bind_inv in Hrun as [(x & Hj & ->)|(page & w2 & Hj & Hrun)];
    apply fetch_step in Hj as (Hs2 & Hf2 & Hpage); try done; try apply Hs1; try by apply applied_cursor_nonneg.
  { split; [by eapply sync_step_trans|done]. }
  assert (sync_step id w w2) as H02 by (by eapply sync_step_trans).
  destruct (_ || _) eqn:Ecur; [apply proc_throw_inv in Hrun as [-> ->]; done|].
  apply orb_false_iff in Ecur as [Epid%negb_false_iff%Z.eqb_eq _].
  destruct (_ && _) eqn:Esnap; [apply proc_throw_inv in Hrun as [-> ->]; done|].
  destruct (Hpage page eq_refl Epid) as [Hserves Htext]. rewrite Hsv1 in Hserves.
  eapply apply_page_spec in Hrun; [exact Hrun|apply Hs2|done|done|done|done|done].
Qed.

Lemma synced_file w : synced_world w → ∃ s, load_file (cw_file w) = Ok s ∧ state_ok (stored (cw_server w)) s.
Proof. intros [_ [_ Hf]]. exact Hf. Qed.

(** The loop once its snapshot is fixed, or from the start. *)
Lemma sync_loop_spec fuel id limit snapshot w r w' s :
  synced_world w → 0 < id → 1 ≤ limit ≤ 200 → 0 ≤ snapshot → load_file (cw_file w) = Ok s →
  sync_loop fuel id limit snapshot w = (r, w') →
  sync_step id w w' ∧
  (r = Ok Synced → ∃ s', load_file (cw_file w') = Ok s' ∧
     (snapshot = 0 → last_seq (cw_server w) id ≤ applied_cursor id s') ∧
     (snapshot ≠ 0 → applied_cursor id s' = snapshot)) ∧
  (applied_cursor id s < snapshot ≤ applied_cursor id s + Z.of_nat fuel → r ≠ Ok OutOfFuel).
Proof.
  revert snapshot w r w' s. induction fuel as [|fuel IH]; intros snapshot w r w' s Hw Hid Hlim Hsn Hl Hrun; simpl in Hrun.
  { apply proc_ret_inv in Hrun as [-> ->]. split_and!; [by apply sync_step_refl|done|lia]. }
  apply proc_bind_inv in Hrun as [(x & Hr & ->)|(more & w1 & Hr & Hrun)];
    apply sync_round_spec with (s := s) in Hr as [Hs1 Hdone]; try done.
  destruct (Hdone more eq_refl) as (s1 & snap & Hl1 & Hz & Hn & Hm). destruct more as [x|].
  - destruct Hm as [-> Hlt].
    assert (0 ≤ applied_cursor id s) as Hpos.
    { apply applied_cursor_nonneg. destruct (synced_file w Hw) as (s0 & Hl0 & (Hlog & _)).
      rewrite Hl in Hl0. by injection Hl0 as ->. }
    eapply IH in Hrun as (Hs2 & Hsync & Hfuel); [|apply Hs1|done|done|lia|exact Hl1].
    split_and!; [by eapply sync_step_trans| |].
    + intros ->. destruct (Hsync eq_refl) as (s' & Hl' & _ & Hsnap). exists s'. split; [done|].
      rewrite Hsnap by lia. split; [done|]. by intros ?%Hn.
    + intros Hb. apply Hfuel. rewrite Hn in * by lia. lia.
  - apply proc_ret_inv in Hrun as [-> ->]. split_and!; [done| |done].
    intros _. exists s1. split; [done|]. rewrite Hm. done.
Qed.

(** Everything the server had when the call began is in the log, and the log holds
    nothing the server has not. *)
Definition caught_up (id : Z) w w' : Prop :=
  ∃ s', load_file (cw_file w') = Ok s' ∧
    ∀ n, 1 ≤ n ≤ last_seq (cw_server w) id → ∃ c m, conversation_state id s' = Some c ∧
      Messages c !! FormatInt n = Some m ∧ msg_ConversationID m = id ∧ msg_ConversationSeq m = n ∧
      stored (cw_server w') m.

Lemma applied_caught_up id w w' s' :
  synced_world w' → load_file (cw_file w') = Ok s' → last_seq (cw_server w) id ≤ applied_cursor id s' →
  caught_up id w w'.
Proof.
  intros Hw' Hl' Hle. exists s'. split; [done|]. intros n Hn.
  destruct (synced_file w' Hw') as (s0 & Hl0 & (Hlog & Hst & _)). rewrite Hl' in Hl0. injection Hl0 as <-.
  unfold applied_cursor in Hle. destruct (conversation_state id s') as [c|] eqn:Hc; [|lia].
  pose proof (client_log_lookup _ _ _ Hlog Hc) as Hcl.
  assert (1 ≤ n ≤ AppliedCursor c) as Hn' by lia.
  destruct (cl_complete id c Hcl n Hn') as (m & Hm). exists c, m.
  destruct (cl_messages id c Hcl _ _ Hm) as (Hk & _ & Hcid & _). apply (inj FormatInt) in Hk as ->.
  split_and!; try done. by eapply Hst.
Qed.

Lemma SyncConversation_spec fuel id limit w r w' :
  synced_world w → SyncConversation fuel id limit w = (r, w') →
  sync_step id w w' ∧ (r = Ok Synced → caught_up id w w').
Proof.
  intros Hw Hrun. unfold SyncConversation in Hrun. destruct (_ || _) eqn:E.
  { apply proc_throw_inv in Hrun as [-> ->]. split; [by apply sync_step_refl|done]. }
  apply orb_false_iff in E as [E E3%Z.ltb_ge]. apply orb_false_iff in E as [E1%Z.leb_gt E2%Z.leb_gt].
  destruct (synced_file w Hw) as (s & Hl & _).
  destruct (sync_loop_spec fuel id limit 0 w r w' s Hw E1 ltac:(lia) ltac:(lia) Hl Hrun) as (Hs & Hsync & _).
  split; [done|]. intros ->. destruct (Hsync eq_refl) as (s' & Hl' & Hle & _).
  eapply applied_caught_up; [apply Hs|done|by apply Hle].
Qed.

(** The first page, which the file and the server determine. *)
Definition first_page (id limit : Z) w : option messagePage :=
  match load_file (cw_file w) with
  | Ok s =>
      auth ← Auth s;
      match read_reply zero_page
              (get_messages (AccessToken auth) id (applied_cursor id s) limit None (cw_server w)).1 with
      | Ok page => Some page
      | Err _ => None
      end
  | Err _ => None
  end.

(** The rounds that a synchronisation needs at most: one, and one for each message
    between the client's cursor and the first page's snapshot. *)
Definition rounds_needed (id limit : Z) w : nat :=
  match load_file (cw_file w), first_page id limit w with
  | Ok s, Some page => Datatypes.S (Z.to_nat (page_SnapshotCursor page - applied_cursor id s))
  | _, _ => 1%nat
  end.

(** A first round that goes on has the first page's snapshot. *)
Lemma sync_round_first id limit w x w' :
  synced_world w → sync_round id limit 0 w = (Ok (Some x), w') →
  ∃ page, first_page id limit w = Some page ∧ x = page_SnapshotCursor page.
Proof.
  intros Hw Hrun. unfold sync_round in Hrun.
  apply proc_bind_inv in Hrun as [(? & _ & ?)|(s & w1 & Hs & Hrun)]; [done|].
  apply snapshot_step with (id := id) in Hs as (_ & Hsv & _ & Hr); [|done]. destruct (Hr s eq_refl) as [Hl _].
  destruct (Auth s) as [auth|] eqn:Hauth; [|by apply proc_throw_inv in Hrun as [? _]].
  apply proc_bind_inv in Hrun as [(? & _ & ?)|(page & w2 & Hj & Hrun)]; [done|].
  exists page. split.
  - unfold first_page. rewrite Hl. simpl. rewrite Hauth. simpl. unfold doJSON in Hj. rewrite Hsv in Hj. simpl in Hj.
    destruct (get_messages _ _ _ _ _ _) as [reply sv]. injection Hj as Hj _. simpl. by rewrite Hj.
  - destruct (_ || _) in Hrun; [by apply proc_throw_inv in Hrun as [? _]|].
    destruct (_ && _) in Hrun; [by apply proc_throw_inv in Hrun as [? _]|].
    apply proc_bind_inv in Hrun as [(? & _ & ?)|([] & w3 & _ & Hrun)]; [done|].
    apply proc_bind_inv in Hrun as [(? & _ & ?)|(s' & w4 & _ & Hrun)]; [done|].
    destruct (conversation_state id s'); [|by apply proc_throw_inv in Hrun as [? _]].
    destruct (negb _); [by apply proc_throw_inv in Hrun as [? _]|].
    apply proc_ret_inv in Hrun as [Hrun _]. destruct (page_HasMore page); [|done]. by injection Hrun as ->.
Qed.

Lemma SyncConversation_bounded id limit w fuel :
  synced_world w → (rounds_needed id limit w ≤ fuel)%nat → (SyncConversation fuel id limit w).1 ≠ Ok OutOfFuel.
Proof.
  intros Hw Hf. unfold SyncConversation. destruct (_ || _) eqn:E; [done|].
  apply orb_false_iff in E as [E E3%Z.ltb_ge]. apply orb_false_iff in E as [E1%Z.leb_gt E2%Z.leb_gt].
  destruct (synced_file w Hw) as (s & Hl & (Hlog & _)). unfold rounds_needed in Hf. rewrite Hl in Hf.
  destruct fuel as [|fuel]; [destruct (first_page _ _ _); lia|].
  destruct (sync_round id limit 0 w) as [r w1] eqn:Hr. simpl.
  destruct (sync_round_spec id limit 0 w r w1 s Hw E1 ltac:(lia) ltac:(lia) Hl Hr) as [Hs1 Hdone].
  destruct r as [x|[snap|]]; [unfold mbind, proc_bind; by rewrite Hr| |by rewrite (proc_bind_run _ _ _ _ _ Hr)].
  destruct (sync_round_first id limit w snap w1 Hw Hr) as (page & Hp & Hsnap). rewrite Hp in Hf.
  destruct (Hdone _ eq_refl) as (s1 & snap' & Hl1 & _ & _ & -> & Hlt). rewrite (proc_bind_run _ _ _ _ _ Hr).
  pose proof (applied_cursor_nonneg id s Hlog) as Hpos.
  destruct (sync_loop fuel id limit snap' w1) as [r2 w2] eqn:Hloop.
  destruct (sync_loop_spec fuel id limit snap' w1 r2 w2 s1 (proj1 Hs1) E1 ltac:(lia) ltac:(lia) Hl1 Hloop) as (_ & _ & Hfuel).
  apply Hfuel. lia.
Qed.

Lemma SyncConversation_ends id limit w :
  synced_world w → ∃ N, ∀ fuel, (N ≤ fuel)%nat → (SyncConversation fuel id limit w).1 ≠ Ok OutOfFuel.
Proof. intros Hw. exists (rounds_needed id limit w). intros fuel. by apply SyncConversation_bounded. Qed.

(** C34: against any server that keeps the page promise, synchronising a conversation
    ends within one round and one more for each message between the client's cursor
    and the first page's snapshot, a number that the file and the server give and that
    no later call can raise; whatever fails on the way the log stays gap-free and holds
    only what the server has; and when it returns nil the log holds every message the
    server had when it began. *)
Theorem SyncConversation_catches_up id limit w :
  synced_world w →
  (∀ events, nonces_ok (ClientWorld (cw_file w) events (cw_server w)) →
     ∀ fuel, (rounds_needed id limit w ≤ fuel)%nat →
     (SyncConversation fuel id limit (ClientWorld (cw_file w) events (cw_server w))).1 ≠ Ok OutOfFuel) ∧
  ∀ fuel r w', SyncConversation fuel id limit w = (r, w') →
    synced_world w' ∧ server_grows id w w' ∧ (r = Ok Synced → caught_up id w w').
Proof.
  intros Hw. split.
  - intros events Hn fuel Hf. apply SyncConversation_bounded; [|exact Hf].
    destruct Hw as [Hs [_ Hst]]. by repeat split.
  - intros fuel r w' Hrun. apply SyncConversation_spec in Hrun as [[? ?] ?]; done.
Qed.
End sync.
