(* ===== verification/ClientServer.v ===== *)
(** The headless client against this repository's server: the endpoints it calls are
    the handlers of [ConversationSync], and what it synchronises is their tables. *)
From Stdlib Require Import Ascii String.
From S2P Require Import Prelude GoStd Tables Driver Json Schema Changes MessageStore MessageService Sending.
From S2P Require Import Numerals ConversationSync Encoding ClientStore Client ClientLog ClientPromises ClientSync.
Open Scope Z_scope.

(** * Between the two programs: JSON *)

Definition json_auth (a : AuthState) : AuthState :=
  MkAuthState (SessionID a) (json_text (DeviceID a)) (json_text (SessionExpiresAt a)) (json_text (AccessToken a))
    (json_text (AccessTokenExpiresAt a)) (json_text (RefreshToken a)) (json_text (RefreshTokenExpiresAt a)).

Definition map_body {A B} (f : A → option B) (reply : http_reply A) : http_reply B :=
  match reply with
  | NoReply => NoReply
  | HttpReply status code size body => HttpReply status code size (body ≫= f)
  end.

Lemma json_auth_text a : text_auth (json_auth a).
Proof. repeat constructor; apply json_text_valid. Qed.

Section wire.
Context `{TimeText}.

(** A row of [messages] as the client decodes it. *)
Definition client_message (m : Schema.message) : Message :=
  MkMessage (ID m) (ConversationID m) (ConversationSeq m) (json_text (ClientMessageID m)) (SenderID m) (ReceiverID m)
    (json_text (Content m)) (json_text (format_time (CreatedAt m))).

(** A number beyond int64 does not decode. *)
Definition client_page (page : conversationMessagePage) : option messagePage :=
  if forallb (λ m, ConversationSeq m <=? int64_max) (ConversationSync.page_Messages page)
  then Some (MessagePage (ConversationSync.page_ConversationID page)
               (client_message <$> ConversationSync.page_Messages page) (ConversationSync.page_NextCursor page)
               (ConversationSync.page_SnapshotCursor page) (ConversationSync.page_HasMore page))
  else None.

(** The query of [SyncConversation]. *)
Definition sync_query (after limit : Z) (snapshotCursor : option Z) : query_values :=
  [("after", [FormatInt after]); ("limit", [FormatInt limit])]%string ++
  (if snapshotCursor is Some x then [("snapshotCursor", [FormatInt x])]%string else []).

(** The body of [FlushACK]. *)
Definition ack_request (cursor : Z) : list Z := json_int_object [("cursor"%string, cursor)].

(** A reply of a handler, once it has crossed the network. *)
Definition transmit {A B} (size : A → Z) (decode : A → option B) (reply : api_reply A) : http_reply B :=
  match reply with
  | Reply status a => HttpReply status EmptyString (size a) (decode a)
  | Problem status code _ => HttpReply status code 0 None
  end.

Lemma parseConversationID_FormatInt id id' : parseConversationID (FormatInt id) = Ok id' → id' = id.
Proof.
  unfold parseConversationID. destruct (ParseInt _) as [v|] eqn:E; [|done]. apply ParseInt_FormatInt_inv in E as ->.
  destruct (0 <? id); [by intros [= ->]|done].
Qed.

Lemma parse_query_int_found key query good dflt text z v :
  query_lookup key query = Some [FormatInt z] → parse_query_int key query good dflt text = Ok v → v = z.
Proof.
  unfold parse_query_int. intros ->. simpl. destruct (ParseInt _) as [x|] eqn:E; [|done].
  apply ParseInt_FormatInt_inv in E as ->. destruct (good z); [by intros [= ->]|done].
Qed.

Lemma parse_sync_query after limit snap a l raw :
  parseSnapshotPagination (sync_query after limit snap) = Ok (a, l, raw) → a = after ∧ l = limit ∧ raw = snap.
Proof.
  unfold parseSnapshotPagination. intros ([] & _ & Hp)%result_bind_ok.
  apply result_bind_ok in Hp as (a' & Ha & Hp). apply result_bind_ok in Hp as (l' & Hl & Hp).
  apply result_bind_ok in Hp as (s & Hs & [= -> -> ->]).
  apply (parse_query_int_found _ _ _ _ _ after) in Ha; [|done].
  apply (parse_query_int_found _ _ _ _ _ limit) in Hl; [|done]. split_and!; [done|done|].
  destruct snap as [x|]; [|by injection Hs].
  change (query_lookup "snapshotCursor" _) with (Some [FormatInt x]) in Hs. cbv beta iota in Hs.
  apply result_bind_ok in Hs as (v & Hv & [= <-]). f_equal. by eapply parse_query_int_found in Hv.
Qed.

Lemma client_page_inv page p :
  client_page page = Some p →
  page_ConversationID p = ConversationSync.page_ConversationID page ∧
  page_Messages p = client_message <$> ConversationSync.page_Messages page ∧
  page_NextCursor p = ConversationSync.page_NextCursor page ∧
  page_SnapshotCursor p = ConversationSync.page_SnapshotCursor page ∧
  page_HasMore p = ConversationSync.page_HasMore page ∧
  Forall (λ m, text_message m ∧ msg_ConversationSeq m ≤ int64_max) (page_Messages p).
Proof.
  unfold client_page. destruct (forallb _ _) eqn:E; [|done]. intros [= <-]. split_and!; try done. simpl.
  rewrite forallb_forall in E. apply Forall_fmap, Forall_forall. intros m Hm. split.
  - repeat constructor; apply json_text_valid.
  - simpl. apply Z.leb_le, E. by apply list_elem_of_In.
Qed.

Lemma transmit_body {A B} size (decode : A → option B) reply status code n b :
  transmit size decode reply = HttpReply status code n (Some b) → ∃ a, reply = Reply status a ∧ decode a = Some b.
Proof. destruct reply as [st a|]; simpl; [|done]. intros [= -> _ _ Hd]. by exists a. Qed.

Lemma run_handler_inv {A} status (h : handler A) w reply w' :
  run_handler status h w = (reply, w') →
  ∃ r, h w = (r, w') ∧ ∀ st a, reply = Reply st a → r = Ok a.
Proof.
  unfold run_handler. destruct (h w) as [[[[st code] text]|a] w1]; intros [= <- <-]; eexists;
    (split; [done|]); intros st' a'; [done|by intros [= _ ->]].
Qed.
End wire.

(** * The server's endpoints *)
Section server.
Context `{TimeText}.
(** [auth.go] decides who a token belongs to and answers refreshes; how many bytes a
    page takes is [encoding/json]'s. *)
Context (authenticate : string → option (Z * string)).
Context (refresh_session : string → string → db_world → http_reply AuthState * db_world).
Context (page_size : conversationMessagePage → Z).
Implicit Types (w : db_world).

(** The middleware [requireAuthentication]. *)
Definition with_user {A} (accessToken : string) (h : Z → string → db_world → http_reply A * db_world) w :
    http_reply A * db_world :=
  match authenticate accessToken with
  | Some (user, device) => h user device w
  | None => (HttpReply 401 "UNAUTHORIZED" 0 None, w)
  end.

#[local] Instance im_server : IMServer db_world := {
  post_refresh := λ token key w,
    let '(reply, w') := refresh_session token key w in (map_body (Some ∘ json_auth) reply, w');
  get_messages := λ token id after limit snap, with_user token (λ user _ w,
    let '(reply, w') :=
      run_handler 200 (syncConversationMessages user (FormatInt id) (sync_query after limit snap)) w in
    (transmit page_size client_page reply, w'));
  post_ack := λ token id cursor, with_user token (λ user device w,
    let '(reply, w') :=
      run_handler 200 (acknowledgeConversation user device (FormatInt id) (ack_request cursor)) w in
    (transmit (λ _, 0) (λ st, int64_check (ack_AppliedCursor st)) reply, w'))
}.

Lemma with_user_inv {A} token (h : Z → string → db_world → http_reply A * db_world) w reply w' :
  with_user token h w = (reply, w') →
  (∃ user device, authenticate token = Some (user, device) ∧ h user device w = (reply, w')) ∨
  (reply = HttpReply 401 "UNAUTHORIZED" 0 None ∧ w' = w).
Proof. unfold with_user. destruct (authenticate token) as [[user device]|]; [eauto|]. intros [= <- <-]. by right. Qed.

#[local] Instance server_decoded : DecodedReplies db_world.
Proof.
  constructor.
  - intros t k w status code size a w'. simpl. destruct (refresh_session t k w) as [reply w1].
    intros [= Hr _]. destruct reply as [|st c n body]; [done|]. injection Hr as -> -> -> Hb.
    apply bind_Some in Hb as (b & _ & [= <-]). apply json_auth_text.
  - intros t id after limit snap w status code size page w'. simpl.
    intros [(user & device & _ & Hrun)|[[=] _]]%with_user_inv. destruct (run_handler _ _ w) as [reply w1].
    injection Hrun as (a & _ & Hp)%transmit_body _. by apply client_page_inv in Hp as (_ & _ & _ & _ & _ & ?).
  - intros t id cursor w status code size applied w'. simpl.
    intros [(user & device & _ & Hrun)|[[=] _]]%with_user_inv. destruct (run_handler _ _ w) as [reply w1].
    injection Hrun as (a & _ & Hc)%transmit_body _. unfold int64_check in Hc.
    destruct (in_range _ _ _) eqn:E; [|done]. injection Hc as <-. apply in_range_spec in E. lia.
Qed.

(** What the client may hold: the rows of [messages]. *)
Definition is_row w (m : Message) : Prop := ∃ row, row ∈ messages (w_db w) ∧ m = client_message row.

Definition stream_length w (id : Z) : Z :=
  match find_conversation id (w_db w) with Some c => conversation_last_seq c | None => 0 end.

Lemma stream_length_of w c :
  db_world_ok w → c ∈ conversations (w_db w) → stream_length w (conversation_id c) = conversation_last_seq c.
Proof.
  intros Hw Hc. unfold stream_length, find_conversation.
  rewrite (sql_first_key conversation_id _ _ c); [done| |done|lia|intros y Hy; lia].
  apply (so_conversations _ (committed_schema _ (ok_db _ _ _ _ Hw))).
Qed.

Lemma stream_length_grows w w' id :
  db_world_ok w → db_world_ok w' → evolves [] (w_db w) (w_db w') → stream_length w id ≤ stream_length w' id.
Proof.
  intros Hw Hw' Hev. unfold stream_length at 1. destruct (find_conversation id (w_db w)) as [c|] eqn:E.
  - apply find_conversation_Some in E as [Hc <-]. destruct (ev_conversations _ _ _ Hev c Hc) as (c' & Hc' & Hid & _ & Hle & _).
    rewrite <-Hid, stream_length_of by done. done.
  - unfold stream_length. destruct (find_conversation id (w_db w')) as [c|] eqn:E'; [|done].
    apply find_conversation_Some in E' as [Hc _]. apply (so_conversation_rows _ (committed_schema _ (ok_db _ _ _ _ Hw')) c Hc).
Qed.

Lemma sync_page_promise t id after limit snap w reply w' :
  db_world_ok w → w_tx w = [] → 0 ≤ after →
  get_messages t id after limit snap w = (reply, w') →
  (db_world_ok w' ∧ w_tx w' = [] ∧ evolves [] (w_db w) (w_db w')) ∧
  ∀ page, read_reply zero_page reply = Ok page → page_ConversationID page = id → 0 < id →
    serves is_row stream_length w w' id after snap page.
Proof.
  intros Hw Htx Ha Hrun. simpl in Hrun. apply with_user_inv in Hrun as [(user & device & _ & Hrun)|[-> ->]].
  2:{ split; [by split_and!|]. done. }
  destruct (run_handler _ _ w) as [rep w1] eqn:Hh. injection Hrun as <- <-.
  apply run_handler_inv in Hh as (r & Hh & Hr). apply syncConversationMessages_run in Hh as [Hev Hpage]; [|done..].
  split; [done|]. intros page Hp Hpid Hid. destruct Hev as (Hw1 & Htx1 & Hev).
  apply read_reply_ok in Hp as [->|(st & code & n & Ht & _)]; [simpl in Hpid; lia|].
  apply transmit_body in Ht as (a & -> & Hd). apply client_page_inv in Hd as (Hi & Hm & Hn & Hs & Hmore & _).
  destruct (Hpage a (Hr _ _ eq_refl)) as (id' & after' & limit' & raw & Hid' & Hq & Hasked & Hof & _ & Hsnap & Hfresh).
  apply parseConversationID_FormatInt in Hid' as ->. pose proof (parseSnapshotPagination_bounds _ _ _ _ Hq) as (_ & Hlim & _).
  apply parse_sync_query in Hq as (-> & -> & ->).
  destruct Hof as [Hseqs Hst _ Hnext _ Hof]. destruct Hsnap as (c & Hc & Hcid & Hb).
  constructor; rewrite ?Hs, ?Hn, ?Hm, ?Hmore.
  - apply Forall_fmap, (Forall_impl _ _ _ Hst). intros m [? _]. by exists m.
  - rewrite Hnext. lia.
  - done.
  - intros ->. unfold stream_length. destruct (find_conversation id (w_db w)) as [c0|] eqn:E; [|lia].
    apply find_conversation_Some in E as [? ?]. by apply Hfresh.
  - done.
  - rewrite Hnext. lia.
Qed.

(** The server keeps the promise the client relies on. *)
#[local] Instance server_keeps_promise : SyncServer db_world.
Proof.
  refine {| server_ok w := db_world_ok w ∧ w_tx w = []; stored := is_row; last_seq := stream_length |}.
  intros t id after limit snap w reply w' [Hw Htx] Hid Ha Hl _ Hrun.
  apply sync_page_promise in Hrun as [(Hw' & Htx' & Hev) Hpage]; [|done..].
  split_and!; [done|done| |by apply stream_length_grows|by intros page ? ?; apply Hpage].
  intros m (row & Hrow & ->). exists row. split; [by apply (ev_messages _ _ _ Hev)|done].
Defined.

(** * The client and the server together *)
Section together.
Context `{AEAD, StateCodec}.
Implicit Types (cw : client_world db_world).

Lemma caught_up_row id cw cw' row :
  synced_world cw → synced_world cw' → server_grows id cw cw' → caught_up id cw cw' →
  row ∈ messages (w_db (cw_server cw)) → ConversationID row = id →
  ∃ s c, load_file (cw_file cw') = Ok s ∧ conversation_state id s = Some c ∧
    Messages c !! FormatInt (ConversationSeq row) = Some (client_message row).
Proof.
  intros [[Hw _] _] [[Hw' _] _] [Hgrow _] (s & Hl & Hall) Hrow Hid.
  destruct (so_message_rows _ (committed_schema _ (ok_db _ _ _ _ Hw)) row Hrow) as (_ & c0 & Hc0 & Hcid & _ & Hseq).
  assert (last_seq (cw_server cw) id = conversation_last_seq c0) as Hlast.
  { simpl. rewrite <-Hid, <-Hcid. by apply stream_length_of. }
  destruct (Hall (ConversationSeq row)) as (c & m & Hc & Hm & Hmc & Hms & (row' & Hrow' & ->)); [lia|].
  destruct (Hgrow (client_message row)) as (row2 & Hrow2 & Heq); [by exists row|].
  exists s, c. split_and!; [done|done|]. rewrite Hm, Heq. do 2 f_equal.
  apply (unique_key_inj conversation_key (messages (w_db (cw_server cw')))); [|done|done|].
  - apply (so_message_seqs _ (committed_schema _ (ok_db _ _ _ _ Hw'))).
  - unfold client_message in Heq. injection Heq as _ Hrc Hrs _ _ _ _ _.
    simpl in Hmc, Hms. unfold conversation_key. congruence.
Qed.

(** C32: the client on this repository's server. A
    synchronisation ends; when it returns nil, every message of the conversation
    that was committed on the server when it began lies in the client's sealed file
    under its sequence number, as the server stored it; and at any time, after
    success or failure, each message in the file is a row of the server's table. *)
Theorem client_mirrors_server id limit cw :
  synced_world cw →
  (∃ N, ∀ fuel, (N ≤ fuel)%nat → (SyncConversation fuel id limit cw).1 ≠ Ok OutOfFuel) ∧
  ∀ fuel r cw', SyncConversation fuel id limit cw = (r, cw') →
    (∃ s, load_file (cw_file cw') = Ok s ∧ client_log s ∧
      ∀ key c k m, Conversations s !! key = Some c → Messages c !! k = Some m → is_row (cw_server cw') m) ∧
    (r = Ok Synced → ∀ row, row ∈ messages (w_db (cw_server cw)) → ConversationID row = id →
      ∃ s c, load_file (cw_file cw') = Ok s ∧ conversation_state id s = Some c ∧
        Messages c !! FormatInt (ConversationSeq row) = Some (client_message row)).
Proof.
  intros Hw. split; [by apply SyncConversation_ends|]. intros fuel r cw' Hrun.
  apply SyncConversation_spec in Hrun as [[Hw' Hg] Hup]; [|done]. split.
  - destruct (synced_file cw' Hw') as (s & Hl & Hlog & Hall & _). by exists s.
  - intros ->. intros row. by apply caught_up_row; auto.
Qed.
End together.
End server.
