(* ===== verification/Realtime.v ===== *)
(** From a committed event to the connections and the client: the outbox publisher over
    the router, and what a connection's payload means to the headless client. *)
From Stdlib Require Import Ascii String.
From S2P Require Import Prelude GoStd Tables Driver Json Schema MessageStore Outbox Numerals Encoding JsonText JsonRaw Events EventsOk.
From S2P Require Import Hub Redis Presence PresenceOk Router RouterPromises ClientStore Client ClientServer.
Open Scope Z_scope.

(** * The client's reading of the wire *)

Definition client_message_fields : list (field_setter Message) := [
  ("id"%string, decode_int64 (λ x m, MkMessage x (msg_ConversationID m) (msg_ConversationSeq m)
    (msg_ClientMessageID m) (msg_SenderID m) (msg_ReceiverID m) (msg_Content m) (msg_CreatedAt m)));
  ("conversationId"%string, decode_int64 (λ x m, MkMessage (msg_ID m) x (msg_ConversationSeq m)
    (msg_ClientMessageID m) (msg_SenderID m) (msg_ReceiverID m) (msg_Content m) (msg_CreatedAt m)));
  ("conversationSeq"%string, decode_int64 (λ x m, MkMessage (msg_ID m) (msg_ConversationID m) x
    (msg_ClientMessageID m) (msg_SenderID m) (msg_ReceiverID m) (msg_Content m) (msg_CreatedAt m)));
  ("clientMessageId"%string, decode_text (λ x m, MkMessage (msg_ID m) (msg_ConversationID m) (msg_ConversationSeq m)
    x (msg_SenderID m) (msg_ReceiverID m) (msg_Content m) (msg_CreatedAt m)));
  ("senderId"%string, decode_int64 (λ x m, MkMessage (msg_ID m) (msg_ConversationID m) (msg_ConversationSeq m)
    (msg_ClientMessageID m) x (msg_ReceiverID m) (msg_Content m) (msg_CreatedAt m)));
  ("receiverId"%string, decode_int64 (λ x m, MkMessage (msg_ID m) (msg_ConversationID m) (msg_ConversationSeq m)
    (msg_ClientMessageID m) (msg_SenderID m) x (msg_Content m) (msg_CreatedAt m)));
  ("content"%string, decode_text (λ x m, MkMessage (msg_ID m) (msg_ConversationID m) (msg_ConversationSeq m)
    (msg_ClientMessageID m) (msg_SenderID m) (msg_ReceiverID m) x (msg_CreatedAt m)));
  ("createdAt"%string, decode_text (λ x m, MkMessage (msg_ID m) (msg_ConversationID m) (msg_ConversationSeq m)
    (msg_ClientMessageID m) (msg_SenderID m) (msg_ReceiverID m) (msg_Content m) x))].

Definition client_envelope_fields : list (field_setter RealtimeEnvelope) := [
  ("type"%string, decode_text (λ x e, MkRealtimeEnvelope x (env_ConversationID e) (env_ConversationSeq e) (env_Message e)));
  ("conversationId"%string, decode_int64 (λ x e, MkRealtimeEnvelope (env_Type e) x (env_ConversationSeq e) (env_Message e)));
  ("conversationSeq"%string, decode_int64 (λ x e, MkRealtimeEnvelope (env_Type e) (env_ConversationID e) x (env_Message e)));
  ("message"%string, λ v e,
    m ← decode_struct client_message_fields false v (env_Message e);
    Some (MkRealtimeEnvelope (env_Type e) (env_ConversationID e) (env_ConversationSeq e) m))].

Definition zero_client_message : Message := MkMessage 0 0 0 "" 0 0 "" "".

(** [json.Unmarshal] by the tags of [RealtimeEnvelope]. *)
Definition decodeRealtimeEnvelope (bs : list Z) : option RealtimeEnvelope :=
  v ← parse_document bs;
  decode_struct client_envelope_fields false v (MkRealtimeEnvelope "" 0 0 zero_client_message).

(** * Between the two *)
Section realtime.
Context `{TimeText, AEAD, StateCodec} {S : Type}.
Implicit Types (m : message) (event : outboxEvent).

(** The keys of a literal object. *)
Ltac literal_keys :=
  repeat match goal with |- context [json_text (String ?a ?s)] => rewrite (json_text_id (String a s)) by reflexivity end.

Lemma message_struct_literals m : literals (message_struct m).
Proof. simpl. split_and!; try done; apply literal_FormatInt. Qed.

Lemma client_reads_message m (z : Message) :
  int64_message m →
  decode_struct client_message_fields false (reread (message_struct m)) z = Some (client_message m).
Proof.
  intros (? & ? & ? & ? & ?). unfold message_struct. cbn [reread List.map fst snd]. literal_keys.
  unfold decode_struct. cbn [foldl]. unfold decode_member. cbn [fst snd]. unfold client_message_fields. lookup_fields.
  unfold decode_int64, decode_text. by rewrite !ParseInt_FormatInt by done.
Qed.

(** What each participant's connections are sent. *)
Definition wire_struct event m : json := envelope_struct (envelope_for event (payload_of m) (recipient 0)).

Lemma wire_struct_members event m :
  0 < ConversationID m → 0 < ConversationSeq m →
  wire_struct event m = JObject [
    ("type"%string, JText (EventType event)); ("eventId"%string, JText (EventID event));
    ("conversationId"%string, JNumber (FormatInt (ConversationID m)));
    ("conversationSeq"%string, JNumber (FormatInt (ConversationSeq m))); ("message"%string, message_struct m)].
Proof.
  intros Hc Hs. unfold wire_struct, envelope_struct, omit_zero.
  cbn [envelope_for envelope_Type envelope_EventID envelope_Cursor envelope_ConversationID envelope_ConversationSeq
    envelope_Message payload_of payload_Message recipient recipient_Cursor].
  replace (ConversationID m =? 0) with false by lia. by replace (ConversationSeq m =? 0) with false by lia.
Qed.

Lemma wire_struct_value event m : positive_message m → payload_value (wire_struct event m).
Proof.
  intros (_ & _ & _ & Hc & Hs). rewrite wire_struct_members by done. split.
  - cbn [literals List.fold_right snd]. split_and!; try done; try apply literal_FormatInt. apply message_struct_literals.
  - unfold message_struct. cbn [nesting List.fold_right snd Nat.max]. unfold max_nesting_depth. lia.
Qed.

Lemma client_applies event m :
  EventType event = "message.created"%string → int64_message m → positive_message m →
  ∃ e, decodeRealtimeEnvelope (marshal (wire_struct event m)) = Some e ∧
    ∀ c : client_world S, ApplyRealtime e c = applyMessage (client_message m) c.
Proof.
  intros Ht Hi Hm. pose proof Hi as (_ & Hic & His & _). pose proof Hm as (_ & _ & _ & Hc & Hs).
  destruct (wire_struct_value event m Hm) as [Hl Hn].
  exists (MkRealtimeEnvelope "message.created" (ConversationID m) (ConversationSeq m) (client_message m)). split.
  - unfold decodeRealtimeEnvelope. rewrite parse_document_marshal by (done || lia). rewrite wire_struct_members by done.
    rewrite Ht. cbn [mbind option_bind reread List.map fst snd]. literal_keys. fold reread.
    unfold decode_struct at 1. cbn [foldl]. unfold decode_member. cbn [fst snd]. unfold client_envelope_fields. lookup_fields.
    unfold decode_text at 1, decode_int64 at 1 2. rewrite !ParseInt_FormatInt by done. cbn [mbind option_bind].
    change (snd <$> None) with (@None (json → RealtimeEnvelope → option RealtimeEnvelope)).
    cbn [mbind option_bind env_Type env_ConversationID env_ConversationSeq env_Message].
    by rewrite client_reads_message.
  - intros c. unfold ApplyRealtime. cbn [env_Type env_ConversationID env_ConversationSeq env_Message client_message
      msg_ConversationID msg_ConversationSeq]. rewrite bool_decide_eq_true_2, !Z.eqb_refl by done.
    by replace (ConversationID m <=? 0) with false by lia.
Qed.

(** * Publishing an event *)
Context (router : redisRealtimeRouter).
Context (ttl_positive : 0 < Milliseconds (ttl (router_presence router))).
Implicit Types (db : redis_db) (w : router_world).

Abbreviation channel := (instanceChannel router).
Abbreviation presence := (router_presence router).

(** The publisher that the process gives to its outbox worker. *)
Definition router_publisher : webSocketOutboxPublisher :=
  WebSocketOutboxPublisher (Router.Publish router) (Some (Router.PrepareDeliveryBatch router)).

(** The deliveries to some users, in turn. *)
Definition deliver_each (payload : list Z) (h : webSocketHub) (users : list Z) : webSocketHub :=
  foldl (λ h user, (deliver in_order user payload h).2) h users.

Lemma publish_recipients_quiet event m users h os db :
  payload_value (wire_struct event m) → Forall (λ u, 0 < u) users → keys_typed presence db →
  ∃ w', publish_recipients router_publisher event (payload_of m) (recipient <$> users)
      (RouterWorld h [] os (RedisWorld db [])) = (Ok tt, w') ∧
    hub w' = deliver_each (marshal (wire_struct event m)) h users ∧
    (∀ x, x ∈ published db → x ∈ published (redis (remote w'))) ∧
    ∀ u r, u ∈ users → r ∈ records_of presence db u → InstanceID r ≠ instanceID router →
      (channel (InstanceID r), deliver_text u (wire_struct event m)) ∈ published (redis (remote w')).
Proof.
  intros Hv Hall. revert h os db. induction Hall as [|u users Hu _ IH]; intros h os db Hty.
  { eexists. split_and!; [reflexivity|done|done|]. by intros u r ?%not_elem_of_nil. }
  cbn [fmap list_fmap publish_recipients]. change (envelope_struct _) with (wire_struct event m).
  set (w0 := RouterWorld h [] os (RedisWorld db [])).
  destruct (Publish_quiet router ttl_positive u (wire_struct event m) w0 in_order h db Hv Hu Hty) as (db' & os' & Hp & Hrun);
    [by split|done|].
  set (more := (λ id, (channel id, _)) <$> _) in Hrun.
  destruct (IH (deliver in_order u (marshal (wire_struct event m)) h).2 os' (with_published more db'))
    as (w' & Hrest & Hh & Hkeep & Hsent); [apply (pr_typed _ _ _ _ Hp)|].
  exists w'. split_and!.
  - rewrite (proc_bind_run _ _ _ _ _ (run_error_run _ _ _ _ _ Hrun)). exact Hrest.
  - exact Hh.
  - intros x Hx. apply Hkeep. cbn [with_published published]. apply elem_of_app. left.
    by destruct (pr_server _ _ _ _ Hp) as (_ & _ & ->).
  - intros u' r Hin Hr Hne. destruct (decide (u' = u)) as [->|Hu'].
    + apply Hkeep. cbn [with_published published]. apply elem_of_app. right. unfold more.
      apply list_elem_of_fmap. exists (InstanceID r). split; [done|]. apply elem_of_ranged. eauto.
    + apply elem_of_cons in Hin as [?|Hin]; [done|]. apply Hsent; [done| |done].
      change (records_of presence (with_published more db') u') with (records_of presence db' u').
      by apply (pruned_records presence db db' u' r Hty Hp).
Qed.

(** C6: publishing the event of a stored message, on servers that
    answer, delivers its payload on this instance's hub to the sender and the
    receiver, and sends a command that delivers that same payload to every other
    instance that presence knows to hold a connection of one of them; and a client
    that decodes the payload applies exactly the message that was stored. *)
Theorem event_reaches_connections event m w db :
  EventType event = "message.created"%string → PayloadVersion event = 4 → MessageID event = ID m →
  Payload event = message_created_payload m → int64_message m → positive_message m →
  hub_trips w = [] → remote w = RedisWorld db [] → keys_typed presence db →
  ∃ payload w', publish_event router_publisher event w = (Ok tt, w') ∧
    hub w' = deliver_each payload (hub w) (participants m) ∧
    (∀ u r, u ∈ participants m → r ∈ records_of presence db u → InstanceID r ≠ instanceID router →
      ∃ command, (channel (InstanceID r), command) ∈ published (redis (remote w')) ∧
        ∀ x order h, answers x order h →
          handleCommand command x = (Ok tt, after_call x (deliver order u payload h).2)) ∧
    ∃ e, decodeRealtimeEnvelope payload = Some e ∧ ∀ c : client_world S, ApplyRealtime e c = applyMessage (client_message m) c.
Proof.
  intros Ht Hver Hid Hp Hi Hm Htr Hrem Hty. pose proof (wire_struct_value event m Hm) as Hv.
  assert (Forall (λ u, 0 < u ∧ is_int64 u) (participants m)) as Hall.
  { destruct Hi as (_ & _ & _ & ? & ?), Hm as (_ & ? & ? & _). unfold participants. destruct (_ =? _); auto using Forall_cons_2, Forall_nil_2. }
  destruct (publish_recipients_quiet event m (participants m) (hub w) (instance_orders w) db Hv) as (w' & Hrun & Hh & _ & Hsent);
    [by eapply Forall_impl; [exact Hall|intros u [? _]]|done|].
  exists (marshal (wire_struct event m)), w'. split_and!; [|done| |by apply client_applies].
  - unfold publish_event. rewrite bool_decide_eq_true_2 by done. cbn [negb]. rewrite (decode_event_of event m) by done.
    destruct w as [h ts os re]. simpl in Htr, Hrem. subst. exact Hrun.
  - intros u r Hu Hr Hne. exists (deliver_text u (wire_struct event m)). split; [by apply Hsent|].
    rewrite Forall_forall in Hall. destruct (Hall u Hu). intros x order h Hx. by apply handle_deliver.
Qed.
End realtime.
