(* ===== verification/ClientExamples.v ===== *)
(** The headless client's properties at concrete inputs: bob's client on bob's
    server, with a cipher and an encoding that can be run. *)
From Stdlib Require Import Ascii String Bool.
From stdpp Require Import countable.
From S2P Require Import Prelude GoStd Tables Driver Json Schema Changes MessageStore MessageService Sending.
From S2P Require Import Numerals ConversationSync Encoding ClientStore Client ClientLog ClientPromises ClientSync.
From S2P Require Import ClientServer.
Open Scope Z_scope.

(** * Instances of the libraries *)

(** No secrecy is claimed: the plaintext itself, under a nonce of twelve bytes. *)
#[local] Instance plain_aead : AEAD.
Proof.
  refine {| NonceSize := 12; aead_seal _ plaintext _ := plaintext; aead_open _ sealed _ := Some sealed |}. done.
Defined.

#[local] Instance AuthState_eq_dec : EqDecision AuthState.
Proof. solve_decision. Defined.
#[local] Instance Message_eq_dec : EqDecision Message.
Proof. solve_decision. Defined.
#[local] Instance ConversationState_eq_dec : EqDecision ConversationState.
Proof. solve_decision. Defined.
#[local] Instance State_eq_dec : EqDecision State.
Proof. solve_decision. Defined.

#[local] Instance AuthState_countable : Countable AuthState.
Proof.
  refine (inj_countable'
    (λ a, (SessionID a, DeviceID a, SessionExpiresAt a, AccessToken a, AccessTokenExpiresAt a, RefreshToken a,
           RefreshTokenExpiresAt a))
    (λ '(a, b, c, d, e, f, g), MkAuthState a b c d e f g) _). by intros [].
Defined.
#[local] Instance PendingRefresh_countable : Countable PendingRefresh.
Proof.
  refine (inj_countable' (λ p, (pending_RefreshToken p, pending_IdempotencyKey p))
    (λ '(a, b), MkPendingRefresh a b) _). by intros [].
Defined.
#[local] Instance Message_countable : Countable Message.
Proof.
  refine (inj_countable'
    (λ m, (msg_ID m, msg_ConversationID m, msg_ConversationSeq m, msg_ClientMessageID m, msg_SenderID m,
           msg_ReceiverID m, msg_Content m, msg_CreatedAt m))
    (λ '(a, b, c, d, e, f, g, h), MkMessage a b c d e f g h) _). by intros [].
Defined.
#[local] Instance ConversationState_countable : Countable ConversationState.
Proof.
  refine (inj_countable' (λ c, (AppliedCursor c, AckedCursor c, PendingACK c, Messages c))
    (λ '(a, b, c, d), MkConversationState a b c d) _). by intros [].
Defined.
#[local] Instance State_countable : Countable State.
Proof.
  refine (inj_countable' (λ s, (Version s, Auth s, Pending s, Conversations s))
    (λ '(a, b, c, d), MkState a b c d) _). by intros [].
Defined.

#[local] Instance number_codec : StateCodec.
Proof.
  refine {| marshal_state s := [Zpos (encode s)];
            unmarshal_state bs := match bs with [Zpos p] => decode p | _ => None end |}.
  intros s _. apply decode_encode.
Defined.

(** * Bob's server and client *)

#[local] Existing Instance binary_time.
Open Scope string_scope.

Definition bobs_auth : AuthState := MkAuthState 5 "phone" "t" "access" "t" "refresh" "t".
Definition rotated_auth : AuthState := MkAuthState 5 "phone" "t" "access2" "t" "refresh2" "t".

Definition bobs_token (token : string) : option (Z * string) :=
  if bool_decide (token = "access") then Some (2%Z, "phone") else None.
Definition bobs_refresh (token key : string) (w : db_world) : http_reply AuthState * db_world :=
  (if bool_decide (token = "refresh") then HttpReply 200 EmptyString 300 (Some rotated_auth) else NoReply, w).
Definition short_page (_ : conversationMessagePage) : Z := 300.

#[local] Instance bobs_server : IMServer db_world := im_server bobs_token bobs_refresh short_page.
#[local] Instance bobs_decoded : DecodedReplies db_world := server_decoded bobs_token bobs_refresh short_page.
#[local] Instance bobs_promise : SyncServer db_world := server_keeps_promise bobs_token bobs_refresh short_page.

Definition nonce0 : list Z := replicate 12 7%Z.
Definition good_call : store_event := StoreEvent true nonce0 WriteDone.
(** The process dies between the rename and the directory's sync. *)
Definition torn_call : store_event := StoreEvent true nonce0 FailsAfterRename.

Definition bobs_client (calls : list store_event) : client_world db_world := ClientWorld None calls bobs_world.
Definition signed_in : client_world db_world := (PersistAuth bobs_auth (bobs_client (replicate 30 good_call))).2.
Definition synced_up : client_world db_world := (SyncConversation 5 10 50 signed_in).2.

Lemma calls_ok calls (w : db_world) :
  Forall (λ e, bool_decide (List.length (file_nonce e) = 12%nat)) calls → nonces_ok (ClientWorld None calls w).
Proof. intros Hc. apply (Forall_impl _ _ _ Hc). intros e He. exact (bool_decide_unpack _ He). Qed.

Lemma bobs_calls_ok : nonces_ok (bobs_client (replicate 30 good_call)).
Proof. apply calls_ok. by apply Forall_replicate. Qed.

Lemma bobs_file_ok P : file_ok P (bobs_client (replicate 30 good_call)).
Proof. constructor; [apply bobs_calls_ok|]. exists (normalize zero_state). split; [done|apply state_ok_zero]. Qed.

Lemma bobs_auth_text : text_auth bobs_auth.
Proof. repeat constructor. Qed.

Lemma signed_in_ok P : file_ok P signed_in.
Proof. eapply PersistAuth_keeps; [apply bobs_auth_text|apply bobs_file_ok|apply surjective_pairing]. Qed.

Lemma signed_in_synced : synced_world signed_in.
Proof.
  constructor; [|apply signed_in_ok]. replace (cw_server signed_in) with bobs_world by (vm_compute; reflexivity).
  split; [apply bobs_world_ok|done].
Qed.

Definition bobs_state : State := MkState 1 (Some bobs_auth) None ∅.

Lemma signed_in_file : load_file (cw_file signed_in) = Ok bobs_state.
Proof. vm_compute. reflexivity. Qed.

(** * The properties *)

Lemma client_log_has_no_gap_witness :
  ∃ s, load_file (cw_file (run_calls [CallPersistAuth bobs_auth; CallSync 5 10 50; CallFlush 10]
         (bobs_client (replicate 30 good_call)))) = Ok s ∧
    ∀ key c, Conversations s !! key = Some c → ∃ id, key = FormatInt id ∧ conversation_log id c.
Proof.
  refine (client_log_has_no_gap _ _ _ bobs_calls_ok eq_refl).
  repeat constructor.
Defined.

(** The write of the new state is torn after the rename: the call fails and the new
    state is on file. *)
Definition torn_client : client_world db_world := ClientWorld (cw_file signed_in) [torn_call] bobs_world.

Lemma Update_is_atomic_witness :
  (Update (apply_update (client_message hello_message)) torn_client).1 =
    Err (ClientError "sync client state directory") ∧
  match apply_update (client_message hello_message) bobs_state with
  | Err _ => load_file (cw_file (Update (apply_update (client_message hello_message)) torn_client).2) = Ok bobs_state ∧
      is_ok (Update (apply_update (client_message hello_message)) torn_client).1 = false
  | Ok (s', a) =>
      (load_file (cw_file (Update (apply_update (client_message hello_message)) torn_client).2) = Ok bobs_state ∨
       load_file (cw_file (Update (apply_update (client_message hello_message)) torn_client).2) = Ok (normalize s')) ∧
      ∀ b, (Update (apply_update (client_message hello_message)) torn_client).1 = Ok b → b = a ∧
        load_file (cw_file (Update (apply_update (client_message hello_message)) torn_client).2) = Ok (normalize s')
  end.
Proof.
  split; [vm_compute; reflexivity|].
  refine (Update_is_atomic (apply_update (client_message hello_message)) torn_client bobs_state _ _ _ _ _
    (surjective_pairing _)).
  - repeat constructor.
  - exact signed_in_file.
  - intros s' a Hu.
    eapply (apply_update_keeps (λ _, True) (client_message hello_message) bobs_state); [..|exact Hu].
    + intros key c. simpl. by rewrite lookup_empty.
    + intros key c k m. simpl. by rewrite lookup_empty.
    + constructor; simpl; [intros a0 [= <-]; apply bobs_auth_text|done|by apply map_Forall_empty].
    + split_and!; try done. by repeat constructor.
    + done.
Defined.

Lemma hello_message_valid : message_valid (client_message hello_message).
Proof. split_and!; try done. by repeat constructor. Qed.

Lemma applyMessage_appends_witness :
  (applyMessage (client_message hello_message) signed_in).1 = Ok Applied ∧
  (msg_ConversationSeq (client_message hello_message) = applied_cursor 10 bobs_state + 1)%Z ∧
  ∃ s' c', load_file (cw_file (applyMessage (client_message hello_message) signed_in).2) = Ok s' ∧
    conversation_state 10 s' = Some c' ∧ AppliedCursor c' = 1%Z ∧
    Messages c' !! FormatInt 1 = Some (client_message hello_message).
Proof.
  assert ((applyMessage (client_message hello_message) signed_in).1 = Ok Applied) as Hr by (vm_compute; reflexivity).
  split; [exact Hr|].
  pose proof (applyMessage_appends (λ _, True) (client_message hello_message) signed_in bobs_state _ _
    (signed_in_ok _) hello_message_valid I signed_in_file (surjective_pairing _)) as Happ.
  cbv zeta in Happ. rewrite Hr in Happ. exact Happ.
Defined.

Lemma synced_up_run : SyncConversation 5 10 50 signed_in = (Ok Synced, synced_up).
Proof.
  unfold synced_up. rewrite (surjective_pairing (SyncConversation 5 10 50 signed_in)) at 1.
  apply (f_equal (λ r, (r, synced_up))). vm_compute. reflexivity.
Qed.

Lemma SyncConversation_catches_up_witness :
  rounds_needed 10 50 signed_in = 2%nat ∧ (SyncConversation 2 10 50 signed_in).1 ≠ Ok OutOfFuel ∧
  synced_world synced_up ∧ server_grows 10 signed_in synced_up ∧ caught_up 10 signed_in synced_up.
Proof.
  destruct (SyncConversation_catches_up 10 50 signed_in signed_in_synced) as [Hend Hrun].
  assert (rounds_needed 10 50 signed_in = 2%nat) as Hn by (vm_compute; reflexivity). split; [exact Hn|]. split.
  { refine (Hend (cw_events signed_in) (fo_nonces _ _ (sw_file _ signed_in_synced)) 2%nat _). rewrite Hn. lia. }
  destruct (Hrun 5%nat _ _ synced_up_run) as (Hw & Hg & Hup).
  split; [exact Hw|]. split; [exact Hg|]. exact (Hup eq_refl).
Defined.

Lemma client_mirrors_server_witness :
  hello_message ∈ messages (w_db (cw_server signed_in)) ∧
  ∃ s c, load_file (cw_file synced_up) = Ok s ∧ conversation_state 10 s = Some c ∧
    Messages c !! FormatInt 1 = Some (client_message hello_message).
Proof.
  assert (hello_message ∈ messages (w_db (cw_server signed_in))) as Hin.
  { apply (bool_decide_unpack _). vm_compute. done. }
  split; [exact Hin|].
  destruct (client_mirrors_server bobs_token bobs_refresh short_page 10 50 signed_in signed_in_synced) as [_ Hrun].
  destruct (Hrun 5%nat _ _ synced_up_run) as [_ Hall].
  exact (Hall eq_refl hello_message Hin eq_refl).
Defined.

Lemma synced_up_ok P : (∀ m, stored (cw_server synced_up) m → P m) → file_ok P synced_up.
Proof.
  intros HP. eapply file_ok_mono; [exact HP|].
  apply (SyncConversation_spec 5 10 50 signed_in _ _ signed_in_synced synced_up_run).
Qed.

Lemma FlushACK_acknowledges_witness :
  (FlushACK 10 synced_up).1 = Ok tt ∧
  ∃ s s', load_file (cw_file synced_up) = Ok s ∧ load_file (cw_file (FlushACK 10 synced_up).2) = Ok s' ∧
    ∀ c, conversation_state 10 s = Some c → ∃ c', conversation_state 10 s' = Some c' ∧
      AppliedCursor c' = AppliedCursor c ∧ Messages c' = Messages c ∧
      (AckedCursor c ≤ AckedCursor c')%Z ∧ (AppliedCursor c ≤ AckedCursor c')%Z.
Proof.
  assert ((FlushACK 10 synced_up).1 = Ok tt) as Hr by (vm_compute; reflexivity).
  split; [exact Hr|]. apply (FlushACK_acknowledges (λ _, True)); [by apply synced_up_ok|].
  exact (eq_trans (surjective_pairing _) (f_equal (λ r, (r, (FlushACK 10 synced_up).2)) Hr)).
Defined.

Lemma Refresh_is_retryable_witness :
  ∃ s', load_file (cw_file (Refresh "retry-key" signed_in).2) = Ok s' ∧
    Pending s' = None ∧ Auth s' = Some rotated_auth.
Proof.
  pose proof (Refresh_is_retryable (λ _, True) "retry-key" bobs_auth signed_in bobs_state _ _ (signed_in_ok _)
    signed_in_file eq_refl (λ E, ltac:(discriminate E)) (λ E, ltac:(discriminate E)) eq_refl (surjective_pairing _)) as Hr.
  cbv zeta in Hr. rewrite decide_True in Hr by reflexivity. destruct Hr as [_ (s' & Hl & _ & Hcase)].
  exists s'. split; [exact Hl|].
  assert (is_ok (Refresh "retry-key" signed_in).1 = true) as Hok by (vm_compute; reflexivity).
  destruct Hcase as [(_ & _ & Hbad)|(Hp & response & Hread & Ha)]; [destruct (diff_true_false (eq_trans (eq_sym Hok) Hbad))|].
  split; [exact Hp|]. rewrite Ha. f_equal. vm_compute in Hread. by injection Hread.
Defined.
