(* ===== verification/RealtimeExamples.v ===== *)
(** A message from alice to bob, from its event to bob's client: bob is connected here
    and on another instance. *)
From Stdlib Require Import Ascii String.
From S2P Require Import Prelude GoStd Tables Driver Json Schema Changes MessageStore MessageService Sending Outbox Numerals.
From S2P Require Import Encoding JsonText Events EventsOk Hub HubOk HubPromises Redis Presence PresenceOk.
From S2P Require Import PresencePromises Router RouterPromises ClientStore Client ClientServer ClientExamples Realtime.
Open Scope Z_scope.

#[local] Existing Instances binary_time plain_aead number_codec bobs_server.

Definition hello_event : outboxEvent :=
  OutboxEvent "e1" "message.created" 4 (ID hello_message) (message_created_payload hello_message) 0 "" None.

Definition bob_elsewhere : webSocketPresenceRecord := WebSocketPresenceRecord 2 4 "c5" "west-1".
Definition bobs_redis : redis_db := redis (Presence.Register some_presence bob_elsewhere (RedisWorld empty_redis [])).2.

Lemma bobs_redis_typed : keys_typed some_presence bobs_redis.
Proof.
  unfold bobs_redis. destruct (Presence.Register some_presence bob_elsewhere _) as [res w] eqn:E.
  apply (Register_spec some_presence eq_refl bob_elsewhere (RedisWorld empty_redis []) res w empty_typed eq_refl E).
Qed.

Definition publishing_world : router_world := RouterWorld open_hub [] [] (RedisWorld bobs_redis []).

Lemma hello_int64 : int64_message hello_message.
Proof. vm_compute. intuition discriminate. Qed.
Lemma hello_positive : positive_message hello_message.
Proof. vm_compute. intuition discriminate. Qed.

Lemma bobs_records : records_of some_presence bobs_redis 2 = [bob_elsewhere].
Proof. vm_compute. reflexivity. Qed.

Lemma event_reaches_connections_witness :
  ∃ payload w' command e,
    publish_event (router_publisher east_router) hello_event publishing_world = (Ok tt, w') ∧
    hub w' = deliver_each payload open_hub [1; 2] ∧
    ("im:ws:instance:west-1"%string, command) ∈ published (redis (remote w')) ∧
    handleCommand command east_world = (Ok tt, after_call east_world (deliver in_order 2 payload east_hub).2) ∧
    decodeRealtimeEnvelope payload = Some e ∧ (ApplyRealtime e signed_in).1 = Ok Applied.
Proof.
  destruct (event_reaches_connections (S := db_world) east_router eq_refl hello_event hello_message publishing_world bobs_redis
    eq_refl eq_refl eq_refl eq_refl hello_int64 hello_positive eq_refl eq_refl bobs_redis_typed)
    as (payload & w' & Hrun & Hhub & Hsent & e & Hdec & Happ).
  destruct (Hsent 2 bob_elsewhere) as (command & Hin & Hcmd).
  { apply list_elem_of_In. vm_compute. tauto. }
  { change (router_presence east_router) with some_presence. rewrite bobs_records. apply list_elem_of_here. }
  { discriminate. }
  exists payload, w', command, e. split; [exact Hrun|]. split; [exact Hhub|]. split; [exact Hin|].
  split; [exact (Hcmd east_world in_order east_hub (conj eq_refl eq_refl))|]. split; [exact Hdec|].
  rewrite Happ. vm_compute. reflexivity.
Defined.
