(* ===== verification/AuthTables.v ===== *)
(** The account tables of [schema.sql]: users, sessions, tokens and the results of
    idempotent requests, the row changes that the program makes and the constraints
    it can run into.  Times are microseconds. *)
From Stdlib Require Import Ascii String.
From S2P Require Import Prelude GoStd Tables Driver Schema.
Open Scope Z_scope.

(** * Rows *)

Record session_row : Type := SessionRow {
  session_id : Z; session_user : Z; session_device : string; session_idle_expires_at : Z;
  session_revoked_at : option Z; session_created_at : Z
}.

Record access_row : Type := AccessRow {
  access_session : Z; access_hash : list Z; access_expires_at : Z; access_created_at : Z
}.

Record refresh_row : Type := RefreshRow {
  refresh_id : Z; refresh_session : Z; refresh_parent : option Z; refresh_hash : list Z;
  refresh_expires_at : Z; refresh_consumed_at : option Z; refresh_created_at : Z
}.

Record login_row : Type := LoginRow {
  login_hash : list Z; login_user : Z; login_session : Z; login_response : list Z; login_nonce : list Z;
  login_key_version : Z; login_expires_at : Z; login_created_at : Z
}.

Record rotation_row : Type := RotationRow {
  rotation_token : Z; rotation_key_hash : list Z; rotation_response : list Z; rotation_nonce : list Z;
  rotation_key_version : Z; rotation_expires_at : Z; rotation_created_at : Z
}.

Record auth_database : Type := AuthDatabase {
  accounts : list user_row; sessions : list session_row; access_tokens : list access_row;
  refresh_tokens : list refresh_row; login_results : list login_row; rotation_results : list rotation_row
}.

(** * Row changes *)

(** [ShareAccount] is the lock that [SELECT ... FOR SHARE] takes. *)
Inductive auth_change : Type :=
| InsertAccount (u : user_row)
| SetPassword (id : Z) (password_hash : string)
| ShareAccount (id : Z)
| InsertSession (s : session_row)
| RevokeSession (id : Z) (at_ : Z)
| SetIdle (id : Z) (at_ : Z)
| ShareSession (id : Z)
| InsertAccess (a : access_row)
| InsertRefresh (r : refresh_row)
| ConsumeRefresh (id : Z) (at_ : Z)
| InsertLogin (l : login_row)
| InsertRotation (r : rotation_row).

Definition set_password (id : Z) (hash : string) (u : user_row) : user_row :=
  if user_id u =? id then UserRow (user_id u) (user_username u) (user_display_name u) hash else u.

(** Revoking again leaves the first time. *)
Definition revoke (id at_ : Z) (s : session_row) : session_row :=
  if session_id s =? id
  then SessionRow (session_id s) (session_user s) (session_device s) (session_idle_expires_at s)
         (Some (default at_ (session_revoked_at s))) (session_created_at s)
  else s.

Definition set_idle (id at_ : Z) (s : session_row) : session_row :=
  if session_id s =? id
  then SessionRow (session_id s) (session_user s) (session_device s) at_ (session_revoked_at s) (session_created_at s)
  else s.

Definition consume (id at_ : Z) (r : refresh_row) : refresh_row :=
  if refresh_id r =? id
  then RefreshRow (refresh_id r) (refresh_session r) (refresh_parent r) (refresh_hash r) (refresh_expires_at r)
         (Some (default at_ (refresh_consumed_at r))) (refresh_created_at r)
  else r.

Definition with_accounts (l : list user_row) (d : auth_database) : auth_database :=
  AuthDatabase l (sessions d) (access_tokens d) (refresh_tokens d) (login_results d) (rotation_results d).
Definition with_sessions (l : list session_row) (d : auth_database) : auth_database :=
  AuthDatabase (accounts d) l (access_tokens d) (refresh_tokens d) (login_results d) (rotation_results d).
Definition with_refresh_tokens (l : list refresh_row) (d : auth_database) : auth_database :=
  AuthDatabase (accounts d) (sessions d) (access_tokens d) l (login_results d) (rotation_results d).

#[global] Instance apply_auth_change : RowChange auth_database auth_change := λ u d,
  match u with
  | InsertAccount x => with_accounts (accounts d ++ [x]) d
  | SetPassword id hash => with_accounts (set_password id hash <$> accounts d) d
  | ShareAccount _ | ShareSession _ => d
  | InsertSession s => with_sessions (sessions d ++ [s]) d
  | RevokeSession id at_ => with_sessions (revoke id at_ <$> sessions d) d
  | SetIdle id at_ => with_sessions (set_idle id at_ <$> sessions d) d
  | InsertAccess a =>
      AuthDatabase (accounts d) (sessions d) (access_tokens d ++ [a]) (refresh_tokens d) (login_results d)
        (rotation_results d)
  | InsertRefresh r => with_refresh_tokens (refresh_tokens d ++ [r]) d
  | ConsumeRefresh id at_ => with_refresh_tokens (consume id at_ <$> refresh_tokens d) d
  | InsertLogin l =>
      AuthDatabase (accounts d) (sessions d) (access_tokens d) (refresh_tokens d) (login_results d ++ [l])
        (rotation_results d)
  | InsertRotation r =>
      AuthDatabase (accounts d) (sessions d) (access_tokens d) (refresh_tokens d) (login_results d)
        (rotation_results d ++ [r])
  end.

(** * Constraints: CHECK, then UNIQUE, then FOREIGN KEY. *)

Definition find_account (id : Z) (d : auth_database) : option user_row :=
  sql_first (λ u, user_id u =? id) (accounts d).
Definition find_session (id : Z) (d : auth_database) : option session_row :=
  sql_first (λ s, session_id s =? id) (sessions d).
Definition find_refresh (hash : list Z) (d : auth_database) : option refresh_row :=
  sql_first (λ r, bool_decide (refresh_hash r = hash)) (refresh_tokens d).

Definition opt_is_some {A} (o : option A) : bool := if o is Some _ then true else false.

(** The identity columns' sequences end at the largest bigint. *)
Definition sequence_generator_limit_exceeded : string := "2200H".
Definition check_identity (id : Z) : list (bool * string) := [(in_range 1 int64_max id, sequence_generator_limit_exceeded)].

(** [username ~ '^[a-z0-9_]{3,32}$']; such a text is its own lower case, trimmed. *)
Definition username_byte (b : Z) : bool := in_range 97 122 b || in_range 48 57 b || (b =? 95).
Definition usernamePattern (s : string) : bool :=
  in_range 3 32 (len s) && forallb username_byte (bytes_of s).

(** [s = btrim(s)], of spaces only. *)
Definition btrimmed (s : string) : bool :=
  match bytes_of s with [] => true | b :: bs => negb (b =? 32) && negb (List.last (b :: bs) 0 =? 32) end.

Definition check_account (u : user_row) (d : auth_database) : list (bool * string) :=
  check_identity (user_id u) ++
  [(usernamePattern (user_username u), check_violation);
   (btrimmed (user_display_name u) && in_range 1 100 (char_length (user_display_name u)), check_violation);
   (in_range 1 512 (char_length (user_password_hash u)), check_violation);
   (negb (opt_is_some (find_account (user_id u) d)), unique_violation);
   (negb (sql_exists (λ x, bool_decide (user_username x = user_username u)) (accounts d)), unique_violation)].

(** The CHECK constraints of a session row, new or changed. *)
Definition check_session (s : session_row) : list (bool * string) :=
  [(in_range 1 128 (char_length (session_device s)), check_violation);
   (session_created_at s <? session_idle_expires_at s, check_violation);
   (opt_ge (session_revoked_at s) (session_created_at s), check_violation)].

Definition reference_session (id : Z) (d : auth_database) : list (bool * string) :=
  [(opt_is_some (find_session id d), foreign_key_violation)].

Definition insert_session_checks (s : session_row) (d : auth_database) : list (bool * string) :=
  check_identity (session_id s) ++ check_session s ++
  [(negb (opt_is_some (find_session (session_id s) d)), unique_violation);
   (opt_is_some (find_account (session_user s) d), foreign_key_violation)].

Definition octets (n : nat) (bs : list Z) : bool := (List.length bs =? n)%nat.

Definition insert_access_checks (a : access_row) (d : auth_database) : list (bool * string) :=
  [(octets 32 (access_hash a), check_violation); (access_created_at a <? access_expires_at a, check_violation);
   (negb (sql_exists (λ x, bool_decide (access_hash x = access_hash a)) (access_tokens d)), unique_violation)] ++
  reference_session (access_session a) d.

Definition check_refresh (r : refresh_row) : list (bool * string) :=
  [(octets 32 (refresh_hash r), check_violation); (refresh_created_at r <? refresh_expires_at r, check_violation);
   (opt_ge (refresh_consumed_at r) (refresh_created_at r), check_violation)].

Definition refresh_exists (id : Z) (d : auth_database) : bool :=
  sql_exists (λ x, refresh_id x =? id) (refresh_tokens d).

Definition insert_refresh_checks (r : refresh_row) (d : auth_database) : list (bool * string) :=
  check_identity (refresh_id r) ++ check_refresh r ++
  [(negb (refresh_exists (refresh_id r) d), unique_violation);
   (negb (opt_is_some (find_refresh (refresh_hash r) d)), unique_violation)] ++
  reference_session (refresh_session r) d ++
  [(match refresh_parent r with None => true | Some p => refresh_exists p d end, foreign_key_violation)].

Definition insert_login_checks (l : login_row) (d : auth_database) : list (bool * string) :=
  [(octets 32 (login_hash l), check_violation); (login_created_at l <? login_expires_at l, check_violation);
   (negb (sql_exists (λ x, bool_decide (login_hash x = login_hash l)) (login_results d)), unique_violation);
   (opt_is_some (find_account (login_user l) d), foreign_key_violation)] ++
  reference_session (login_session l) d.

Definition insert_rotation_checks (r : rotation_row) (d : auth_database) : list (bool * string) :=
  [(octets 32 (rotation_key_hash r), check_violation);
   (rotation_created_at r <? rotation_expires_at r, check_violation);
   (negb (sql_exists (λ x, rotation_token x =? rotation_token r) (rotation_results d)), unique_violation);
   (refresh_exists (rotation_token r) d, foreign_key_violation)].
