(* ===== verification/Credentials.v ===== *)
(** The secrets of [auth.go] and [auth_crypto.go]: tokens, password hashes and the cipher
    that keeps the responses of idempotent requests. *)
From Stdlib Require Import Ascii String.
From S2P Require Import Prelude GoStd Text Json Numerals Encoding JsonText.
Open Scope Z_scope.

(** * Interfaces *)

(** golang.org/x/crypto/argon2: a key of the asked length.  The last four arguments
    are the passes, the memory, the threads and that length. *)
Class Argon2 := {
  IDKey : list Z → list Z → Z → Z → Z → Z → list Z;
  IDKey_length : ∀ password salt t m p n, 0 ≤ n → Z.of_nat (List.length (IDKey password salt t m p n)) = n;
  IDKey_bytes : ∀ password salt t m p n, Forall (λ b, 0 ≤ b < 256) (IDKey password salt t m p n)
}.

(** crypto/aes and crypto/cipher: a cipher for every key. *)
Class GCM := gcm : list Z → AEAD.

(** * base64.RawStdEncoding *)

Definition std_char (c : Z) : Z := if c =? 45 then 43 else if c =? 95 then 47 else c.
Definition url_char (c : Z) : Z :=
  if c =? 43 then 45 else if c =? 47 then 95 else if (c =? 45) || (c =? 95) then -1 else c.

Definition std_encode (bs : list Z) : list Z := std_char <$> base64_encode bs.
Definition std_decode (cs : list Z) : option (list Z) := base64_decode (url_char <$> cs).

(** * Tokens *)

Definition tokenLength : nat := 32.

Record generatedToken : Type := GeneratedToken { token_raw : string; token_hash : list Z }.

Section tokens.
Context `{SHA256}.

(** [newToken] from the bytes that [rand.Read] gave, which cannot fail. *)
Definition token_of (rawToken : list Z) : generatedToken :=
  GeneratedToken (string_of (base64_encode rawToken)) (Sum256 rawToken).

Definition decodeAndHashToken (encoded : string) : option (list Z * list Z) :=
  rawToken ← base64_decode (bytes_of encoded);
  if (List.length rawToken =? tokenLength)%nat then Some (rawToken, Sum256 rawToken) else None.
End tokens.

(** * Passwords *)

Definition minPasswordRunes : Z := 8.
Definition maxPasswordRunes : Z := 128.
Definition validPassword (password : string) : bool :=
  in_range minPasswordRunes maxPasswordRunes (RuneCountInString password).

Definition argonVersion : Z := 19.
Definition argonMemory : Z := 19 * 1024.
Definition argonIterations : Z := 2.
Definition argonParallelism : Z := 1.
Definition argonSaltLength : nat := 16.
Definition argonKeyLength : Z := 32.

(** ** [fmt.Sscanf] with [%d], on what is left of the input *)

Fixpoint scan_literal (literal bs : text) : option text :=
  match literal, bs with
  | [], _ => Some bs
  | x :: literal, b :: bs => if x =? b then scan_literal literal bs else None
  | _ :: _, [] => None
  end.

(** Spaces before a number are skipped; a newline is an error. *)
Fixpoint scan_space (fuel : nat) (bs : text) : option text :=
  match fuel with
  | O => Some bs
  | S fuel =>
      match List.find (λ e, has_prefix e bs) space_encodings with
      | Some e => if bool_decide (e = [10]) then None else scan_space fuel (drop (List.length e) bs)
      | None => Some bs
      end
  end.

Fixpoint scan_digits (bs : text) : text * text :=
  match bs with
  | b :: rest => if in_range 48 57 b then let '(ds, tail) := scan_digits rest in (b :: ds, tail) else ([], bs)
  | [] => ([], [])
  end.

Definition scan_number (bs : text) : option (text * text) :=
  rest ← scan_space (List.length bs) bs;
  match scan_digits rest with ([], _) => None | found => Some found end.

(** An [int], perhaps with a sign. *)
Definition scan_int (bs : text) : option (Z * text) :=
  rest ← scan_space (List.length bs) bs;
  let '(sign, rest) := match rest with b :: r => if (b =? 43) || (b =? 45) then ([b], r) else ([], rest) | [] => ([], []) end in
  match scan_digits rest with
  | ([], _) => None
  | (ds, tail) => z ← ParseInt (string_of (sign ++ ds)); Some (z, tail)
  end.

(** An unsigned integer of some bits. *)
Definition scan_uint (bits : Z) (bs : text) : option (Z * text) :=
  '(ds, tail) ← scan_number bs;
  let n := foldl (λ n d, 10 * n + (d - 48)) 0 ds in
  if n <? 2 ^ bits then Some (n, tail) else None.

Section passwords.
Context `{Argon2}.

Definition dollar : Z := 36.

(** [hashPassword] with the salt that [rand.Read] gave. *)
Definition password_hash (password : string) (salt : list Z) : string :=
  string_of ([dollar] ++ bytes_of "argon2id" ++ [dollar] ++ bytes_of "v=" ++ bytes_of (FormatInt argonVersion) ++ [dollar] ++
    bytes_of "m=" ++ bytes_of (FormatInt argonMemory) ++ bytes_of ",t=" ++ bytes_of (FormatInt argonIterations) ++
    bytes_of ",p=" ++ bytes_of (FormatInt argonParallelism) ++ [dollar] ++ std_encode salt ++ [dollar] ++
    std_encode (IDKey (bytes_of password) salt argonIterations argonMemory argonParallelism argonKeyLength)).

(** Without passes or threads argon2 panics, which is reported as an error here. *)
Definition verifyPassword (password encodedHash : string) : result string bool :=
  match split_at dollar (bytes_of encodedHash) with
  | [_; name; version_text; parameters; salt_text; hash_text] =>
      if negb (bool_decide (name = bytes_of "argon2id")) then Err "invalid password hash"%string
      else
        match (rest ← scan_literal (bytes_of "v=") version_text; scan_int rest) with
        | None => Err "invalid argon2 version"%string
        | Some (version, _) =>
            if negb (version =? argonVersion) then Err "invalid argon2 version"%string
            else
              match (r1 ← scan_literal (bytes_of "m=") parameters; '(memory, r2) ← scan_uint 32 r1;
                     r3 ← scan_literal (bytes_of ",t=") r2; '(iterations, r4) ← scan_uint 32 r3;
                     r5 ← scan_literal (bytes_of ",p=") r4; '(parallelism, _) ← scan_uint 8 r5;
                     Some (memory, iterations, parallelism)) with
              | None => Err "invalid argon2 parameters"%string
              | Some (memory, iterations, parallelism) =>
                  match std_decode salt_text with
                  | None => Err "illegal base64 data"%string
                  | Some salt =>
                      match std_decode hash_text with
                      | None => Err "illegal base64 data"%string
                      | Some expectedHash =>
                          if (iterations <? 1) || (parallelism <? 1) then Err "argon2: panic"%string
                          else Ok (bool_decide (IDKey (bytes_of password) salt iterations memory parallelism
                                                  (Z.of_nat (List.length expectedHash)) = expectedHash))
                      end
                  end
              end
        end
  | _ => Err "invalid password hash"%string
  end.
End passwords.

(** * The response cipher *)

(** A purpose, a zero byte and the record's id. *)
Definition associatedData (purpose : string) (recordID : list Z) : list Z := bytes_of purpose ++ 0 :: recordID.

(** The keys by version. *)
Record responseCipher : Type := ResponseCipher { cipher_keys : gmap Z (list Z); keyVersion : Z }.

Definition decodeResponseCipherKey (encodedKey : text) : result string (list Z) :=
  match std_decode encodedKey with
  | None => Err "IDEMPOTENCY_KEY must be unpadded base64"%string
  | Some key =>
      if (List.length key =? 32)%nat then Ok key else Err "IDEMPOTENCY_KEY must decode to exactly 32 bytes"%string
  end.

(** [strings.SplitN(s, ":", 2)] when there is a colon. *)
Fixpoint cut_colon (bs : text) : option (text * text) :=
  match bs with
  | [] => None
  | b :: bs => if b =? 58 then Some ([], bs) else '(x, y) ← cut_colon bs; Some (b :: x, y)
  end.

Fixpoint add_previous_keys (active : Z) (entries : list text) (keys : gmap Z (list Z)) : result string (gmap Z (list Z)) :=
  match entries with
  | [] => Ok keys
  | entry :: rest =>
      match cut_colon (TrimSpace entry) with
      | None => Err "IDEMPOTENCY_PREVIOUS_KEYS entries must use version:key"%string
      | Some (version_text, key_text) =>
          match ParseInt (string_of version_text) with
          | None => Err "IDEMPOTENCY_PREVIOUS_KEYS versions must be positive integers"%string
          | Some version =>
              if version <=? 0 then Err "IDEMPOTENCY_PREVIOUS_KEYS versions must be positive integers"%string
              else if version =? active then
                Err "active idempotency key must not be repeated in IDEMPOTENCY_PREVIOUS_KEYS"%string
              else if bool_decide (is_Some (keys !! version)) then Err "duplicate idempotency key version"%string
              else
                previous ← decodeResponseCipherKey key_text;
                add_previous_keys active rest (<[version := previous]> keys)
          end
      end
  end.

Definition newResponseCipherKeyring (encodedKey : string) (version : Z) (encodedPreviousKeys : string) :
    result string responseCipher :=
  if version <=? 0 then Err "IDEMPOTENCY_KEY_VERSION must be positive"%string
  else
    active ← decodeResponseCipherKey (bytes_of encodedKey);
    keys ← (if bool_decide (TrimSpace (bytes_of encodedPreviousKeys) = []) then Ok {[version := active]}
            else add_previous_keys version (split_at 44 (bytes_of encodedPreviousKeys)) {[version := active]});
    Ok (ResponseCipher keys version).

Definition newResponseCipher (encodedKey : string) (version : Z) : result string responseCipher :=
  newResponseCipherKeyring encodedKey version "".

Section cipher.
Context `{GCM}.

(** The active key's cipher; the constructor puts one there. *)
Definition active_key (c : responseCipher) : list Z := default [] (cipher_keys c !! keyVersion c).

Definition encrypt (c : responseCipher) (purpose : string) (recordID : list Z) (value : json) (nonce : list Z) : list Z :=
  aead_seal (AEAD := gcm (active_key c)) nonce (marshal value) (associatedData purpose recordID).

(** How many bytes of nonce [encrypt] reads. *)
Definition nonce_size (c : responseCipher) : nat := NonceSize (AEAD := gcm (active_key c)).

(** [decode] is the destination's [json.Unmarshal]. *)
Definition decrypt {A} (decode : list Z → option A) (c : responseCipher) (version : Z) (purpose : string)
    (recordID nonce ciphertext : list Z) : result string A :=
  match cipher_keys c !! version with
  | None => Err "idempotency encryption key version is unavailable"%string
  | Some key =>
      match aead_open (AEAD := gcm key) nonce ciphertext (associatedData purpose recordID) with
      | None => Err "cipher: message authentication failed"%string
      | Some plaintext =>
          match decode plaintext with Some a => Ok a | None => Err "json"%string end
      end
  end.
End cipher.
