(* ===== verification/AuthQueries.v ===== *)
(** [auth.go]: its responses, as the program and JSON have them, and its SQL over the
    account tables.  Clock readings are microseconds. *)
From Stdlib Require Import Ascii String.
From S2P Require Import Prelude GoStd Text Tables Driver Json Schema MessageStore MessageService ConversationSync.
From S2P Require Import Encoding JsonText Redis RateLimit AuthTables Credentials.
Open Scope Z_scope.

(** * Lifetimes *)

Definition microseconds (duration : Z) : Z := duration / 1000.
Definition day : Z := 24 * hour.
Definition accessTokenLifetime : Z := microseconds (15 * minute).
Definition sessionIdleLifetime : Z := microseconds (90 * day).
Definition sessionAbsoluteLifetime : Z := microseconds (365 * day).
Definition idempotencyLifetime : Z := microseconds (10 * minute).
Definition minTime (first second : Z) : Z := if first <? second then first else second.

(** * Responses *)

Record user : Type := User { user_ID : Z; user_Username : string; user_DisplayName : string }.

Record authResponse : Type := AuthResponse {
  response_User : user; response_SessionID : Z; response_DeviceID : string; response_SessionExpiresAt : Z;
  response_AccessToken : string; response_AccessTokenExpiresAt : Z;
  response_RefreshToken : string; response_RefreshTokenExpiresAt : Z
}.

Record sessionResponse : Type := SessionResponse {
  sr_ID : Z; sr_DeviceID : string; sr_CreatedAt : Z; sr_IdleExpiresAt : Z; sr_AbsoluteExpiresAt : Z;
  sr_RevokedAt : option Z; sr_Current : bool
}.

Section json.
Context `{TimeText}.

Definition user_struct (u : user) : json := JObject [
  ("id"%string, JNumber (FormatInt (user_ID u))); ("username"%string, JText (user_Username u));
  ("displayName"%string, JText (user_DisplayName u))].

Definition response_struct (a : authResponse) : json := JObject [
  ("user"%string, user_struct (response_User a));
  ("sessionId"%string, JNumber (FormatInt (response_SessionID a)));
  ("deviceId"%string, JText (response_DeviceID a));
  ("sessionExpiresAt"%string, JText (format_time (response_SessionExpiresAt a)));
  ("accessToken"%string, JText (response_AccessToken a));
  ("accessTokenExpiresAt"%string, JText (format_time (response_AccessTokenExpiresAt a)));
  ("refreshToken"%string, JText (response_RefreshToken a));
  ("refreshTokenExpiresAt"%string, JText (format_time (response_RefreshTokenExpiresAt a)))].

Definition user_fields : list (field_setter user) := [
  ("id"%string, decode_int64 (λ x u, User x (user_Username u) (user_DisplayName u)));
  ("username"%string, decode_text (λ x u, User (user_ID u) x (user_DisplayName u)));
  ("displayName"%string, decode_text (λ x u, User (user_ID u) (user_Username u) x))].

Definition response_fields : list (field_setter authResponse) := [
  ("user"%string, λ v a,
    u ← decode_struct user_fields false v (response_User a);
    Some (AuthResponse u (response_SessionID a) (response_DeviceID a) (response_SessionExpiresAt a)
      (response_AccessToken a) (response_AccessTokenExpiresAt a) (response_RefreshToken a)
      (response_RefreshTokenExpiresAt a)));
  ("sessionId"%string, decode_int64 (λ x a, AuthResponse (response_User a) x (response_DeviceID a)
    (response_SessionExpiresAt a) (response_AccessToken a) (response_AccessTokenExpiresAt a)
    (response_RefreshToken a) (response_RefreshTokenExpiresAt a)));
  ("deviceId"%string, decode_text (λ x a, AuthResponse (response_User a) (response_SessionID a) x
    (response_SessionExpiresAt a) (response_AccessToken a) (response_AccessTokenExpiresAt a)
    (response_RefreshToken a) (response_RefreshTokenExpiresAt a)));
  ("sessionExpiresAt"%string, decode_time (λ x a, AuthResponse (response_User a) (response_SessionID a)
    (response_DeviceID a) x (response_AccessToken a) (response_AccessTokenExpiresAt a)
    (response_RefreshToken a) (response_RefreshTokenExpiresAt a)));
  ("accessToken"%string, decode_text (λ x a, AuthResponse (response_User a) (response_SessionID a)
    (response_DeviceID a) (response_SessionExpiresAt a) x (response_AccessTokenExpiresAt a)
    (response_RefreshToken a) (response_RefreshTokenExpiresAt a)));
  ("accessTokenExpiresAt"%string, decode_time (λ x a, AuthResponse (response_User a) (response_SessionID a)
    (response_DeviceID a) (response_SessionExpiresAt a) (response_AccessToken a) x
    (response_RefreshToken a) (response_RefreshTokenExpiresAt a)));
  ("refreshToken"%string, decode_text (λ x a, AuthResponse (response_User a) (response_SessionID a)
    (response_DeviceID a) (response_SessionExpiresAt a) (response_AccessToken a)
    (response_AccessTokenExpiresAt a) x (response_RefreshTokenExpiresAt a)));
  ("refreshTokenExpiresAt"%string, decode_time (λ x a, AuthResponse (response_User a) (response_SessionID a)
    (response_DeviceID a) (response_SessionExpiresAt a) (response_AccessToken a)
    (response_AccessTokenExpiresAt a) (response_RefreshToken a) x))].

Definition zero_response : authResponse := AuthResponse (User 0 "" "") 0 "" zero_time "" zero_time "" zero_time.

(** [json.Unmarshal]. *)
Definition decode_response (plaintext : list Z) : option authResponse :=
  v ← parse_document plaintext; decode_struct response_fields false v zero_response.
End json.

(** A response from before sessions told their end. *)
Definition with_session_end (created_at : Z) (a : authResponse) : authResponse :=
  if response_SessionExpiresAt a =? zero_time then
    AuthResponse (response_User a) (response_SessionID a) (response_DeviceID a) (created_at + sessionAbsoluteLifetime)
      (response_AccessToken a) (response_AccessTokenExpiresAt a) (response_RefreshToken a) (response_RefreshTokenExpiresAt a)
  else a.

(** * Statements *)

Abbreviation auth_statement := (statement auth_database auth_change).

Definition insert_account (username displayName passwordHash : string) : auth_statement user :=
  with_text [username; displayName; passwordHash] (λ env d,
    let u := UserRow (generated_id env) username displayName passwordHash in
    _ ← first_violation (check_account u d);
    Ok (User (user_id u) username displayName, [InsertAccount u])).

Definition insert_session (userID : Z) (deviceID : string) (idleExpiresAt : Z) : auth_statement Z :=
  with_text [deviceID] (λ env d,
    let s := SessionRow (generated_id env) userID deviceID idleExpiresAt None (current_timestamp env) in
    _ ← first_violation (insert_session_checks s d);
    Ok (session_id s, [InsertSession s])).

Definition insert_access_token (sessionID : Z) (hash : list Z) (expiresAt : Z) : auth_statement unit := λ env d,
  let a := AccessRow sessionID hash expiresAt (current_timestamp env) in
  _ ← first_violation (insert_access_checks a d);
  Ok (tt, [InsertAccess a]).

Definition insert_refresh_token (sessionID : Z) (parent : option Z) (hash : list Z) (expiresAt : Z) :
    auth_statement unit := λ env d,
  let r := RefreshRow (generated_id env) sessionID parent hash expiresAt None (current_timestamp env) in
  _ ← first_violation (insert_refresh_checks r d);
  Ok (tt, [InsertRefresh r]).

Definition insert_login_result (hash : list Z) (userID sessionID : Z) (encrypted nonce : list Z) (version expiresAt : Z) :
    auth_statement unit := λ env d,
  let l := LoginRow hash userID sessionID encrypted nonce version expiresAt (current_timestamp env) in
  _ ← first_violation (insert_login_checks l d);
  Ok (tt, [InsertLogin l]).

Definition insert_rotation_result (tokenID : Z) (keyHash encrypted nonce : list Z) (version expiresAt : Z) :
    auth_statement unit := λ env d,
  let r := RotationRow tokenID keyHash encrypted nonce version expiresAt (current_timestamp env) in
  _ ← first_violation (insert_rotation_checks r d);
  Ok (tt, [InsertRotation r]).

(** The sessions that an UPDATE revokes, with the checks of their new rows. *)
Fixpoint revoke_rows (now : Z) (rows : list session_row) : result db_error (list auth_change) :=
  match rows with
  | [] => Ok []
  | s :: rest =>
      _ ← first_violation (check_session (revoke (session_id s) now s));
      us ← revoke_rows now rest;
      Ok (RevokeSession (session_id s) now :: us)
  end.

Definition revoke_sessions (chosen : session_row → bool) : auth_statement Z := λ env d,
  us ← revoke_rows (current_timestamp env) (sql_where chosen (sessions d));
  Ok (rows_affected chosen (sessions d), us).

Definition unrevoked (s : session_row) : bool := opt_none (session_revoked_at s).

(** [revoked_at IS NULL AND idle_expires_at > CURRENT_TIMESTAMP AND created_at > $n]. *)
Definition live_session (now cutoff : Z) (s : session_row) : bool :=
  unrevoked s && (now <? session_idle_expires_at s) && (cutoff <? session_created_at s).

Definition set_idle_statement (sessionID idleExpiresAt : Z) : auth_statement unit := λ _ d,
  match find_session sessionID d with
  | None => Ok (tt, [])
  | Some s =>
      _ ← first_violation (check_session (set_idle sessionID idleExpiresAt s));
      Ok (tt, [SetIdle sessionID idleExpiresAt])
  end.

Definition set_password_statement (newHash : string) (userID : Z) (currentHash : string) : auth_statement Z :=
  with_text [newHash; currentHash] (λ _ d,
    match sql_first (λ u, (user_id u =? userID) && bool_decide (user_password_hash u = currentHash)) (accounts d) with
    | None => Ok (0, [])
    | Some _ =>
        _ ← first_violation [(in_range 1 512 (char_length newHash), check_violation)];
        Ok (1, [SetPassword userID newHash])
    end).

Definition account_view (u : user_row) : user := User (user_id u) (user_username u) (user_display_name u).

Definition select_password (userID : Z) : auth_statement string :=
  query_row (λ d, user_password_hash <$> find_account userID d).

(** [FOR SHARE]. *)
Definition share_password (userID : Z) : auth_statement string := λ _ d,
  match find_account userID d with
  | None => Err NoRows
  | Some u => Ok (user_password_hash u, [ShareAccount userID])
  end.

Definition select_account (userID : Z) : auth_statement user := query_row (λ d, account_view <$> find_account userID d).

Definition select_credentials (username : string) : auth_statement (user * string) :=
  with_text [username] (query_row (λ d,
    (λ u, (account_view u, user_password_hash u)) <$>
      sql_first (λ u, bool_decide (user_username u = username)) (accounts d))).

(** Who a request is from. *)
Record identity : Type := Identity {
  authenticatedUserID : Z; authenticatedSessionID : Z; authenticatedDeviceID : string; authenticatedAccessTokenExpiry : Z
}.

Definition select_identity (tokenHash : list Z) (cutoff : Z) : auth_statement identity := λ env d,
  let now := current_timestamp env in
  match (a ← sql_first (λ a, bool_decide (access_hash a = tokenHash)) (access_tokens d);
         s ← find_session (access_session a) d;
         if (now <? access_expires_at a) && live_session now cutoff s
         then Some (Identity (session_user s) (session_id s) (session_device s) (access_expires_at a)) else None) with
  | None => Err NoRows
  | Some i => Ok (i, [])
  end.

Definition select_login_result (hash : list Z) (userID cutoff : Z) : auth_statement (login_row * Z) := λ env d,
  let now := current_timestamp env in
  match (l ← sql_first (λ l, bool_decide (login_hash l = hash)) (login_results d);
         s ← find_session (login_session l) d;
         if (login_user l =? userID) && (now <? login_expires_at l) && live_session now cutoff s
         then Some (l, session_created_at s) else None) with
  | None => Err NoRows
  | Some found => Ok (found, [])
  end.

(** [UPDATE refresh_tokens ... FROM sessions ... RETURNING]. *)
Definition consume_refresh_token (hash : list Z) (cutoff : Z) : auth_statement (refresh_row * session_row) := λ env d,
  let now := current_timestamp env in
  match (r ← find_refresh hash d; s ← find_session (refresh_session r) d;
         if opt_none (refresh_consumed_at r) && (now <? refresh_expires_at r) && live_session now cutoff s
         then Some (r, s) else None) with
  | None => Err NoRows
  | Some (r, s) =>
      _ ← first_violation (check_refresh (consume (refresh_id r) now r));
      Ok ((consume (refresh_id r) now r, s), [ConsumeRefresh (refresh_id r) now])
  end.

Definition select_refresh (hash : list Z) : auth_statement (refresh_row * session_row) :=
  query_row (λ d, r ← find_refresh hash d; s ← find_session (refresh_session r) d; Some (r, s)).

Definition select_rotation (tokenID : Z) : auth_statement rotation_row :=
  query_row (λ d, sql_first (λ r, rotation_token r =? tokenID) (rotation_results d)).

(** [ORDER BY created_at DESC, id DESC]. *)
Definition newest_first (s1 s2 : session_row) : Prop :=
  session_created_at s2 < session_created_at s1 ∨
  session_created_at s1 = session_created_at s2 ∧ session_id s2 ≤ session_id s1.
#[global] Instance newest_first_dec : RelDecision newest_first.
Proof. intros s1 s2. unfold newest_first. apply _. Defined.

Definition select_sessions (userID : Z) : auth_statement (list session_row) := λ _ d,
  Ok (merge_sort newest_first (sql_where (λ s, session_user s =? userID) (sessions d)), []).
