(* ===== verification/Auth.v ===== *)
(** [auth.go], the operations: registration, login, token rotation, sessions, the
    password and the bearer check, over the account tables, Redis (for the rate
    limit), a clock and random bytes. *)
From Stdlib Require Import Ascii String.
From S2P Require Import Prelude GoStd Text Tables Driver Json Schema MessageStore MessageService ConversationSync.
From S2P Require Import Encoding JsonText Redis RateLimit AuthTables Credentials AuthQueries.
Open Scope Z_scope.

(** [unicode.ToLower], of which only ASCII is fixed. *)
Class UnicodeLower := {
  to_lower : Z → Z;
  to_lower_ascii : ∀ r, 0 ≤ r < 128 → to_lower r = if in_range 65 90 r then r + 32 else r
}.

(** * The world

    The database connection, the bytes that [rand.Read] will give (it cannot fail),
    what the clock will read, Redis, and the websocket disconnections asked for: a
    user's, or of one session. *)
Record auth_world : Type := AuthWorld {
  aw_db : world auth_database auth_change; aw_bytes : nat → Z; aw_clock : nat → Z; aw_redis : redis_world;
  aw_disconnected : list (Z * option Z)
}.

Inductive auth_error : Type :=
| AuthDatabaseError (e : db_error)
| errIdempotencyConflict
| errLoginCredentialsChanged
| AuthFailure (text : string).

(** [app], as far as it matters here. *)
Record auth_application : Type := AuthApplication {
  rateLimiter : bool; rateLimitFailOpen : bool; responseCipher_ : option responseCipher; realtime : bool
}.

Abbreviation auth_proc := (proc auth_world auth_error).
Abbreviation auth_handler := (proc auth_world problem).

Definition with_db (db : world auth_database auth_change) (w : auth_world) : auth_world :=
  AuthWorld db (aw_bytes w) (aw_clock w) (aw_redis w) (aw_disconnected w).

Definition on_database {A} (m : proc (world auth_database auth_change) db_error A) : auth_proc A := λ w,
  let '(r, db) := m (aw_db w) in (map_error AuthDatabaseError r, with_db db w).

(** [defer tx.Rollback(ctx)]. *)
Definition deferring {E A} (m : proc auth_world E A) : proc auth_world E A := λ w,
  let '(r, w') := m w in
  (r, with_db (World (w_db (aw_db w')) [] (w_start (aw_db w')) (w_events (aw_db w'))) w').

Definition currentTime {E} : proc auth_world E Z := λ w,
  (Ok (aw_clock w 0%nat), AuthWorld (aw_db w) (aw_bytes w) (λ n, aw_clock w (S n)) (aw_redis w) (aw_disconnected w)).

Definition read_random {E} (n : nat) : proc auth_world E (list Z) := λ w,
  (Ok ((λ i, aw_bytes w i mod 256) <$> seq 0 n),
   AuthWorld (aw_db w) (λ i, aw_bytes w (n + i)%nat) (aw_clock w) (aw_redis w) (aw_disconnected w)).

(** [disconnectSessionWebSockets] and [disconnectUserWebSockets]; their errors are logged. *)
Definition disconnect {E} (app : auth_application) (userID : Z) (session : option Z) : proc auth_world E unit := λ w,
  (Ok tt, if negb (realtime app) then w
          else AuthWorld (aw_db w) (aw_bytes w) (aw_clock w) (aw_redis w) (aw_disconnected w ++ [(userID, session)])).

Section auth.
Context `{TimeText, SHA256, Argon2, GCM, UnicodeLower}.
Context (app : auth_application).

Definition newToken {E} : proc auth_world E generatedToken :=
  rawToken ← read_random tokenLength;
  mret (token_of rawToken).

Definition hashPassword {E} (password : string) : proc auth_world E string :=
  salt ← read_random argonSaltLength;
  mret (password_hash password salt).

Definition encrypt_response {E} (c : responseCipher) (purpose : string) (recordID : list Z) (response : authResponse) :
    proc auth_world E (list Z * list Z) :=
  nonce ← read_random (nonce_size c);
  mret (encrypt c purpose recordID (response_struct response) nonce, nonce).

Definition int64Bytes (value : Z) : list Z := bytes_of (FormatInt value).

(** * Sessions *)

Definition createSessionResponse (account : user) (deviceID : string) : auth_proc authResponse :=
  now ← currentTime;
  deviceID ← (if bool_decide (deviceID = EmptyString) then generated ← newToken; mret (token_raw generated)
              else mret deviceID);
  accessToken ← newToken;
  refreshToken ← newToken;
  let accessExpiresAt := now + accessTokenLifetime in
  let refreshExpiresAt := now + sessionIdleLifetime in
  let absoluteExpiresAt := now + sessionAbsoluteLifetime in
  sessionID ← on_database (tx_statement (insert_session (user_ID account) deviceID refreshExpiresAt));
  _ ← on_database (tx_statement (insert_access_token sessionID (token_hash accessToken) accessExpiresAt));
  _ ← on_database (tx_statement (insert_refresh_token sessionID None (token_hash refreshToken) refreshExpiresAt));
  mret (AuthResponse account sessionID deviceID absoluteExpiresAt (token_raw accessToken) accessExpiresAt
          (token_raw refreshToken) refreshExpiresAt).

(** No row is no result. *)
Definition loadLoginResult (c : responseCipher) (requestHash : list Z) (userID : Z) : auth_proc (option authResponse) :=
  now ← currentTime;
  found ← attempt (on_database (auto_statement (select_login_result requestHash userID (now - sessionAbsoluteLifetime))));
  match found with
  | Err (AuthDatabaseError NoRows) => mret None
  | Err e => mthrow e
  | Ok (row, created_at) =>
      match decrypt decode_response c (login_key_version row) "login" requestHash (login_nonce row) (login_response row) with
      | Err text => mthrow (AuthFailure text)
      | Ok response => mret (Some (with_session_end created_at response))
      end
  end.

(** What follows a refused INSERT: another login with the same request id won. *)
Definition after_login_conflict (c : responseCipher) (requestHash : list Z) (userID : Z) : auth_proc authResponse :=
  _ ← attempt (on_database rollback_tx) : auth_proc (result auth_error unit);
  existing ← loadLoginResult c requestHash userID;
  match existing with None => mthrow errIdempotencyConflict | Some response => mret response end.

Definition createIdempotentLogin (c : responseCipher) (account : user) (verifiedHash deviceID : string)
    (requestHash : list Z) : auth_proc authResponse :=
  _ ← on_database begin_tx;
  deferring (
    currentHash ← on_database (tx_statement (share_password (user_ID account)));
    if negb (bool_decide (currentHash = verifiedHash)) then mthrow errLoginCredentialsChanged
    else
      response ← createSessionResponse account deviceID;
      '(encrypted, nonce) ← encrypt_response c "login" requestHash response;
      now ← currentTime;
      inserted ← attempt (on_database (tx_statement (insert_login_result requestHash (user_ID account)
        (response_SessionID response) encrypted nonce (keyVersion c) (now + idempotencyLifetime))));
      match inserted with
      | Err (AuthDatabaseError (PgError code)) =>
          if bool_decide (code = unique_violation) then after_login_conflict c requestHash (user_ID account)
          else mthrow (AuthDatabaseError (PgError code))
      | Err e => mthrow e
      | Ok _ => _ ← on_database commit_tx; mret response
      end).

(** * Rotation: the new response, or 401 *)

(** A consumed token of a live session: its result for the same key while that is
    kept, else the session is revoked. *)
Definition replay_or_revoke (c : responseCipher) (keyHash : list Z) (rt : refresh_row) (s : session_row) :
    auth_proc (option authResponse) :=
  stored ← attempt (on_database (tx_statement (select_rotation (refresh_id rt))));
  fresh ← (match stored with
           | Ok r => if bool_decide (rotation_key_hash r = keyHash)
                     then now ← currentTime; mret (if now <? rotation_expires_at r then Some r else None)
                     else mret None
           | Err _ => mret None
           end);
  match fresh with
  | Some r =>
      match decrypt decode_response c (rotation_key_version r) "refresh" (int64Bytes (refresh_id rt)) (rotation_nonce r)
              (rotation_response r) with
      | Err text => mthrow (AuthFailure text)
      | Ok response => mret (Some (with_session_end (session_created_at s) response))
      end
  | None =>
      match stored with
      | Err (AuthDatabaseError NoRows) | Ok _ =>
          _ ← on_database (tx_statement (revoke_sessions (λ x, session_id x =? session_id s)));
          _ ← on_database commit_tx;
          _ ← disconnect app (session_user s) (Some (session_id s));
          mret None
      | Err e => mthrow e
      end
  end.

Definition handleUsedOrInvalidRefresh (c : responseCipher) (tokenHash keyHash : list Z) :
    auth_proc (option authResponse) :=
  found ← attempt (on_database (tx_statement (select_refresh tokenHash)));
  match found with
  | Err (AuthDatabaseError NoRows) => mret None
  | Err e => mthrow e
  | Ok (rt, s) =>
      if opt_none (refresh_consumed_at rt) || negb (unrevoked s) then mret None
      else
        now ← currentTime;
        if negb (now <? session_idle_expires_at s) then mret None
        else
          now ← currentTime;
          if negb (now <? session_created_at s + sessionAbsoluteLifetime) then mret None
          else replay_or_revoke c keyHash rt s
  end.

(** The new tokens of a consumed one. *)
Definition issue_tokens (c : responseCipher) (keyHash : list Z) (rt : refresh_row) (s : session_row) :
    auth_proc (option authResponse) :=
  account ← on_database (tx_statement (select_account (session_user s)));
  now ← currentTime;
  let absoluteExpiresAt := session_created_at s + sessionAbsoluteLifetime in
  accessToken ← newToken;
  refreshToken ← newToken;
  let accessExpiresAt := minTime (now + accessTokenLifetime) absoluteExpiresAt in
  let refreshExpiresAt := minTime (now + sessionIdleLifetime) absoluteExpiresAt in
  _ ← on_database (tx_statement (insert_access_token (session_id s) (token_hash accessToken) accessExpiresAt));
  _ ← on_database (tx_statement (insert_refresh_token (session_id s) (Some (refresh_id rt)) (token_hash refreshToken)
        refreshExpiresAt));
  _ ← on_database (tx_statement (set_idle_statement (session_id s) refreshExpiresAt));
  let response := AuthResponse account (session_id s) (session_device s) absoluteExpiresAt (token_raw accessToken)
                    accessExpiresAt (token_raw refreshToken) refreshExpiresAt in
  '(encrypted, nonce) ← encrypt_response c "refresh" (int64Bytes (refresh_id rt)) response;
  _ ← on_database (tx_statement (insert_rotation_result (refresh_id rt) keyHash encrypted nonce (keyVersion c)
        (now + idempotencyLifetime)));
  _ ← on_database commit_tx;
  mret (Some response).

Definition rotateRefreshToken (c : responseCipher) (oldTokenHash keyHash : list Z) : auth_proc (option authResponse) :=
  _ ← on_database begin_tx;
  deferring (
    now ← currentTime;
    consumed ← attempt (on_database (tx_statement (consume_refresh_token oldTokenHash (now - sessionAbsoluteLifetime))));
    match consumed with
    | Err (AuthDatabaseError NoRows) => handleUsedOrInvalidRefresh c oldTokenHash keyHash
    | Err e => mthrow e
    | Ok (rt, s) => issue_tokens c keyHash rt s
    end).

(** * Requests *)

Record registerRequest : Type := RegisterRequest {
  reg_Username : string; reg_DisplayName : string; reg_Password : string; reg_DeviceID : string
}.
Record loginRequest : Type := LoginRequest {
  log_Username : string; log_Password : string; log_LoginRequestID : string; log_DeviceID : string
}.
Record refreshRequest : Type := RefreshRequest { ref_RefreshToken : string; ref_IdempotencyKey : string }.
Record changePasswordRequest : Type := ChangePasswordRequest { chg_CurrentPassword : string; chg_NewPassword : string }.

Definition registerRequest_fields : list (field_setter registerRequest) := [
  ("username"%string, decode_text (λ x r, RegisterRequest x (reg_DisplayName r) (reg_Password r) (reg_DeviceID r)));
  ("displayName"%string, decode_text (λ x r, RegisterRequest (reg_Username r) x (reg_Password r) (reg_DeviceID r)));
  ("password"%string, decode_text (λ x r, RegisterRequest (reg_Username r) (reg_DisplayName r) x (reg_DeviceID r)));
  ("deviceId"%string, decode_text (λ x r, RegisterRequest (reg_Username r) (reg_DisplayName r) (reg_Password r) x))].
Definition loginRequest_fields : list (field_setter loginRequest) := [
  ("username"%string, decode_text (λ x r, LoginRequest x (log_Password r) (log_LoginRequestID r) (log_DeviceID r)));
  ("password"%string, decode_text (λ x r, LoginRequest (log_Username r) x (log_LoginRequestID r) (log_DeviceID r)));
  ("loginRequestId"%string, decode_text (λ x r, LoginRequest (log_Username r) (log_Password r) x (log_DeviceID r)));
  ("deviceId"%string, decode_text (λ x r, LoginRequest (log_Username r) (log_Password r) (log_LoginRequestID r) x))].
Definition refreshRequest_fields : list (field_setter refreshRequest) := [
  ("refreshToken"%string, decode_text (λ x r, RefreshRequest x (ref_IdempotencyKey r)));
  ("idempotencyKey"%string, decode_text (λ x r, RefreshRequest (ref_RefreshToken r) x))].
Definition changePasswordRequest_fields : list (field_setter changePasswordRequest) := [
  ("currentPassword"%string, decode_text (λ x r, ChangePasswordRequest x (chg_NewPassword r)));
  ("newPassword"%string, decode_text (λ x r, ChangePasswordRequest (chg_CurrentPassword r) x))].

Definition maxDisplayNameRunes : Z := 100.
Definition validOptionalDeviceID (value : string) : bool := len value <=? 128.

Definition trim_space (s : string) : string := string_of (TrimSpace (bytes_of s)).
Definition ToLower (s : string) : string := string_of_runes (to_lower <$> runes_of s).

Definition refuse_with {A} (status : Z) (code text : string) : auth_handler A := mthrow (status, code, text).

Definition decode_request {S} (fields : list (field_setter S)) (zero : S) (body : list Z) : auth_handler S :=
  match decodeSingleJSON fields zero body with
  | None => refuse_with 400 "INVALID_JSON" "invalid JSON body"
  | Some input => mret input
  end.

(** The Retry-After header is part of [RateLimit]. *)
Definition enforce (endpoint ip account device : string) : auth_handler unit := λ w,
  let '(answer, redis) := enforceAuthRateLimit (rateLimiter app) (rateLimitFailOpen app) endpoint ip account device (aw_redis w) in
  (match answer with
   | RateLimitPassed => Ok tt
   | RateLimitRefused status code text _ => Err (status, code, text)
   end, AuthWorld (aw_db w) (aw_bytes w) (aw_clock w) redis (aw_disconnected w)).

Definition internal {A} (text : string) (m : auth_proc A) : auth_handler A :=
  run_error (λ _, (500, "INTERNAL_ERROR"%string, text)) m.

(** * Handlers *)

(** The checks of a registration: the names as they are stored. *)
Definition validate_registration (input : registerRequest) : result problem (string * string) :=
  let username := ToLower (trim_space (reg_Username input)) in
  let displayName := trim_space (reg_DisplayName input) in
  if negb (usernamePattern username) then
    Err (400, "INVALID_USERNAME"%string, "username must contain 3-32 lowercase letters, numbers or underscores"%string)
  else if bool_decide (displayName = EmptyString) || (maxDisplayNameRunes <? RuneCountInString displayName) then
    Err (400, "INVALID_DISPLAY_NAME"%string, "displayName must contain 1-100 characters"%string)
  else if negb (validPassword (reg_Password input)) then
    Err (400, "INVALID_PASSWORD"%string, "password must contain 8-128 characters"%string)
  else if negb (validOptionalDeviceID (reg_DeviceID input)) then
    Err (400, "INVALID_DEVICE_ID"%string, "deviceId is too long"%string)
  else Ok (username, displayName).

Definition register (ip : string) (body : list Z) : auth_handler authResponse :=
  input ← decode_request registerRequest_fields (RegisterRequest "" "" "" "") body;
  '(username, displayName) ← refuse (validate_registration input);
  _ ← enforce "register" ip username (reg_DeviceID input);
  passwordHash ← hashPassword (reg_Password input);
  _ ← internal "could not create user" (on_database begin_tx);
  deferring (
    inserted ← attempt (on_database (tx_statement (insert_account username displayName passwordHash)));
    match inserted with
    | Err e =>
        if (if e is AuthDatabaseError (PgError code) then bool_decide (code = unique_violation) else false)
        then refuse_with 409 "USERNAME_CONFLICT" "username is already registered"
        else refuse_with 500 "INTERNAL_ERROR" "could not create user"
    | Ok created =>
        internal "could not create user" (
          response ← createSessionResponse created (reg_DeviceID input);
          _ ← on_database commit_tx;
          mret response)
    end).

Definition loadUserCredentials (username : string) : auth_proc (user * string) :=
  on_database (auto_statement (select_credentials username)).

Definition invalid_credentials {A} : auth_handler A :=
  refuse_with 401 "INVALID_CREDENTIALS" "invalid username or password".

(** The account whose password it is, and its hash.  Time that is spent on purpose is
    left out. *)
Definition check_credentials (username password : string) : auth_handler (user * string) :=
  if negb (usernamePattern username) || negb (validPassword password) then invalid_credentials
  else
    loaded ← attempt (loadUserCredentials username);
    match loaded with
    | Err (AuthDatabaseError NoRows) => invalid_credentials
    | Err _ => refuse_with 500 "INTERNAL_ERROR" "could not log in"
    | Ok (account, passwordHash) =>
        match verifyPassword password passwordHash with
        | Ok true => mret (account, passwordHash)
        | _ => invalid_credentials
        end
    end.

Definition login_problem (e : auth_error) : problem :=
  match e with
  | errLoginCredentialsChanged => (401, "INVALID_CREDENTIALS"%string, "invalid username or password"%string)
  | errIdempotencyConflict => (409, "LOGIN_REQUEST_ID_CONFLICT"%string, "loginRequestId was already used"%string)
  | _ => (500, "INTERNAL_ERROR"%string, "could not log in"%string)
  end.

Definition login_with (c : responseCipher) (account : user) (passwordHash : string) (input : loginRequest) :
    auth_handler authResponse :=
  let requestHash := Sum256 (bytes_of (log_LoginRequestID input)) in
  existing ← run_error (λ _, (503, "LOGIN_RECOVERY_UNAVAILABLE"%string, "login recovery is temporarily unavailable"%string))
               (loadLoginResult c requestHash (user_ID account));
  match existing with
  | Some response => mret response
  | None =>
      run_error login_problem (createIdempotentLogin c account passwordHash (log_DeviceID input) requestHash)
  end.

Definition login (ip : string) (body : list Z) : auth_handler authResponse :=
  input ← decode_request loginRequest_fields (LoginRequest "" "" "" "") body;
  let username := ToLower (trim_space (log_Username input)) in
  if negb (validOpaqueID (log_LoginRequestID input)) then
    refuse_with 400 "INVALID_LOGIN_REQUEST_ID" "loginRequestId must contain 16-128 characters"
  else if negb (validOptionalDeviceID (log_DeviceID input)) then refuse_with 400 "INVALID_DEVICE_ID" "deviceId is too long"
  else
    _ ← enforce "login" ip username (log_DeviceID input);
    '(account, passwordHash) ← check_credentials username (log_Password input);
    match responseCipher_ app with
    | None => refuse_with 503 "LOGIN_RECOVERY_UNAVAILABLE" "login recovery is temporarily unavailable"
    | Some c => login_with c account passwordHash input
    end.

Definition refresh_unavailable {A} : auth_handler A :=
  refuse_with 503 "REFRESH_RECOVERY_UNAVAILABLE" "refresh recovery is temporarily unavailable".

Definition refresh (ip : string) (body : list Z) : auth_handler authResponse :=
  input ← decode_request refreshRequest_fields (RefreshRequest "" "") body;
  if negb (validOpaqueID (ref_IdempotencyKey input)) then
    refuse_with 400 "INVALID_IDEMPOTENCY_KEY" "idempotencyKey must contain 16-128 characters"
  else
    match decodeAndHashToken (ref_RefreshToken input) with
    | None => refuse_with 401 "REFRESH_TOKEN_INVALID" "valid refresh token is required"
    | Some (_, refreshHash) =>
        _ ← enforce "refresh" ip "" (string_of (base64_encode (take 8 refreshHash)));
        match responseCipher_ app with
        | None => refresh_unavailable
        | Some c =>
            rotated ← attempt (rotateRefreshToken c refreshHash (Sum256 (bytes_of (ref_IdempotencyKey input))));
            match rotated with
            | Err _ => refresh_unavailable
            | Ok None => refuse_with 401 "REFRESH_TOKEN_INVALID" "refresh token is invalid or has been replayed"
            | Ok (Some response) => mret response
            end
        end
    end.

Definition logout (who : identity) : auth_handler unit :=
  _ ← internal "could not log out" (on_database (auto_statement (revoke_sessions (λ s,
        (session_id s =? authenticatedSessionID who) && unrevoked s))));
  disconnect app (authenticatedUserID who) (Some (authenticatedSessionID who)).

Definition of_user (userID : Z) (s : session_row) : bool := (session_user s =? userID) && unrevoked s.

Definition logoutAll (who : identity) : auth_handler unit :=
  _ ← internal "could not log out all devices"
        (on_database (auto_statement (revoke_sessions (of_user (authenticatedUserID who)))));
  disconnect app (authenticatedUserID who) None.

Definition session_view (currentID : Z) (s : session_row) : sessionResponse :=
  SessionResponse (session_id s) (session_device s) (session_created_at s) (session_idle_expires_at s)
    (session_created_at s + sessionAbsoluteLifetime) (session_revoked_at s) (session_id s =? currentID).

Definition listSessions (who : identity) : auth_handler (list sessionResponse) :=
  rows ← internal "could not list sessions" (on_database (auto_statement (select_sessions (authenticatedUserID who))));
  mret (session_view (authenticatedSessionID who) <$> rows).

Definition parse_session_id (text : string) : option Z :=
  id ← ParseInt text; if id <=? 0 then None else Some id.

Definition revokeSession (who : identity) (path : string) : auth_handler unit :=
  match parse_session_id path with
  | None => refuse_with 400 "INVALID_SESSION_ID" "sessionID must be a positive integer"
  | Some sessionID =>
      affected ← internal "could not revoke session" (on_database (auto_statement (revoke_sessions (λ s,
        (session_id s =? sessionID) && of_user (authenticatedUserID who) s))));
      if affected =? 0 then refuse_with 404 "SESSION_NOT_FOUND" "active session was not found"
      else disconnect app (authenticatedUserID who) (Some sessionID)
  end.

(** The transaction of [changePassword]. *)
Definition replace_password (userID : Z) (newHash currentHash : string) : auth_handler unit :=
  _ ← internal "could not change password" (on_database begin_tx);
  deferring (
    affected ← internal "could not change password"
                 (on_database (tx_statement (set_password_statement newHash userID currentHash)));
    if negb (affected =? 1) then refuse_with 409 "PASSWORD_CHANGE_CONFLICT" "password changed concurrently; retry"
    else
      internal "could not change password" (
        _ ← on_database (tx_statement (revoke_sessions (of_user userID)));
        on_database commit_tx)).

Definition changePassword (who : identity) (body : list Z) : auth_handler unit :=
  input ← decode_request changePasswordRequest_fields (ChangePasswordRequest "" "") body;
  if negb (validPassword (chg_NewPassword input)) then
    refuse_with 400 "INVALID_NEW_PASSWORD" "newPassword must contain 8-128 characters"
  else if bool_decide (chg_CurrentPassword input = chg_NewPassword input) then
    refuse_with 400 "PASSWORD_UNCHANGED" "newPassword must be different"
  else
    currentHash ← internal "could not change password" (on_database (auto_statement (select_password (authenticatedUserID who))));
    match verifyPassword (chg_CurrentPassword input) currentHash with
    | Ok true =>
        newHash ← hashPassword (chg_NewPassword input);
        _ ← replace_password (authenticatedUserID who) newHash currentHash;
        disconnect app (authenticatedUserID who) None
    | _ => refuse_with 401 "CURRENT_PASSWORD_INVALID" "current password is invalid"
    end.

(** * The bearer check *)

Definition authentication_required {A} : auth_handler A :=
  refuse_with 401 "AUTHENTICATION_REQUIRED" "valid bearer token is required".

(** The token of an Authorization header. *)
Definition bearer_token (header : string) : option string :=
  match Fields (bytes_of header) with
  | [scheme; token] =>
      if bool_decide (fold_name (string_of scheme) = fold_name "Bearer") then Some (string_of token) else None
  | _ => None
  end.

Definition requireAuthentication (header : string) : auth_handler identity :=
  match (token ← bearer_token header; decodeAndHashToken token) with
  | None => authentication_required
  | Some (_, tokenHash) =>
      now ← currentTime;
      found ← attempt (on_database (auto_statement (select_identity tokenHash (now - sessionAbsoluteLifetime))));
      match found with
      | Ok who => mret who
      | Err (AuthDatabaseError NoRows) => authentication_required
      | Err _ => refuse_with 503 "AUTHENTICATION_UNAVAILABLE" "authentication service is temporarily unavailable"
      end
  end.
End auth.
