(* ===== verification/AuthOk.v ===== *)
(** The account tables' invariant, how they may evolve, and that every row change of the
    program keeps the one and is an instance of the other. *)
From Stdlib Require Import Ascii String.
From S2P Require Import Prelude GoStd Tables Driver Schema AuthTables.
Open Scope Z_scope.

(** * The invariant *)

Definition text_account (u : user_row) : Prop :=
  0 < user_id u ∧ is_int64 (user_id u) ∧ ValidString (user_username u) = true ∧ ValidString (user_display_name u) = true.
Definition text_session (s : session_row) : Prop :=
  0 < session_id s ∧ is_int64 (session_id s) ∧ ValidString (session_device s) = true.

Record auth_ok (d : auth_database) : Prop := AuthOk {
  ao_account_ids : unique_key user_id (accounts d);
  ao_usernames : unique_key user_username (accounts d);
  ao_session_ids : unique_key session_id (sessions d);
  ao_access_hashes : unique_key access_hash (access_tokens d);
  ao_refresh_ids : unique_key refresh_id (refresh_tokens d);
  ao_refresh_hashes : unique_key refresh_hash (refresh_tokens d);
  ao_login_hashes : unique_key login_hash (login_results d);
  ao_rotation_tokens : unique_key rotation_token (rotation_results d);
  ao_account_texts : ∀ u, u ∈ accounts d → text_account u;
  ao_session_texts : ∀ s, s ∈ sessions d → text_session s;
  ao_session_users : ∀ s, s ∈ sessions d → ∃ u, u ∈ accounts d ∧ user_id u = session_user s;
  ao_access_sessions : ∀ a, a ∈ access_tokens d → ∃ s, s ∈ sessions d ∧ session_id s = access_session a;
  ao_refresh_sessions : ∀ r, r ∈ refresh_tokens d → ∃ s, s ∈ sessions d ∧ session_id s = refresh_session r;
  ao_login_sessions : ∀ l, l ∈ login_results d →
    ∃ s, s ∈ sessions d ∧ session_id s = login_session l ∧ session_user s = login_user l;
  ao_rotated : ∀ x, x ∈ rotation_results d →
    ∃ r, r ∈ refresh_tokens d ∧ refresh_id r = rotation_token x ∧ is_Some (refresh_consumed_at r);
  ao_parents : ∀ r p, r ∈ refresh_tokens d → refresh_parent r = Some p →
    ∃ q, q ∈ refresh_tokens d ∧ refresh_id q = p ∧ refresh_session q = refresh_session r ∧ is_Some (refresh_consumed_at q);
  ao_only_child : ∀ r1 r2 p, r1 ∈ refresh_tokens d → r2 ∈ refresh_tokens d →
    refresh_parent r1 = Some p → refresh_parent r2 = Some p → r1 = r2
}.

(** * Evolution

    No row is deleted, what a row is stays, a revocation and a consumption stay.
    Other connections leave alone the rows that this transaction has locked, and what
    their locks guard: a consumed token's successors, and the sessions of an account
    whose password is being changed. *)

Definition account_evolves (us : list auth_change) (u u' : user_row) : Prop :=
  user_id u' = user_id u ∧ user_username u' = user_username u ∧ user_display_name u' = user_display_name u ∧
  ((ShareAccount (user_id u) ∈ us ∨ ∃ h, SetPassword (user_id u) h ∈ us) → user_password_hash u' = user_password_hash u).

Definition session_locked (us : list auth_change) (id : Z) : Prop :=
  ShareSession id ∈ us ∨ (∃ t, RevokeSession id t ∈ us) ∨ ∃ t, SetIdle id t ∈ us.

Definition session_evolves (us : list auth_change) (s s' : session_row) : Prop :=
  session_id s' = session_id s ∧ session_user s' = session_user s ∧ session_device s' = session_device s ∧
  session_created_at s' = session_created_at s ∧
  (∀ t, session_revoked_at s = Some t → session_revoked_at s' = Some t) ∧
  (session_locked us (session_id s) → s' = s).

Definition refresh_evolves (us : list auth_change) (r r' : refresh_row) : Prop :=
  refresh_id r' = refresh_id r ∧ refresh_session r' = refresh_session r ∧ refresh_parent r' = refresh_parent r ∧
  refresh_hash r' = refresh_hash r ∧ refresh_expires_at r' = refresh_expires_at r ∧
  (∀ t, refresh_consumed_at r = Some t → refresh_consumed_at r' = Some t) ∧
  (∀ t, ConsumeRefresh (refresh_id r) t ∈ us → r' = r).

Record auth_evolves (us : list auth_change) (d d' : auth_database) : Prop := AuthEvolves {
  ae_accounts : ∀ u, u ∈ accounts d → ∃ u', u' ∈ accounts d' ∧ account_evolves us u u';
  ae_sessions : ∀ s, s ∈ sessions d → ∃ s', s' ∈ sessions d' ∧ session_evolves us s s';
  ae_access : ∀ a, a ∈ access_tokens d → a ∈ access_tokens d';
  ae_refresh : ∀ r, r ∈ refresh_tokens d → ∃ r', r' ∈ refresh_tokens d' ∧ refresh_evolves us r r';
  ae_logins : ∀ l, l ∈ login_results d → l ∈ login_results d';
  ae_rotations : ∀ x, x ∈ rotation_results d → x ∈ rotation_results d';
  ae_no_child : ∀ id t r, ConsumeRefresh id t ∈ us → r ∈ refresh_tokens d' → refresh_parent r = Some id →
    ∃ r0, r0 ∈ refresh_tokens d ∧ refresh_parent r0 = Some id;
  ae_no_session : ∀ id h s, SetPassword id h ∈ us → s ∈ sessions d' → session_user s = id →
    ∃ s0, s0 ∈ sessions d ∧ session_id s0 = session_id s ∧ session_user s0 = id
}.

Lemma session_evolves_refl us s : session_evolves us s s.
Proof. by split_and!. Qed.
Lemma refresh_evolves_refl us r : refresh_evolves us r r.
Proof. by split_and!. Qed.
Lemma account_evolves_refl us u : account_evolves us u u.
Proof. by split_and!. Qed.

#[export] Hint Resolve session_evolves_refl refresh_evolves_refl account_evolves_refl : core.

#[export] Instance auth_evolves_preorder us : PreOrder (auth_evolves us).
Proof.
  split.
  - intros d. split; eauto.
  - intros d1 d2 d3 H12 H23. split.
    + intros u Hu. destruct (ae_accounts _ _ _ H12 u Hu) as (u2 & Hu2 & E1 & E2 & E3 & E4).
      destruct (ae_accounts _ _ _ H23 u2 Hu2) as (u3 & Hu3 & F1 & F2 & F3 & F4). exists u3. split; [done|].
      rewrite E1 in F4. split_and!; [congruence..|]. intros Hl. rewrite F4 by done. by apply E4.
    + intros s Hs. destruct (ae_sessions _ _ _ H12 s Hs) as (s2 & Hs2 & E1 & E2 & E3 & E4 & E5 & E6).
      destruct (ae_sessions _ _ _ H23 s2 Hs2) as (s3 & Hs3 & F1 & F2 & F3 & F4 & F5 & F6). exists s3. split; [done|].
      rewrite E1 in F6. split_and!; try congruence; [auto|]. intros Hl. rewrite F6 by done. by apply E6.
    + intros a Ha. by eapply ae_access, ae_access.
    + intros r Hr. destruct (ae_refresh _ _ _ H12 r Hr) as (r2 & Hr2 & E1 & E2 & E3 & E4 & E5 & E6 & E7).
      destruct (ae_refresh _ _ _ H23 r2 Hr2) as (r3 & Hr3 & F1 & F2 & F3 & F4 & F5 & F6 & F7). exists r3. split; [done|].
      rewrite E1 in F7. split_and!; try congruence; [auto|]. intros t Hl. rewrite (F7 t) by done. by eapply E7.
    + intros l Hl. by eapply ae_logins, ae_logins.
    + intros x Hx. by eapply ae_rotations, ae_rotations.
    + intros id t r Hin Hr Hp. destruct (ae_no_child _ _ _ H23 id t r Hin Hr Hp) as (r2 & Hr2 & Hp2).
      by eapply (ae_no_child _ _ _ H12).
    + intros id h s Hin Hs Hu. destruct (ae_no_session _ _ _ H23 id h s Hin Hs Hu) as (s2 & Hs2 & Hid & Hu2).
      destruct (ae_no_session _ _ _ H12 id h s2 Hin Hs2 Hu2) as (s1 & Hs1 & Hid1 & Hu1). exists s1. split_and!; congruence.
Qed.

(** Without locks anything goes that keeps the rows. *)
Lemma auth_evolves_nil us d d' : auth_evolves us d d' → auth_evolves [] d d'.
Proof.
  intros [Ha Hs Hac Hr Hl Hx _ _]. split; try done; try (by intros ? ? ? ?%not_elem_of_nil).
  - intros u Hu. destruct (Ha u Hu) as (u' & Hu' & E1 & E2 & E3 & _). exists u'. split; [done|]. split_and!; try done.
    by intros [?%not_elem_of_nil|[? ?%not_elem_of_nil]].
  - intros s Hin. destruct (Hs s Hin) as (s' & Hs' & E1 & E2 & E3 & E4 & E5 & _). exists s'. split; [done|]. split_and!; try done.
    by intros [?%not_elem_of_nil|[[? ?%not_elem_of_nil]|[? ?%not_elem_of_nil]]].
  - intros r Hin. destruct (Hr r Hin) as (r' & Hr' & E1 & E2 & E3 & E4 & E5 & E6 & _). exists r'. split; [done|]. split_and!; try done.
    by intros ? ?%not_elem_of_nil.
Qed.

(** * Every change is an evolution *)

Lemma auth_evolves_intro d d' :
  (∀ u, u ∈ accounts d → ∃ u', u' ∈ accounts d' ∧ account_evolves [] u u') →
  (∀ s, s ∈ sessions d → ∃ s', s' ∈ sessions d' ∧ session_evolves [] s s') →
  (∀ a, a ∈ access_tokens d → a ∈ access_tokens d') →
  (∀ r, r ∈ refresh_tokens d → ∃ r', r' ∈ refresh_tokens d' ∧ refresh_evolves [] r r') →
  (∀ l, l ∈ login_results d → l ∈ login_results d') → (∀ x, x ∈ rotation_results d → x ∈ rotation_results d') →
  auth_evolves [] d d'.
Proof. intros. split; try done; by intros ? ? ? ?%not_elem_of_nil. Qed.

Lemma set_password_evolves id h u : account_evolves [] u (set_password id h u).
Proof.
  unfold set_password. destruct (_ =? _); [|done]. split_and!; try done.
  by intros [?%not_elem_of_nil|[? ?%not_elem_of_nil]].
Qed.

Lemma session_unlocked id : ¬ session_locked [] id.
Proof. by intros [?%not_elem_of_nil|[[? ?%not_elem_of_nil]|[? ?%not_elem_of_nil]]]. Qed.

Lemma revoke_evolves id t s : session_evolves [] s (revoke id t s).
Proof.
  unfold revoke. destruct (_ =? _); [|done]. split_and!; try done; [|by intros ?%session_unlocked].
  cbn [session_revoked_at]. by intros t' ->.
Qed.

Lemma set_idle_evolves id t s : session_evolves [] s (set_idle id t s).
Proof. unfold set_idle. destruct (_ =? _); [|done]. split_and!; try done. by intros ?%session_unlocked. Qed.

Lemma consume_evolves id t r : refresh_evolves [] r (consume id t r).
Proof.
  unfold consume. destruct (_ =? _); [|done]. split_and!; try done; [|by intros ? ?%not_elem_of_nil].
  cbn [refresh_consumed_at]. by intros t' ->.
Qed.

Lemma change_evolves u d : auth_evolves [] d (apply_change u d).
Proof.
  destruct u; simpl; try done; apply auth_evolves_intro; cbn; intros x Hx; rewrite ?elem_of_app; eauto using elem_of_app;
    try (exists x; rewrite ?elem_of_app; by auto).
  - exists (set_password id password_hash x). split; [by apply list_elem_of_fmap_2|apply set_password_evolves].
  - exists (revoke id at_ x). split; [by apply list_elem_of_fmap_2|apply revoke_evolves].
  - exists (set_idle id at_ x). split; [by apply list_elem_of_fmap_2|apply set_idle_evolves].
  - exists (consume id at_ x). split; [by apply list_elem_of_fmap_2|apply consume_evolves].
Qed.

Lemma changes_evolve us d : auth_evolves [] d (apply_changes us d).
Proof.
  revert d. induction us as [|u us IH]; intros d; [done|]. etrans; [apply change_evolves|apply IH].
Qed.

(** * Every change keeps the invariant *)

Definition user_of (d : auth_database) (id : Z) : Prop := ∃ u, u ∈ accounts d ∧ user_id u = id.
Definition session_of (d : auth_database) (id : Z) : Prop := ∃ s, s ∈ sessions d ∧ session_id s = id.
Definition session_of_user (d : auth_database) (id user : Z) : Prop :=
  ∃ s, s ∈ sessions d ∧ session_id s = id ∧ session_user s = user.
Definition consumed_token (d : auth_database) (id : Z) : Prop :=
  ∃ r, r ∈ refresh_tokens d ∧ refresh_id r = id ∧ is_Some (refresh_consumed_at r).
Definition consumed_parent (d : auth_database) (id session : Z) : Prop :=
  ∃ q, q ∈ refresh_tokens d ∧ refresh_id q = id ∧ refresh_session q = session ∧ is_Some (refresh_consumed_at q).

(** What a change must find. *)
Definition change_ok (u : auth_change) (d : auth_database) : Prop :=
  match u with
  | InsertAccount x =>
      text_account x ∧ (∀ y, y ∈ accounts d → user_id y ≠ user_id x) ∧
      ∀ y, y ∈ accounts d → user_username y ≠ user_username x
  | InsertSession s => text_session s ∧ (∀ y, y ∈ sessions d → session_id y ≠ session_id s) ∧ user_of d (session_user s)
  | InsertAccess a =>
      (∀ y, y ∈ access_tokens d → access_hash y ≠ access_hash a) ∧ session_of d (access_session a)
  | InsertRefresh r =>
      (∀ y, y ∈ refresh_tokens d → refresh_id y ≠ refresh_id r) ∧
      (∀ y, y ∈ refresh_tokens d → refresh_hash y ≠ refresh_hash r) ∧ session_of d (refresh_session r) ∧
      ∀ p, refresh_parent r = Some p →
        consumed_parent d p (refresh_session r) ∧ ∀ y, y ∈ refresh_tokens d → refresh_parent y ≠ Some p
  | InsertLogin l =>
      (∀ y, y ∈ login_results d → login_hash y ≠ login_hash l) ∧ session_of_user d (login_session l) (login_user l)
  | InsertRotation x =>
      (∀ y, y ∈ rotation_results d → rotation_token y ≠ rotation_token x) ∧ consumed_token d (rotation_token x)
  | _ => True
  end.

Section carry.
Context (d d' : auth_database) (Hev : auth_evolves [] d d').

Lemma carry_user id : user_of d id → user_of d' id.
Proof. intros (u & Hu & <-). destruct (ae_accounts _ _ _ Hev u Hu) as (u' & ? & ? & _). by exists u'. Qed.

Lemma carry_session_of_user id user : session_of_user d id user → session_of_user d' id user.
Proof. intros (s & Hs & <- & <-). destruct (ae_sessions _ _ _ Hev s Hs) as (s' & ? & ? & ? & _). by exists s'. Qed.

Lemma carry_session id : session_of d id → session_of d' id.
Proof. intros (s & Hs & <-). destruct (ae_sessions _ _ _ Hev s Hs) as (s' & ? & ? & _). by exists s'. Qed.

Lemma carry_parent id session : consumed_parent d id session → consumed_parent d' id session.
Proof.
  intros (r & Hr & <- & <- & [t Ht]). destruct (ae_refresh _ _ _ Hev r Hr) as (r' & ? & ? & ? & _ & _ & _ & Hc & _).
  exists r'. split_and!; try done. by exists t; apply Hc.
Qed.

Lemma carry_token id : consumed_token d id → consumed_token d' id.
Proof.
  intros (r & Hr & <- & [t Ht]). destruct (ae_refresh _ _ _ Hev r Hr) as (r' & ? & ? & _ & _ & _ & _ & Hc & _).
  exists r'. split_and!; try done. by exists t; apply Hc.
Qed.
End carry.

(** Keys of a table that is mapped, or that has a new row. *)
Lemma unique_key_map {A K} (key : A → K) (f : A → A) l :
  (∀ x, key (f x) = key x) → unique_key key l → unique_key key (f <$> l).
Proof.
  intros Hf. unfold unique_key. rewrite <-list_fmap_compose. intros Hnd.
  erewrite list_fmap_ext; [exact Hnd|]. intros i x _. apply Hf.
Qed.

(** Where the rows of a changed table come from. *)
Definition same_refresh (r r' : refresh_row) : Prop :=
  refresh_id r' = refresh_id r ∧ refresh_session r' = refresh_session r ∧ refresh_parent r' = refresh_parent r ∧
  refresh_hash r' = refresh_hash r.

Lemma consume_same id t r : same_refresh r (consume id t r).
Proof. unfold consume. by destruct (_ =? _). Qed.

Definition same_session (s s' : session_row) : Prop :=
  session_id s' = session_id s ∧ session_user s' = session_user s ∧ session_device s' = session_device s.

Lemma revoke_same id t s : same_session s (revoke id t s).
Proof. unfold revoke. by destruct (_ =? _). Qed.
Lemma set_idle_same id t s : same_session s (set_idle id t s).
Proof. unfold set_idle. by destruct (_ =? _). Qed.

Ltac back_tac :=
  match goal with
  | H : _ ∈ _ <$> _ |- _ => apply list_elem_of_fmap in H as (? & -> & ?); left; eexists; split; [eassumption|]
  | H : _ ∈ _ ++ [_] |- _ =>
      apply elem_of_app in H as [?|H]; [left; eexists; split; [eassumption|done]|apply list_elem_of_singleton in H as ->; by right]
  | _ => left; eexists; split; [eassumption|done]
  end.

Lemma accounts_back u d x : x ∈ accounts (apply_change u d) →
  (∃ y, y ∈ accounts d ∧ user_id x = user_id y ∧ user_username x = user_username y ∧
    user_display_name x = user_display_name y) ∨ u = InsertAccount x.
Proof. intros Hx. destruct u; cbn in Hx; back_tac. unfold set_password. by destruct (_ =? _). Qed.

Lemma sessions_back u d x : x ∈ sessions (apply_change u d) →
  (∃ y, y ∈ sessions d ∧ same_session y x) ∨ u = InsertSession x.
Proof. intros Hx. destruct u; cbn in Hx; back_tac; [apply revoke_same|apply set_idle_same]. Qed.

Lemma access_back u d x : x ∈ access_tokens (apply_change u d) → x ∈ access_tokens d ∨ u = InsertAccess x.
Proof. intros Hx. destruct u; cbn in Hx; try by left. apply elem_of_app in Hx as [?|Hx%list_elem_of_singleton]; subst; auto. Qed.

Lemma refresh_back u d x : x ∈ refresh_tokens (apply_change u d) →
  (∃ y, y ∈ refresh_tokens d ∧ same_refresh y x) ∨ u = InsertRefresh x.
Proof. intros Hx. destruct u; cbn in Hx; back_tac. apply consume_same. Qed.

Lemma logins_back u d x : x ∈ login_results (apply_change u d) → x ∈ login_results d ∨ u = InsertLogin x.
Proof. intros Hx. destruct u; cbn in Hx; try by left. apply elem_of_app in Hx as [?|Hx%list_elem_of_singleton]; subst; auto. Qed.

Lemma rotations_back u d x : x ∈ rotation_results (apply_change u d) → x ∈ rotation_results d ∨ u = InsertRotation x.
Proof. intros Hx. destruct u; cbn in Hx; try by left. apply elem_of_app in Hx as [?|Hx%list_elem_of_singleton]; subst; auto. Qed.

Section keeps.
Context (u : auth_change) (d : auth_database) (Hd : auth_ok d) (Hu : change_ok u d).

Let Hev : auth_evolves [] d (apply_change u d) := change_evolves u d.

Lemma keep_account_keys :
  unique_key user_id (accounts (apply_change u d)) ∧ unique_key user_username (accounts (apply_change u d)).
Proof.
  pose proof (ao_account_ids _ Hd). pose proof (ao_usernames _ Hd).
  destruct u; cbn in *; try done; [destruct Hu as (_ & ? & ?); split; by apply unique_key_app|].
  split; (apply unique_key_map; [|done]); intros x; unfold set_password; by destruct (_ =? _).
Qed.

Lemma keep_session_keys : unique_key session_id (sessions (apply_change u d)).
Proof.
  pose proof (ao_session_ids _ Hd). destruct u; cbn in *; try done; [by apply unique_key_app; [done|apply Hu]|..];
    (apply unique_key_map; [|done]); intros x; [apply revoke_same|apply set_idle_same].
Qed.

Lemma keep_refresh_keys :
  unique_key refresh_id (refresh_tokens (apply_change u d)) ∧ unique_key refresh_hash (refresh_tokens (apply_change u d)).
Proof.
  pose proof (ao_refresh_ids _ Hd). pose proof (ao_refresh_hashes _ Hd).
  destruct u; cbn in *; try done; [destruct Hu as (? & ? & _); split; by apply unique_key_app|].
  split; (apply unique_key_map; [|done]); intros x; apply consume_same.
Qed.

Lemma keep_other_keys :
  unique_key access_hash (access_tokens (apply_change u d)) ∧ unique_key login_hash (login_results (apply_change u d)) ∧
  unique_key rotation_token (rotation_results (apply_change u d)).
Proof.
  pose proof (ao_access_hashes _ Hd). pose proof (ao_login_hashes _ Hd). pose proof (ao_rotation_tokens _ Hd).
  destruct u; cbn in *; try done; split_and!; try done; apply unique_key_app; first [done|apply Hu].
Qed.

Lemma keep_only_child r1 r2 p :
  r1 ∈ refresh_tokens (apply_change u d) → r2 ∈ refresh_tokens (apply_change u d) →
  refresh_parent r1 = Some p → refresh_parent r2 = Some p → r1 = r2.
Proof.
  intros H1 H2 P1 P2. destruct keep_refresh_keys as [Hk _].
  apply (unique_key_inj refresh_id _ _ _ Hk H1 H2). clear Hk Hev.
  destruct (refresh_back _ _ _ H1) as [(y1 & Hy1 & E1 & _ & F1 & _)|Hn1];
    destruct (refresh_back _ _ _ H2) as [(y2 & Hy2 & E2 & _ & F2 & _)|Hn2]; try congruence.
  - rewrite E1, E2. f_equal. rewrite F1 in P1. rewrite F2 in P2. by eapply ao_only_child.
  - rewrite Hn2 in Hu. destruct Hu as (_ & _ & _ & Hp). destruct (Hp p P2) as [_ Hc]. destruct (Hc y1); congruence.
  - rewrite Hn1 in Hu. destruct Hu as (_ & _ & _ & Hp). destruct (Hp p P1) as [_ Hc]. destruct (Hc y2); congruence.
Qed.

Theorem change_keeps : auth_ok (apply_change u d).
Proof.
  split.
  - apply keep_account_keys.
  - apply keep_account_keys.
  - apply keep_session_keys.
  - apply keep_other_keys.
  - apply keep_refresh_keys.
  - apply keep_refresh_keys.
  - apply keep_other_keys.
  - apply keep_other_keys.
  - intros x [(y & Hy & E1 & E2 & E3)|Hn]%accounts_back; [|rewrite Hn in Hu; apply Hu].
    unfold text_account. rewrite E1, E2, E3. by apply (ao_account_texts _ Hd).
  - intros x [(y & Hy & E1 & E2 & E3)|Hn]%sessions_back; [|rewrite Hn in Hu; apply Hu].
    unfold text_session. rewrite E1, E3. by apply (ao_session_texts _ Hd).
  - intros x [(y & Hy & E1 & E2 & E3)|Hn]%sessions_back; eapply carry_user; eauto; [|rewrite Hn in Hu; apply Hu].
    rewrite E2. by apply (ao_session_users _ Hd).
  - intros x [Hx|Hn]%access_back; eapply carry_session; eauto; [|rewrite Hn in Hu; apply Hu]. by apply (ao_access_sessions _ Hd).
  - intros x [(y & Hy & E1 & E2 & E3)|Hn]%refresh_back; eapply carry_session; eauto; [|rewrite Hn in Hu; apply Hu].
    rewrite E2. by apply (ao_refresh_sessions _ Hd).
  - intros x [Hx|Hn]%logins_back; eapply carry_session_of_user; eauto; [|rewrite Hn in Hu; apply Hu].
    by apply (ao_login_sessions _ Hd).
  - intros x [Hx|Hn]%rotations_back; eapply carry_token; eauto; [|rewrite Hn in Hu; apply Hu]. by apply (ao_rotated _ Hd).
  - intros x p [(y & Hy & E1 & E2 & E3 & E4)|Hn]%refresh_back Hp; eapply carry_parent; eauto.
    + rewrite E2. apply (ao_parents _ Hd); congruence.
    + rewrite Hn in Hu. by apply Hu.
  - intros r1 r2 p. apply keep_only_child.
Qed.
End keeps.

(** Changes that each find what they must. *)
Fixpoint changes_ok (us : list auth_change) (d : auth_database) : Prop :=
  match us with [] => True | u :: us => change_ok u d ∧ changes_ok us (apply_change u d) end.

Lemma changes_keep us d : auth_ok d → changes_ok us d → auth_ok (apply_changes us d).
Proof.
  revert d. induction us as [|u us IH]; intros d Hd; [done|]. intros [Hu Hus]. apply IH; [|done]. by apply change_keeps.
Qed.
