(* ===== verification/CredentialsOk.v ===== *)
(** What the secrets promise: tokens and password hashes are read back as they were
    made, a keyring holds the keys it was given, and what was sealed under a key opens
    while the keyring lists it. *)
From Stdlib Require Import Ascii String.
From S2P Require Import Prelude GoStd Text Json Numerals Encoding JsonText Schema MessageStore AuthTables Credentials AuthQueries.
Open Scope Z_scope.

Definition is_byte (b : Z) : Prop := 0 ≤ b < 256.

(** * Base64 *)

(** The URL alphabet. *)
Definition url_alphabet (c : Z) : Prop := 65 ≤ c ≤ 90 ∨ 97 ≤ c ≤ 122 ∨ 48 ≤ c ≤ 57 ∨ c = 45 ∨ c = 95.

Lemma base64_char_alphabet v : 0 ≤ v < 64 → url_alphabet (base64_char v).
Proof. intros Hv. unfold base64_char, url_alphabet. destruct_tests; lia. Qed.

Lemma base64_encode_alphabet bs : Forall is_byte bs → Forall url_alphabet (base64_encode bs).
Proof.
  unfold is_byte. induction bs as [|a|a b|a b c bs IH] using list_ind_3; intros Hall;
    repeat (apply Forall_cons in Hall as [? Hall]); cbn [base64_encode];
    repeat (apply Forall_cons; split; [apply base64_char_alphabet; div_lia|]); auto.
Qed.

Lemma base64_text_ascii bs : Forall is_byte bs → Forall (λ b, 0 ≤ b < 128) (base64_encode bs).
Proof. intros Hb. apply (Forall_impl _ _ _ (base64_encode_alphabet bs Hb)). unfold url_alphabet. lia. Qed.

Lemma url_std_char c : url_alphabet c → url_char (std_char c) = c.
Proof. unfold url_alphabet, url_char, std_char. intros Hc. destruct_tests; bool_arith; lia. Qed.

Lemma std_decode_encode bs : Forall is_byte bs → std_decode (std_encode bs) = Some bs.
Proof.
  intros Hb. unfold std_decode, std_encode. rewrite <-list_fmap_compose.
  rewrite <-(base64_decode_encode bs Hb). f_equal. rewrite <-(list_fmap_id (base64_encode bs)) at 2.
  apply list_fmap_ext. intros i c Hc. apply url_std_char.
  by apply (Forall_lookup_1 _ _ _ _ (base64_encode_alphabet bs Hb) Hc).
Qed.

(** The standard alphabet has no dollar sign. *)
Lemma std_encode_plain bs : Forall is_byte bs → Forall (λ c, is_byte c ∧ c ≠ dollar) (std_encode bs).
Proof.
  intros Hb. unfold std_encode. apply Forall_fmap, (Forall_impl _ _ _ (base64_encode_alphabet bs Hb)).
  intros c. unfold url_alphabet, std_char, dollar, is_byte. simpl. intros Hc. destruct_tests; bool_arith; lia.
Qed.

(** * Tokens *)

Section tokens.
Context `{SHA256}.

Lemma token_raw_bytes raw : Forall is_byte raw → bytes_of (token_raw (token_of raw)) = base64_encode raw.
Proof. intros Hb. apply bytes_of_string_of. by apply base64_encode_bytes. Qed.

Lemma decode_token raw :
  Forall is_byte raw → List.length raw = tokenLength →
  decodeAndHashToken (token_raw (token_of raw)) = Some (raw, token_hash (token_of raw)).
Proof.
  intros Hb Hl. unfold decodeAndHashToken. rewrite token_raw_bytes, base64_decode_encode by done.
  cbn [mbind option_bind]. rewrite Hl. done.
Qed.

Lemma token_valid raw : Forall is_byte raw → ValidString (token_raw (token_of raw)) = true.
Proof. intros Hb. apply ascii_valid. rewrite token_raw_bytes by done. by apply base64_text_ascii. Qed.

Lemma decoded_hash encoded raw h : decodeAndHashToken encoded = Some (raw, h) → h = Sum256 raw ∧ List.length raw = tokenLength.
Proof.
  unfold decodeAndHashToken. intros (x & Hx & Hs)%bind_Some. destruct (_ =? _)%nat eqn:E; [|done].
  apply Nat.eqb_eq in E. by simplify_eq.
Qed.
End tokens.

(** * Passwords *)

Section passwords.
Context `{Argon2}.

Definition derived_key (password : string) (salt : list Z) : list Z :=
  IDKey (bytes_of password) salt argonIterations argonMemory argonParallelism argonKeyLength.

Lemma no_dollar l : Forall (λ c, is_byte c ∧ c ≠ dollar) l → dollar ∉ l.
Proof. rewrite Forall_forall. intros Hl Hin. by destruct (Hl _ Hin). Qed.

Lemma password_hash_bytes password salt :
  Forall is_byte salt →
  bytes_of (password_hash password salt) = join dollar [[]; bytes_of "argon2id"; bytes_of "v=19"; bytes_of "m=19456,t=2,p=1";
    std_encode salt; std_encode (derived_key password salt)].
Proof.
  intros Hs. pose proof (std_encode_plain _ Hs) as H1.
  pose proof (std_encode_plain _ (IDKey_bytes (bytes_of password) salt argonIterations argonMemory argonParallelism argonKeyLength)) as H2.
  unfold password_hash. rewrite bytes_of_string_of; [done|].
  repeat (apply Forall_app; split); try apply bytes_of_bounds; try (repeat constructor; done).
  - apply (Forall_impl _ _ _ H1). by intros ? [].
  - apply (Forall_impl _ _ _ H2). by intros ? [].
Qed.

(** A password verifies against a hash iff argon2 derives the same key from it. *)
Lemma verify_password_hash password other salt :
  Forall is_byte salt →
  verifyPassword password (password_hash other salt) = Ok (bool_decide (derived_key password salt = derived_key other salt)).
Proof.
  intros Hs. pose proof (IDKey_bytes (bytes_of other) salt argonIterations argonMemory argonParallelism argonKeyLength) as Hk.
  unfold verifyPassword. rewrite password_hash_bytes, split_at_join by
    (done || (repeat (apply Forall_cons; split; [first [apply no_dollar, std_encode_plain; done |
      apply (bool_decide_unpack _); vm_compute; exact I]|]); constructor)).
  change (negb (bool_decide (bytes_of "argon2id" = bytes_of "argon2id"))) with false. cbv iota.
  assert ((rest ← scan_literal (bytes_of "v=") (bytes_of "v=19"); scan_int rest) = Some (19, [])) as ->
    by (vm_compute; reflexivity). cbv iota.
  change (negb (19 =? argonVersion)) with false. cbv iota.
  lazymatch goal with |- match ?o with Some _ => _ | None => _ end = _ => assert (o = Some (19456, 2, 1)) as -> by (vm_compute; reflexivity) end.
  cbv iota beta. rewrite !std_decode_encode by done. change ((2 <? 1) || (1 <? 1)) with false. cbv iota.
  f_equal. unfold derived_key. rewrite (IDKey_length _ _ _ _ _ argonKeyLength) by done. done.
Qed.
End passwords.

(** * The keyring *)

Lemma decoded_key_length text key : decodeResponseCipherKey text = Ok key → List.length key = 32%nat.
Proof.
  unfold decodeResponseCipherKey. destruct (std_decode text); [|done]. destruct (_ =? _)%nat eqn:E; [|done].
  apply Nat.eqb_eq in E. by intros [= <-].
Qed.

(** What a keyring entry says. *)
Definition keyring_entry (entry : text) (version : Z) (key : list Z) : Prop :=
  ∃ version_text key_text, cut_colon (TrimSpace entry) = Some (version_text, key_text) ∧
    ParseInt (string_of version_text) = Some version ∧ 0 < version ∧ decodeResponseCipherKey key_text = Ok key.

(** The keys are those there were and those of the entries, each version once. *)
Lemma add_previous_keys_spec active entries keys keys' :
  is_Some (keys !! active) → add_previous_keys active entries keys = Ok keys' →
  keys ⊆ keys' ∧ (∀ entry, entry ∈ entries → ∃ v key, keyring_entry entry v key ∧ v ≠ active ∧ keys' !! v = Some key) ∧
  ∀ v key, keys' !! v = Some key → keys !! v = Some key ∨ ∃ entry, entry ∈ entries ∧ keyring_entry entry v key.
Proof.
  revert keys. induction entries as [|entry rest IH]; intros keys Ha Hk; cbn [add_previous_keys] in Hk.
  { injection Hk as <-. split_and!; [done|by intros ? ?%not_elem_of_nil|by left]. }
  destruct (cut_colon _) as [[vt kt]|] eqn:Ec; [|done]. destruct (ParseInt _) as [v|] eqn:Ev; [|done].
  destruct (v <=? 0) eqn:E0; [done|]. destruct (v =? active) eqn:E1; [done|].
  destruct (bool_decide _) eqn:E2; [done|]. apply bool_decide_eq_false, eq_None_not_Some in E2.
  apply result_bind_ok in Hk as (key & Hkey & Hk). apply Z.leb_gt in E0. apply Z.eqb_neq in E1.
  assert (keyring_entry entry v key) as He by (by exists vt, kt).
  destruct (IH (<[v := key]> keys)) as (Hsub & Hall & Honly); [|done|].
  { destruct Ha as [k Hk']. exists k. by rewrite lookup_insert_ne. }
  split_and!.
  - etrans; [by apply insert_subseteq|done].
  - intros e [->|He']%elem_of_cons; [|by apply Hall]. exists v, key. split_and!; [done|done|].
    apply (lookup_weaken _ _ _ _ (lookup_insert_eq keys v key) Hsub).
  - intros v' key' Hv'. destruct (Honly v' key' Hv') as [Hl|(e & He' & Hke)]; [|right; exists e; split; [by right|done]].
    destruct (decide (v' = v)) as [->|Hne]; [|left; by rewrite lookup_insert_ne in Hl].
    rewrite lookup_insert_eq in Hl. injection Hl as <-. right. exists entry. split; [by left|done].
Qed.

Lemma keyring_keys encodedKey version previous c :
  newResponseCipherKeyring encodedKey version previous = Ok c →
  keyVersion c = version ∧ 0 < version ∧
  (∃ key, decodeResponseCipherKey (bytes_of encodedKey) = Ok key ∧ cipher_keys c !! version = Some key) ∧
  (bool_decide (TrimSpace (bytes_of previous) = []) = false →
    ∀ entry, entry ∈ split_at 44 (bytes_of previous) →
    ∃ v key, keyring_entry entry v key ∧ v ≠ version ∧ cipher_keys c !! v = Some key).
Proof.
  unfold newResponseCipherKeyring. destruct (version <=? 0) eqn:E0; [done|]. apply Z.leb_gt in E0.
  intros (key & Hkey & (keys & Hk & Hc)%result_bind_ok)%result_bind_ok. injection Hc as <-. cbn [keyVersion cipher_keys].
  split; [done|]. split; [done|]. destruct (bool_decide _) eqn:E.
  - injection Hk as <-. split; [|done]. exists key. split; [done|]. apply lookup_singleton_eq.
  - apply add_previous_keys_spec in Hk as (Hsub & Hall & _); [|rewrite lookup_singleton_eq; eauto].
    split; [|intros _; exact Hall]. exists key. split; [done|].
    apply (lookup_weaken _ _ _ _ (lookup_singleton_eq version key) Hsub).
Qed.

(** A keyring has an active key. *)
Lemma keyring_active encodedKey version previous c :
  newResponseCipherKeyring encodedKey version previous = Ok c → is_Some (cipher_keys c !! keyVersion c).
Proof. intros Hc. apply keyring_keys in Hc as (-> & _ & (key & _ & ?) & _). by exists key. Qed.

Lemma cut_colon_app x y : 58 ∉ x → cut_colon (x ++ 58 :: y) = Some (x, y).
Proof.
  induction x as [|b x IH]; intros Hn; [done|]. apply not_elem_of_cons in Hn as [Hb Hn]. cbn [app cut_colon].
  destruct (b =? 58) eqn:E; [apply Z.eqb_eq in E; congruence|]. by rewrite IH.
Qed.

Lemma FormatInt_no_colon v : 0 < v → 58 ∉ bytes_of (FormatInt v).
Proof.
  destruct v as [|p|p]; [lia| |lia]. intros _ Hin. rewrite FormatInt_pos in Hin.
  destruct (digits_of_cons p) as (b & ds & Heq & Hall & _). rewrite Heq in Hin. rewrite Forall_forall in Hall.
  specialize (Hall _ Hin). apply in_range_spec in Hall. lia.
Qed.

(** An entry written [version:key]. *)
Lemma written_entry entry version encodedKey key :
  0 < version → is_int64 version → TrimSpace entry = bytes_of (FormatInt version) ++ 58 :: bytes_of encodedKey →
  decodeResponseCipherKey (bytes_of encodedKey) = Ok key → keyring_entry entry version key.
Proof.
  intros Hv Hi He Hk. exists (bytes_of (FormatInt version)), (bytes_of encodedKey).
  rewrite He, cut_colon_app by (by apply FormatInt_no_colon). by rewrite string_of_bytes_of, ParseInt_FormatInt.
Qed.

Lemma keyring_entry_det entry v key v' key' : keyring_entry entry v key → keyring_entry entry v' key' → v = v' ∧ key = key'.
Proof.
  intros (x & y & Hc & Hp & _ & Hd) (x' & y' & Hc' & Hp' & _ & Hd'). rewrite Hc in Hc'.
  injection Hc' as <- <-. rewrite Hp in Hp'. rewrite Hd in Hd'. by simplify_eq.
Qed.

(** * Responses *)

Section responses.
Context `{TimeText, GCM}.

(** What JSON can carry. *)
Definition response_ok (a : authResponse) : Prop :=
  is_int64 (user_ID (response_User a)) ∧ is_int64 (response_SessionID a) ∧
  ValidString (user_Username (response_User a)) = true ∧ ValidString (user_DisplayName (response_User a)) = true ∧
  ValidString (response_DeviceID a) = true ∧ ValidString (response_AccessToken a) = true ∧
  ValidString (response_RefreshToken a) = true.

Lemma format_time_text t : json_text (format_time t) = format_time t.
Proof. apply json_text_id, ascii_valid, format_time_ascii. Qed.

Lemma response_struct_reread a : response_ok a → reread (response_struct a) = response_struct a.
Proof.
  intros (_ & _ & H1 & H2 & H3 & H4 & H5). unfold response_struct, user_struct. cbn [reread List.map fst snd].
  rewrite !format_time_text, !json_text_id by (done || reflexivity). done.
Qed.

Lemma decode_user u u0 :
  is_int64 (user_ID u) → decode_struct user_fields false (user_struct u) u0 = Some u.
Proof.
  intros Hi. unfold user_struct, decode_struct. cbn [foldl]. unfold decode_member. cbn [fst snd]. unfold user_fields.
  lookup_fields. unfold decode_int64, decode_text. rewrite ParseInt_FormatInt by done. by destruct u.
Qed.

Lemma decode_response_struct a a0 :
  response_ok a → decode_struct response_fields false (response_struct a) a0 = Some a.
Proof.
  intros (Hi & Hs & _). unfold response_struct. unfold decode_struct at 1. cbn [foldl]. unfold decode_member. cbn [fst snd].
  unfold response_fields. lookup_fields. cbn [mbind option_bind]. rewrite decode_user by done. cbn [mbind option_bind].
  unfold decode_int64, decode_text, decode_time. rewrite ParseInt_FormatInt by done.
  cbn [mbind option_bind]. rewrite !parse_format_time. by destruct a.
Qed.

Lemma response_struct_literals a : literals (response_struct a).
Proof. simpl. split_and!; try done; apply literal_FormatInt. Qed.

Lemma response_reads a : response_ok a → decode_response (marshal (response_struct a)) = Some a.
Proof.
  intros Ha. unfold decode_response. rewrite parse_document_marshal.
  - cbn [mbind option_bind]. rewrite response_struct_reread by done. by apply decode_response_struct.
  - apply response_struct_literals.
  - change (nesting (response_struct a)) with 2%nat. apply Nat.leb_le. reflexivity.
Qed.

(** What was sealed opens with its key. *)
Lemma decrypt_encrypt {A} (decode : list Z → option A) (c c' : responseCipher) purpose id nonce v (a : A) :
  List.length nonce = nonce_size c → cipher_keys c' !! keyVersion c = Some (active_key c) →
  decode (marshal v) = Some a →
  decrypt decode c' (keyVersion c) purpose id nonce (encrypt c purpose id v nonce) = Ok a.
Proof. intros Hn Hk Hd. unfold decrypt, encrypt. rewrite Hk, open_seal by done. by rewrite Hd. Qed.

Lemma decrypt_response c purpose id nonce a :
  is_Some (cipher_keys c !! keyVersion c) → List.length nonce = nonce_size c → response_ok a →
  decrypt decode_response c (keyVersion c) purpose id nonce (encrypt c purpose id (response_struct a) nonce) = Ok a.
Proof.
  intros [key Hk] Hn Ha. apply decrypt_encrypt; [done| |by apply response_reads]. unfold active_key. by rewrite Hk.
Qed.

(** C15: A response sealed under one configuration opens
    under a later one that lists the old key among the previous ones, so that changing
    the key does not lose the results of requests in flight. *)
Theorem key_rotation_keeps_responses key1 version1 previous1 c1 key2 version2 previous2 c2 entry purpose id nonce a :
  newResponseCipherKeyring key1 version1 previous1 = Ok c1 →
  newResponseCipherKeyring key2 version2 previous2 = Ok c2 →
  is_int64 version1 → TrimSpace (bytes_of previous2) ≠ [] → entry ∈ split_at 44 (bytes_of previous2) →
  TrimSpace entry = bytes_of (FormatInt version1) ++ 58 :: bytes_of key1 →
  List.length nonce = nonce_size c1 → response_ok a →
  decrypt decode_response c2 (keyVersion c1) purpose id nonce (encrypt c1 purpose id (response_struct a) nonce) = Ok a.
Proof.
  intros H1 H2 Hi Hne Hin He Hn Ha. apply keyring_keys in H1 as (Hv & Hpos & (k1 & Hk1 & Hl1) & _).
  apply keyring_keys in H2 as (_ & _ & _ & Hall). rewrite bool_decide_eq_false_2 in Hall by done.
  destruct (Hall eq_refl entry Hin) as (v & k & Hke & _ & Hl).
  destruct (keyring_entry_det _ _ _ _ _ Hke (written_entry _ _ _ _ Hpos Hi He Hk1)) as [-> ->].
  apply decrypt_encrypt; [done| |by apply response_reads]. rewrite Hv, Hl. unfold active_key. by rewrite Hv, Hl1.
Qed.
End responses.

(** A password verifies against the hash stored for a password iff
    argon2 derives the same key from both with the stored salt; in particular the
    password itself always does. *)
Theorem password_verifies `{Argon2} password other salt :
  Forall is_byte salt →
  verifyPassword password (password_hash other salt) = Ok (bool_decide (derived_key password salt = derived_key other salt)) ∧
  verifyPassword other (password_hash other salt) = Ok true.
Proof. intros Hs. rewrite !verify_password_hash by done. by rewrite (bool_decide_eq_true_2 (derived_key other salt = _)). Qed.

(** A token is read back as the bytes that were drawn, and its hash
    as the one that is stored; what is accepted as a token has exactly 32 bytes. *)
Theorem token_round_trip `{SHA256} raw encoded :
  Forall is_byte raw → List.length raw = tokenLength →
  decodeAndHashToken (token_raw (token_of raw)) = Some (raw, token_hash (token_of raw)) ∧
  ∀ bs h, decodeAndHashToken encoded = Some (bs, h) → h = Sum256 bs ∧ List.length bs = tokenLength.
Proof. intros Hb Hl. split; [by apply decode_token|]. intros bs h. apply decoded_hash. Qed.
