(* ===== verification/AuthSpec.v ===== *)
(** Postconditions of account procedures over the rely, and what each statement
    guarantees. *)
From Stdlib Require Import Ascii String.
From S2P Require Import Prelude GoStd Tables Driver Schema MessageStore Redis RateLimit AuthTables Credentials.
From S2P Require Import AuthQueries Auth AuthOk CredentialsOk.
Open Scope Z_scope.

Abbreviation auth_db w := (w_db (aw_db w)).
Abbreviation auth_tx w := (w_tx (aw_db w)).

(** The clock is past 1970. *)
Definition clock_ok (w : auth_world) : Prop := ∀ n, 0 ≤ aw_clock w n.

(** The account tables are consistent, respected, and come from [d0]. *)
Record sane (d0 : auth_database) (w : auth_world) : Prop := Sane {
  sane_world : world_ok auth_ok auth_ok auth_evolves (aw_db w);
  sane_clock : clock_ok w;
  sane_from : auth_evolves [] d0 (auth_db w)
}.

(** In a transaction: what its changes and its view satisfy. *)
Definition in_tx (d0 : auth_database) (F : list auth_change → auth_database → Prop) (w : auth_world) : Prop :=
  sane d0 w ∧ F (auth_tx w) (tx_view (aw_db w)).

(** What the committed tables satisfy, in a transaction or not. *)
Definition committed (d0 : auth_database) (K : auth_database → Prop) (w : auth_world) : Prop := sane d0 w ∧ K (auth_db w).

Definition outside (d0 : auth_database) (K : auth_database → Prop) (w : auth_world) : Prop :=
  sane d0 w ∧ auth_tx w = [] ∧ K (auth_db w).
Definition idle (d0 : auth_database) : auth_world → Prop := outside d0 (λ _, True).

(** What other connections cannot invalidate. *)
Class Stable (F : list auth_change → auth_database → Prop) : Prop :=
  stable : ∀ us d d', auth_ok d → auth_ok d' → auth_evolves us d d' → F us d → F us d'.
Class StableDb (K : auth_database → Prop) : Prop :=
  stable_db : ∀ d d', auth_ok d → auth_ok d' → auth_evolves [] d d' → K d → K d'.

#[export] Instance stable_of_db K : StableDb K → Stable (λ _, K).
Proof. intros HK us d d' Hd Hd' Hev. apply (HK d d' Hd Hd'). by eapply auth_evolves_nil. Qed.
#[export] Instance stable_and F G : Stable F → Stable G → Stable (λ us d, F us d ∧ G us d).
Proof. intros HF HG us d d' Hd Hd' Hev [? ?]. split; [by apply (HF us d d')|by apply (HG us d d')]. Qed.
#[export] Instance stable_pure (φ : list auth_change → Prop) : Stable (λ us _, φ us).
Proof. by intros us d d' _ _ _. Qed.
#[export] Instance stable_db_true : StableDb (λ _, True).
Proof. done. Qed.
#[export] Instance stable_db_pure (φ : Prop) : StableDb (λ _, φ).
Proof. by intros d d' _ _ _. Qed.

(** * Triples *)

(** [R] is what an error leaves behind. *)
Definition triple {E A} (R : auth_world → Prop) (P : auth_world → Prop) (m : proc auth_world E A)
    (Q : A → auth_world → Prop) : Prop :=
  ∀ w r w', P w → m w = (r, w') → match r with Ok a => Q a w' | Err _ => R w' end.

Section rules.
Context (R : auth_world → Prop).

Lemma triple_bind {E A B} P (m : proc auth_world E A) (f : A → proc auth_world E B) Q S :
  triple R P m Q → (∀ a, triple R (Q a) (f a) S) → triple R P (m ≫= f) S.
Proof.
  intros Hm Hf w r w' Hw H. apply proc_bind_inv in H as [(e & Hr & ->)|(a & w1 & Hr & H)].
  - exact (Hm _ _ _ Hw Hr).
  - exact (Hf a _ _ _ (Hm _ _ _ Hw Hr) H).
Qed.

Lemma triple_ret {E A} (P : auth_world → Prop) (a : A) (Q : A → auth_world → Prop) :
  (∀ w, P w → Q a w) → triple R P (mret a : proc auth_world E A) Q.
Proof. intros HQ w r w' Hw [-> ->]%proc_ret_inv. auto. Qed.

Lemma triple_throw {E A} (P : auth_world → Prop) (e : E) (Q : A → auth_world → Prop) :
  (∀ w, P w → R w) → triple R P (mthrow e) Q.
Proof. intros HR w r w' Hw [-> ->]%proc_throw_inv. auto. Qed.

Lemma triple_conseq {E A} P P' (m : proc auth_world E A) (Q Q' : A → auth_world → Prop) :
  (∀ w, P' w → P w) → (∀ a w, Q a w → Q' a w) → triple R P m Q → triple R P' m Q'.
Proof. intros HP HQ Hm w r w' Hw H. specialize (Hm w r w' (HP w Hw) H). destruct r; auto. Qed.

Lemma triple_pre {E A} P P' (m : proc auth_world E A) (Q : A → auth_world → Prop) :
  (∀ w, P' w → P w) → triple R P m Q → triple R P' m Q.
Proof. intros HP. by apply triple_conseq. Qed.

Lemma triple_pure {E A} (φ : Prop) P (m : proc auth_world E A) Q :
  (φ → triple R P m Q) → triple R (λ w, φ ∧ P w) m Q.
Proof. intros Hm w r w' [Hφ Hw]. by apply Hm. Qed.

Lemma triple_run_error {E F A} (f : E → F) P (m : proc auth_world E A) Q : triple R P m Q → triple R P (run_error f m) Q.
Proof. intros Hm w r w' Hw (r0 & H & ->)%run_error_inv. specialize (Hm w r0 w' Hw H). by destruct r0. Qed.

Lemma triple_attempt {E F A} P (m : proc auth_world E A) Q (R' : auth_world → Prop) :
  triple R P m Q → triple R' P (attempt m : proc auth_world F (result E A)) (λ r, match r with Ok a => Q a | Err _ => R end).
Proof. intros Hm w r w' Hw (r0 & H & ->)%attempt_inv. specialize (Hm w r0 w' Hw H). by destruct r0. Qed.

Lemma triple_refuse {E A} (P : auth_world → Prop) (x : result E A) : (∀ w, P w → R w) →
  triple R P (refuse x : proc auth_world E A) (λ a w, x = Ok a ∧ P w).
Proof. intros HR w r w' Hw [-> ->]%refuse_inv. destruct x; auto. Qed.
End rules.

Lemma triple_error {E A} (R R' : auth_world → Prop) P (m : proc auth_world E A) Q :
  (∀ w, R w → R' w) → triple R P m Q → triple R' P m Q.
Proof. intros HR Hm w r w' Hw H. specialize (Hm w r w' Hw H). destruct r; auto. Qed.

(** * The clock, random bytes and disconnections leave the tables alone *)

Class TablesOnly (P : auth_world → Prop) : Prop :=
  tables_only : ∀ w w', aw_db w' = aw_db w → (clock_ok w → clock_ok w') → P w → P w'.

#[export] Instance sane_tables d0 : TablesOnly (sane d0).
Proof. intros w w' Hdb Hc [Hw Hn Hf]. split; rewrite ?Hdb; auto. Qed.
#[export] Instance in_tx_tables d0 F : TablesOnly (in_tx d0 F).
Proof. intros w w' Hdb Hc [Hs HF]. split; [by eapply tables_only|by rewrite Hdb]. Qed.
#[export] Instance committed_tables d0 K : TablesOnly (committed d0 K).
Proof. intros w w' Hdb Hc [Hs HK]. split; [by eapply tables_only|by rewrite Hdb]. Qed.
#[export] Instance outside_tables d0 K : TablesOnly (outside d0 K).
Proof. intros w w' Hdb Hc (Hs & Ht & HK). split; [by eapply tables_only|]. by rewrite Hdb. Qed.
#[export] Instance pure_tables (φ : Prop) P : TablesOnly P → TablesOnly (λ w, φ ∧ P w).
Proof. intros HP w w' Hdb Hc [? ?]. split; [done|by eapply HP]. Qed.

Lemma in_tx_sane d0 F w : in_tx d0 F w → sane d0 w.
Proof. by intros [? _]. Qed.
Lemma outside_idle d0 K w : outside d0 K w → idle d0 w.
Proof. by intros (? & ? & _). Qed.
Lemma outside_sane d0 K w : outside d0 K w → sane d0 w.
Proof. by intros (? & _ & _). Qed.
Lemma outside_weaken d0 (K K' : auth_database → Prop) w : (∀ d, auth_ok d → K d → K' d) → outside d0 K w → outside d0 K' w.
Proof. intros HK (Hs & Ht & Hk). split; [done|]. split; [done|]. apply HK; [|done]. apply (sane_world _ _ Hs). Qed.
#[export] Hint Resolve in_tx_sane outside_idle outside_sane : core.

(** A token as [newToken] makes it. *)
Definition fresh_token `{SHA256} (t : generatedToken) : Prop :=
  ∃ raw, Forall is_byte raw ∧ List.length raw = tokenLength ∧ t = token_of raw.

Section effects.
Context `{TimeText, SHA256, Argon2, GCM, UnicodeLower}.
Context (R P : auth_world → Prop) `{!TablesOnly P}.

Lemma triple_currentTime {E} : (∀ w, P w → clock_ok w) →
  triple R P (currentTime : proc auth_world E Z) (λ now w, 0 ≤ now ∧ P w).
Proof.
  intros Hc w r w' Hw H4. injection H4 as <- <-. split; [by apply Hc|].
  eapply (tables_only (P := P)); [| |exact Hw]; [done|]. intros Hn n. apply Hn.
Qed.

Lemma triple_read_random {E} n :
  triple R P (read_random n : proc auth_world E (list Z)) (λ bs w, (Forall is_byte bs ∧ List.length bs = n) ∧ P w).
Proof.
  intros w r w' Hw H4. injection H4 as <- <-. split.
  - split; [|by rewrite length_fmap, length_seq]. apply Forall_fmap, Forall_true. intros i. simpl. unfold is_byte. apply Z.mod_pos_bound. done.
  - by eapply (tables_only (P := P)); [| |exact Hw].
Qed.

Lemma triple_newToken {E} : triple R P (newToken : proc auth_world E generatedToken) (λ t w, fresh_token t ∧ P w).
Proof.
  eapply triple_bind; [apply triple_read_random|]. intros bs. apply triple_ret. intros w [[Hb Hl] Hw]. split; [|done].
  by exists bs.
Qed.

Lemma triple_hashPassword {E} password :
  triple R P (hashPassword password : proc auth_world E string)
    (λ h w, (∃ salt, Forall is_byte salt ∧ h = password_hash password salt) ∧ P w).
Proof. eapply triple_bind; [apply triple_read_random|]. intros bs. apply triple_ret. intros w [[Hb Hl] Hw]. eauto. Qed.

Lemma triple_encrypt_response {E} c purpose id response :
  triple R P (encrypt_response c purpose id response : proc auth_world E (list Z * list Z))
    (λ x w, (List.length x.2 = nonce_size c ∧ x.1 = encrypt c purpose id (response_struct response) x.2) ∧ P w).
Proof. eapply triple_bind; [apply triple_read_random|]. intros bs. apply triple_ret. intros w [[Hb Hl] Hw]. done. Qed.

Lemma triple_disconnect {E} app user session :
  triple R P (disconnect app user session : proc auth_world E unit) (λ _, P).
Proof.
  intros w r w' Hw H4. injection H4 as <- <-. destruct (negb (realtime app)); [done|].
  by eapply (tables_only (P := P)); [| |exact Hw].
Qed.

Lemma triple_enforce app endpoint ip account device : (∀ w, P w → R w) →
  triple R P (enforce app endpoint ip account device) (λ _, P).
Proof.
  intros HR w r w' Hw. unfold enforce. destruct (enforceAuthRateLimit _ _ _ _ _ _ _) as [answer redis]. intros H4.
  injection H4 as <- <-.
  assert (P (AuthWorld (aw_db w) (aw_bytes w) (aw_clock w) redis (aw_disconnected w))).
  { by eapply (tables_only (P := P)); [| |exact Hw]. }
  destruct answer; auto.
Qed.
End effects.

(** * The database *)

Lemma on_database_inv {A} (m : proc (world auth_database auth_change) db_error A) w r w' :
  on_database m w = (r, w') → ∃ r0 db, m (aw_db w) = (r0, db) ∧ r = map_error AuthDatabaseError r0 ∧ w' = with_db db w.
Proof. unfold on_database. destruct (m (aw_db w)) as [r0 db]. intros H. injection H as <- <-. eauto. Qed.

Lemma view_from d0 w : sane d0 w → auth_evolves [] d0 (tx_view (aw_db w)).
Proof. intros Hs. etrans; [apply (sane_from _ _ Hs)|apply changes_evolve]. Qed.

(** The world after driver calls. *)
Lemma sane_with d0 w db :
  sane d0 w → world_ok auth_ok auth_ok auth_evolves db → auth_evolves [] (auth_db w) (w_db db) → sane d0 (with_db db w).
Proof. intros [_ Hn Hf] Hw Hev. split; [done|exact Hn|]. cbn. by etrans. Qed.

(** What a statement does in a transaction with [F], coming from [d0]. *)
Definition st_spec {A} (d0 : auth_database) (F : list auth_change → auth_database → Prop) (st : auth_statement A)
    (G : A → list auth_change → auth_database → Prop) : Prop :=
  ∀ env us d a us', auth_ok d → auth_evolves [] d0 d → F us d → st env d = Ok (a, us') →
    changes_ok us' d ∧ G a (us ++ us') (apply_changes us' d).

(** What a statement does that commits by itself. *)
Definition auto_spec {A} (d0 : auth_database) (K : auth_database → Prop) (st : auth_statement A)
    (G : A → auth_database → Prop) : Prop :=
  ∀ env d a us', auth_ok d → auth_evolves [] d0 d → K d → st env d = Ok (a, us') →
    changes_ok us' d ∧ G a (apply_changes us' d).

Section database.
Context (d0 : auth_database).

Lemma triple_statement_keep {A} F (st : auth_statement A) G : Stable F → st_spec d0 F st G →
  triple (in_tx d0 F) (in_tx d0 F) (on_database (tx_statement st)) (λ a, in_tx d0 (G a)).
Proof.
  intros HF Hst w r w' [Hs Hw] (r0 & db & H & -> & ->)%on_database_inv.
  apply (tx_statement_spec auth_ok auth_ok auth_evolves) in H; [|apply (sane_world _ _ Hs)].
  assert (∀ w1, world_ok auth_ok auth_ok auth_evolves w1 → drift auth_evolves (aw_db w) w1 →
    sane d0 (with_db w1 w) ∧ F (w_tx w1) (tx_view w1)) as Hdr.
  { intros w1 Hw1 Hdr. split.
    - apply sane_with; [done|done|]. eapply auth_evolves_nil, (drift_db _ _ _ Hdr).
    - rewrite (drift_tx _ _ _ Hdr). apply (HF _ (tx_view (aw_db w))); [apply (sane_world _ _ Hs)|apply Hw1|apply Hdr|done]. }
  destruct r0 as [x|a].
  { destruct H as (Hw1 & Hd & _). simpl. by apply Hdr. }
  destruct H as (w1 & env & us & Hw1 & Hd & _ & _ & Ha & ->). destruct (Hdr w1 Hw1 Hd) as [Hs1 HF1].
  destruct (Hst env (w_tx w1) (tx_view w1) a us) as [Hok HG]; [apply Hw1|by apply (view_from d0 (with_db w1 w))|done|done|].
  simpl. split.
  - apply sane_with; [done| |].
    + apply world_ok_push; [done|]. apply changes_keep; [apply Hw1|done].
    + simpl. eapply auth_evolves_nil, (drift_db _ _ _ Hd).
  - cbn [aw_db with_db]. by rewrite view_push.
Qed.

Lemma triple_statement {A} F (st : auth_statement A) G : Stable F → st_spec d0 F st G →
  triple (sane d0) (in_tx d0 F) (on_database (tx_statement st)) (λ a, in_tx d0 (G a)).
Proof. intros HF Hst. eapply triple_error; [|by apply triple_statement_keep]. apply in_tx_sane. Qed.

(** A statement whose error is looked at. *)
Lemma triple_try {E A} F (st : auth_statement A) G : Stable F → st_spec d0 F st G →
  triple (sane d0) (in_tx d0 F) (attempt (on_database (tx_statement st)) : proc auth_world E _)
    (λ r, match r with Ok a => in_tx d0 (G a) | Err _ => in_tx d0 F end).
Proof. intros HF Hst. by apply triple_attempt, triple_statement_keep. Qed.

Lemma triple_begin K : StableDb K →
  triple (idle d0) (outside d0 K) (on_database begin_tx) (λ _, in_tx d0 (λ us d, us = [] ∧ K d)).
Proof.
  intros HK w r w' (Hs & Ht & Hw) (r0 & db & H & -> & ->)%on_database_inv.
  apply (begin_tx_spec auth_ok auth_ok auth_evolves (λ _ H, H)) in H as (Hw1 & Hev & Hr); [|apply (sane_world _ _ Hs)].
  rewrite Ht in Hev. assert (sane d0 (with_db db w)) as Hs1 by (by apply sane_with).
  destruct r0 as [x|[]]; simpl.
  - destruct Hr as [Hr _]. split; [done|]. simpl. by rewrite Hr, Ht.
  - split; [done|]. simpl. split; [done|]. unfold tx_view. rewrite Hr. simpl.
    apply (HK (auth_db w)); [apply (sane_world _ _ Hs)|apply Hw1|done|done].
Qed.

Lemma triple_commit F : Stable F →
  triple (sane d0) (in_tx d0 F) (on_database commit_tx) (λ _, committed d0 (λ d, ∃ us, F us d)).
Proof.
  intros HF w r w' [Hs Hw] (r0 & db & H & -> & ->)%on_database_inv.
  apply (commit_tx_spec auth_ok auth_ok auth_evolves (λ _ H, H)) in H as (Hw1 & w1 & Hok1 & Hdr & Hr); [| |apply (sane_world _ _ Hs)].
  2: { intros w1 Hok1 _. apply Hok1. }
  pose proof (auth_evolves_nil _ _ _ (drift_db _ _ _ Hdr)) as Hev1.
  pose proof (changes_evolve (w_tx w1) (w_db w1)) as Hev2. fold (tx_view w1) in Hev2.
  destruct r0 as [x|[]]; simpl.
  - destruct Hr as [_ [[Hdb _]|Hdb]]; (apply sane_with; [done..|]); rewrite Hdb; first [done|by etrans].
  - destruct Hr as [Hdb Htx]. split; [apply sane_with; [done..|]; rewrite Hdb; by etrans|].
    simpl. rewrite Hdb. exists (w_tx w1). rewrite (drift_tx _ _ _ Hdr).
    apply (HF _ (tx_view (aw_db w))); [apply (sane_world _ _ Hs)|apply Hok1|apply Hdr|done].
Qed.

Lemma triple_auto_keep {A} K (st : auth_statement A) G : StableDb K → auto_spec d0 K st G →
  triple (outside d0 K) (outside d0 K) (on_database (auto_statement st)) (λ a, outside d0 (G a)).
Proof.
  intros HK Hst w r w' (Hs & Ht & Hw) (r0 & db & H & -> & ->)%on_database_inv.
  assert (∀ w1, world_ok auth_ok auth_ok auth_evolves w1 → drift auth_evolves (aw_db w) w1 →
    sane d0 (with_db w1 w) ∧ K (w_db w1)) as Hdr.
  { intros w1 Hw1 Hdr. assert (auth_evolves [] (auth_db w) (w_db w1)) as Hev by (rewrite <-Ht; apply Hdr).
    split; [by apply sane_with|]. apply (HK (auth_db w)); [apply (sane_world _ _ Hs)|apply Hw1|done|done]. }
  pose proof H as H'.
  apply (auto_statement_spec auth_ok auth_ok auth_evolves (λ _ H, H)) in H as (Hw1 & Htx & w1 & Hok1 & Hd & Hcase);
    [| |apply (sane_world _ _ Hs)|done].
  2: { intros w1 env a us Hw1 Hd Ha. destruct (Hdr w1 Hw1 Hd) as [Hs1 HK1].
    destruct (Hst env (w_db w1) a us) as [Hc _]; [apply Hw1|apply (sane_from _ _ Hs1)|done|done|].
    apply changes_keep; [apply Hw1|done]. }
  destruct (Hdr w1 Hok1 Hd) as [Hs1 HK1].
  destruct Hcase as [[-> Hr]|(env & a & us & Ha & Hdb & Hr)].
  { destruct Hr as [->|(env & x & _ & ->)]; simpl; split_and!; done. }
  destruct (Hst env (w_db w1) a us) as [Hc HG]; [apply Hok1|apply (sane_from _ _ Hs1)|done|done|].
  assert (auth_evolves [] (w_db w1) (w_db db)) as Hev by (rewrite Hdb; apply changes_evolve).
  assert (sane d0 (with_db db w)) as Hs2.
  { split; [done|apply (sane_clock _ _ Hs)|]. cbn. etrans; [apply (sane_from _ _ Hs1)|done]. }
  destruct Hr as [->| ->]; simpl; split_and!; try done; simpl.
  - by rewrite Hdb.
  - apply (HK (w_db w1)); [apply Hok1|apply Hw1|done|done].
Qed.

Lemma triple_auto {A} K (st : auth_statement A) G : StableDb K → auto_spec d0 K st G →
  triple (idle d0) (outside d0 K) (on_database (auto_statement st)) (λ a, outside d0 (G a)).
Proof. intros HK Hst. eapply triple_error; [|by apply triple_auto_keep]. apply outside_idle. Qed.

Lemma triple_try_auto {E A} K (st : auth_statement A) G R : StableDb K → auto_spec d0 K st G →
  triple R (outside d0 K) (attempt (on_database (auto_statement st)) : proc auth_world E _)
    (λ r, match r with Ok a => outside d0 (G a) | Err _ => outside d0 K end).
Proof. intros HK Hst. by apply triple_attempt, triple_auto_keep. Qed.

(** What was not committed is gone. *)
Lemma triple_deferring {E A} P (m : proc auth_world E A) (K : A → auth_database → Prop) :
  triple (sane d0) P m (λ a, committed d0 (K a)) → triple (idle d0) P (deferring m) (λ a, outside d0 (K a)).
Proof.
  intros Hm w r w' Hw. unfold deferring. destruct (m w) as [r0 w0] eqn:E0. intros H. injection H as <- <-.
  specialize (Hm _ _ _ Hw E0).
  assert (sane d0 w0 → sane d0 (with_db (World (auth_db w0) [] (w_start (aw_db w0)) (w_events (aw_db w0))) w0)) as Hd.
  { intros Hs. apply sane_with; [done| |done]. apply discard_tx_ok; [done|apply (sane_world _ _ Hs)]. }
  destruct r0 as [e|a]; [split; [by apply Hd|done]|]. destruct Hm as [Hs HK]. split; [by apply Hd|done].
Qed.

(** ROLLBACK ends the transaction unless the connection is gone. *)
Lemma triple_rollback {E} :
  triple (sane d0) (sane d0) (attempt (on_database rollback_tx) : proc auth_world E _)
    (λ _ w, idle d0 w ∨ sane d0 w ∧ w_events (aw_db w) = []).
Proof.
  intros w r w' Hs (r0 & (r1 & db & H & -> & ->)%on_database_inv & ->)%attempt_inv. pose proof H as H'.
  apply (rollback_tx_spec auth_ok auth_ok auth_evolves (λ _ H, H)) in H as (Hw1 & Hev & Hr); [|apply (sane_world _ _ Hs)].
  assert (sane d0 (with_db db w)) as Hs1 by (apply sane_with; [done..|]; by eapply auth_evolves_nil).
  unfold rollback_tx, mbind, proc_bind, next_event in H'. destruct (w_events (aw_db w)) as [|e es] eqn:Ee.
  - injection H' as <- <-. by right.
  - left. split; [done|]. split; [|done]. simpl in H' |- *. destruct (ev_fault e); injection H' as <- <-; done.
Qed.
End database.

(** * Statements *)

(** * Facts about the tables that only grow truer *)

Definition account_of (d : auth_database) (a : user) : Prop := ∃ u, u ∈ accounts d ∧ account_view u = a.

Definition session_for (d : auth_database) (id user : Z) (device : string) : Prop :=
  ∃ s, s ∈ sessions d ∧ session_id s = id ∧ session_user s = user ∧ session_device s = device.

Section issued.
Context `{SHA256}.

(** A token's text, and that its hash is stored for a session. *)
Definition access_issued (d : auth_database) (session : Z) (token : string) (expires : Z) : Prop :=
  ∃ t x, fresh_token t ∧ token = token_raw t ∧ x ∈ access_tokens d ∧ access_hash x = token_hash t ∧
    access_session x = session ∧ access_expires_at x = expires.

Definition refresh_issued (d : auth_database) (session : Z) (token : string) : Prop :=
  ∃ t r, fresh_token t ∧ token = token_raw t ∧ r ∈ refresh_tokens d ∧ refresh_hash r = token_hash t ∧ refresh_session r = session.

(** What a response tells is in the tables. *)
Definition issued (a : authResponse) (d : auth_database) : Prop :=
  account_of d (response_User a) ∧
  session_for d (response_SessionID a) (user_ID (response_User a)) (response_DeviceID a) ∧
  access_issued d (response_SessionID a) (response_AccessToken a) (response_AccessTokenExpiresAt a) ∧
  refresh_issued d (response_SessionID a) (response_RefreshToken a).
End issued.

(** A session that was revoked. *)
Definition ended (id : Z) (d : auth_database) : Prop :=
  ∃ s, s ∈ sessions d ∧ session_id s = id ∧ is_Some (session_revoked_at s).

#[export] Instance account_of_stable a : StableDb (λ d, account_of d a).
Proof.
  intros d d' _ _ Hev (u & Hu & <-). destruct (ae_accounts _ _ _ Hev u Hu) as (u' & Hu' & E1 & E2 & E3 & _).
  exists u'. split; [done|]. unfold account_view. by rewrite E1, E2, E3.
Qed.
#[export] Instance session_for_stable id user device : StableDb (λ d, session_for d id user device).
Proof.
  intros d d' _ _ Hev (s & Hs & <- & <- & <-). destruct (ae_sessions _ _ _ Hev s Hs) as (s' & ? & ? & ? & ? & _). by exists s'.
Qed.
#[export] Instance access_issued_stable `{SHA256} id token expires : StableDb (λ d, access_issued d id token expires).
Proof. intros d d' _ _ Hev (t & x & ? & ? & Hx & ? & ? & ?). exists t, x. split_and!; try done. by apply (ae_access _ _ _ Hev). Qed.
#[export] Instance refresh_issued_stable `{SHA256} id token : StableDb (λ d, refresh_issued d id token).
Proof.
  intros d d' _ _ Hev (t & r & ? & ? & Hr & ? & ?). destruct (ae_refresh _ _ _ Hev r Hr) as (r' & ? & ? & ? & ? & ? & _).
  exists t, r'. split_and!; congruence.
Qed.
#[export] Instance and_stable_db K K' : StableDb K → StableDb K' → StableDb (λ d, K d ∧ K' d).
Proof. intros HK HK' d d' Hd Hd' Hev [? ?]. split; [by apply (HK d d')|by apply (HK' d d')]. Qed.
#[export] Instance issued_stable `{SHA256} a : StableDb (issued a).
Proof. unfold issued. apply _. Qed.
#[export] Instance ended_stable id : StableDb (ended id).
Proof.
  intros d d' _ _ Hev (s & Hs & <- & t & Ht). destruct (ae_sessions _ _ _ Hev s Hs) as (s' & ? & ? & _ & _ & _ & Hr & _).
  exists s'. split_and!; [done..|]. exists t. auto.
Qed.

(** * What a change of one's own leaves *)

Class Framed (F : list auth_change → auth_database → Prop) (u : auth_change) : Prop :=
  framed : ∀ us d, auth_ok d → change_ok u d → F us d → F (us ++ [u]) (apply_change u d).

#[export] Instance framed_db K u : StableDb K → Framed (λ _, K) u.
Proof. intros HK us d Hd Hu. apply HK; [done|by apply change_keeps|apply change_evolves]. Qed.
#[export] Instance framed_and F G u : Framed F u → Framed G u → Framed (λ us d, F us d ∧ G us d) u.
Proof. intros HF HG us d Hd Hu [? ?]. split; [by apply (HF us d)|by apply (HG us d)]. Qed.
#[export] Instance framed_elem u' u : Framed (λ us _, u' ∈ us) u.
Proof. intros us d _ _ ?. apply elem_of_app. by left. Qed.

(** The password of an account that a transaction has locked. *)
Definition password_held (id : Z) (hash : string) (us : list auth_change) (d : auth_database) : Prop :=
  ShareAccount id ∈ us ∧ ∃ u, u ∈ accounts d ∧ user_id u = id ∧ user_password_hash u = hash.

#[export] Instance password_held_stable id hash : Stable (password_held id hash).
Proof.
  intros us d d' _ _ Hev [Hin (u & Hu & <- & <-)]. split; [done|].
  destruct (ae_accounts _ _ _ Hev u Hu) as (u' & ? & ? & _ & _ & Hh). exists u'. auto.
Qed.

Lemma password_held_framed id hash u : (∀ i h, u ≠ SetPassword i h) → Framed (password_held id hash) u.
Proof.
  intros Hne us d _ _ [Hin (x & Hx & Hid & Hh)]. split; [apply elem_of_app; by left|]. exists x. split; [|done].
  destruct u; simpl; try done; [|by edestruct Hne]. apply elem_of_app. by left.
Qed.
#[export] Hint Extern 1 (Framed (password_held _ _) _) => (apply password_held_framed; discriminate) : typeclass_instances.

(** * Statements *)

(** A statement that reads. *)
Lemma query_spec {A} d0 F (find : auth_database → option A) (G : A → auth_database → Prop) :
  (∀ a d, auth_ok d → auth_evolves [] d0 d → find d = Some a → G a d) →
  st_spec d0 F (query_row find) (λ a us d, F us d ∧ G a d).
Proof.
  intros HG env us d a us' Hd Hev HF H. unfold query_row in H. destruct (find d) eqn:E; [|done]. injection H as <- <-.
  rewrite app_nil_r. split; [done|]. split; [done|]. by apply HG.
Qed.

Lemma with_text_inv {A} texts (st : auth_statement A) env d x :
  with_text texts st env d = Ok x → Forall (λ s, ValidString s = true) texts ∧ st env d = Ok x.
Proof.
  unfold with_text. destruct (forallb _ _) eqn:E; [|done]. intros H. split; [|done].
  rewrite forallb_forall in E. apply Forall_forall. intros s Hs%list_elem_of_In. specialize (E s Hs).
  unfold valid_text in E. by apply andb_true_iff in E as [? _].
Qed.

Lemma checked_inv {A} cs (x : A) y : (_ ← first_violation cs; Ok x) = Ok y → Forall (λ c : bool * string, c.1 = true) cs ∧ x = y.
Proof. intros ([] & Hc%first_violation_ok & H)%result_bind_ok. by injection H. Qed.

Lemma find_session_None id d : opt_is_some (find_session id d) = false → ∀ s, s ∈ sessions d → session_id s ≠ id.
Proof.
  intros H s Hs. unfold find_session in H. destruct (sql_first _ _) eqn:E; [done|].
  pose proof (proj1 (sql_first_None _ _) E s Hs). by apply Z.eqb_neq.
Qed.
Lemma find_session_Some id d : opt_is_some (find_session id d) = true → session_of d id.
Proof.
  intros H. unfold find_session in H. destruct (sql_first _ _) as [s|] eqn:E; [|done].
  apply sql_first_Some in E as [? ?%Z.eqb_eq]. by exists s.
Qed.
Lemma find_account_None id d : opt_is_some (find_account id d) = false → ∀ u, u ∈ accounts d → user_id u ≠ id.
Proof.
  intros H s Hs. unfold find_account in H. destruct (sql_first _ _) eqn:E; [done|].
  pose proof (proj1 (sql_first_None _ _) E s Hs). by apply Z.eqb_neq.
Qed.
Lemma find_account_Some id d : opt_is_some (find_account id d) = true → user_of d id.
Proof.
  intros H. unfold find_account in H. destruct (sql_first _ _) as [s|] eqn:E; [|done].
  apply sql_first_Some in E as [? ?%Z.eqb_eq]. by exists s.
Qed.
Lemma not_exists {A K} `{EqDecision K} (key : A → K) (k : K) (l : list A) :
  negb (sql_exists (λ x, bool_decide (key x = k)) l) = true → ∀ y, y ∈ l → key y ≠ k.
Proof. intros H y Hy. apply negb_true_iff in H. exact (proj1 (bool_decide_eq_false _) (proj1 (sql_exists_false _ _) H y Hy)). Qed.
Lemma not_exists_Z {A} (key : A → Z) k (l : list A) :
  negb (sql_exists (λ x, key x =? k) l) = true → ∀ y, y ∈ l → key y ≠ k.
Proof. intros H y Hy. apply negb_true_iff in H. exact (proj1 (Z.eqb_neq _ _) (proj1 (sql_exists_false _ _) H y Hy)). Qed.

(** The checks one by one. *)
Ltac split_checks H :=
  repeat match type of H with Forall _ (_ ++ _) => rewrite <-app_assoc in H end;
  unfold check_identity, check_session, check_refresh, reference_session in H; cbn [app] in H;
  repeat (let Hc := fresh "Hc" in apply Forall_cons in H as [Hc H]; cbn [fst] in Hc); clear H.

Lemma insert_account_spec d0 F username displayName hash :
  (∀ u, Framed F (InsertAccount u)) →
  st_spec d0 F (insert_account username displayName hash) (λ a us d, F us d ∧ account_of d a).
Proof.
  intros HF env us d a us' Hd _ HFd (Ht & H)%with_text_inv. apply checked_inv in H as [Hcs H]. injection H as <- <-.
  unfold check_account in Hcs. split_checks Hcs. repeat (apply Forall_cons in Ht as [? Ht]).
  assert (change_ok (InsertAccount (UserRow (generated_id env) username displayName hash)) d) as Hok.
  { simpl. split_and!.
    - apply in_range_spec in Hc. cbn [user_id] in Hc. unfold text_account, is_int64, int64_min. cbn [user_id]. split_and!; try done; lia.
    - by apply find_account_None, negb_true_iff.
    - by apply not_exists. }
  split; [by split|]. split; [by apply HF|]. eexists. split; [apply elem_of_app; right; by apply list_elem_of_singleton|done].
Qed.

Lemma insert_session_spec d0 F user device idle :
  (∀ s, Framed F (InsertSession s)) →
  st_spec d0 F (insert_session user device idle) (λ id us d, F us d ∧ session_for d id user device).
Proof.
  intros HF env us d a us' Hd _ HFd (Ht & H)%with_text_inv. apply checked_inv in H as [Hcs H]. injection H as <- <-.
  unfold insert_session_checks in Hcs. split_checks Hcs. repeat (apply Forall_cons in Ht as [? Ht]).
  lazymatch goal with |- changes_ok [InsertSession ?s] _ ∧ _ => assert (change_ok (InsertSession s) d) as Hok end.
  { simpl. split_and!.
    - apply in_range_spec in Hc. cbn [session_id] in Hc. unfold text_session, is_int64, int64_min. cbn [session_id]. split_and!; try done; lia.
    - by apply find_session_None, negb_true_iff.
    - by apply find_account_Some. }
  split; [by split|]. split; [by apply HF|]. eexists. split; [apply elem_of_app; right; by apply list_elem_of_singleton|done].
Qed.

Lemma insert_access_spec `{SHA256} d0 F session t expires :
  fresh_token t → (∀ a, Framed F (InsertAccess a)) →
  st_spec d0 F (insert_access_token session (token_hash t) expires)
    (λ _ us d, F us d ∧ access_issued d session (token_raw t) expires).
Proof.
  intros Hft HF env us d a us' Hd _ HFd H4. apply checked_inv in H4 as [Hcs H4]. injection H4 as <- <-.
  unfold insert_access_checks in Hcs. split_checks Hcs.
  lazymatch goal with |- changes_ok [InsertAccess ?s] _ ∧ _ => assert (change_ok (InsertAccess s) d) as Hok end.
  { simpl. split; [by apply not_exists|by apply find_session_Some]. }
  split; [by split|]. split; [by apply HF|]. exists t. eexists.
  do 2 (split; [done|]). split; [apply elem_of_app; right; by apply list_elem_of_singleton|done].
Qed.

Lemma find_refresh_None hash d :
  negb (opt_is_some (find_refresh hash d)) = true → ∀ r, r ∈ refresh_tokens d → refresh_hash r ≠ hash.
Proof.
  intros H r Hr. unfold find_refresh in H. destruct (sql_first _ _) eqn:E; [done|].
  exact (proj1 (bool_decide_eq_false _) (proj1 (sql_first_None _ _) E r Hr)).
Qed.

(** A first token, or the only successor of a consumed one. *)
Lemma insert_refresh_spec `{SHA256} d0 (F G : list auth_change → auth_database → Prop) session parent t expires :
  fresh_token t →
  (∀ us d p, auth_ok d → F us d → parent = Some p →
    consumed_parent d p session ∧ ∀ y, y ∈ refresh_tokens d → refresh_parent y ≠ Some p) →
  (∀ us d r, auth_ok d → change_ok (InsertRefresh r) d → F us d → G (us ++ [InsertRefresh r]) (apply_change (InsertRefresh r) d)) →
  st_spec d0 F (insert_refresh_token session parent (token_hash t) expires)
    (λ _ us d, G us d ∧ refresh_issued d session (token_raw t)).
Proof.
  intros Hft Hp HG env us d a us' Hd _ HFd H4. apply checked_inv in H4 as [Hcs H4]. injection H4 as <- <-.
  unfold insert_refresh_checks in Hcs. split_checks Hcs.
  lazymatch goal with |- changes_ok [InsertRefresh ?s] _ ∧ _ => assert (change_ok (InsertRefresh s) d) as Hok end.
  { simpl. split_and!; [by apply not_exists_Z|by apply find_refresh_None|by apply find_session_Some|]. intros p Hpar. by eapply Hp. }
  split; [by split|]. split; [by apply HG|]. exists t. eexists.
  do 2 (split; [done|]). split; [apply elem_of_app; right; by apply list_elem_of_singleton|done].
Qed.
