(* ===== verification/AuthLogin.v ===== *)
(** Login with its idempotency record, then the rotation of refresh tokens. *)
From Stdlib Require Import Ascii String.
From S2P Require Import Prelude GoStd Text Tables Driver Json Schema MessageStore MessageService ConversationSync.
From S2P Require Import JsonText Redis RateLimit AuthTables Credentials AuthQueries Auth AuthOk CredentialsOk.
From S2P Require Import AuthSpec.
Open Scope Z_scope.

(** A cipher as the constructor makes it. *)
Definition cipher_ok (c : responseCipher) : Prop := is_Some (cipher_keys c !! keyVersion c).

Section login.
Context `{TimeText, SHA256, Argon2, GCM, UnicodeLower}.
Context (app : auth_application).

Lemma issued_response_ok a d : auth_ok d → issued a d → response_ok a.
Proof.
  intros Hd ((u & Hu & Ha) & (s & Hs & Hid & _ & Hdev) & (t & _ & (raw & Hb & _ & Hraw) & Ht & _) & (t' & _ & (raw' & Hb' & _ & Hraw') & Ht' & _)).
  destruct (ao_account_texts _ Hd u Hu) as (_ & V1 & V2 & V3). destruct (ao_session_texts _ Hd s Hs) as (_ & V4 & V5).
  unfold response_ok. rewrite <-Ha. cbn [account_view user_ID user_Username user_DisplayName]. rewrite <-Hid, <-Hdev, Ht, Ht', Hraw, Hraw'.
  split_and!; try done; by apply token_valid.
Qed.

(** * A new session *)

Definition session_of_response (account : user) (a : authResponse) : Prop :=
  response_User a = account ∧ ∃ now, 0 ≤ now ∧ response_SessionExpiresAt a = now + sessionAbsoluteLifetime.

Lemma createSessionResponse_spec d0 F account deviceID :
  Stable F → (∀ s, Framed F (InsertSession s)) → (∀ a, Framed F (InsertAccess a)) → (∀ r, Framed F (InsertRefresh r)) →
  triple (sane d0) (in_tx d0 (λ us d, F us d ∧ account_of d account)) (createSessionResponse account deviceID)
    (λ a w, session_of_response account a ∧ in_tx d0 (λ us d, F us d ∧ issued a d) w).
Proof.
  intros HF HFs HFa HFr. unfold createSessionResponse.
  eapply triple_bind; [apply triple_currentTime; [apply _|intros w [Hs _]; apply (sane_clock _ _ Hs)]|]. intros now.
  apply triple_pure. intros Hnow.
  eapply (triple_bind _ _ _ _ (λ _, in_tx d0 (λ us d, F us d ∧ account_of d account))).
  { destruct (bool_decide _); [|apply triple_ret; by eauto].
    eapply triple_bind; [apply triple_newToken, _|]. intros t. apply triple_pure. intros _. apply triple_ret. by eauto. }
  intros device. eapply triple_bind; [apply triple_newToken, _|]. intros access. apply triple_pure. intros Hacc.
  eapply triple_bind; [apply triple_newToken, _|]. intros refresh. apply triple_pure. intros Href. cbv zeta.
  eapply triple_bind; [apply triple_statement; [apply _|apply insert_session_spec; apply _]|]. intros sid.
  eapply triple_bind; [apply triple_statement; [apply _|apply insert_access_spec; [done|apply _]]|]. intros [].
  eapply triple_bind.
  { apply triple_statement; [apply _|]. eapply insert_refresh_spec; [done|done|].
    intros us d r Hd Hr HFd. refine (framed (F := λ us d, ((F us d ∧ account_of d account) ∧ _) ∧ _) us d Hd Hr HFd). }
  intros []. apply triple_ret. intros w [Hs [[[[HFd Hacc'] Hses] Hai] Hri]]. split.
  - split; [done|]. by exists now.
  - split; [done|]. split; [done|]. split_and!; done.
Qed.

(** * The stored result of a login *)

(** The result stored for the request, as it is answered. *)
Definition login_recorded (c : responseCipher) (hash : list Z) (userID : Z) (a : authResponse) (d : auth_database) : Prop :=
  ∃ l s raw, l ∈ login_results d ∧ login_hash l = hash ∧ login_user l = userID ∧
    s ∈ sessions d ∧ session_id s = login_session l ∧
    decrypt decode_response c (login_key_version l) "login" hash (login_nonce l) (login_response l) = Ok raw ∧
    with_session_end (session_created_at s) raw = a.

#[export] Instance login_recorded_stable c hash userID a : StableDb (login_recorded c hash userID a).
Proof.
  intros d d' _ _ Hev (l & s & raw & Hl & Hh & Hu & Hs & Hid & Hd & Ha).
  destruct (ae_sessions _ _ _ Hev s Hs) as (s' & Hs' & E1 & _ & _ & E4 & _). exists l, s', raw.
  split_and!; try done; [by apply (ae_logins _ _ _ Hev)|congruence|congruence].
Qed.

Lemma login_recorded_once c hash userID userID' a a' d :
  auth_ok d → login_recorded c hash userID a d → login_recorded c hash userID' a' d → a' = a.
Proof.
  intros Hd (l & s & raw & Hl & Hh & Hu & Hs & Hid & Hdec & Ha) (l' & s' & raw' & Hl' & Hh' & Hu' & Hs' & Hid' & Hdec' & Ha').
  assert (l' = l) as -> by (apply (unique_key_inj login_hash _ _ _ (ao_login_hashes _ Hd)); congruence).
  assert (s' = s) as -> by (apply (unique_key_inj session_id _ _ _ (ao_session_ids _ Hd)); congruence).
  congruence.
Qed.

(** What the query for it finds. *)
Definition login_found (hash : list Z) (userID : Z) (x : login_row * Z) (d : auth_database) : Prop :=
  x.1 ∈ login_results d ∧ login_hash x.1 = hash ∧ login_user x.1 = userID ∧
  ∃ s, s ∈ sessions d ∧ session_id s = login_session x.1 ∧ session_created_at s = x.2.

#[export] Instance login_found_stable hash userID x : StableDb (login_found hash userID x).
Proof.
  intros d d' _ _ Hev (Hl & ? & ? & s & Hs & Hid & Hc).
  destruct (ae_sessions _ _ _ Hev s Hs) as (s' & Hs' & E1 & _ & _ & E4 & _).
  split_and!; try done; [by apply (ae_logins _ _ _ Hev)|]. exists s'. split_and!; congruence.
Qed.

Lemma select_login_spec d0 K hash userID cutoff :
  auto_spec d0 K (select_login_result hash userID cutoff) (λ x d, K d ∧ login_found hash userID x d).
Proof.
  intros env d x us Hd _ HK Hst. unfold select_login_result in Hst. cbv zeta in Hst.
  destruct (_ ≫= _) as [y|] eqn:E; [|done]. injection Hst as <- <-. split; [done|]. split; [done|]. simpl.
  apply bind_Some in E as (l & Hl & E). apply bind_Some in E as (s & Hs & E).
  apply sql_first_Some in Hl as [Hl Hh%bool_decide_eq_true]. apply sql_first_Some in Hs as [Hs Hid%Z.eqb_eq].
  destruct (_ && _) eqn:Ec in E; [|done]. apply andb_true_iff in Ec as [[Hu _]%andb_true_iff _].
  apply Z.eqb_eq in Hu. injection E as <-. split_and!; try done. by exists s.
Qed.

Lemma loadLoginResult_spec d0 R K c hash userID :
  StableDb K → (∀ w, idle d0 w → R w) →
  triple R (outside d0 K) (loadLoginResult c hash userID)
    (λ o, outside d0 (λ d, K d ∧ ∀ a, o = Some a → login_recorded c hash userID a d)).
Proof.
  intros HK HR. unfold loadLoginResult.
  eapply triple_bind; [apply triple_currentTime; [apply _|]; intros w (Hs & _); apply (sane_clock _ _ Hs)|]. intros now.
  apply triple_pure. intros _.
  eapply triple_bind; [apply triple_try_auto; [apply _|apply select_login_spec]|]. intros [e|[row created]].
  - assert (triple R (outside d0 K) (mthrow e : auth_proc (option authResponse))
      (λ o, outside d0 (λ d, K d ∧ ∀ a, o = Some a → login_recorded c hash userID a d))) as Hthrow.
    { apply triple_throw. intros w Hw. by eapply HR, outside_idle. }
    destruct e as [[]| | |]; try exact Hthrow. apply triple_ret. intros w. by apply outside_weaken.
  - destruct (decrypt _ _ _ _ _ _ _) as [text|raw] eqn:Ed.
    + apply triple_throw. intros w Hw. apply HR. by eapply outside_idle.
    + apply triple_ret. intros w. apply outside_weaken. intros d _ (HKd & Hl & Hh & Hu & s & Hs & Hid & Hc). split; [done|]. intros a [= <-].
      exists row, s, raw. cbn in *. split_and!; try done. by rewrite Hc.
Qed.
(** Without a connection the query fails. *)
Lemma loadLoginResult_disconnected d0 c hash userID Q :
  triple (sane d0) (λ w, sane d0 w ∧ w_events (aw_db w) = []) (loadLoginResult c hash userID) Q.
Proof.
  intros [db bytes clock redis log] r w' [Hs He]. cbn in He. unfold loadLoginResult, mbind, proc_bind, currentTime. cbn.
  unfold attempt, on_database, auto_statement, mbind, proc_bind, next_event. cbn. rewrite He. cbn.
  intros Hr. injection Hr as <- <-. eapply (tables_only (P := sane d0)); [| |exact Hs]; [done|]. intros Hn n. apply Hn.
Qed.

Lemma triple_or {E A} R P1 P2 (m : proc auth_world E A) Q :
  triple R P1 m Q → triple R P2 m Q → triple R (λ w, P1 w ∨ P2 w) m Q.
Proof. intros H1' H2' w r w' [Hw|Hw] Hm; [by apply (H1' w)|by apply (H2' w)]. Qed.

Lemma after_login_conflict_spec d0 c hash userID :
  triple (sane d0) (sane d0) (after_login_conflict c hash userID) (λ a, committed d0 (login_recorded c hash userID a)).
Proof.
  unfold after_login_conflict. eapply triple_bind; [apply triple_rollback|]. intros rolled_back.
  eapply triple_bind.
  { apply triple_or; [apply (loadLoginResult_spec _ _ (λ _, True)); [apply _|intros w; apply outside_sane]|].
    apply loadLoginResult_disconnected. }
  intros [a|]; [|apply triple_throw; apply outside_sane].
  apply triple_ret. intros w (Hs & _ & _ & Hr). split; [done|]. by apply Hr.
Qed.

(** * The login transaction *)

Lemma share_password_spec d0 (K : auth_database → Prop) userID :
  st_spec d0 (λ us d, us = [] ∧ K d) (share_password userID) (λ hash us d, password_held userID hash us d ∧ K d).
Proof.
  intros env us d hash us' Hd _ [-> HK] Hst. unfold share_password in Hst.
  destruct (find_account userID d) as [u|] eqn:E; [|done]. injection Hst as <- <-. cbn. split; [done|]. split; [|done].
  apply sql_first_Some in E as [Hu Hid%Z.eqb_eq]. split; [by left|]. by exists u.
Qed.

Lemma with_session_end_id created account a : session_of_response account a → with_session_end created a = a.
Proof.
  intros (_ & now & Hnow & Hend). unfold with_session_end. rewrite Hend.
  assert (now + sessionAbsoluteLifetime ≠ zero_time) as Hne%Z.eqb_neq; [|by rewrite Hne].
  assert (0 < sessionAbsoluteLifetime) by reflexivity. assert (zero_time < 0) by reflexivity. lia.
Qed.

Lemma insert_login_spec d0 F c hash account a nonce version expires :
  (∀ l, Framed F (InsertLogin l)) → cipher_ok c → version = keyVersion c → session_of_response account a →
  List.length nonce = nonce_size c →
  st_spec d0 (λ us d, F us d ∧ issued a d)
    (insert_login_result hash (user_ID account) (response_SessionID a) (encrypt c "login" hash (response_struct a) nonce) nonce version expires)
    (λ _ us d, (F us d ∧ issued a d) ∧ login_recorded c hash (user_ID account) a d).
Proof.
  intros HF Hc -> Ha Hn env us d [] us' Hd _ HFd Hst. apply checked_inv in Hst as [Hcs Hst]. injection Hst as <-.
  unfold insert_login_checks in Hcs. split_checks Hcs. pose proof Ha as [Hau _]. pose proof HFd as [_ (_ & (s & Hs & Hid & Hsu & _) & _)].
  rewrite Hau in Hsu.
  lazymatch goal with |- changes_ok [InsertLogin ?l] _ ∧ _ => assert (change_ok (InsertLogin l) d) as Hok end.
  { simpl. split; [by apply not_exists|]. by exists s. }
  split; [by split|]. split; [by refine (framed (F := λ us d, F us d ∧ issued a d) us d Hd Hok HFd)|].
  eexists _, s, a. split; [apply elem_of_app; right; by apply list_elem_of_singleton|]. cbn.
  split_and!; try done; [|by eapply with_session_end_id].
  apply decrypt_response; [done..|]. apply (issued_response_ok _ d); [done|apply HFd].
Qed.

Lemma createIdempotentLogin_spec d0 c account verifiedHash deviceID hash :
  cipher_ok c →
  triple (idle d0) (outside d0 (λ d, account_of d account)) (createIdempotentLogin c account verifiedHash deviceID hash)
    (λ a, outside d0 (login_recorded c hash (user_ID account) a)).
Proof.
  intros Hc. unfold createIdempotentLogin. eapply triple_bind; [apply triple_begin, _|]. intros [].
  apply triple_deferring.
  eapply triple_bind; [apply triple_statement; [apply _|apply (share_password_spec _ (λ d, account_of d account))]|]. intros current.
  case_bool_decide as Eh; cbn [negb]; cbv iota; [|apply triple_throw; apply in_tx_sane].
  eapply triple_bind; [apply createSessionResponse_spec; apply _|]. intros a. apply triple_pure. intros Ha.
  eapply triple_bind; [apply triple_encrypt_response, _|]. intros [enc nonce]. apply triple_pure. intros [Hn Henc]. cbn [fst snd] in *.
  eapply triple_bind; [apply triple_currentTime; [apply _|]; intros w [Hs _]; apply (sane_clock _ _ Hs)|]. intros now.
  apply triple_pure. intros _. rewrite Henc.
  eapply triple_bind; [apply triple_try; [apply _|]; apply insert_login_spec; [apply _|done..]|]. intros [e|[]].
  - assert (∀ e : auth_error, triple (sane d0) (in_tx d0 (λ us d, password_held (user_ID account) current us d ∧ issued a d))
      (mthrow e : auth_proc authResponse) (λ a, committed d0 (login_recorded c hash (user_ID account) a))) as Hthrow.
    { intros e'. apply triple_throw. apply in_tx_sane. }
    destruct e as [[]| | |]; try exact (Hthrow _). case_bool_decide; [|exact (Hthrow _)].
    eapply triple_pre; [|apply after_login_conflict_spec]. apply in_tx_sane.
  - eapply triple_bind; [apply triple_commit, _|]. intros []. apply triple_ret. intros w [Hs (us & _ & Hr)]. by split.
Qed.

(** * The handlers *)

Lemma login_with_spec d0 c account passwordHash input :
  cipher_ok c →
  triple (idle d0) (outside d0 (λ d, account_of d account)) (login_with c account passwordHash input)
    (λ a, outside d0 (login_recorded c (Sum256 (bytes_of (log_LoginRequestID input))) (user_ID account) a)).
Proof.
  intros Hc. unfold login_with. cbv zeta.
  eapply triple_bind; [apply triple_run_error, (loadLoginResult_spec _ _ (λ d, account_of d account)); [apply _|done]|].
  intros [a|].
  - apply triple_ret. intros w. apply outside_weaken. intros d _ [_ Hr]. by apply Hr.
  - apply triple_run_error. eapply triple_pre; [|by apply createIdempotentLogin_spec].
    intros w. apply outside_weaken. by intros d _ [? _].
Qed.

Lemma select_credentials_spec d0 K username :
  auto_spec d0 K (select_credentials username) (λ x d, account_of d x.1).
Proof.
  intros env d x us Hd _ HK (_ & Hst)%with_text_inv. unfold query_row in Hst.
  destruct (sql_first _ _) as [u|] eqn:E; [|done]. injection Hst as <- <-. split; [done|].
  apply sql_first_Some in E as [Hu _]. by exists u.
Qed.

Lemma check_credentials_spec d0 username password :
  triple (idle d0) (idle d0) (check_credentials username password) (λ x, outside d0 (λ d, account_of d x.1)).
Proof.
  unfold check_credentials, loadUserCredentials. destruct (_ || _); [by apply triple_throw|].
  eapply triple_bind; [apply triple_try_auto; [apply _|apply select_credentials_spec]|]. intros [e|[account hash]].
  - assert (∀ p : problem, triple (idle d0) (idle d0) (mthrow p : auth_handler (user * string)) (λ x, outside d0 (λ d, account_of d x.1)))
      as Hthrow by (intros p; by apply triple_throw).
    destruct e as [[]| | |]; exact (Hthrow _).
  - destruct (verifyPassword _ _) as [e|[]]; try (apply triple_throw; intros w; apply outside_idle). by apply triple_ret.
Qed.

Lemma decode_request_spec {S} d0 (fields : list (field_setter S)) zero body :
  triple (idle d0) (idle d0) (decode_request fields zero body)
    (λ input w, decodeSingleJSON fields zero body = Some input ∧ idle d0 w).
Proof. unfold decode_request. destruct (decodeSingleJSON _ _ _); [by apply triple_ret|by apply triple_throw]. Qed.

(** What a successful login has recorded. *)
Definition login_answered (body : list Z) (a : authResponse) (d : auth_database) : Prop :=
  ∃ input c userID, decodeSingleJSON loginRequest_fields (LoginRequest "" "" "" "") body = Some input ∧
    responseCipher_ app = Some c ∧ login_recorded c (Sum256 (bytes_of (log_LoginRequestID input))) userID a d.

Lemma login_spec d0 ip body :
  (∀ c, responseCipher_ app = Some c → cipher_ok c) →
  triple (idle d0) (idle d0) (login app ip body) (λ a, outside d0 (login_answered body a)).
Proof.
  intros Happ. unfold login. eapply triple_bind; [apply decode_request_spec|]. intros input. apply triple_pure. intros Hin.
  cbv zeta. destruct (negb _); [by apply triple_throw|]. destruct (negb _); [by apply triple_throw|].
  eapply triple_bind; [by apply triple_enforce; [apply _|]|]. intros [].
  eapply triple_bind; [apply check_credentials_spec|]. intros [account hash].
  destruct (responseCipher_ app) as [c|] eqn:Ec; [|apply triple_throw; intros w; apply outside_idle].
  eapply triple_conseq; [done| |by apply login_with_spec, Happ]. intros a w. apply outside_weaken. intros d _ Hr.
  by exists input, c, (user_ID account).
Qed.

Lemma register_spec d0 ip body :
  triple (idle d0) (idle d0) (register app ip body) (λ a, outside d0 (issued a)).
Proof.
  unfold register. eapply triple_bind; [apply decode_request_spec|]. intros input. apply triple_pure. intros _.
  eapply triple_bind; [by apply triple_refuse|]. intros [username displayName]. apply triple_pure. intros _.
  eapply triple_bind; [by apply triple_enforce; [apply _|]|]. intros [].
  eapply triple_bind; [apply triple_hashPassword, _|]. intros hash. apply triple_pure. intros _.
  eapply triple_bind; [apply triple_run_error, (triple_begin _ (λ _, True)), _|]. intros [].
  apply triple_deferring.
  eapply (triple_pre _ (in_tx d0 (λ _ _, True))); [by intros w [? _]|].
  eapply triple_bind; [apply triple_try; [apply _|apply (insert_account_spec _ (λ _ _, True)); apply _]|].
  intros [e|account].
  { destruct (match e with AuthDatabaseError (PgError _) => _ | _ => _ end); apply triple_throw; apply in_tx_sane. }
  apply triple_run_error. eapply triple_bind; [apply createSessionResponse_spec; apply _|]. intros a. apply triple_pure. intros _.
  eapply triple_bind; [apply triple_commit, _|]. intros []. apply triple_ret. intros w [Hs (us & _ & Hr)]. by split.
Qed.
End login.

(** * Rotation *)

(** * Revoking *)

Lemma revoke_rows_changes now rows us :
  revoke_rows now rows = Ok us → us = (λ s, RevokeSession (session_id s) now) <$> rows.
Proof.
  revert us. induction rows as [|s rows IH]; intros us Hr; cbn [revoke_rows] in Hr; [by injection Hr as <-|].
  apply result_bind_ok in Hr as ([] & _ & Hr). apply result_bind_ok in Hr as (us' & Hus & Hr). injection Hr as <-.
  by rewrite (IH _ Hus).
Qed.

Lemma revocations_ok now (rows : list session_row) d : changes_ok ((λ s, RevokeSession (session_id s) now) <$> rows) d.
Proof. revert d. induction rows as [|s rows IH]; intros d; simpl; auto. Qed.

Lemma revocations_revoke now rows d id :
  (∃ s, s ∈ sessions d ∧ session_id s = id) → (∃ s, s ∈ rows ∧ session_id s = id) →
  ended id (apply_changes ((λ s, RevokeSession (session_id s) now) <$> rows) d).
Proof.
  revert d. induction rows as [|x rows IH]; intros d (s & Hs & Hid) (y & Hy & Hyid); [by apply not_elem_of_nil in Hy|].
  rewrite fmap_cons. cbn [apply_changes foldl].
  assert (∃ s', s' ∈ sessions (apply_change (RevokeSession (session_id x) now) d) ∧ session_id s' = id ∧
    (session_id x = id → is_Some (session_revoked_at s'))) as (s' & Hs' & Hid' & Hrev).
  { exists (revoke (session_id x) now s). split; [by apply list_elem_of_fmap_2|]. split; [by rewrite (proj1 (revoke_same _ _ _))|].
    intros Hx. unfold revoke. rewrite Hx, Hid, Z.eqb_refl. cbn. eauto. }
  apply elem_of_cons in Hy as [->|Hy]; [|by apply IH; eauto].
  pose proof (changes_evolve ((λ s, RevokeSession (session_id s) now) <$> rows)
    (apply_change (RevokeSession (session_id x) now) d)) as Hev.
  destruct (ae_sessions _ _ _ Hev s' Hs') as (s2 & Hs2 & E1 & _ & _ & _ & E5 & _). destruct (Hrev Hyid) as [t Ht].
  exists s2. split_and!; [done|congruence|]. exists t. by apply E5.
Qed.

Lemma sessions_from us d s : s ∈ sessions (apply_changes ((λ s, RevokeSession (session_id s) us) <$> d.1) d.2) →
  ∃ s0, s0 ∈ sessions d.2 ∧ same_session s0 s.
Proof.
  destruct d as [rows d]. cbn [fst snd]. revert d. induction rows as [|x rows IH]; intros d Hs; [exists s; by repeat split|].
  rewrite fmap_cons in Hs. cbn [apply_changes foldl] in Hs. destruct (IH _ Hs) as (s1 & Hs1 & E1 & E2 & E3).
  destruct (sessions_back _ _ _ Hs1) as [(s0 & Hs0 & F1 & F2 & F3)|?]; [|done].
  exists s0. split; [done|]. split_and!; congruence.
Qed.

(** Every session that [base] describes is revoked. *)
Definition all_ended (base : session_row → bool) (d : auth_database) : Prop :=
  ∀ s, s ∈ sessions d → base s = true → is_Some (session_revoked_at s).

Lemma revoke_sessions_all base chosen env d n us :
  auth_ok d → (∀ s s', same_session s s' → base s' = base s) → (∀ s, base s = true → unrevoked s = true → chosen s = true) →
  revoke_sessions chosen env d = Ok (n, us) →
  changes_ok us d ∧ all_ended base (apply_changes us d) ∧ n = rows_affected chosen (sessions d) ∧
  us = (λ s, RevokeSession (session_id s) (current_timestamp env)) <$> sql_where chosen (sessions d).
Proof.
  intros Hd Hbase Hch Hst. unfold revoke_sessions in Hst. apply result_bind_ok in Hst as (us' & Hus & Hst).
  apply revoke_rows_changes in Hus. injection Hst as <- <-. rewrite Hus. split; [apply revocations_ok|].
  split; [|done]. intros s Hs Hb.
  assert (auth_ok (apply_changes us' d)) as Hd' by (apply changes_keep; [done|rewrite Hus; apply revocations_ok]).
  rewrite Hus in Hd'.
  destruct (sessions_from (current_timestamp env) (_, d) s Hs) as (s0 & Hs0 & Hsame). cbn [fst snd] in *.
  assert (ended (session_id s0) (apply_changes ((λ s, RevokeSession (session_id s) (current_timestamp env)) <$>
    sql_where chosen (sessions d)) d)) as (s1 & Hs1 & Hid1 & Hrev).
  { rewrite (Hbase _ _ Hsame) in Hb. destruct (session_revoked_at s0) as [t|] eqn:Er.
    - destruct (ae_sessions _ _ _ (changes_evolve ((λ s, RevokeSession (session_id s) (current_timestamp env)) <$>
        sql_where chosen (sessions d)) d) s0 Hs0) as (s2 & Hs2 & E1 & _ & _ & _ & E5 & _).
      exists s2. split_and!; [done..|]. exists t. by apply E5.
    - apply revocations_revoke; [by exists s0|]. exists s0. split; [|done]. apply elem_of_where. split; [done|].
      apply Hch; [done|]. unfold unrevoked. by rewrite Er. }
  assert (s1 = s) as ->; [|done].
  apply (unique_key_inj session_id _ _ _ (ao_session_ids _ Hd')); [done|done|]. destruct Hsame as (E1 & _). congruence.
Qed.

(** * The stored result of a rotation *)

Section rotation.
Context `{TimeText, SHA256, Argon2, GCM, UnicodeLower}.
Context (app : auth_application).

(** The response kept for a consumed token and the key of the request. *)
Definition rotation_recorded (c : responseCipher) (hash keyHash : list Z) (a : authResponse) (d : auth_database) : Prop :=
  ∃ r s x raw, r ∈ refresh_tokens d ∧ refresh_hash r = hash ∧ s ∈ sessions d ∧ session_id s = refresh_session r ∧
    x ∈ rotation_results d ∧ rotation_token x = refresh_id r ∧ rotation_key_hash x = keyHash ∧
    decrypt decode_response c (rotation_key_version x) "refresh" (int64Bytes (refresh_id r)) (rotation_nonce x)
      (rotation_response x) = Ok raw ∧
    with_session_end (session_created_at s) raw = a.

#[export] Instance rotation_recorded_stable c hash keyHash a : StableDb (rotation_recorded c hash keyHash a).
Proof.
  intros d d' _ _ Hev (r & s & x & raw & Hr & Hh & Hs & Hid & Hx & Ht & Hk & Hd & Ha).
  destruct (ae_sessions _ _ _ Hev s Hs) as (s' & Hs' & E1 & _ & _ & E4 & _).
  destruct (ae_refresh _ _ _ Hev r Hr) as (r' & Hr' & F1 & F2 & F3 & F4 & _).
  exists r', s', x, raw. rewrite F1, F2, F4, E1, E4. split_and!; try done. by apply (ae_rotations _ _ _ Hev).
Qed.

(** There is one such response, for one key. *)
Lemma rotation_recorded_once c hash keyHash keyHash' a a' d :
  auth_ok d → rotation_recorded c hash keyHash a d → rotation_recorded c hash keyHash' a' d → keyHash' = keyHash ∧ a' = a.
Proof.
  intros Hd (r & s & x & raw & Hr & Hh & Hs & Hid & Hx & Ht & Hk & Hdec & Ha)
    (r' & s' & x' & raw' & Hr' & Hh' & Hs' & Hid' & Hx' & Ht' & Hk' & Hdec' & Ha').
  assert (r' = r) as -> by (apply (unique_key_inj refresh_hash _ _ _ (ao_refresh_hashes _ Hd)); congruence).
  assert (s' = s) as -> by (apply (unique_key_inj session_id _ _ _ (ao_session_ids _ Hd)); congruence).
  assert (x' = x) as -> by (apply (unique_key_inj rotation_token _ _ _ (ao_rotation_tokens _ Hd)); congruence).
  split; congruence.
Qed.

(** The token's session was not revoked to begin with. *)
Definition token_live (d0 : auth_database) (hash : list Z) : Prop :=
  ∀ r s, r ∈ refresh_tokens d0 → refresh_hash r = hash → s ∈ sessions d0 → session_id s = refresh_session r →
    session_revoked_at s = None.

Lemma token_live_from d0 d hash r s :
  auth_ok d → auth_evolves [] d0 d → r ∈ refresh_tokens d → refresh_hash r = hash → s ∈ sessions d →
  session_id s = refresh_session r → session_revoked_at s = None → token_live d0 hash.
Proof.
  intros Hd Hev Hr Hh Hs Hid Hnone r0 s0 Hr0 Hh0 Hs0 Hid0.
  destruct (ae_refresh _ _ _ Hev r0 Hr0) as (r1 & Hr1 & F1 & F2 & F3 & F4 & _).
  destruct (ae_sessions _ _ _ Hev s0 Hs0) as (s1 & Hs1 & E1 & _ & _ & _ & E5 & _).
  assert (r1 = r) as -> by (apply (unique_key_inj refresh_hash _ _ _ (ao_refresh_hashes _ Hd)); congruence).
  assert (s1 = s) as -> by (apply (unique_key_inj session_id _ _ _ (ao_session_ids _ Hd)); congruence).
  destruct (session_revoked_at s0) as [t|]; [|done]. specialize (E5 t eq_refl). congruence.
Qed.

(** The rows that a query returned, as they may have evolved. *)
Definition token_row (hash : list Z) (rt : refresh_row) (s : session_row) (d : auth_database) : Prop :=
  ∃ r s', r ∈ refresh_tokens d ∧ refresh_hash r = hash ∧ refresh_id r = refresh_id rt ∧ refresh_session r = session_id s ∧
    s' ∈ sessions d ∧ session_id s' = session_id s ∧ session_user s' = session_user s ∧ session_device s' = session_device s ∧
    session_created_at s' = session_created_at s.

#[export] Instance token_row_stable hash rt s : StableDb (token_row hash rt s).
Proof.
  intros d d' _ _ Hev (r & s' & Hr & Hh & Hid & Hrs & Hs & E1 & E2 & E3 & E4).
  destruct (ae_sessions _ _ _ Hev s' Hs) as (s2 & Hs2 & G1 & G2 & G3 & G4 & _).
  destruct (ae_refresh _ _ _ Hev r Hr) as (r2 & Hr2 & F1 & F2 & F3 & F4 & _).
  exists r2, s2. split_and!; congruence.
Qed.

(** A token that this transaction has consumed, without a successor yet. *)
Definition consumed_here (rt : refresh_row) (us : list auth_change) (d : auth_database) : Prop :=
  (∃ t, ConsumeRefresh (refresh_id rt) t ∈ us) ∧ consumed_parent d (refresh_id rt) (refresh_session rt) ∧
  ∀ y, y ∈ refresh_tokens d → refresh_parent y ≠ Some (refresh_id rt).

#[export] Instance consumed_here_stable rt : Stable (consumed_here rt).
Proof.
  intros us d d' _ _ Hev ([t Ht] & Hp & Hno). split; [by exists t|].
  split; [by eapply carry_parent; [eapply auth_evolves_nil|]|].
  intros y Hy Hpar. destruct (ae_no_child _ _ _ Hev _ t y Ht Hy Hpar) as (r0 & Hr0 & Hp0). by apply (Hno r0).
Qed.

Lemma consumed_here_framed rt u : (∀ r, u ≠ InsertRefresh r) → Framed (consumed_here rt) u.
Proof.
  intros Hne us d Hd Hu ([t Ht] & Hp & Hno). split; [exists t; apply elem_of_app; by left|].
  split; [by eapply carry_parent; [apply change_evolves|]|].
  intros y [(y0 & Hy0 & _ & _ & E3 & _)|Hn]%refresh_back; [|by edestruct Hne]. rewrite E3. by apply Hno.
Qed.

#[export] Instance consumed_parent_stable id session : StableDb (λ d, consumed_parent d id session).
Proof. intros d d' _ _ Hev. by apply carry_parent. Qed.

Lemma consume_spec d0 hash cutoff :
  st_spec d0 (λ us d, us = [] ∧ True) (consume_refresh_token hash cutoff)
    (λ x us d, (token_live d0 hash ∧ refresh_session x.1 = session_id x.2) ∧ token_row hash x.1 x.2 d ∧ consumed_here x.1 us d).
Proof.
  intros env us d [rt s] us' Hd Hev [-> _] Hst. unfold consume_refresh_token in Hst. cbv zeta in Hst.
  destruct (find_refresh hash d ≫= _) as [[r s0]|] eqn:E; [|done].
  apply bind_Some in E as (r1 & Hr & E). apply bind_Some in E as (s1 & Hs & E).
  apply sql_first_Some in Hr as [Hr Hh%bool_decide_eq_true]. apply sql_first_Some in Hs as [Hs Hid%Z.eqb_eq].
  destruct (_ && _) eqn:Ec in E; [|done]. injection E as -> ->. apply checked_inv in Hst as [_ Hst]. injection Hst as <- <- <-.
  apply andb_true_iff in Ec as [[Hnone _]%andb_true_iff [[Hlive _]%andb_true_iff _]%andb_true_iff].
  unfold opt_none in Hnone. destruct (refresh_consumed_at r) as [?|] eqn:Ecn; [done|].
  unfold unrevoked, opt_none in Hlive. destruct (session_revoked_at s0) as [?|] eqn:Erv; [done|].
  set (u := ConsumeRefresh (refresh_id r) (current_timestamp env)).
  assert (consume (refresh_id r) (current_timestamp env) r ∈ refresh_tokens (apply_changes [u] d)) as Hin by (by apply list_elem_of_fmap_2).
  destruct (consume_same (refresh_id r) (current_timestamp env) r) as (F1 & F2 & F3 & F4).
  split; [done|]. cbn [fst snd]. unfold consumed_here. split_and!.
  - by eapply (token_live_from d0 d).
  - congruence.
  - exists (consume (refresh_id r) (current_timestamp env) r), s0. split_and!; try done; congruence.
  - exists (current_timestamp env). rewrite F1. by left.
  - exists (consume (refresh_id r) (current_timestamp env) r). split_and!; try done. unfold consume. rewrite Z.eqb_refl. by eexists.
  - intros y Hy Hpar. destruct (refresh_back u d y Hy) as [(y0 & Hy0 & _ & _ & E3 & _)|?]; [|done].
    rewrite E3, F1 in Hpar. destruct (ao_parents _ Hd y0 _ Hy0 Hpar) as (q & Hq & Hqid & _ & Hqc).
    assert (q = r) as -> by (by apply (unique_key_inj refresh_id _ _ _ (ao_refresh_ids _ Hd))).
    rewrite Ecn in Hqc. by destruct Hqc.
Qed.
End rotation.
#[export] Hint Extern 1 (Framed (consumed_here _) _) => (apply consumed_here_framed; discriminate) : typeclass_instances.

(** * Issuing the successor *)

Section issuing.
Context `{TimeText, SHA256, Argon2, GCM, UnicodeLower}.
Context (app : auth_application).

Lemma select_account_spec d0 F userID :
  st_spec d0 F (select_account userID) (λ account us d, F us d ∧ account_of d account ∧ user_ID account = userID).
Proof.
  apply (query_spec _ _ _ (λ account d, account_of d account ∧ user_ID account = userID)).
  intros account d Hd _ (u & Hu & ->)%fmap_Some. apply sql_first_Some in Hu as [Hu Hid%Z.eqb_eq].
  split; [by exists u|done].
Qed.

Lemma set_idle_spec d0 K session idle : StableDb K →
  st_spec d0 (λ _, K) (set_idle_statement session idle) (λ _ _, K).
Proof.
  intros HK env us d [] us' Hd _ HF Hst. unfold set_idle_statement in Hst.
  destruct (find_session session d); [apply checked_inv in Hst as [_ Hst]|]; injection Hst as <-; [|done].
  split; [done|]. apply (framed (F := λ _, K) [] d); done.
Qed.

Lemma insert_rotation_spec d0 c hash keyHash rt s a nonce expires :
  cipher_ok c → List.length nonce = nonce_size c → response_SessionExpiresAt a = session_created_at s + sessionAbsoluteLifetime →
  refresh_session rt = session_id s →
  st_spec d0 (λ _ d, (token_row hash rt s d ∧ consumed_parent d (refresh_id rt) (refresh_session rt)) ∧ issued a d)
    (insert_rotation_result (refresh_id rt) keyHash (encrypt c "refresh" (int64Bytes (refresh_id rt)) (response_struct a) nonce)
      nonce (keyVersion c) expires)
    (λ _ _ d, rotation_recorded c hash keyHash a d ∧ issued a d).
Proof.
  intros Hc Hn Hend Hses env us d [] us' Hd _ HF Hst. apply checked_inv in Hst as [Hcs Hst]. injection Hst as <-.
  unfold insert_rotation_checks in Hcs. split_checks Hcs. destruct HF as [[Hrow Hpar] Hiss].
  lazymatch goal with |- changes_ok [InsertRotation ?x] _ ∧ _ => assert (change_ok (InsertRotation x) d) as Hok; [|set (new := x) in *] end.
  { simpl. split; [by apply not_exists_Z|]. destruct Hpar as (q & ? & ? & _ & ?). by exists q. }
  split; [by split|]. split; [|by apply (framed (F := λ _, issued a) us d)].
  pose proof (framed (F := λ _, token_row hash rt s) us d Hd Hok Hrow) as (r & s' & Hr & Hh & Hid & Hrs & Hs & E1 & E2 & E3 & E4).
  exists r, s', new, a. split_and!; try done; try congruence.
  - apply elem_of_app. right. by apply list_elem_of_singleton.
  - rewrite Hid. apply decrypt_response; [done..|]. by apply (issued_response_ok _ d).
  - unfold with_session_end. destruct (response_SessionExpiresAt a =? zero_time) eqn:Ez; [|done].
    rewrite E4. destruct a. cbn in *. by rewrite <-Hend.
Qed.

Lemma issue_tokens_spec d0 c hash keyHash rt s :
  cipher_ok c → refresh_session rt = session_id s →
  triple (sane d0) (in_tx d0 (λ us d, token_row hash rt s d ∧ consumed_here rt us d)) (issue_tokens c keyHash rt s)
    (λ o, committed d0 (λ d, ∃ a, o = Some a ∧ rotation_recorded c hash keyHash a d ∧ issued a d)).
Proof.
  intros Hc Hses. unfold issue_tokens.
  eapply triple_bind; [apply triple_statement; [apply _|apply select_account_spec]|]. intros account.
  eapply triple_bind; [apply triple_currentTime; [apply _|]; intros w [Hs _]; apply (sane_clock _ _ Hs)|]. intros now.
  apply triple_pure. intros _. cbv zeta.
  eapply triple_bind; [apply triple_newToken, _|]. intros access. apply triple_pure. intros Hacc.
  eapply triple_bind; [apply triple_newToken, _|]. intros refresh. apply triple_pure. intros Href.
  eapply triple_bind; [apply triple_statement; [apply _|apply insert_access_spec; [done|apply _]]|]. intros [].
  eapply triple_bind.
  { apply triple_statement; [apply _|].
    eapply (insert_refresh_spec d0 _ (λ _ d, ((token_row hash rt s d ∧ consumed_parent d (refresh_id rt) (refresh_session rt)) ∧
      account_of d account ∧ user_ID account = session_user s) ∧ access_issued d (session_id s) (token_raw access)
        (minTime (now + accessTokenLifetime) (session_created_at s + sessionAbsoluteLifetime)))); [done| |].
    - intros us d p Hd [[[_ (_ & Hp & Hno)] _] _] [= <-]. split; [by rewrite <-Hses|done].
    - intros us d r Hd Hr [[[Hrow (_ & Hp & _)] [Hac Huid]] Hai].
      apply (framed (F := λ _ d, ((token_row hash rt s d ∧ consumed_parent d (refresh_id rt) (refresh_session rt)) ∧
        account_of d account ∧ user_ID account = session_user s) ∧ access_issued d (session_id s) (token_raw access)
          (minTime (now + accessTokenLifetime) (session_created_at s + sessionAbsoluteLifetime))) us d Hd Hr).
      split_and!; done. }
  intros [].
  lazymatch goal with |- triple _ _ (mbind ?f _) _ => lazymatch f with context [encrypt_response _ _ _ ?a] => set (response := a) end end.
  eapply (triple_pre _ (in_tx d0 (λ _ d, (token_row hash rt s d ∧ consumed_parent d (refresh_id rt) (refresh_session rt)) ∧ issued response d))).
  { intros w [Hs [[[[Hrow Hp] [Hac Huid]] Hai] Hri]]. split; [done|]. split; [done|]. unfold issued. cbn. split_and!; try done.
    destruct Hrow as (r & s' & _ & _ & _ & _ & Hs' & E1 & E2 & E3 & _). exists s'. split_and!; congruence. }
  eapply triple_bind; [apply triple_statement; [apply _|apply set_idle_spec, _]|]. intros [].
  eapply triple_bind; [apply triple_encrypt_response, _|]. intros [enc nonce]. apply triple_pure. intros [Hn Henc]. cbn [fst snd] in *.
  rewrite Henc.
  eapply triple_bind; [apply triple_statement; [apply _|by apply insert_rotation_spec]|]. intros [].
  eapply triple_bind; [apply triple_commit, _|]. intros []. apply triple_ret. intros w [Hs (us & Hrec & Hiss)].
  split; [done|]. by exists response.
Qed.

(** * A token that was used before *)

#[export] Instance rotation_stable x : StableDb (λ d, x ∈ rotation_results d).
Proof. intros d d' _ _ Hev. apply (ae_rotations _ _ _ Hev). Qed.

Lemma select_rotation_spec d0 F id :
  st_spec d0 F (select_rotation id) (λ x us d, F us d ∧ x ∈ rotation_results d ∧ rotation_token x = id).
Proof.
  apply (query_spec _ _ _ (λ x d, x ∈ rotation_results d ∧ rotation_token x = id)).
  intros x d _ _ [? ?%Z.eqb_eq]%sql_first_Some. done.
Qed.

Lemma select_refresh_spec d0 F hash :
  st_spec d0 F (select_refresh hash)
    (λ x us d, F us d ∧ (unrevoked x.2 = true → token_live d0 hash) ∧ token_row hash x.1 x.2 d).
Proof.
  apply (query_spec _ _ _ (λ x d, (unrevoked x.2 = true → token_live d0 hash) ∧ token_row hash x.1 x.2 d)).
  intros [rt s] d Hd Hev (r & Hr & (s' & Hs & Heq)%bind_Some)%bind_Some. injection Heq as -> ->.
  apply sql_first_Some in Hr as [Hr Hh%bool_decide_eq_true]. apply sql_first_Some in Hs as [Hs Hid%Z.eqb_eq]. cbn. split.
  - unfold unrevoked, opt_none. destruct (session_revoked_at s) eqn:Es; [done|]. intros _. by apply (token_live_from d0 d hash rt s).
  - exists rt, s. split_and!; done.
Qed.

(** What a rotation's answer is worth. *)
Definition rotation_answer (d0 : auth_database) (c : responseCipher) (hash keyHash : list Z) (o : option authResponse)
    (d : auth_database) : Prop :=
  ∀ a, o = Some a → rotation_recorded c hash keyHash a d ∧ token_live d0 hash.

(** A transaction that has changed nothing. *)
Lemma untouched d0 K w : in_tx d0 (λ us d, us = [] ∧ K d) w → committed d0 K w.
Proof. intros (Hs & Ht & HK). split; [done|]. unfold tx_view in HK. rewrite Ht in HK. done. Qed.

Lemma refused_rotation d0 P c hash keyHash :
  (∀ w, P w → sane d0 w) →
  triple (sane d0) P (mret None : auth_proc (option authResponse)) (λ o, committed d0 (rotation_answer d0 c hash keyHash o)).
Proof. intros HP. apply triple_ret. intros w Hw. split; [auto|]. by intros a Ha. Qed.

Lemma replayed_rotation d0 c hash keyHash rt s x raw :
  token_live d0 hash → rotation_token x = refresh_id rt → rotation_key_hash x = keyHash →
  decrypt decode_response c (rotation_key_version x) "refresh" (int64Bytes (refresh_id rt)) (rotation_nonce x) (rotation_response x) = Ok raw →
  triple (sane d0) (in_tx d0 (λ us d, us = [] ∧ token_row hash rt s d ∧ x ∈ rotation_results d))
    (mret (Some (with_session_end (session_created_at s) raw)) : auth_proc (option authResponse))
    (λ o, committed d0 (rotation_answer d0 c hash keyHash o)).
Proof.
  intros Hlive Ht Hk Hdec. apply triple_ret. intros w Hw. apply (untouched d0) in Hw as (Hs & Hrow & Hx). split; [done|].
  intros a [= <-]. split; [|done]. destruct Hrow as (r & s' & Hr & Hh & Hid & Hrs & Hs' & E1 & E2 & E3 & E4).
  exists r, s', x, raw. rewrite Hid, E4. split_and!; try done; congruence.
Qed.

Lemma replay_or_revoke_spec d0 c hash keyHash rt s :
  token_live d0 hash →
  triple (sane d0) (in_tx d0 (λ us d, us = [] ∧ token_row hash rt s d)) (replay_or_revoke app c keyHash rt s)
    (λ o, committed d0 (rotation_answer d0 c hash keyHash o)).
Proof.
  intros Hlive. unfold replay_or_revoke.
  eapply triple_bind; [apply triple_try; [apply _|apply select_rotation_spec]|]. intros stored.
  set (P := match stored with Err _ => in_tx d0 (λ us d, us = [] ∧ token_row hash rt s d) | Ok x =>
    in_tx d0 (λ us d, (us = [] ∧ token_row hash rt s d) ∧ x ∈ rotation_results d ∧ rotation_token x = refresh_id rt) end).
  assert (∀ w, P w → sane d0 w) as HP by (intros w; destruct stored; apply in_tx_sane).
  assert (TablesOnly P) as HPt by (unfold P; destruct stored; apply _).
  eapply (triple_bind _ _ _ _ (λ o w, (∀ x, o = Some x → stored = Ok x ∧ rotation_key_hash x = keyHash) ∧ P w)).
  { destruct stored as [e|x]; [by apply triple_ret|]. case_bool_decide as Hk; [|by apply triple_ret].
    eapply triple_bind; [apply triple_currentTime; [apply _|]; intros w Hw; apply (sane_clock d0), HP, Hw|]. intros now.
    apply triple_pure. intros _. apply triple_ret. intros w Hw. split; [|done]. intros y. destruct (_ <? _); by intros [= <-]. }
  intros [x|]; apply triple_pure; intros Hx.
  - destruct (Hx x eq_refl) as [-> Hk]. destruct (decrypt _ _ _ _ _ _ _) as [text|raw] eqn:Hdec.
    + by apply triple_throw.
    + eapply (triple_pre _ (λ w, rotation_token x = refresh_id rt ∧
        in_tx d0 (λ us d, us = [] ∧ token_row hash rt s d ∧ x ∈ rotation_results d) w)).
      { intros w (Hs & [Hus Hrow] & Hin & Ht). by split. }
      apply triple_pure. intros Ht. by eapply replayed_rotation.
  - clear Hx. assert (triple (sane d0) (in_tx d0 (λ _ _, True))
      (_ ← on_database (tx_statement (revoke_sessions (λ x, session_id x =? session_id s)));
       _ ← on_database commit_tx;
       _ ← disconnect app (session_user s) (Some (session_id s)); mret None : auth_proc (option authResponse))
      (λ o, committed d0 (rotation_answer d0 c hash keyHash o))) as Hrevoke.
    { eapply triple_bind; [apply (triple_statement _ _ _ (λ _ _ _, True)); [apply _|]|].
      { intros env us d n us' Hd _ _ Hst.
        by eapply (revoke_sessions_all (λ x, session_id x =? session_id s)) in Hst as (Hok & _); [..|intros ? ? (-> & _)|]. }
      intros n. eapply triple_bind; [apply triple_commit, _|]. intros [].
      eapply triple_bind; [apply triple_disconnect, _|]. intros []. apply refused_rotation. by intros w [? _]. }
    assert (∀ w, P w → in_tx d0 (λ _ _, True) w) as HPw by (intros w Hw; split; [by apply HP|done]).
    destruct stored as [e|x]; [|by eapply triple_pre].
    destruct e as [[]| | |]; try (by apply triple_throw). by eapply triple_pre.
Qed.

Lemma handleUsedOrInvalidRefresh_spec d0 c hash keyHash :
  triple (sane d0) (in_tx d0 (λ us d, us = [] ∧ True)) (handleUsedOrInvalidRefresh app c hash keyHash)
    (λ o, committed d0 (rotation_answer d0 c hash keyHash o)).
Proof.
  unfold handleUsedOrInvalidRefresh.
  eapply triple_bind; [apply triple_try; [apply _|apply select_refresh_spec]|]. intros [e|[rt s]].
  { destruct e as [[]| | |]; first [apply refused_rotation; apply in_tx_sane | apply triple_throw; apply in_tx_sane]. }
  cbn [fst snd]. destruct (opt_none _ || negb (unrevoked s)) eqn:Eu; [apply refused_rotation; apply in_tx_sane|].
  apply orb_false_iff in Eu as [_ Eu%negb_false_iff].
  eapply (triple_pre _ (λ w, token_live d0 hash ∧ in_tx d0 (λ us d, us = [] ∧ token_row hash rt s d) w)).
  { intros w (Hs & [Hus _] & Hlive & Hrow). split; [by apply Hlive|]. by split. }
  apply triple_pure. intros Hlive.
  eapply triple_bind; [apply triple_currentTime; [apply _|]; intros w [Hs _]; apply (sane_clock _ _ Hs)|]. intros now.
  apply triple_pure. intros _. destruct (negb _); [apply refused_rotation; apply in_tx_sane|].
  eapply triple_bind; [apply triple_currentTime; [apply _|]; intros w [Hs _]; apply (sane_clock _ _ Hs)|]. intros now2.
  apply triple_pure. intros _. destruct (negb _); [apply refused_rotation; apply in_tx_sane|].
  by apply replay_or_revoke_spec.
Qed.

(** * Rotation *)

Lemma rotateRefreshToken_spec d0 c hash keyHash :
  cipher_ok c →
  triple (idle d0) (idle d0) (rotateRefreshToken app c hash keyHash) (λ o, outside d0 (rotation_answer d0 c hash keyHash o)).
Proof.
  intros Hc. unfold rotateRefreshToken. eapply triple_bind; [apply triple_begin, _|]. intros [].
  apply triple_deferring.
  eapply triple_bind; [apply triple_currentTime; [apply _|]; intros w [Hs _]; apply (sane_clock _ _ Hs)|]. intros now.
  apply triple_pure. intros _.
  eapply triple_bind; [apply triple_try; [apply _|apply consume_spec]|]. intros [e|[rt s]]; cbn [fst snd].
  - assert (∀ e : auth_error, triple (sane d0) (in_tx d0 (λ us d, us = [] ∧ True)) (mthrow e : auth_proc (option authResponse))
      (λ o, committed d0 (rotation_answer d0 c hash keyHash o))) as Hthrow by (intros e'; apply triple_throw, in_tx_sane).
    destruct e as [[]| | |]; try exact (Hthrow _). apply handleUsedOrInvalidRefresh_spec.
  - eapply (triple_pre _ (λ w, (token_live d0 hash ∧ refresh_session rt = session_id s) ∧
      in_tx d0 (λ us d, token_row hash rt s d ∧ consumed_here rt us d) w)); [by intros w (Hs & ? & ?)|].
    apply triple_pure. intros [Hlive Hses]. eapply triple_conseq; [done| |by apply issue_tokens_spec].
    intros o w [Hs (a & -> & Hrec & _)]. split; [done|]. by intros a' [= <-].
Qed.
End issuing.
