(* ===== verification/AuthHandlers.v ===== *)
(** The handlers of [auth.go] as a client meets them: what each answer says about the
    tables, and the tables each leaves behind. *)
From Stdlib Require Import Ascii String.
From S2P Require Import Prelude GoStd Text Tables Driver Json Schema MessageStore MessageService ConversationSync JsonText AuthTables AuthOk.
From S2P Require Import Redis RateLimit Credentials CredentialsOk AuthQueries Auth AuthSpec AuthLogin.
Open Scope Z_scope.

(** * Ready worlds *)

(** The tables are consistent, others respect them, and no transaction is open. *)
Record ready (w : auth_world) : Prop := Ready {
  ready_tables : world_ok auth_ok auth_ok auth_evolves (aw_db w);
  ready_clock : clock_ok w;
  ready_tx : auth_tx w = []
}.

Lemma ready_idle w : ready w → idle (auth_db w) w.
Proof. intros [Hw Hc Ht]. by split. Qed.

Lemma outside_ready d0 K w : outside d0 K w → ready w.
Proof. intros ([Hw Hc _] & Ht & _). by split. Qed.

Section handlers.
Context `{TimeText, SHA256, Argon2, GCM, UnicodeLower}.
Context (app : auth_application).

(** The application's cipher is one that the constructor accepted. *)
Definition cipher_configured : Prop := ∀ c, responseCipher_ app = Some c → cipher_ok c.

(** Every run leaves a ready world, whose tables evolved. *)
Definition keeps {A} (m : auth_handler A) : Prop :=
  ∀ w r w', ready w → m w = (r, w') → ready w' ∧ auth_evolves [] (auth_db w) (auth_db w').

Lemma triple_keeps {A} (m : auth_handler A) K :
  (∀ d0, triple (idle d0) (idle d0) m (λ a, outside d0 (K d0 a))) → keeps m.
Proof.
  intros Hm w r w' Hw Hr. specialize (Hm _ w r w' (ready_idle w Hw) Hr).
  destruct r as [e|a]; (split; [by eapply outside_ready|]); apply (sane_from _ _ (proj1 Hm)).
Qed.

(** * Token refresh *)

(** What an answered refresh was: the request's token and key have that response. *)
Definition refresh_answered (d0 : auth_database) (body : list Z) (a : authResponse) (d : auth_database) : Prop :=
  ∃ input c raw hash, decodeSingleJSON refreshRequest_fields (RefreshRequest "" "") body = Some input ∧
    responseCipher_ app = Some c ∧ decodeAndHashToken (ref_RefreshToken input) = Some (raw, hash) ∧
    rotation_recorded c hash (Sum256 (bytes_of (ref_IdempotencyKey input))) a d ∧ token_live d0 hash.

Lemma refresh_spec d0 ip body :
  cipher_configured → triple (idle d0) (idle d0) (refresh app ip body) (λ a, outside d0 (refresh_answered d0 body a)).
Proof.
  intros Happ. unfold refresh. eapply triple_bind; [apply decode_request_spec|]. intros input. apply triple_pure. intros Hin.
  destruct (negb _); [by apply triple_throw|]. destruct (decodeAndHashToken _) as [[raw hash]|] eqn:Et; [|by apply triple_throw].
  eapply triple_bind; [by apply triple_enforce; [apply _|]|]. intros [].
  destruct (responseCipher_ app) as [c|] eqn:Ec; [|by apply triple_throw].
  eapply triple_bind; [apply triple_attempt, rotateRefreshToken_spec, Happ, Ec|]. intros [e|[a|]].
  - by apply triple_throw.
  - apply triple_ret. intros w. apply outside_weaken. intros d _ Ha. destruct (Ha a eq_refl) as [Hrec Hlive].
    by exists input, c, raw, hash.
  - apply triple_throw. intros w. apply outside_idle.
Qed.

(** * Revocations *)

Definition session_is (id : Z) (s : session_row) : bool := session_id s =? id.
Definition session_by (user : Z) (s : session_row) : bool := session_user s =? user.

Lemma revoke_auto_spec d0 base chosen :
  (∀ s s', same_session s s' → base s' = base s) → (∀ s, base s = true → unrevoked s = true → chosen s = true) →
  auto_spec d0 (λ _, True) (revoke_sessions chosen) (λ _, all_ended base).
Proof. intros Hb Hc env d n us Hd _ _ Hst. eapply (revoke_sessions_all base) in Hst as (? & ? & _); done. Qed.

Lemma logout_spec d0 who :
  triple (idle d0) (idle d0) (logout app who) (λ _, outside d0 (all_ended (session_is (authenticatedSessionID who)))).
Proof.
  unfold logout, internal. eapply triple_bind.
  { apply triple_run_error, triple_auto; [apply _|]. apply (revoke_auto_spec _ (session_is (authenticatedSessionID who))).
    - intros s s' (E & _). unfold session_is. by rewrite E.
    - intros s Hs Hu. unfold session_is in Hs. by rewrite Hs, Hu. }
  intros n. apply triple_disconnect, _.
Qed.

Lemma of_user_chosen user s : session_by user s = true → unrevoked s = true → of_user user s = true.
Proof. intros Hs Hu. unfold of_user, session_by in *. by rewrite Hs, Hu. Qed.
Lemma session_by_same user s s' : same_session s s' → session_by user s' = session_by user s.
Proof. intros (_ & E & _). unfold session_by. by rewrite E. Qed.

Lemma logoutAll_spec d0 who :
  triple (idle d0) (idle d0) (logoutAll app who) (λ _, outside d0 (all_ended (session_by (authenticatedUserID who)))).
Proof.
  unfold logoutAll, internal. eapply triple_bind.
  { apply triple_run_error, triple_auto; [apply _|].
    apply (revoke_auto_spec _ (session_by (authenticatedUserID who))); [apply session_by_same|apply of_user_chosen]. }
  intros n. apply triple_disconnect, _.
Qed.

Lemma revokeSession_spec d0 who path :
  triple (idle d0) (idle d0) (revokeSession app who path) (λ _, outside d0 (λ d, ∃ id, parse_session_id path = Some id ∧
    all_ended (λ s, session_is id s && session_by (authenticatedUserID who) s) d)).
Proof.
  unfold revokeSession, internal. destruct (parse_session_id path) as [id|] eqn:Ep; [|by apply triple_throw].
  eapply triple_bind.
  { apply triple_run_error, triple_auto; [apply _|].
    apply (revoke_auto_spec _ (λ s, session_is id s && session_by (authenticatedUserID who) s)).
    - intros s s' Hsame. rewrite (session_by_same _ _ _ Hsame). unfold session_is. by rewrite (proj1 Hsame).
    - intros s [Hi Hs]%andb_true_iff Hu. unfold session_is in Hi. by rewrite Hi, (of_user_chosen _ _ Hs Hu). }
  intros n. destruct (n =? 0); [apply triple_throw; intros w; apply outside_idle|].
  eapply triple_conseq; [done| |apply triple_disconnect, _]. intros [] w. apply outside_weaken. by exists id.
Qed.

(** ** The password *)

Definition password_changed (user : Z) (us : list auth_change) : Prop := ∃ hash, SetPassword user hash ∈ us.

(** All sessions of an account stay revoked while its password is being changed. *)
#[export] Instance all_ended_stable user :
  Stable (λ us d, password_changed user us ∧ all_ended (session_by user) d).
Proof.
  intros us d d' _ Hd' Hev [[h Hin] Hall]. split; [by exists h|]. intros s Hs Hu. apply Z.eqb_eq in Hu.
  destruct (ae_no_session _ _ _ Hev _ h s Hin Hs Hu) as (s0 & Hs0 & Hid & Hu0).
  destruct (Hall s0 Hs0) as [t Ht]; [by apply Z.eqb_eq|].
  destruct (ae_sessions _ _ _ Hev s0 Hs0) as (s1 & Hs1 & E1 & _ & _ & _ & E5 & _).
  assert (s1 = s) as -> by (apply (unique_key_inj session_id _ _ _ (ao_session_ids _ Hd')); [done|done|congruence]).
  exists t. by apply E5.
Qed.

Lemma set_password_spec d0 newHash user currentHash :
  st_spec d0 (λ us d, us = [] ∧ True) (set_password_statement newHash user currentHash)
    (λ n us _, n = 1 → password_changed user us).
Proof.
  intros env us d n us' Hd _ [-> _] (_ & Hst)%with_text_inv.
  destruct (sql_first _ _) as [u|]; [apply checked_inv in Hst as [_ Hst]|]; injection Hst as <- <-; split; try done.
  intros _. exists newHash. by left.
Qed.

Lemma replace_password_spec d0 user newHash currentHash :
  triple (idle d0) (idle d0) (replace_password user newHash currentHash) (λ _, outside d0 (all_ended (session_by user))).
Proof.
  unfold replace_password, internal.
  eapply triple_bind; [apply triple_run_error, (triple_begin _ (λ _, True)), _|]. intros [].
  apply triple_deferring.
  eapply triple_bind; [apply triple_run_error, triple_statement; [apply _|apply set_password_spec]|]. intros n.
  destruct (n =? 1) eqn:En; cbn [negb]; [|apply triple_throw; apply in_tx_sane]. apply Z.eqb_eq in En.
  apply triple_run_error. eapply triple_bind.
  { apply (triple_statement _ _ _ (λ _ us d, password_changed user us ∧ all_ended (session_by user) d)); [apply _|].
    intros env us d m us' Hd _ Hp Hst. destruct (Hp En) as [h Hin].
    eapply (revoke_sessions_all (session_by user)) in Hst as (Hok & Hall & _);
      [|done|apply session_by_same|apply of_user_chosen].
    split; [done|]. split; [|done]. exists h. apply elem_of_app. by left. }
  intros m. eapply triple_conseq; [done| |apply triple_commit, _].
  intros [] w [Hs (us & _ & Hall)]. by split.
Qed.

Lemma changePassword_spec d0 who body :
  triple (idle d0) (idle d0) (changePassword app who body) (λ _, outside d0 (all_ended (session_by (authenticatedUserID who)))).
Proof.
  unfold changePassword, internal. eapply triple_bind; [apply decode_request_spec|]. intros input. apply triple_pure. intros _.
  destruct (negb _); [by apply triple_throw|]. destruct (bool_decide _); [by apply triple_throw|].
  eapply triple_bind.
  { apply triple_run_error, (triple_auto _ (λ _, True) _ (λ _ _, True)); [apply _|].
    intros env d h us Hd _ _ Hst. unfold select_password, query_row in Hst.
    destruct (_ <$> _); [|done]. by injection Hst as _ <-. }
  intros current. destruct (verifyPassword _ _) as [e|[]]; [by apply triple_throw| |by apply triple_throw].
  eapply triple_bind; [apply triple_hashPassword, _|]. intros newHash. apply triple_pure. intros _.
  eapply triple_bind; [apply replace_password_spec|]. intros []. apply triple_disconnect, _.
Qed.

(** * Reading *)

Lemma listSessions_spec d0 who : triple (idle d0) (idle d0) (listSessions who) (λ _, idle d0).
Proof.
  unfold listSessions, internal. eapply triple_bind.
  { apply triple_run_error, (triple_auto _ (λ _, True) _ (λ _ _, True)); [apply _|].
    intros env d rows us Hd _ _ Hst. by injection Hst as _ <-. }
  intros rows. by apply triple_ret.
Qed.

(** * The bearer check *)

(** The presented token is stored for a session that was not revoked, whose user it is. *)
Definition authenticated (header : string) (who : identity) (d : auth_database) : Prop :=
  ∃ token raw hash x s, bearer_token header = Some token ∧ decodeAndHashToken token = Some (raw, hash) ∧
    x ∈ access_tokens d ∧ access_hash x = hash ∧ s ∈ sessions d ∧ session_id s = access_session x ∧
    session_revoked_at s = None ∧
    who = Identity (session_user s) (session_id s) (session_device s) (access_expires_at x).

Lemma select_identity_spec d0 hash cutoff :
  auto_spec d0 (λ _, True) (select_identity hash cutoff) (λ who d,
    ∃ x s, x ∈ access_tokens d ∧ access_hash x = hash ∧ s ∈ sessions d ∧ session_id s = access_session x ∧
      session_revoked_at s = None ∧
      who = Identity (session_user s) (session_id s) (session_device s) (access_expires_at x)).
Proof.
  intros env d who us Hd _ _ Hst. unfold select_identity in Hst. cbv zeta in Hst.
  destruct (_ ≫= _) as [i|] eqn:E; [|done]. injection Hst as -> <-. split; [done|].
  apply bind_Some in E as (x & Hx & E). apply bind_Some in E as (s & Hs & E).
  apply sql_first_Some in Hx as [Hx Hh%bool_decide_eq_true]. apply sql_first_Some in Hs as [Hs Hid%Z.eqb_eq].
  destruct (_ && _) eqn:Ec in E; [|done]. injection E as <-. apply andb_true_iff in Ec as [_ [[Hu _]%andb_true_iff _]%andb_true_iff].
  unfold unrevoked, opt_none in Hu. exists x, s. destruct (session_revoked_at s) eqn:Er; [done|]. split_and!; done.
Qed.

Lemma requireAuthentication_spec d0 header :
  triple (idle d0) (idle d0) (requireAuthentication header) (λ who, outside d0 (authenticated header who)).
Proof.
  unfold requireAuthentication. destruct (_ ≫= _) as [[raw hash]|] eqn:E; [|by apply triple_throw].
  apply bind_Some in E as (token & Hb & Ht).
  eapply triple_bind; [apply triple_currentTime; [apply _|]; intros w (Hs & _); apply (sane_clock _ _ Hs)|]. intros now.
  apply triple_pure. intros _.
  eapply triple_bind; [apply triple_try_auto; [apply _|apply select_identity_spec]|]. intros [e|who].
  - assert (∀ p : problem, triple (idle d0) (idle d0) (mthrow p : auth_handler identity)
      (λ who, outside d0 (authenticated header who))) as Hthrow by (intros p; by apply triple_throw).
    destruct e as [[]| | |]; exact (Hthrow _).
  - apply triple_ret. intros w. apply outside_weaken. intros d _ (x & s & Hx & Hh & Hs & Hid & Hr & Hw).
    by exists token, raw, hash, x, s.
Qed.
End handlers.
