(* ===== verification/AuthPromises.v ===== *)
(** What the accounts promise: consistent tables, revocations that last, refresh tokens
    that work once, logins that can be repeated, and tokens that authenticate. *)
From Stdlib Require Import Ascii String.
From S2P Require Import Prelude GoStd Text Tables Driver Json Schema MessageStore MessageService ConversationSync JsonText AuthTables AuthOk.
From S2P Require Import Redis RateLimit Encoding Credentials CredentialsOk AuthQueries Auth AuthSpec AuthLogin AuthHandlers.
Open Scope Z_scope.

Section promises.
Context `{TimeText, SHA256, Argon2, GCM, UnicodeLower}.
Context (app : auth_application) (Happ : cipher_configured app).

(** C11: Every handler leaves the account tables consistent, whatever
    call fails and whatever other connections commit meanwhile, and only lets them
    evolve: no row is lost, no revocation and no consumption taken back. *)
Theorem auth_keeps_tables ip body path header who :
  keeps (register app ip body) ∧ keeps (login app ip body) ∧ keeps (refresh app ip body) ∧
  keeps (logout app who) ∧ keeps (logoutAll app who) ∧ keeps (listSessions who) ∧ keeps (revokeSession app who path) ∧
  keeps (changePassword app who body) ∧ keeps (requireAuthentication header).
Proof.
  split_and!.
  - apply (triple_keeps _ (λ _, issued)). intros d0. apply register_spec.
  - apply (triple_keeps _ (λ _, login_answered app body)). intros d0. by apply login_spec.
  - apply (triple_keeps _ (λ d0, refresh_answered app d0 body)). intros d0. by apply refresh_spec.
  - eapply (triple_keeps _ (λ _ _, _)). intros d0. apply logout_spec.
  - eapply (triple_keeps _ (λ _ _, _)). intros d0. apply logoutAll_spec.
  - apply (triple_keeps _ (λ _ _ _, True)). intros d0. apply listSessions_spec.
  - eapply (triple_keeps _ (λ _ _, _)). intros d0. apply revokeSession_spec.
  - eapply (triple_keeps _ (λ _ _, _)). intros d0. apply changePassword_spec.
  - apply (triple_keeps _ (λ _, authenticated header)). intros d0. apply requireAuthentication_spec.
Qed.

(** * Revocation *)

(** The requests that end sessions, and which. *)
Inductive ends_sessions (who : identity) : auth_handler unit → (session_row → bool) → Prop :=
| ends_one : ends_sessions who (logout app who) (session_is (authenticatedSessionID who))
| ends_all : ends_sessions who (logoutAll app who) (session_by (authenticatedUserID who))
| ends_named path id : parse_session_id path = Some id →
    ends_sessions who (revokeSession app who path) (λ s, session_is id s && session_by (authenticatedUserID who) s)
| ends_with_password body : ends_sessions who (changePassword app who body) (session_by (authenticatedUserID who)).

Lemma ends_sessions_spec d0 who m chosen :
  ends_sessions who m chosen → triple (idle d0) (idle d0) m (λ _, outside d0 (all_ended chosen)).
Proof.
  intros [| |path id Hp|body]; [apply logout_spec|apply logoutAll_spec| |apply changePassword_spec].
  eapply triple_conseq; [done| |apply revokeSession_spec]. intros [] w. apply outside_weaken.
  intros d _ (id' & Hid' & Hall). rewrite Hp in Hid'. by injection Hid' as <-.
Qed.

Lemma ended_later s d d' : s ∈ sessions d → is_Some (session_revoked_at s) → auth_evolves [] d d' → ended (session_id s) d'.
Proof.
  intros Hs [t Ht] Hev. destruct (ae_sessions _ _ _ Hev s Hs) as (s' & Hs' & E1 & _ & _ & _ & E5 & _).
  exists s'. split_and!; [done..|]. exists t. by apply E5.
Qed.

(** C8: After a logout, a logout everywhere, the revocation of a
    session or a change of password was answered, no later request is authenticated as
    one of the sessions it ended, and no refresh token of them is exchanged, whatever
    happened in between. *)
Theorem revocation_is_final who m chosen w w1 w2 s :
  ends_sessions who m chosen → ready w → m w = (Ok tt, w1) →
  s ∈ sessions (auth_db w1) → chosen s = true → auth_evolves [] (auth_db w1) (auth_db w2) → ready w2 →
  (∀ header who' w3, requireAuthentication header w2 = (Ok who', w3) → authenticatedSessionID who' ≠ session_id s) ∧
  (∀ ip body input raw hash r a w3, decodeSingleJSON refreshRequest_fields (RefreshRequest "" "") body = Some input →
    decodeAndHashToken (ref_RefreshToken input) = Some (raw, hash) → r ∈ refresh_tokens (auth_db w2) →
    refresh_hash r = hash → refresh_session r = session_id s → refresh app ip body w2 ≠ (Ok a, w3)).
Proof.
  intros Hends Hw Hm Hs Hch Hev Hw2.
  pose proof (ends_sessions_spec _ _ _ _ Hends w _ w1 (ready_idle w Hw) Hm) as (_ & _ & Hall).
  pose proof (ended_later s _ _ Hs (Hall s Hs Hch) Hev) as Hended. split.
  - intros header who' w3 Hr Heq.
    pose proof (requireAuthentication_spec _ header w2 _ w3 (ready_idle w2 Hw2) Hr) as (Hs3 & _ & Hauth).
    destruct Hauth as (token & raw & hash & x & s3 & _ & _ & _ & _ & Hin3 & Hid3 & Hlive & ->). cbn in Heq.
    destruct Hended as (s2 & Hin2 & Hid2 & t & Ht).
    destruct (ae_sessions _ _ _ (sane_from _ _ Hs3) s2 Hin2) as (s4 & Hs4 & E1 & _ & _ & _ & E5 & _).
    assert (s4 = s3) as ->; [|by rewrite (E5 t Ht) in Hlive].
    apply (unique_key_inj session_id _ _ _ (ao_session_ids _ (ok_db _ _ _ _ (sane_world _ _ Hs3)))); [done|done|congruence].
  - intros ip body input raw hash r a w3 Hin Ht Hr Hh Hrs Hm2.
    pose proof (refresh_spec app (auth_db w2) ip body Happ w2 _ w3 (ready_idle w2 Hw2) Hm2) as (_ & _ & Hans).
    destruct Hans as (input' & c & raw' & hash' & Hin' & _ & Ht' & _ & Hlive).
    rewrite Hin in Hin'. injection Hin' as <-. rewrite Ht in Ht'. injection Ht' as <- <-.
    destruct Hended as (s2 & Hin2 & Hid2 & t & Ht2).
    rewrite (Hlive r s2 Hr Hh Hin2) in Ht2; [done|congruence].
Qed.

(** * Repeated requests *)

(** C10: Two refreshes with the same refresh token, one after the other or
    overlapping in any way, can both be answered with tokens only if they carry the
    same idempotency key, and then the answers are the same: a token has one
    successor.  The second is the one answered last; where it began is not said, so
    the first may commit between any two of its statements. *)
Theorem rotation_is_single_use ip1 ip2 body1 body2 input1 input2 a1 a2 w1 w1' w2 w2' :
  decodeSingleJSON refreshRequest_fields (RefreshRequest "" "") body1 = Some input1 →
  decodeSingleJSON refreshRequest_fields (RefreshRequest "" "") body2 = Some input2 →
  ref_RefreshToken input1 = ref_RefreshToken input2 →
  ready w1 → refresh app ip1 body1 w1 = (Ok a1, w1') →
  ready w2 → refresh app ip2 body2 w2 = (Ok a2, w2') → auth_evolves [] (auth_db w1') (auth_db w2') →
  Sum256 (bytes_of (ref_IdempotencyKey input2)) = Sum256 (bytes_of (ref_IdempotencyKey input1)) ∧ a2 = a1.
Proof.
  intros Hb1 Hb2 Htok Hw1 Hm1 Hw2 Hm2 Hev.
  pose proof (refresh_spec app _ ip1 body1 Happ w1 _ _ (ready_idle w1 Hw1) Hm1) as (Hs1 & _ & (i1 & c1 & raw1 & h1 & Hi1 & Hc1 & Ht1 & Hr1 & _)).
  pose proof (refresh_spec app _ ip2 body2 Happ w2 _ _ (ready_idle w2 Hw2) Hm2) as (Hs2 & _ & (i2 & c2 & raw2 & h2 & Hi2 & Hc2 & Ht2 & Hr2 & _)).
  rewrite Hb1 in Hi1. injection Hi1 as <-. rewrite Hb2 in Hi2. injection Hi2 as <-.
  rewrite Htok, Ht2 in Ht1. injection Ht1 as <- <-. rewrite Hc1 in Hc2. injection Hc2 as <-.
  eapply rotation_recorded_once; [apply (sane_world _ _ Hs2)| |exact Hr2].
  eapply stable_db; [apply (sane_world _ _ Hs1)|apply (sane_world _ _ Hs2)|exact Hev|exact Hr1].
Qed.

(** C12: Two answered logins with the same request identifier have
    the same answer, so that a login repeated after a lost reply opens no second
    session. *)
Theorem login_is_idempotent ip1 ip2 body1 body2 input1 input2 a1 a2 w1 w1' w2 w2' :
  decodeSingleJSON loginRequest_fields (LoginRequest "" "" "" "") body1 = Some input1 →
  decodeSingleJSON loginRequest_fields (LoginRequest "" "" "" "") body2 = Some input2 →
  log_LoginRequestID input1 = log_LoginRequestID input2 →
  ready w1 → login app ip1 body1 w1 = (Ok a1, w1') → auth_evolves [] (auth_db w1') (auth_db w2) →
  ready w2 → login app ip2 body2 w2 = (Ok a2, w2') → a2 = a1.
Proof.
  intros Hb1 Hb2 Hid Hw1 Hm1 Hev Hw2 Hm2.
  pose proof (login_spec app _ ip1 body1 Happ w1 _ _ (ready_idle w1 Hw1) Hm1) as (Hs1 & _ & (i1 & c1 & u1 & Hi1 & Hc1 & Hr1)).
  pose proof (login_spec app _ ip2 body2 Happ w2 _ _ (ready_idle w2 Hw2) Hm2) as (Hs2 & _ & (i2 & c2 & u2 & Hi2 & Hc2 & Hr2)).
  rewrite Hb1 in Hi1. injection Hi1 as <-. rewrite Hb2 in Hi2. injection Hi2 as <-.
  rewrite Hc1 in Hc2. injection Hc2 as <-. rewrite Hid in Hr1.
  eapply login_recorded_once; [apply (sane_world _ _ Hs2)| |exact Hr2].
  eapply stable_db; [apply (sane_world _ _ Hs1)|apply (sane_world _ _ Hs2)| |exact Hr1].
  etrans; [exact Hev|apply (sane_from _ _ Hs2)].
Qed.
End promises.
