(* ===== verification/AuthWorks.v ===== *)
(** What works when the calls succeed and nobody interferes: an issued token
    authenticates, and a refresh token used again ends its session. *)
From Stdlib Require Import Ascii String.
From S2P Require Import Prelude GoStd Text Tables Driver Json Schema MessageStore MessageService ConversationSync JsonText AuthTables AuthOk.
From S2P Require Import Redis RateLimit Encoding Credentials CredentialsOk AuthQueries Auth AuthSpec AuthLogin AuthHandlers.
Open Scope Z_scope.

(** * The Authorization header *)

(** A visible ASCII byte begins no space. *)
Lemma visible_byte b bs : 33 ≤ b < 128 → List.find (λ e, has_prefix e (b :: bs)) space_encodings = None.
Proof.
  intros Hb. let l := eval vm_compute in space_encodings in change space_encodings with l.
  cbn [List.find has_prefix].
  repeat match goal with |- context [?k =? b] => replace (k =? b) with false by lia end. done.
Qed.

Lemma fields_from_visible fuel current bs rest :
  Forall (λ b, 33 ≤ b < 128) bs →
  fields_from (List.length bs + fuel) current (bs ++ rest) = fields_from fuel (current ++ bs) rest.
Proof.
  intros Hbs. revert current. induction Hbs as [|b bs Hb _ IH]; intros current; [by rewrite app_nil_r|].
  cbn [List.length Nat.add fields_from app]. rewrite visible_byte by done. rewrite IH. by rewrite <-app_assoc.
Qed.

Definition bearer_header (token : string) : string := "Bearer " +:+ token.

Lemma bearer_token_header token :
  bytes_of token ≠ [] → Forall (λ b, 33 ≤ b < 128) (bytes_of token) → bearer_token (bearer_header token) = Some token.
Proof.
  intros Hne Ht. unfold bearer_token, Fields.
  assert (bytes_of (bearer_header token) = bytes_of "Bearer" ++ 32 :: bytes_of token) as -> by done.
  assert (S (List.length (bytes_of "Bearer" ++ 32%Z :: bytes_of token)) =
    List.length (bytes_of "Bearer") + S (List.length (bytes_of token) + 1))%nat as -> by (rewrite length_app; simpl; lia).
  rewrite fields_from_visible by (repeat constructor; done).
  change ([] ++ bytes_of "Bearer") with (bytes_of "Bearer"). cbn [fields_from].
  assert (List.find (λ e, has_prefix e (32 :: bytes_of token)) space_encodings = Some [32]) as ->.
  { let l := eval vm_compute in space_encodings in change space_encodings with l. reflexivity. }
  rewrite bool_decide_eq_false_2 by done. cbn [app List.length drop].
  rewrite <-(app_nil_r (bytes_of token)) at 2.
  rewrite drop_0, fields_from_visible by done.
  cbn [app fields_from]. change (List.find _ space_encodings) with (@None (list Z)). cbv iota.
  rewrite (bool_decide_eq_false_2 (bytes_of token = [])) by done. by rewrite !string_of_bytes_of, bool_decide_eq_true_2.
Qed.

Section works.
Context `{TimeText, SHA256, Argon2, GCM, UnicodeLower}.
Context (app : auth_application).

Lemma bearer_fresh_token t : fresh_token t → bearer_token (bearer_header (token_raw t)) = Some (token_raw t).
Proof.
  intros (raw & Hb & Hl & ->). rewrite bearer_token_header; [done| |]; rewrite token_raw_bytes by done.
  - destruct raw as [|x [|y [|z raw]]]; done.
  - apply (Forall_impl _ _ _ (base64_encode_alphabet raw Hb)). unfold url_alphabet. lia.
Qed.

(** * Running calls *)

Lemma on_database_run {A} (m : proc (world auth_database auth_change) db_error A) w a db :
  m (aw_db w) = (Ok a, db) → on_database m w = (Ok a, with_db db w).
Proof. unfold on_database. by intros ->. Qed.

Lemma on_database_error {A} (m : proc (world auth_database auth_change) db_error A) w e db :
  m (aw_db w) = (Err e, db) → on_database m w = (Err (AuthDatabaseError e), with_db db w).
Proof. unfold on_database. by intros ->. Qed.

Lemma attempt_run {W E F A} (m : proc W E A) w r w' : m w = (r, w') → (attempt m : proc W F (result E A)) w = (Ok r, w').
Proof. unfold attempt. by intros ->. Qed.

(** * A token that was issued authenticates *)

Lemma first_by_key {A K} `{EqDecision K} (key : A → K) l x :
  unique_key key l → x ∈ l → sql_first (λ y, bool_decide (key y = key x)) l = Some x.
Proof.
  intros Hu Hx. apply (sql_first_key key); [done|done|by apply bool_decide_eq_true|]. by intros y ?%bool_decide_eq_true.
Qed.
Lemma first_by_id {A} (key : A → Z) l x : unique_key key l → x ∈ l → sql_first (λ y, key y =? key x) l = Some x.
Proof.
  intros Hu Hx. apply (sql_first_key key); [done|done|apply Z.eqb_refl|]. by intros y ?%Z.eqb_eq.
Qed.

Lemma select_identity_finds env d x s cutoff :
  auth_ok d → x ∈ access_tokens d → s ∈ sessions d → session_id s = access_session x →
  current_timestamp env < access_expires_at x → live_session (current_timestamp env) cutoff s = true →
  select_identity (access_hash x) cutoff env d =
    Ok (Identity (session_user s) (session_id s) (session_device s) (access_expires_at x), []).
Proof.
  intros Hd Hx Hs Hid Hexp Hlive. unfold select_identity. cbv zeta.
  rewrite (first_by_key access_hash _ x (ao_access_hashes _ Hd) Hx). cbn [mbind option_bind].
  unfold find_session. rewrite <-Hid, (first_by_id session_id _ s (ao_session_ids _ Hd) Hs). cbn [mbind option_bind].
  rewrite Hlive. by replace (current_timestamp env <? access_expires_at x) with true by lia.
Qed.

(** C14: The access token that a registration answers with
    authenticates its bearer as that user, session and device, on any later request
    whose query succeeds, until it expires or its session ends. *)
Theorem issued_token_authenticates ip body a w w1 w2 e es s :
  ready w → register app ip body w = (Ok a, w1) → auth_evolves [] (auth_db w1) (auth_db w2) → ready w2 →
  w_events (aw_db w2) = e :: es → quiet e → s ∈ sessions (auth_db w2) → session_id s = response_SessionID a →
  live_session (ev_now e) (aw_clock w2 0 - sessionAbsoluteLifetime) s = true →
  ev_now e < response_AccessTokenExpiresAt a →
  ∃ w3, requireAuthentication (bearer_header (response_AccessToken a)) w2 =
    (Ok (Identity (user_ID (response_User a)) (response_SessionID a) (response_DeviceID a) (response_AccessTokenExpiresAt a)), w3).
Proof.
  intros Hw Hm Hev Hw2 He Hq Hs Hid Hlive Hexp.
  pose proof (register_spec app _ ip body w _ w1 (ready_idle w Hw) Hm) as (Hs1 & _ & Hiss).
  pose proof (ready_tables _ Hw2) as Hok2. pose proof (ok_db _ _ _ _ Hok2) as Hd2.
  apply (stable_db (K := issued a) _ (auth_db w2)) in Hiss; [|apply (sane_world _ _ Hs1)|done|done].
  destruct Hiss as (_ & (s' & Hs' & Hid' & Hu' & Hdev') & (t & x & Hft & Htok & Hx & Hh & Hxs & Hxe) & _).
  assert (s' = s) as -> by (apply (unique_key_inj session_id _ _ _ (ao_session_ids _ Hd2)); congruence).
  unfold requireAuthentication. rewrite Htok, bearer_fresh_token by done.
  destruct Hft as (raw & Hb & Hl & Ht). cbn [mbind option_bind]. rewrite Ht, decode_token by done. rewrite <-Ht, <-Hh.
  destruct w2 as [db bytes clock redis log]. cbn in *. destruct db as [d us start evs]. cbn in *. subst evs. eexists.
  unfold mbind at 1, proc_bind at 1, currentTime. cbn [aw_clock].
  pose proof (select_identity_finds (stmt_env_of (ev_now e) e) d x s (clock 0%nat - sessionAbsoluteLifetime) Hd2 Hx Hs
    ltac:(congruence) ltac:(cbn; lia) Hlive) as Hsel.
  erewrite proc_bind_run; [|apply attempt_run, on_database_run; apply (auto_statement_quiet _ _ _ _ _ _ _ _ Hq Hsel)].
  unfold mret, proc_ret. rewrite Hu', Hid', Hdev', Hxe. reflexivity.
Qed.

(** * A token that was used authenticates nobody any more *)

Lemma find_refresh_by d r : auth_ok d → r ∈ refresh_tokens d → find_refresh (refresh_hash r) d = Some r.
Proof. intros Hd Hr. by apply (first_by_key refresh_hash), Hr; apply (ao_refresh_hashes _ Hd). Qed.
Lemma find_session_by d s : auth_ok d → s ∈ sessions d → find_session (session_id s) d = Some s.
Proof. intros Hd Hs. by apply (first_by_id session_id), Hs; apply (ao_session_ids _ Hd). Qed.

Lemma consume_used env d r s cutoff :
  auth_ok d → r ∈ refresh_tokens d → s ∈ sessions d → session_id s = refresh_session r → is_Some (refresh_consumed_at r) →
  consume_refresh_token (refresh_hash r) cutoff env d = Err NoRows.
Proof.
  intros Hd Hr Hs Hid [t Ht]. unfold consume_refresh_token. cbv zeta. rewrite (find_refresh_by d r Hd Hr). cbn [mbind option_bind].
  rewrite <-Hid, (find_session_by d s Hd Hs). cbn [mbind option_bind]. unfold opt_none. by rewrite Ht.
Qed.

Lemma revoke_one env d s :
  auth_ok d → s ∈ sessions d → Forall (λ c : bool * string, c.1 = true) (check_session s) → session_revoked_at s = None →
  session_created_at s ≤ current_timestamp env →
  revoke_sessions (λ x, session_id x =? session_id s) env d = Ok (1, [RevokeSession (session_id s) (current_timestamp env)]).
Proof.
  intros Hd Hs Hchk Hr Hle. unfold revoke_sessions, rows_affected.
  rewrite (where_key session_id _ _ s); [|apply (ao_session_ids _ Hd)|done|apply Z.eqb_refl|by intros y _ ?%Z.eqb_eq].
  unfold revoke_rows.
  assert (first_violation (check_session (revoke (session_id s) (current_timestamp env) s)) = Ok tt) as ->; [|done].
  apply first_violation_ok. unfold revoke. rewrite Z.eqb_refl, Hr. unfold check_session in *. cbn in *.
  repeat (apply Forall_cons in Hchk as [? Hchk]). repeat constructor; try done. cbn. lia.
Qed.

(** One call after the other, nobody interfering. *)
Section calls.
Context (d : auth_database) (us : list auth_change) (start : Z) (e : event auth_database auth_change)
  (es : list (event auth_database auth_change)) (bytes clock : nat → Z) (redis : redis_world) (log : list (Z * option Z)).
Context (He : quiet e).

Abbreviation at_call d us start es := (AuthWorld (World d us start es) bytes clock redis log).

Lemma begin_run : on_database begin_tx (at_call d us start (e :: es)) = (Ok tt, at_call d [] (ev_now e) es).
Proof. unfold on_database. cbn. by rewrite begin_tx_quiet. Qed.

Lemma statement_run {A} (st : auth_statement A) a us' :
  st (stmt_env_of start e) (apply_changes us d) = Ok (a, us') →
  on_database (tx_statement st) (at_call d us start (e :: es)) = (Ok a, at_call d (us ++ us') start es).
Proof. intros Hst. unfold on_database. cbn. by rewrite (tx_statement_quiet _ _ _ _ _ _ _ _ He Hst). Qed.

Lemma statement_error {A} (st : auth_statement A) x :
  st (stmt_env_of start e) (apply_changes us d) = Err x →
  on_database (tx_statement st) (at_call d us start (e :: es)) = (Err (AuthDatabaseError x), at_call d us start es).
Proof. intros Hst. unfold on_database. cbn. by rewrite (tx_statement_quiet_error _ _ _ _ _ _ _ He Hst). Qed.

Lemma commit_run : on_database commit_tx (at_call d us start (e :: es)) = (Ok tt, at_call (apply_changes us d) [] start es).
Proof. unfold on_database. cbn. by rewrite commit_tx_quiet. Qed.
End calls.

Lemma currentTime_run {E A} (f : Z → proc auth_world E A) db bytes clock redis log :
  (currentTime ≫= f) (AuthWorld db bytes clock redis log) = f (clock 0%nat) (AuthWorld db bytes (λ n, clock (S n)) redis log).
Proof. done. Qed.

(** The stored result, if any, is not for this key. *)
Definition other_key (d : auth_database) (id : Z) (keyHash : list Z) : Prop :=
  ∀ x, x ∈ rotation_results d → rotation_token x = id → rotation_key_hash x ≠ keyHash.

Lemma select_rotation_other env d id keyHash :
  other_key d id keyHash →
  select_rotation id env d = Err NoRows ∨ ∃ x, select_rotation id env d = Ok (x, []) ∧ rotation_key_hash x ≠ keyHash.
Proof.
  intros Ho. unfold select_rotation, query_row. destruct (sql_first _ _) as [x|] eqn:E; [|by left]. right. exists x.
  apply sql_first_Some in E as [Hx Hid%Z.eqb_eq]. split; [done|]. by apply Ho.
Qed.

Lemma revoking_run d us start e4 e5 es bytes clock redis log s :
  quiet e4 → quiet e5 → auth_ok d → us = [] → s ∈ sessions d → Forall (λ c : bool * string, c.1 = true) (check_session s) →
  session_revoked_at s = None → session_created_at s ≤ start →
  (_ ← on_database (tx_statement (revoke_sessions (λ x, session_id x =? session_id s)));
   _ ← on_database commit_tx;
   _ ← disconnect app (session_user s) (Some (session_id s)); mret None : auth_proc (option authResponse))
    (AuthWorld (World d us start (e4 :: e5 :: es)) bytes clock redis log) =
  (Ok None, AuthWorld (World (apply_change (RevokeSession (session_id s) start) d) [] start es) bytes clock redis
    (if realtime app then log ++ [(session_user s, Some (session_id s))] else log)).
Proof.
  intros H4 H5 Hd -> Hs Hchk Hr Hle.
  pose proof (revoke_one (stmt_env_of start e4) d s Hd Hs Hchk Hr Hle) as Hrev.
  rewrite (proc_bind_run _ _ _ _ _ (statement_run d [] start e4 (e5 :: es) bytes clock redis log H4 _ _ _ Hrev)).
  rewrite (proc_bind_run _ _ _ _ _ (commit_run d _ start e5 es bytes clock redis log H5)).
  unfold mbind, proc_bind, disconnect. destruct (realtime app); done.
Qed.

(** C13: A refresh token that was already consumed and is
    presented with another key, while its session lives, is refused, and the session is
    revoked and its connections told to close. *)
Theorem reused_token_revokes_session c keyHash r s e0 e1 e2 e3 e4 e5 es w :
  ready w → w_events (aw_db w) = e0 :: e1 :: e2 :: e3 :: e4 :: e5 :: es → Forall quiet [e0; e1; e2; e3; e4; e5] →
  r ∈ refresh_tokens (auth_db w) → is_Some (refresh_consumed_at r) →
  s ∈ sessions (auth_db w) → session_id s = refresh_session r → session_revoked_at s = None →
  Forall (λ c : bool * string, c.1 = true) (check_session s) → session_created_at s ≤ ev_now e0 →
  aw_clock w 1 < session_idle_expires_at s → aw_clock w 2 < session_created_at s + sessionAbsoluteLifetime →
  other_key (auth_db w) (refresh_id r) keyHash →
  ∃ w', rotateRefreshToken app c (refresh_hash r) keyHash w = (Ok None, w') ∧ ended (session_id s) (auth_db w') ∧
    (realtime app = true → aw_disconnected w' = aw_disconnected w ++ [(session_user s, Some (session_id s))]).
Proof.
  intros [Hw _ Htx] He Hq Hr Hcon Hs Hid Hrev Hchk Hcr Hidle Habs Hother.
  pose proof (ok_db _ _ _ _ Hw) as Hd. destruct w as [[d us start evs] bytes clock redis log]. cbn in *. subst evs us.
  repeat (let Hn := fresh "Hq" in apply Forall_cons in Hq as [Hn Hq]).
  assert (consume_refresh_token (refresh_hash r) (clock 0%nat - sessionAbsoluteLifetime) (stmt_env_of (ev_now e0) e1) d = Err NoRows)
    as Hconsume by (by apply (consume_used _ _ r s)).
  assert (select_refresh (refresh_hash r) (stmt_env_of (ev_now e0) e2) d = Ok ((r, s), [])) as Hfind.
  { unfold select_refresh, query_row. rewrite (find_refresh_by d r Hd Hr). cbn [mbind option_bind].
    by rewrite <-Hid, (find_session_by d s Hd Hs). }
  assert (opt_none (refresh_consumed_at r) || negb (unrevoked s) = false) as Hused.
  { unfold unrevoked. rewrite Hrev. by destruct Hcon as [t ->]. }
  exists (AuthWorld (World (apply_change (RevokeSession (session_id s) (ev_now e0)) d) [] (ev_now e0) es) bytes
    (λ n, clock (S (S (S n)))) redis (if realtime app then log ++ [(session_user s, Some (session_id s))] else log)).
  split; [|split].
  - unfold rotateRefreshToken. rewrite (proc_bind_run _ _ _ _ _ (begin_run d [] start e0 _ bytes clock redis log ltac:(done))).
    unfold deferring. rewrite currentTime_run.
    rewrite (proc_bind_run _ _ _ _ _ (attempt_run _ _ _ _ (statement_error d [] _ e1 _ bytes _ redis log ltac:(done) _ _ Hconsume))).
    cbv iota. unfold handleUsedOrInvalidRefresh.
    rewrite (proc_bind_run _ _ _ _ _ (attempt_run _ _ _ _ (statement_run d [] _ e2 _ bytes _ redis log ltac:(done) _ _ _ Hfind))).
    cbv iota. rewrite Hused, currentTime_run. replace (clock 1%nat <? session_idle_expires_at s) with true by lia.
    cbn [negb]. rewrite currentTime_run. replace (clock 2%nat <? session_created_at s + sessionAbsoluteLifetime) with true by lia.
    cbn [negb]. unfold replay_or_revoke.
    destruct (select_rotation_other (stmt_env_of (ev_now e0) e3) d (refresh_id r) keyHash Hother) as [Hsel|(x & Hsel & Hk)].
    + rewrite (proc_bind_run _ _ _ _ _ (attempt_run _ _ _ _ (statement_error d [] _ e3 _ bytes _ redis log ltac:(done) _ _ Hsel))).
      cbv iota. rewrite (proc_bind_run _ _ _ _ _ (eq_refl : (mret None : auth_proc (option rotation_row)) _ = _)).
      cbv iota. by rewrite revoking_run.
    + rewrite (proc_bind_run _ _ _ _ _ (attempt_run _ _ _ _ (statement_run d [] _ e3 _ bytes _ redis log ltac:(done) _ _ _ Hsel))).
      cbv iota. rewrite bool_decide_eq_false_2 by done.
      rewrite (proc_bind_run _ _ _ _ _ (eq_refl : (mret None : auth_proc (option rotation_row)) _ = _)).
      cbv iota. by rewrite revoking_run.
  - exists (revoke (session_id s) (ev_now e0) s). split; [by apply list_elem_of_fmap_2|]. split; [apply revoke_same|].
    unfold revoke. rewrite Z.eqb_refl. cbn. by eexists.
  - cbn. by intros ->.
Qed.
End works.
