(* ===== verification/AuthExamples.v ===== *)
(** The accounts' properties at concrete inputs: alice registers, logs in twice with one
    request, refreshes twice with one key, and logs out. *)
From Stdlib Require Import Ascii String.
From S2P Require Import Prelude GoStd Text Tables Driver Json Schema MessageStore MessageService ConversationSync JsonText AuthTables AuthOk.
From S2P Require Import Redis RateLimit Encoding Credentials CredentialsOk AuthQueries Auth AuthSpec AuthLogin AuthHandlers.
From S2P Require Import AuthPromises AuthWorks.
Open Scope Z_scope.

(** * Instances of the libraries: nothing is kept secret. *)

#[local] Instance example_time : TimeText := binary_time.

#[local] Instance padded_digest : SHA256.
Proof.
  refine {| Sum256 bs := take 32 (bs ++ replicate 32 0) |}.
  intros bs. rewrite length_take, length_app, length_replicate. lia.
Defined.

#[local] Instance padded_key : Argon2.
Proof.
  refine {| IDKey password salt t m p n := take (Z.to_nat n) (((λ b, b mod 256) <$> password) ++ replicate (Z.to_nat n) 0) |}.
  - intros password salt t m p n Hn. rewrite length_take, length_app, length_replicate. lia.
  - intros password salt t m p n. apply Forall_take, Forall_app. split; [|by apply Forall_replicate].
    apply Forall_fmap, Forall_true. intros b. simpl. by apply Z.mod_pos_bound.
Defined.

#[local] Instance plain_cipher : GCM.
Proof.
  intros key. refine {| NonceSize := 12; aead_seal _ plaintext _ := plaintext; aead_open _ sealed _ := Some sealed |}. done.
Defined.

#[local] Instance ascii_lower : UnicodeLower.
Proof. by refine {| to_lower r := if in_range 65 90 r then r + 32 else r |}. Defined.

(** * The story *)

Definition example_cipher : responseCipher := ResponseCipher {[1 := replicate 32 7]} 1.
Definition example_app : auth_application := AuthApplication false false (Some example_cipher) true.

Definition example_now : Z := 1700000000000000.
Definition example_event (n : nat) : event auth_database auth_change :=
  Event example_now (Z.of_nat (S n)) (λ _, EmptyString) (λ _, false) NoFault (λ _ d, d).

Definition empty_world : auth_world :=
  AuthWorld (World (AuthDatabase [] [] [] [] [] []) [] 0 (example_event <$> seq 0 60)) (λ n, Z.of_nat n) (λ _, example_now)
    (RedisWorld (RedisDb ∅ 0 (λ _, 0%nat) []) []) [].

Definition register_body : list Z := marshal (JObject [("username"%string, JText "Alice");
  ("displayName"%string, JText "Alice A."); ("password"%string, JText "correct horse"); ("deviceId"%string, JText "laptop")]).
Definition login_body : list Z := marshal (JObject [("username"%string, JText "alice");
  ("password"%string, JText "correct horse"); ("loginRequestId"%string, JText "login-request-0001"); ("deviceId"%string, JText "phone")]).

(** The answer of a run that succeeds. *)
Definition answer {A} (d : A) (x : result problem A * auth_world) : A := match x.1 with Ok a => a | Err _ => d end.

Lemma succeeded {A} (d : A) (x : result problem A * auth_world) : is_ok x.1 = true → x = (Ok (answer d x), x.2).
Proof. destruct x as [[e|a] w]; done. Qed.

Lemma succeeded_unit (x : result problem unit * auth_world) : is_ok x.1 = true → x = (Ok tt, x.2).
Proof. by destruct x as [[e|[]] w]. Qed.

Definition no_response : authResponse := zero_response.

Definition registration := register example_app "192.0.2.1" register_body empty_world.
Definition first_login := login example_app "192.0.2.1" login_body registration.2.
Definition second_login := login example_app "192.0.2.1" login_body first_login.2.

Definition refresh_body : list Z := marshal (JObject [
  ("refreshToken"%string, JText (response_RefreshToken (answer no_response first_login)));
  ("idempotencyKey"%string, JText "refresh-key-000001")]).
Definition first_refresh := refresh example_app "192.0.2.1" refresh_body second_login.2.
Definition second_refresh := refresh example_app "192.0.2.1" refresh_body first_refresh.2.

Definition bearer : string := bearer_header (response_AccessToken (answer no_response second_refresh)).
Definition no_identity : identity := Identity 0 0 "" 0.
Definition authentication := requireAuthentication bearer second_refresh.2.
Definition alice : identity := answer no_identity authentication.
Definition farewell := logout example_app alice authentication.2.

(** * The worlds are ready *)

Lemma empty_ok : auth_ok (AuthDatabase [] [] [] [] [] []).
Proof. split; first [apply NoDup_nil_2 | intros; exfalso; eapply not_elem_of_nil; eassumption]. Qed.

Lemma example_quiet n : quiet (example_event n).
Proof. done. Qed.

Lemma empty_ready : ready empty_world.
Proof.
  split; [|done|done]. split; [apply empty_ok|apply empty_ok|].
  apply Forall_fmap, Forall_true. intros n. apply quiet_respects; [intros us; apply _|apply example_quiet].
Qed.

Lemma example_configured : cipher_configured example_app.
Proof. intros c [= <-]. by exists (replicate 32 7). Qed.

Lemma keeps_ready {A} (m : auth_handler A) w : keeps m → ready w → ready (m w).2.
Proof. intros Hm Hw. destruct (m w) as [r w'] eqn:E. by eapply Hm. Qed.

Lemma register_keeps ip body : keeps (register example_app ip body).
Proof. apply (triple_keeps _ (λ _, issued)). intros d0. apply register_spec. Qed.
Lemma login_keeps ip body : keeps (login example_app ip body).
Proof. apply (triple_keeps _ (λ _, login_answered example_app body)). intros d0. apply login_spec, example_configured. Qed.
Lemma refresh_keeps ip body : keeps (refresh example_app ip body).
Proof. apply (triple_keeps _ (λ d0, refresh_answered example_app d0 body)). intros d0. apply refresh_spec, example_configured. Qed.
Lemma authentication_keeps header : keeps (requireAuthentication header).
Proof. apply (triple_keeps _ (λ _, authenticated header)). intros d0. apply requireAuthentication_spec. Qed.
Lemma logout_keeps who : keeps (logout example_app who).
Proof. eapply (triple_keeps _ (λ _ _, _)). intros d0. apply logout_spec. Qed.

Lemma registration_ready : ready registration.2.
Proof. apply keeps_ready; [apply register_keeps|apply empty_ready]. Qed.
Lemma first_login_ready : ready first_login.2.
Proof. apply keeps_ready; [apply login_keeps|apply registration_ready]. Qed.
Lemma second_login_ready : ready second_login.2.
Proof. apply keeps_ready; [apply login_keeps|apply first_login_ready]. Qed.
Lemma first_refresh_ready : ready first_refresh.2.
Proof. apply keeps_ready; [apply refresh_keeps|apply second_login_ready]. Qed.
Lemma second_refresh_ready : ready second_refresh.2.
Proof. apply keeps_ready; [apply refresh_keeps|apply first_refresh_ready]. Qed.
Lemma authentication_ready : ready authentication.2.
Proof. apply keeps_ready; [apply authentication_keeps|apply second_refresh_ready]. Qed.
Lemma farewell_ready : ready farewell.2.
Proof. apply keeps_ready; [apply logout_keeps|apply authentication_ready]. Qed.

(** * The properties there *)

Lemma registration_answered : register example_app "192.0.2.1" register_body empty_world = (Ok (answer no_response registration), registration.2).
Proof. unfold registration. apply succeeded. vm_compute. reflexivity. Qed.
Lemma first_login_answered : login example_app "192.0.2.1" login_body registration.2 = (Ok (answer no_response first_login), first_login.2).
Proof. unfold first_login. apply succeeded. vm_compute. reflexivity. Qed.
Lemma second_login_answered : login example_app "192.0.2.1" login_body first_login.2 = (Ok (answer no_response second_login), second_login.2).
Proof. unfold second_login. apply succeeded. vm_compute. reflexivity. Qed.
Lemma first_refresh_answered : refresh example_app "192.0.2.1" refresh_body second_login.2 = (Ok (answer no_response first_refresh), first_refresh.2).
Proof. unfold first_refresh. apply succeeded. vm_compute. reflexivity. Qed.
Lemma second_refresh_answered : refresh example_app "192.0.2.1" refresh_body first_refresh.2 = (Ok (answer no_response second_refresh), second_refresh.2).
Proof. unfold second_refresh. apply succeeded. vm_compute. reflexivity. Qed.

Definition no_session : session_row := SessionRow 0 0 "" 0 None 0.
Definition nth_session (n : nat) (w : auth_world) : session_row := default no_session (sessions (auth_db w) !! n).

Lemma nth_session_in n w : is_Some (sessions (auth_db w) !! n) → nth_session n w ∈ sessions (auth_db w).
Proof. unfold nth_session. intros [s Hs]. rewrite Hs. by eapply list_elem_of_lookup_2. Qed.

Lemma auth_keeps_tables_witness : cipher_configured example_app ∧ ready farewell.2 ∧
  keeps (login example_app "192.0.2.1" login_body) ∧ keeps (changePassword example_app alice []).
Proof.
  split; [apply example_configured|]. split; [apply farewell_ready|].
  destruct (auth_keeps_tables example_app example_configured "192.0.2.1" login_body "1" bearer alice) as (_ & Hlogin & _).
  destruct (auth_keeps_tables example_app example_configured "192.0.2.1" [] "1" bearer alice) as (_ & _ & _ & _ & _ & _ & _ & Hpw & _).
  done.
Defined.

Lemma login_is_idempotent_witness :
  is_ok second_login.1 = true ∧ answer no_response second_login = answer no_response first_login.
Proof.
  split; [vm_compute; reflexivity|].
  refine (login_is_idempotent example_app example_configured "192.0.2.1" "192.0.2.1" login_body login_body
    (LoginRequest "alice" "correct horse" "login-request-0001" "phone") (LoginRequest "alice" "correct horse" "login-request-0001" "phone")
    _ _ registration.2 first_login.2 first_login.2 second_login.2 _ _ eq_refl registration_ready _ _ first_login_ready _).
  - vm_compute. reflexivity.
  - vm_compute. reflexivity.
  - exact first_login_answered.
  - reflexivity.
  - exact second_login_answered.
Defined.

Definition example_refresh : refreshRequest :=
  RefreshRequest (response_RefreshToken (answer no_response first_login)) "refresh-key-000001".

(** Two refreshes that overlap: the first commits while the second begins its
    transaction. *)
#[local] Instance user_row_eq_dec : EqDecision user_row.
Proof. solve_decision. Defined.
#[local] Instance session_row_eq_dec : EqDecision session_row.
Proof. solve_decision. Defined.
#[local] Instance access_row_eq_dec : EqDecision access_row.
Proof. solve_decision. Defined.
#[local] Instance refresh_row_eq_dec : EqDecision refresh_row.
Proof. solve_decision. Defined.
#[local] Instance login_row_eq_dec : EqDecision login_row.
Proof. solve_decision. Defined.
#[local] Instance rotation_row_eq_dec : EqDecision rotation_row.
Proof. solve_decision. Defined.
#[local] Instance auth_database_eq_dec : EqDecision auth_database.
Proof. solve_decision. Defined.

(** Somebody's transaction leads from [d0] to [d1]. *)
Definition commits (d0 d1 : auth_database) : event auth_database auth_change :=
  Event example_now 40 (λ _, EmptyString) (λ _, false) NoFault (λ us d,
    match us with [] => if decide (d = d0) then d1 else d | _ => d end).
Definition commit_first (d0 d1 : auth_database) (redis : redis_world) : auth_world :=
  AuthWorld (World d0 [] 0 (commits d0 d1 :: (example_event <$> seq 41 19))) (λ n, Z.of_nat (100 + n)) (λ _, example_now) redis [].

Lemma commits_respects d0 d1 :
  auth_ok d1 → auth_evolves [] d0 d1 → respects auth_ok auth_ok auth_evolves (commits d0 d1).
Proof.
  intros Hok Hev us d Hd Hv. assert (∀ us' d', auth_evolves us' d' d') as Hrefl by (intros us' d'; reflexivity).
  destruct us as [|u us]; [|exact (conj (conj Hd (Hrefl _ _)) (conj Hv (Hrefl _ _)))].
  cbn [ev_env commits]. case_decide as E; [|exact (conj (conj Hd (Hrefl _ _)) (conj Hv (Hrefl _ _)))].
  subst d. exact (conj (conj Hok Hev) (conj Hok Hev)).
Qed.

Lemma commit_first_begins d0 d1 redis : auth_db (commit_first d0 d1 redis) = d0.
Proof. reflexivity. Qed.

Lemma commit_first_ready d0 d1 redis :
  auth_ok d0 → auth_ok d1 → auth_evolves [] d0 d1 → ready (commit_first d0 d1 redis).
Proof.
  intros Hd0 Hd1 Hev. split; [|done|done]. apply WorldOk; [exact Hd0|exact Hd0|].
  apply Forall_cons_2; [by apply commits_respects|].
  apply Forall_fmap, Forall_true. intros n. apply quiet_respects; [intros us; apply _|apply example_quiet].
Qed.

Definition overlapped : auth_world := commit_first (auth_db second_login.2) (auth_db first_refresh.2) (aw_redis second_login.2).
Definition overlapping_refresh := refresh example_app "192.0.2.1" refresh_body overlapped.

Lemma first_refresh_evolves : auth_evolves [] (auth_db second_login.2) (auth_db first_refresh.2).
Proof.
  exact (proj2 (refresh_keeps "192.0.2.1" refresh_body second_login.2 (Ok (answer no_response first_refresh)) first_refresh.2
    second_login_ready first_refresh_answered)).
Qed.

Lemma overlapped_ready : ready overlapped.
Proof.
  exact (commit_first_ready _ _ _ (ok_db _ _ _ _ (ready_tables _ second_login_ready))
    (ok_db _ _ _ _ (ready_tables _ first_refresh_ready)) first_refresh_evolves).
Qed.

Lemma overlapping_refresh_answered :
  refresh example_app "192.0.2.1" refresh_body overlapped = (Ok (answer no_response overlapping_refresh), overlapping_refresh.2).
Proof. unfold overlapping_refresh. apply succeeded. vm_compute. reflexivity. Qed.

Lemma overlapping_tables : auth_db overlapping_refresh.2 = auth_db first_refresh.2.
Proof. vm_compute. reflexivity. Qed.

Lemma overlapping_evolves (d d' : auth_database) : d' = d → auth_evolves [] d d'.
Proof. intros ->. reflexivity. Qed.

Lemma rotation_is_single_use_witness :
  auth_db overlapped = auth_db second_login.2 ∧ answer no_response overlapping_refresh = answer no_response first_refresh.
Proof.
  split; [exact (commit_first_begins _ _ _)|].
  refine (proj2 (rotation_is_single_use example_app example_configured "192.0.2.1" "192.0.2.1" refresh_body refresh_body
    example_refresh example_refresh _ _ second_login.2 first_refresh.2 overlapped overlapping_refresh.2 _ _ eq_refl
    second_login_ready _ overlapped_ready overlapping_refresh_answered _)).
  - vm_compute. reflexivity.
  - vm_compute. reflexivity.
  - exact first_refresh_answered.
  - exact (overlapping_evolves _ _ overlapping_tables).
Defined.

Lemma farewell_answered : logout example_app alice authentication.2 = (Ok tt, farewell.2).
Proof. unfold farewell. apply succeeded_unit. vm_compute. reflexivity. Qed.

Lemma revocation_is_final_witness :
  is_ok farewell.1 = true ∧ session_id (nth_session 1 farewell.2) = authenticatedSessionID alice ∧
  ∀ header who' w3, requireAuthentication header farewell.2 = (Ok who', w3) → authenticatedSessionID who' ≠ session_id (nth_session 1 farewell.2).
Proof.
  split; [vm_compute; reflexivity|]. split; [vm_compute; reflexivity|].
  refine (proj1 (revocation_is_final example_app example_configured alice _ _ authentication.2 farewell.2 farewell.2
    (nth_session 1 farewell.2) (ends_one example_app alice) authentication_ready _ _ _ _ farewell_ready)).
  - exact farewell_answered.
  - apply nth_session_in. vm_compute. eauto.
  - vm_compute. reflexivity.
  - reflexivity.
Defined.

Lemma issued_token_authenticates_witness :
  ∃ w3, requireAuthentication (bearer_header (response_AccessToken (answer no_response registration))) registration.2 =
    (Ok (Identity (user_ID (response_User (answer no_response registration))) (response_SessionID (answer no_response registration))
      (response_DeviceID (answer no_response registration)) (response_AccessTokenExpiresAt (answer no_response registration))), w3).
Proof.
  refine (issued_token_authenticates example_app "192.0.2.1" register_body _ empty_world registration.2 registration.2
    (example_event 6) (example_event <$> seq 7 53) (nth_session 0 registration.2) empty_ready _ _ registration_ready _
    (example_quiet 6) _ _ _ _).
  - exact registration_answered.
  - reflexivity.
  - vm_compute. reflexivity.
  - apply nth_session_in. vm_compute. eauto.
  - vm_compute. reflexivity.
  - vm_compute. reflexivity.
  - vm_compute. reflexivity.
Defined.

(** ** The consumed token under another key *)

Definition no_refresh : refresh_row := RefreshRow 0 0 None [] 0 None 0.
Definition used_token : refresh_row := default no_refresh (refresh_tokens (auth_db first_refresh.2) !! 1%nat).

Lemma used_token_in : used_token ∈ refresh_tokens (auth_db first_refresh.2).
Proof. apply (list_elem_of_lookup_2 _ 1%nat). vm_compute. reflexivity. Qed.

(** The calls that are left after the first refresh. *)
Definition later_events : list (event auth_database auth_change) := example_event <$> seq 31 29.

Lemma events_left : w_events (aw_db first_refresh.2) = example_event 25 :: example_event 26 :: example_event 27 ::
  example_event 28 :: example_event 29 :: example_event 30 :: later_events.
Proof. vm_compute. reflexivity. Qed.

Lemma reused_token_revokes_session_witness :
  ∃ w', rotateRefreshToken example_app example_cipher (refresh_hash used_token) (Sum256 (bytes_of "another-key-000001")) first_refresh.2 =
      (Ok None, w') ∧ ended (session_id (nth_session 1 first_refresh.2)) (auth_db w') ∧
    (realtime example_app = true → aw_disconnected w' = aw_disconnected first_refresh.2 ++
      [(session_user (nth_session 1 first_refresh.2), Some (session_id (nth_session 1 first_refresh.2)))]).
Proof.
  refine (reused_token_revokes_session example_app example_cipher _ used_token (nth_session 1 first_refresh.2)
    (example_event 25) (example_event 26) (example_event 27) (example_event 28) (example_event 29) (example_event 30)
    later_events first_refresh.2 first_refresh_ready events_left _ used_token_in _ _ _ _ _ _ _ _ _).
  - repeat constructor.
  - exists example_now. vm_compute. reflexivity.
  - apply nth_session_in. vm_compute. eauto.
  - vm_compute. reflexivity.
  - vm_compute. reflexivity.
  - repeat constructor; vm_compute; reflexivity.
  - vm_compute. discriminate.
  - vm_compute. reflexivity.
  - vm_compute. reflexivity.
  - intros x Hx _ Hk.
    assert (sql_exists (λ x, bool_decide (rotation_key_hash x = Sum256 (bytes_of "another-key-000001")))
      (rotation_results (auth_db first_refresh.2)) = false) as Hno by (vm_compute; reflexivity).
    rewrite sql_exists_false in Hno. specialize (Hno x Hx). by apply bool_decide_eq_false in Hno.
Defined.

(** ** Secrets *)

Definition old_key : string := string_of (std_encode (replicate 32 7)).
Definition new_key : string := string_of (std_encode (replicate 32 9)).
Definition previous_keys : string := "1:" +:+ old_key.
Definition new_cipher : responseCipher := ResponseCipher {[2 := replicate 32 9; 1 := replicate 32 7]} 2.
Definition example_response : authResponse := AuthResponse (User 2 "alice" "Alice A.") 11 "phone" 1 "access" 2 "refresh" 3.

Lemma key_rotation_keeps_responses_witness :
  newResponseCipherKeyring old_key 1 "" = Ok example_cipher ∧ newResponseCipherKeyring new_key 2 previous_keys = Ok new_cipher ∧
  decrypt decode_response new_cipher 1 "login" [1; 2; 3] (replicate 12 5)
    (encrypt example_cipher "login" [1; 2; 3] (response_struct example_response) (replicate 12 5)) = Ok example_response.
Proof.
  split; [vm_compute; reflexivity|]. split; [vm_compute; reflexivity|].
  refine (key_rotation_keeps_responses old_key 1 "" example_cipher new_key 2 previous_keys new_cipher (bytes_of previous_keys)
    "login" [1; 2; 3] (replicate 12 5) example_response _ _ _ _ _ _ _ _).
  - vm_compute. reflexivity.
  - vm_compute. reflexivity.
  - split; vm_compute; discriminate.
  - vm_compute. discriminate.
  - apply (list_elem_of_lookup_2 _ 0%nat). vm_compute. reflexivity.
  - vm_compute. reflexivity.
  - reflexivity.
  - split_and!; try (split; vm_compute; discriminate); vm_compute; reflexivity.
Defined.

Lemma password_verifies_witness :
  verifyPassword "wrong horse" (password_hash "correct horse" (replicate 16 3)) = Ok false ∧
  verifyPassword "correct horse" (password_hash "correct horse" (replicate 16 3)) = Ok true.
Proof.
  destruct (password_verifies "wrong horse" "correct horse" (replicate 16 3)) as [Hno Hyes].
  - apply Forall_replicate. unfold is_byte. lia.
  - split; [|exact Hyes]. rewrite Hno. vm_compute. reflexivity.
Defined.

Lemma token_round_trip_witness :
  decodeAndHashToken (token_raw (token_of (replicate 32 200))) = Some (replicate 32 200, replicate 32 200) ∧
  List.length (replicate 32 200) = tokenLength.
Proof.
  split; [|reflexivity]. refine (proj1 (token_round_trip (replicate 32 200) "" _ eq_refl)).
  apply Forall_replicate. unfold is_byte. lia.
Defined.
