(* ===== verification/Handshake.v ===== *)
(** [websocket.go], from the request to the running connection: [serveWebSocket], which
    registers a connection while it holds its session's row against revocation, and
    the goroutines that watch the session and the presence record meanwhile. *)
From Stdlib Require Import Ascii String.
From S2P Require Import Prelude GoStd Tables Driver MessageService ConversationSync Redis Presence Hub Router AuthTables Credentials AuthQueries Auth.
Open Scope Z_scope.

(** * The world: the accounts' side and the realtime side of one instance *)

Record socket_world : Type := SocketWorld { sw_auth : auth_world; sw_router : router_world }.

Definition socket_hub (w : socket_world) : webSocketHub := hub (sw_router w).

(** How a handshake ends without a running connection: an HTTP error, an upgrade that
    [websocket.Accept] refused and answered itself, a close before the hub knows the
    client, or the client's shutdown. *)
Inductive handshake_end : Type :=
| Answered (p : problem)
| NotUpgraded
| ConnectionClosed (code : Z) (reason : string)
| ClientShut (code : Z) (reason : string).

Abbreviation socket_proc := (proc socket_world handshake_end).

Definition on_auth {E A} (m : proc auth_world E A) : proc socket_world E A := λ w,
  let '(r, a) := m (sw_auth w) in (r, SocketWorld a (sw_router w)).
Definition on_router {E A} (m : proc router_world E A) : proc socket_world E A := λ w,
  let '(r, x) := m (sw_router w) in (r, SocketWorld (sw_auth w) x).

Definition with_hub (h : webSocketHub) (w : router_world) : router_world :=
  RouterWorld h (hub_trips w) (instance_orders w) (remote w).

(** What a goroutine does to a client without asking the hub. *)
Definition at_hub {E} (ev : hub_event) : proc socket_world E unit :=
  on_router (λ w, (Ok tt, with_hub (hub_step (hub w) ev) w)).

(** What the hub and the connections do meanwhile. *)
Definition hub_events {E} (evs : list hub_event) : proc socket_world E unit :=
  on_router (λ w, (Ok tt, with_hub (hub_run (hub w) evs) w)).

(** A new object of the heap. *)
Definition allocate {E} (c : webSocketClient) : proc socket_world E nat := λ w,
  let ref := fresh (dom (objects (socket_hub w))) in
  let '(_, w') := at_hub (E := E) (ClientMade ref c) w in (Ok ref, w').

(** * Statements *)

Definition is_live_session (sessionID userID cutoff now : Z) (s : session_row) : bool :=
  (session_user s =? userID) && live_session now cutoff s.

(** [SELECT id FROM sessions ... FOR SHARE]. *)
Definition share_session (sessionID userID cutoff : Z) : auth_statement Z := λ env d,
  match find_session sessionID d with
  | None => Err NoRows
  | Some s =>
      if is_live_session sessionID userID cutoff (current_timestamp env) s
      then Ok (AuthTables.session_id s, [ShareSession sessionID]) else Err NoRows
  end.

(** [SELECT EXISTS (...)]. *)
Definition session_active (sessionID userID cutoff : Z) : auth_statement bool := λ env d,
  Ok (match find_session sessionID d with
      | None => false
      | Some s => is_live_session sessionID userID cutoff (current_timestamp env) s
      end, []).

(** * The handshake *)

Definition StatusInternalError : Z := 1011.
Definition StatusTryAgainLater : Z := 1013.

(** [app]: whether it has a hub, and its presence and router. *)
Record socket_application : Type := SocketApplication {
  has_hub : bool; webSocketPresence : option redisWebSocketPresence; realtimeRouter : option redisRealtimeRouter
}.

Section handshake.
Context `{SHA256}.
Context (app : socket_application).

(** [client.shutdown] and a return. *)
Definition shut {A} (ref : nat) (code : Z) (reason : string) : socket_proc A :=
  _ ← at_hub (ClientShutdown ref code reason); mthrow (ClientShut code reason).

(** The client announces itself; a connection that it replaces is disconnected.  Errors
    are logged. *)
Definition announce (presence : redisWebSocketPresence) (router : redisRealtimeRouter) (record : webSocketPresenceRecord) :
    socket_proc unit :=
  registered ← attempt (on_router (on_redis (Presence.Register presence record)));
  match registered with
  | Ok (Some old) =>
      if bool_decide (ConnectionID old = ConnectionID record) then mret tt
      else
        _ ← attempt (on_router (DisconnectReplaced router old)) : socket_proc (result string unit);
        mret tt
  | _ => mret tt
  end.

(** A deferred call, whose error is logged. *)
Definition and_then {E A B} (m : socket_proc A) (call : proc socket_world E B) : socket_proc A := λ w,
  let '(r, w1) := m w in let '(_, w2) := call w1 in (r, w2).

(** [m] between the announcement and the deferred [Unregister]. *)
Definition with_presence {A} (c : webSocketClient) (m : socket_proc A) : socket_proc A :=
  match webSocketPresence app, realtimeRouter app with
  | Some presence, Some router =>
      let record := WebSocketPresenceRecord (userID c) (sessionID c) (connectionID c) (instanceID router) in
      _ ← announce presence router record;
      and_then m (on_router (on_redis (Presence.Unregister presence record)))
  | _, _ => m
  end.

(** [defer tx.Rollback]. *)
Definition socket_deferring {A} (m : socket_proc A) : socket_proc A := λ w,
  let '(r, w') := m w in
  let '(r', a) := deferring (λ a, (r, a)) (sw_auth w') in (r', SocketWorld a (sw_router w')).

(** The end of the transaction, and the connection while it runs. *)
Definition commit_and_run {A} (ref : nat) (handled : bool) (run : socket_proc A) : socket_proc A :=
  committed ← attempt (on_auth (on_database commit_tx));
  match committed with
  | Err _ =>
      _ ← at_hub (ClientShutdown ref StatusTryAgainLater "session validation unavailable");
      _ ← attempt (on_router (on_hub (λ how _,
            Hub.Unregister how handled ref StatusTryAgainLater "session validation unavailable")))
          : socket_proc (result string unit);
      mthrow (ClientShut StatusTryAgainLater "session validation unavailable"%string)
  | Ok _ => run
  end.

(** The transaction: the session's row is held while the hub registers the client. *)
Definition register_session {A} (ref : nat) (c : webSocketClient) (handled : bool) (run : socket_proc A) : socket_proc A :=
  now ← on_auth currentTime;
  found ← attempt (on_auth (on_database (tx_statement
            (share_session (sessionID c) (userID c) (now - sessionAbsoluteLifetime)))));
  match found with
  | Err (AuthDatabaseError NoRows) => shut ref StatusPolicyViolation "session revoked"
  | Err _ => shut ref StatusTryAgainLater "session validation unavailable"
  | Ok _ =>
      registered ← attempt (on_router (on_hub (λ how _, Hub.Register how ref)));
      match registered with
      | Err _ => mthrow (ConnectionClosed StatusTryAgainLater "realtime messaging is unavailable"%string)
      | Ok _ => with_presence c (commit_and_run ref handled run)
      end
  end.

(** [serveWebSocket] up to [client.run], which is [run].  [upgraded] is [Accept]'s
    outcome, [handled] whether the hub comes to the [Unregister] of a failed commit
    before the handler returns. *)
Definition serve_with {A} (who : identity) (upgraded handled : bool) (run : nat → webSocketClient → socket_proc A) :
    socket_proc A :=
  if negb (has_hub app) then
    mthrow (Answered (503, "REALTIME_UNAVAILABLE"%string, "realtime messaging is temporarily unavailable"%string))
  else if negb upgraded then mthrow NotUpgraded
  else
    identifier ← on_auth newToken;
    match newWebSocketClient (authenticatedUserID who) (authenticatedSessionID who) (token_raw identifier) true
            defaultWebSocketClientConfig with
    | Err _ => mthrow (ConnectionClosed StatusInternalError "could not create connection"%string)
    | Ok c =>
        ref ← allocate c;
        begun ← attempt (on_auth (on_database begin_tx));
        match begun with
        | Err _ => shut ref StatusTryAgainLater "session validation unavailable"
        | Ok _ => socket_deferring (register_session ref c handled (run ref c))
        end
    end.

(** [client.run]: whatever the hub and the connection do until one of its pumps ends,
    and the [Unregister] that follows; [deadlineExceeded] is how its context ended. *)
Definition run_client (meanwhile : list hub_event) (deadlineExceeded handled : bool) (ref : nat) : socket_proc unit :=
  _ ← hub_events meanwhile;
  let '(code, reason) := run_end deadlineExceeded in
  _ ← attempt (on_router (on_hub (λ how _, Hub.Unregister how handled ref code reason))) : socket_proc (result string unit);
  mret tt.

Definition serveWebSocket (who : identity) (upgraded handled : bool) (meanwhile : list hub_event)
    (deadlineExceeded : bool) : socket_proc unit :=
  serve_with who upgraded handled (λ ref _, run_client meanwhile deadlineExceeded handled ref).

(** * The watches

    [ticks] are those of the ticker until the context ends, each with what the hub and
    the connections did before it. *)

Definition session_check (ref : nat) (c : webSocketClient) : socket_proc bool :=
  now ← on_auth currentTime;
  checked ← attempt (on_auth (on_database (auto_statement
              (session_active (sessionID c) (userID c) (now - sessionAbsoluteLifetime)))));
  match checked with
  | Err _ => _ ← at_hub (ClientShutdown ref StatusTryAgainLater "session validation unavailable"); mret false
  | Ok false => _ ← at_hub (ClientShutdown ref StatusPolicyViolation "session revoked"); mret false
  | Ok true => mret true
  end.

Fixpoint maintainWebSocketSession (ref : nat) (c : webSocketClient) (ticks : list (list hub_event)) : socket_proc unit :=
  match ticks with
  | [] => mret tt
  | before :: rest =>
      _ ← hub_events before;
      active ← session_check ref c;
      if (active : bool) then maintainWebSocketSession ref c rest else mret tt
  end.

(** Each tick with whether the hub comes to an [Unregister] at once. *)
Fixpoint maintainWebSocketPresence (presence : redisWebSocketPresence) (ref : nat) (record : webSocketPresenceRecord)
    (ticks : list (list hub_event * bool)) : socket_proc unit :=
  match ticks with
  | [] => mret tt
  | (before, handled) :: rest =>
      _ ← hub_events before;
      refreshed ← attempt (on_router (on_redis (Presence.Refresh presence record)));
      match refreshed with
      | Ok webSocketPresenceLost =>
          _ ← attempt (on_router (on_hub (λ how _,
                Hub.Unregister how handled ref StatusPolicyViolation "connection ownership lost")))
              : socket_proc (result string unit);
          mret tt
      | _ => maintainWebSocketPresence presence ref record rest
      end
  end.
End handshake.
