(* ===== verification/HandshakePromises.v ===== *)
(** What the websocket handshake promises: only a session that stands is given a
    connection, and no connection outlives its session's revocation. *)
From Stdlib Require Import Ascii String.
From S2P Require Import Prelude GoStd Tables Driver MessageService ConversationSync Redis Presence Hub HubOk Router.
From S2P Require Import AuthTables AuthOk Credentials AuthQueries Auth AuthSpec AuthHandlers AuthPromises Handshake HubOk.
Open Scope Z_scope.

(** * The session's row under its lock *)

(** A session of the user that was not revoked. *)
Definition standing (id user : Z) (d : auth_database) : Prop :=
  ∃ s, s ∈ sessions d ∧ session_id s = id ∧ session_user s = user ∧ session_revoked_at s = None.

Definition held_standing (id user : Z) (us : list auth_change) (d : auth_database) : Prop :=
  ShareSession id ∈ us ∧ standing id user d.

#[export] Instance held_standing_stable id user : Stable (held_standing id user).
Proof.
  intros us d d' _ _ Hev [Hin (s & Hs & Hid & Hu & Hr)]. split; [done|].
  destruct (ae_sessions _ _ _ Hev s Hs) as (s' & Hs' & _ & _ & _ & _ & _ & Hlock).
  exists s. split_and!; try done. rewrite Hlock in Hs'; [done|]. rewrite Hid. by left.
Qed.

Lemma live_standing id user cutoff now s d :
  s ∈ sessions d → session_id s = id → is_live_session id user cutoff now s = true → standing id user d.
Proof.
  intros Hs Hid [Hu [[Hr _]%andb_true_iff _]%andb_true_iff]%andb_true_iff. exists s. split_and!; try done; [lia|].
  unfold unrevoked in Hr. by destruct (session_revoked_at s).
Qed.

Lemma share_session_spec d0 id user cutoff :
  st_spec d0 (λ us d, us = [] ∧ True) (share_session id user cutoff) (λ _, held_standing id user).
Proof.
  intros env us d a us' _ _ [-> _]. unfold share_session, find_session. destruct (sql_first _ _) as [s|] eqn:E; [|done].
  apply sql_first_Some in E as [Hs Hid%Z.eqb_eq]. destruct (is_live_session _ _ _ _ s) eqn:El; [|done].
  intros [= <- <-]. split; [done|]. split; [by left|]. by eapply live_standing.
Qed.

Lemma session_active_spec d0 id user cutoff :
  auto_spec d0 (λ _, True) (session_active id user cutoff) (λ active d, active = true → standing id user d).
Proof.
  intros env d a us' _ _ _ [= <- <-]. split; [done|]. unfold find_session. destruct (sql_first _ _) as [s|] eqn:E; [|done].
  apply sql_first_Some in E as [Hs Hid%Z.eqb_eq]. by eapply live_standing.
Qed.

Lemma ended_not_standing id user d : auth_ok d → ended id d → ¬ standing id user d.
Proof.
  intros Hd (s & Hs & Hid & t & Ht) (s' & Hs' & Hid' & _ & Hr).
  assert (s' = s) as -> by (apply (unique_key_inj session_id _ _ _ (ao_session_ids _ Hd)); congruence). congruence.
Qed.

(** * Calls to the hub and to Redis *)

Lemma on_auth_inv {E A} (m : proc auth_world E A) w r w' :
  on_auth m w = (r, w') → ∃ a, m (sw_auth w) = (r, a) ∧ w' = SocketWorld a (sw_router w).
Proof. unfold on_auth. destruct (m (sw_auth w)) as [r0 a]. intros [= <- <-]. eauto. Qed.

Lemma on_router_inv {E A} (m : proc router_world E A) w r w' :
  on_router m w = (r, w') → ∃ x, m (sw_router w) = (r, x) ∧ w' = SocketWorld (sw_auth w) x.
Proof. unfold on_router. destruct (m (sw_router w)) as [r0 a]. intros [= <- <-]. eauto. Qed.

(** What holds of the hub while the events of others spare the client. *)
Section kept.
Context (ref : nat) (id : string) (P : webSocketHub → Prop).
Context (P_events : ∀ evs h, Forall (spares ref id) evs → P h → P (hub_run h evs)).

Record router_ok (w : router_world) : Prop := RouterWorldOk {
  ro_hub : P (hub w);
  ro_trips : Forall (λ t, Forall (spares ref id) (hub_before t)) (hub_trips w)
}.

Definition kept {E A} (m : proc router_world E A) : Prop := ∀ w r w', router_ok w → m w = (r, w') → router_ok w'.

Lemma kept_redis {A} (m : proc redis_world string A) : kept (on_redis m).
Proof. intros w r w' [Hh Ht]. unfold on_redis. destruct (m (remote w)). intros [= <- <-]. by split. Qed.

(** A call to the hub, whose own step keeps [P] or brings [Q]. *)
Lemma on_hub_keeps {A} (Q : result string A → webSocketHub → Prop) (call : select_end → range_order → proc webSocketHub string A)
    w r w' :
  (∀ how order h r h', P h → call how order h = (r, h') → Q r h') →
  router_ok w → on_hub call w = (r, w') →
  Q r (hub w') ∧ Forall (λ t, Forall (spares ref id) (hub_before t)) (hub_trips w').
Proof.
  intros Hc [Hh Ht]. unfold on_hub. destruct (hub_trips w) as [|t rest] eqn:Et.
  - destruct (call _ _ _) as [r0 h] eqn:E. intros [= <- <-]. split; [by eapply Hc|done].
  - apply Forall_cons in Ht as [Ht Hrest]. destruct (call _ _ _) as [r0 h] eqn:E. intros [= <- <-]. split; [|done].
    eapply Hc; [|done]. by apply P_events.
Qed.
End kept.

Lemma hub_call_cases {A} how (act : webSocketHub → A * webSocketHub) h r h' :
  hub_call how act h = (r, h') → (∃ e, r = Err e ∧ h' = h) ∨ ∃ a, r = Ok a ∧ act h = (a, h').
Proof.
  unfold hub_call. destruct how; [intros [= <- <-]; eauto..|]. destruct (act h). intros [= <- <-]. eauto.
Qed.

(** The sides of a socket world. *)
Lemma at_hub_inv {E} ev w (r : result E unit) w' :
  at_hub ev w = (r, w') → r = Ok tt ∧ w' = SocketWorld (sw_auth w) (with_hub (hub_step (hub (sw_router w)) ev) (sw_router w)).
Proof. intros [= <- <-]. done. Qed.

Lemma and_then_inv {E A B} (m : socket_proc A) (call : proc socket_world E B) w r w' :
  and_then m call w = (r, w') → ∃ w1 x, m w = (r, w1) ∧ call w1 = (x, w').
Proof. unfold and_then. destruct (m w) as [r0 w1], (call w1) as [x w2] eqn:Ec. intros [= <- <-]. eauto. Qed.

Lemma socket_deferring_inv {A} (m : socket_proc A) w r w' :
  socket_deferring m w = (r, w') → ∃ w1, m w = (r, w1) ∧ sw_router w' = sw_router w1 ∧
    auth_db (sw_auth w') = auth_db (sw_auth w1).
Proof. unfold socket_deferring, deferring. destruct (m w) as [r0 w1]. intros [= <- <-]. eauto. Qed.

(** * The handshake *)

Definition next_ref (w : socket_world) : nat := fresh (dom (objects (socket_hub w))).

Section handshake.
Context `{SHA256}.
Context (app : socket_application).

(** The random connection id that a handshake takes. *)
Definition next_connection_id (w : socket_world) : string :=
  match newToken (E := auth_error) (sw_auth w) with (Ok t, _) => token_raw t | _ => EmptyString end.

(** The others make other clients: the id is new, and stays this client's. *)
Record undisturbed (w : socket_world) : Prop := Undisturbed {
  un_id : ∀ r c, objects (socket_hub w) !! r = Some c → connectionID c ≠ next_connection_id w;
  un_trips : Forall (λ t, Forall (spares (next_ref w) (next_connection_id w)) (hub_before t)) (hub_trips (sw_router w))
}.

(** The client of a handshake. *)
Definition client_for (who : identity) (id : string) (c : webSocketClient) : Prop :=
  newWebSocketClient (authenticatedUserID who) (authenticatedSessionID who) id true defaultWebSocketClientConfig = Ok c.

Lemma client_for_identity who id c : client_for who id c →
  userID c = authenticatedUserID who ∧ sessionID c = authenticatedSessionID who ∧ connectionID c = id.
Proof. unfold client_for, newWebSocketClient. destruct (_ || _); [done|]. destruct (_ || _); [done|]. by intros [= <-]. Qed.

(** A connection that may run: its session stood when its transaction committed, and
    since before that the hub had it registered, unless it has closed it again. *)
Record admitted (d0 : auth_database) (who : identity) (ref : nat) (c : webSocketClient) (w : socket_world) : Prop := Admitted_ {
  ad_identity : userID c = authenticatedUserID who ∧ sessionID c = authenticatedSessionID who;
  ad_tracked : tracked ref c (socket_hub w);
  ad_tables : sane d0 (sw_auth w);
  ad_session : standing (sessionID c) (userID c) (auth_db (sw_auth w))
}.

(** A connection that may not: a client that there was is closed. *)
Definition refused (ref : nat) (e : handshake_end) (w : socket_world) : Prop :=
  match e with ClientShut _ _ => closed ref (socket_hub w) | _ => True end.

(** Both ends of a handshake, whose running part is [run]. *)
Definition handshake_ends {A} d0 who ref c (run : socket_proc A) (r : result handshake_end A) (w' : socket_world) : Prop :=
  (∃ w1 w2, admitted d0 who ref c w1 ∧ run w1 = (r, w2) ∧ socket_hub w' = socket_hub w2 ∧
    auth_db (sw_auth w') = auth_db (sw_auth w2)) ∨
  ∃ e, r = Err e ∧ refused ref e w'.

Lemma shut_refused {A} ref c code reason w (r : result handshake_end A) w' :
  known ref c (socket_hub w) → shut ref code reason w = (r, w') →
  r = Err (ClientShut code reason) ∧ closed ref (socket_hub w').
Proof.
  intros [(c0 & Hc & _) _] Hrun. apply proc_bind_inv in Hrun as [(e & Hx & _)|([] & w1 & Hx & Hrun)];
    apply at_hub_inv in Hx as [Hx ->]; [done|]. apply proc_throw_inv in Hrun as [-> ->]. split; [done|].
  by apply (shutdown_closes ref code reason _ c0).
Qed.

Section client.
Context (d0 : auth_database) (who : identity) (ref : nat) (c : webSocketClient).
Context (Hwho : userID c = authenticatedUserID who ∧ sessionID c = authenticatedSessionID who).

Abbreviation ok P := (router_ok ref (connectionID c) P).

Lemma commit_and_run_ends {A} handled (run : socket_proc A) w r w' :
  in_tx d0 (held_standing (sessionID c) (userID c)) (sw_auth w) → ok (tracked ref c) (sw_router w) →
  commit_and_run ref handled run w = (r, w') → handshake_ends d0 who ref c run r w'.
Proof.
  intros Htx Hro Hrun. unfold commit_and_run in Hrun.
  apply proc_bind_inv in Hrun as [(e & (r0 & _ & Hx)%attempt_inv & _)|(x & w1 & (r0 & Hx & [= ->])%attempt_inv & Hrun)]; [done|].
  apply on_auth_inv in Hx as (a & Hx & ->). destruct r0 as [e|[]].
  - right. apply proc_bind_inv in Hrun as [(e' & Hx' & _)|([] & w2 & Hx' & Hrun)]; apply at_hub_inv in Hx' as [Hx' ->]; [done|].
    apply proc_bind_inv in Hrun as [(e' & (r0 & _ & Hx'')%attempt_inv & _)|(x & w3 & (r0 & Hy & [= ->])%attempt_inv & Hrun)]; [done|].
    apply proc_throw_inv in Hrun as [-> ->]. eexists. split; [done|]. simpl.
    apply on_router_inv in Hy as (x & Hy & ->). unfold socket_hub. cbn [sw_router] in Hy |- *.
    destruct Hro as [[[(c0 & Hc0 & _) _] _] Htr].
    apply (on_hub_keeps ref (connectionID c) (closed ref)) with (Q := λ _, closed ref) in Hy as [Hy _]; [done|..].
    + intros evs h Hs. by apply (closed_run ref (connectionID c)).
    + intros how _ h r1 h' Hc [(e' & -> & ->)|([] & -> & [= <-])]%hub_call_cases; [done|].
      destruct handled; [|done]. by eapply later_closed; [apply removeClient_later|].
    + split; [|done]. by apply (shutdown_closes ref _ _ _ c0).
  - left. eexists _, w'. split; [|by split].
    pose proof (triple_commit d0 (held_standing (sessionID c) (userID c)) _ _ _ _ Htx Hx) as [Hs (us & _ & Hst)].
    split; [done|apply Hro|done|done].
Qed.

(** Redis, and the hub's disconnections, leave a tracked client tracked. *)
Lemma disconnect_replaced_kept router old : kept ref (connectionID c) (tracked ref c) (DisconnectReplaced router old).
Proof.
  intros w r w' Hro Hrun. unfold DisconnectReplaced in Hrun. destruct (negb _); [by apply proc_throw_inv in Hrun as [_ ->]|].
  case_bool_decide.
  - eapply (on_hub_keeps ref (connectionID c) (tracked ref c)) with (Q := λ _, tracked ref c) in Hrun as [Hh Ht]; [by split| |..|done].
    + intros evs h. apply tracked_run.
    + intros how _ h r1 h' Ht. unfold DisconnectConnection. destruct (_ || _); [by intros [_ ->]%proc_throw_inv|].
      intros [(e & -> & ->)|([] & -> & [= <-])]%hub_call_cases; [done|]. eapply later_tracked; [|done].
      by apply (step_later h (ConnectionDisconnected _ _)).
  - destruct (command_text _); [|by apply proc_throw_inv in Hrun as [_ ->]].
    apply proc_bind_inv in Hrun as [(e & Hx & _)|(n & w1 & Hx & Hrun)].
    + by eapply kept_redis.
    + apply proc_ret_inv in Hrun as [_ ->]. by eapply kept_redis.
Qed.

Lemma announce_kept presence router record w r w' :
  ok (tracked ref c) (sw_router w) → announce presence router record w = (r, w') →
  r = Ok tt ∧ sw_auth w' = sw_auth w ∧ ok (tracked ref c) (sw_router w').
Proof.
  intros Hro Hrun. unfold announce in Hrun.
  apply proc_bind_inv in Hrun as [(e & (r0 & _ & Hx)%attempt_inv & _)|(x & w1 & (r0 & Hx & [= ->])%attempt_inv & Hrun)]; [done|].
  apply on_router_inv in Hx as (x & Hx & ->). assert (ok (tracked ref c) x) as Hx1 by (by eapply kept_redis).
  destruct r0 as [e|[old|]]; [by apply proc_ret_inv in Hrun as [-> ->]| |by apply proc_ret_inv in Hrun as [-> ->]].
  case_bool_decide; [by apply proc_ret_inv in Hrun as [-> ->]|].
  apply proc_bind_inv in Hrun as [(e & (r0 & _ & Hy)%attempt_inv & _)|(y & w1 & (r0 & Hy & [= ->])%attempt_inv & Hrun)]; [done|].
  apply proc_ret_inv in Hrun as [-> ->]. apply on_router_inv in Hy as (y & Hy & ->). split_and!; [done..|].
  by eapply disconnect_replaced_kept.
Qed.

Lemma with_presence_ends {A} handled (run : socket_proc A) w r w' :
  in_tx d0 (held_standing (sessionID c) (userID c)) (sw_auth w) → ok (tracked ref c) (sw_router w) →
  with_presence app c (commit_and_run ref handled run) w = (r, w') → handshake_ends d0 who ref c run r w'.
Proof.
  intros Htx Hro Hrun. unfold with_presence in Hrun.
  destruct (webSocketPresence app) as [presence|]; [|by eapply commit_and_run_ends].
  destruct (realtimeRouter app) as [router|]; [|by eapply commit_and_run_ends].
  apply proc_bind_inv in Hrun as [(e & Hx & _)|([] & w1 & Hx & Hrun)];
    apply announce_kept in Hx as (Hok & Ha & Hro1); [done|done| |done].
  apply and_then_inv in Hrun as (w2 & x & Hm & Hx). apply on_router_inv in Hx as (y & Hx & ->).
  apply commit_and_run_ends in Hm; [|by rewrite Ha|done].
  assert (hub y = hub (sw_router w2)) as Hhub. { unfold on_redis in Hx. by destruct (Presence.Unregister _ _ _); simplify_eq. }
  destruct Hm as [(w3 & w4 & Had & Hr & Hh & Hd)|(e & -> & Hr)].
  - left. exists w3, w4. split_and!; [done..| |done]. by rewrite <-Hh.
  - right. exists e. split; [done|]. unfold refused, socket_hub in *. cbn. by rewrite Hhub.
Qed.

Lemma register_session_ends {A} handled (run : socket_proc A) w r w' :
  in_tx d0 (λ us _, us = [] ∧ True) (sw_auth w) → ok (known ref c) (sw_router w) →
  register_session app ref c handled run w = (r, w') → handshake_ends d0 who ref c run r w'.
Proof.
  intros Htx Hro Hrun. unfold register_session in Hrun.
  apply proc_bind_inv in Hrun as [(e & (a & Hx & _)%on_auth_inv & _)|(now & w1 & (a & Hx & ->)%on_auth_inv & Hrun)]; [done|].
  pose proof (triple_currentTime (sane d0) _ (λ w0 Hw0, sane_clock _ _ (in_tx_sane _ _ _ Hw0)) _ _ _ Htx Hx) as [_ Htx1]. clear Hx.
  apply proc_bind_inv in Hrun as [(e & (r0 & _ & Hx)%attempt_inv & _)|(x & w1 & (r0 & Hx & [= ->])%attempt_inv & Hrun)]; [done|].
  apply on_auth_inv in Hx as (a1 & Hx & ->). cbn [sw_auth sw_router] in *.
  pose proof (triple_statement d0 _ _ _ _ (share_session_spec d0 _ _ _) _ _ _ Htx1 Hx) as Htx2.
  destruct r0 as [e|n].
  { right. destruct e as [[code| |]| | |text]; apply (shut_refused _ c) in Hrun as [-> Hc]; try apply Hro; eauto. }
  apply proc_bind_inv in Hrun as [(e & (r0 & _ & Hy)%attempt_inv & _)|(x & w1 & (r0 & Hy & [= ->])%attempt_inv & Hrun)]; [done|].
  apply on_router_inv in Hy as (y & Hy & ->). cbn [sw_auth sw_router] in *.
  eapply (on_hub_keeps ref (connectionID c) (known ref c)) with (Q := λ r h, if r is Ok _ then tracked ref c h else True) in Hy as [Hh Ht];
    [|intros evs h; apply known_run| |exact Hro].
  - destruct r0 as [e|[]]; [right; apply proc_throw_inv in Hrun as [-> ->]; by eexists|].
    eapply with_presence_ends; [| |exact Hrun]; [done|by split].
  - intros how _ h r1 h' Hk [(e & -> & ->)|([] & -> & [= <-])]%hub_call_cases; [done|]. by apply register_tracked.
Qed.
End client.

Lemma allocate_inv {E} c w (r : result E nat) w' :
  allocate c w = (r, w') → r = Ok (next_ref w) ∧
    w' = SocketWorld (sw_auth w) (with_hub (hub_step (socket_hub w) (ClientMade (next_ref w) c)) (sw_router w)).
Proof. intros [= <- <-]. done. Qed.

Lemma allocate_known c w :
  (∀ r o, objects (socket_hub w) !! r = Some o → connectionID o ≠ connectionID c) →
  known (next_ref w) c (hub_step (socket_hub w) (ClientMade (next_ref w) c)).
Proof.
  intros Hid. split.
  - exists c. simpl. by rewrite lookup_insert_eq.
  - intros r o. simpl. intros [[<- <-]|[_ Ho]]%lookup_insert_Some; [done|]. intros Heq. by apply Hid in Ho.
Qed.

Lemma serve_ends {A} who upgraded handled (run : nat → webSocketClient → socket_proc A) w r w' :
  ready (sw_auth w) → undisturbed w → serve_with app who upgraded handled run w = (r, w') →
  (∃ c, client_for who (next_connection_id w) c ∧
    handshake_ends (auth_db (sw_auth w)) who (next_ref w) c (run (next_ref w) c) r w') ∨
  ∃ e, r = Err e ∧ match e with ClientShut _ _ => False | _ => True end ∧ socket_hub w' = socket_hub w.
Proof.
  intros Hready [Hids Htrips] Hrun. unfold serve_with in Hrun.
  destruct (negb (has_hub app)); [right; apply proc_throw_inv in Hrun as [-> ->]; by eexists|].
  destruct (negb upgraded); [right; apply proc_throw_inv in Hrun as [-> ->]; by eexists|].
  apply proc_bind_inv in Hrun as [(e & (a & Hx & _)%on_auth_inv & _)|(t & w1 & (a & Hx & ->)%on_auth_inv & Hrun)]; [done|].
  assert (token_raw t = next_connection_id w) as Htok.
  { unfold next_connection_id. injection Hx as <- <-. done. }
  pose proof (triple_newToken (λ _, True) (idle (auth_db (sw_auth w))) _ _ _ (ready_idle _ Hready) Hx) as [_ Hidle]. clear Hx.
  rewrite Htok in Hrun. destruct (newWebSocketClient _ _ _ _ _) as [e|c] eqn:Ec; [right; apply proc_throw_inv in Hrun as [-> ->]; by eexists|].
  left. exists c. split; [done|]. destruct (client_for_identity who _ c Ec) as (Eu & Es & Ei).
  apply proc_bind_inv in Hrun as [(e & Hx & _)|(ref & w1 & Hx & Hrun)]; apply allocate_inv in Hx as [[= ->] ->].
  set (ref := next_ref w) in *. cbn [sw_auth sw_router] in Hrun.
  assert (known ref c (hub_step (socket_hub w) (ClientMade ref c))) as Hknown.
  { apply allocate_known. intros r' o Ho. rewrite Ei. by eapply Hids. }
  apply proc_bind_inv in Hrun as [(e & (r0 & _ & Hx)%attempt_inv & _)|(x & w1 & (r0 & Hx & [= ->])%attempt_inv & Hrun)]; [done|].
  apply on_auth_inv in Hx as (a1 & Hx & ->). cbn [sw_auth sw_router] in *.
  pose proof (triple_begin (auth_db (sw_auth w)) (λ _, True) _ _ _ _ Hidle Hx) as Hb. destruct r0 as [e|[]].
  - right. apply (shut_refused _ c) in Hrun as [-> Hc]; [by eexists|done].
  - apply socket_deferring_inv in Hrun as (w2 & Hrun & Hr & Hd).
    apply (register_session_ends (auth_db (sw_auth w)) who) in Hrun; [|done|done|].
    + destruct Hrun as [(w3 & w4 & Had & Hr3 & Hh & Hd3)|(e & -> & Href)].
      * left. exists w3, w4. split_and!; [done..| |]; [|by rewrite Hd]. unfold socket_hub in *. by rewrite Hr.
      * right. exists e. split; [done|]. unfold refused, socket_hub in *. by rewrite Hr.
    + split; [done|]. by rewrite Ei.
Qed.
End handshake.

(** * The promises *)
Section promises.
Context `{TimeText, SHA256, Argon2, GCM, UnicodeLower}.
Context (app : socket_application).

(** Whatever fails and whatever
    others do meanwhile, a websocket request comes to a running connection only if its
    session stood, unrevoked, when the handshake's transaction committed, and by then
    the hub had the client registered under its user (or had closed it again); in every
    other end the client, if there was one, is closed or its socket is. *)
Theorem handshake_admits_standing_sessions {A} who upgraded handled (run : nat → webSocketClient → socket_proc A) w r w' :
  ready (sw_auth w) → undisturbed w → serve_with app who upgraded handled run w = (r, w') →
  (∃ c w1 w2, client_for who (next_connection_id w) c ∧ admitted (auth_db (sw_auth w)) who (next_ref w) c w1 ∧
    run (next_ref w) c w1 = (r, w2) ∧ socket_hub w' = socket_hub w2 ∧ auth_db (sw_auth w') = auth_db (sw_auth w2)) ∨
  ∃ e, r = Err e ∧ refused (next_ref w) e w'.
Proof.
  intros Hready Hun Hrun. apply serve_ends in Hrun as [(c & Hc & [(w1 & w2 & ?)|He])|(e & -> & He & _)]; [left|by right|right|done..].
  - exists c, w1, w2. tauto.
  - exists e. split; [done|]. by destruct e.
Qed.

(** The disconnections that ending sessions asks for cover them all. *)
Lemma disconnects_asked (aapp : auth_application) who m chosen w w' :
  ends_sessions aapp who m chosen → realtime aapp = true → m w = (Ok tt, w') →
  ∃ session, (authenticatedUserID who, session) ∈ aw_disconnected w' ∧
    ∀ s, chosen s = true → (session_user s = authenticatedUserID who ∨ AuthTables.session_id s = authenticatedSessionID who) ∧
      (session = None ∨ session = Some (AuthTables.session_id s)).
Proof.
  intros Hends Hrt Hm.
  assert (∀ session (w1 : auth_world), disconnect (E := problem) aapp (authenticatedUserID who) session w1 = (Ok tt, w') →
    (authenticatedUserID who, session) ∈ aw_disconnected w') as Hlog.
  { intros session w1. unfold disconnect. rewrite Hrt. intros [= <-]. simpl. apply elem_of_app. right. by left. }
  destruct Hends as [| |path id Hp|body].
  - apply proc_bind_inv in Hm as [(e & _ & ?)|(n & w1 & _ & Hm)]; [done|]. eexists. split; [by eapply Hlog|].
    intros s Hs%Z.eqb_eq. rewrite Hs. auto.
  - apply proc_bind_inv in Hm as [(e & _ & ?)|(n & w1 & _ & Hm)]; [done|]. eexists. split; [by eapply Hlog|].
    intros s Hs%Z.eqb_eq. auto.
  - unfold revokeSession in Hm. rewrite Hp in Hm. apply proc_bind_inv in Hm as [(e & _ & ?)|(n & w1 & _ & Hm)]; [done|].
    destruct (n =? 0); [by apply proc_throw_inv in Hm as [? _]|]. eexists. split; [by eapply Hlog|].
    intros s [Hi%Z.eqb_eq Hs%Z.eqb_eq]%andb_true_iff. rewrite Hi. auto.
  - unfold changePassword in Hm. apply proc_bind_inv in Hm as [(e & _ & ?)|(input & w1 & _ & Hm)]; [done|].
    destruct (negb _); [by apply proc_throw_inv in Hm as [? _]|]. case_bool_decide; [by apply proc_throw_inv in Hm as [? _]|].
    apply proc_bind_inv in Hm as [(e & _ & ?)|(h & w2 & _ & Hm)]; [done|].
    destruct (verifyPassword _ _) as [?|[]]; try by apply proc_throw_inv in Hm as [? _].
    apply proc_bind_inv in Hm as [(e & _ & ?)|(h' & w3 & _ & Hm)]; [done|].
    apply proc_bind_inv in Hm as [(e & _ & ?)|([] & w4 & _ & Hm)]; [done|].
    eexists. split; [by eapply Hlog|]. intros s Hs%Z.eqb_eq. auto.
Qed.

(** The disconnection that an answered revocation asks for closes the session's
    tracked client. *)
Lemma disconnection_closes (aapp : auth_application) ref c w1 d0 by_whom m chosen a2 a3 s :
  tracked ref c (socket_hub w1) → sane d0 (sw_auth w1) → standing (sessionID c) (userID c) (auth_db (sw_auth w1)) →
  ends_sessions aapp by_whom m chosen → realtime aapp = true →
  auth_evolves [] (auth_db (sw_auth w1)) (auth_db a3) → ready a2 → m a2 = (Ok tt, a3) →
  standing (authenticatedSessionID by_whom) (authenticatedUserID by_whom) (auth_db a2) →
  s ∈ sessions (auth_db a3) → AuthTables.session_id s = sessionID c → chosen s = true →
  ∃ session, (userID c, session) ∈ aw_disconnected a3 ∧
    ∀ order before after, Forall (spares ref (connectionID c)) before → Forall (spares ref (connectionID c)) after →
      closed ref (hub_run (socket_hub w1) (before ++ SessionDisconnected order (userID c) (default 0 session) :: after)).
Proof.
  intros Ht Hs1 Hst Hends Hrt Hev Hready Hm (o & Ho & Hoid & Hou & _) Hs Hid Hch.
  destruct (disconnects_asked aapp by_whom m chosen a2 a3 Hends Hrt Hm) as (session & Hin & Hcov).
  destruct (Hcov s Hch) as [Hwhose Hwhich].
  pose proof (ends_sessions_spec _ _ _ _ _ Hends a2 _ a3 (ready_idle a2 Hready) Hm) as (Hs3 & _ & _).
  pose proof (ao_session_ids _ (ok_db _ _ _ _ (sane_world _ _ Hs3))) as Hkeys.
  assert (session_user s = userID c) as Hus.
  { destruct Hst as (x & Hx & Hxid & Hxu & _). destruct (ae_sessions _ _ _ Hev x Hx) as (x3 & Hx3 & E1 & E2 & _).
    assert (x3 = s) as -> by (apply (unique_key_inj AuthTables.session_id _ _ _ Hkeys); congruence). congruence. }
  assert (authenticatedUserID by_whom = userID c) as Hwho.
  { destruct Hwhose as [?|Hsame]; [congruence|]. destruct (ae_sessions _ _ _ (sane_from _ _ Hs3) o Ho) as (o3 & Ho3 & E1 & E2 & _).
    assert (o3 = s) as -> by (apply (unique_key_inj AuthTables.session_id _ _ _ Hkeys); congruence). congruence. }
  exists session. rewrite <-Hwho at 1. split; [done|]. intros order before after Hb Ha.
  unfold hub_run. rewrite foldl_app. cbn [foldl]. eapply closed_run; [exact Ha|]. apply disconnect_closes.
  - by apply tracked_run.
  - destruct Hwhich as [->| ->]; [done|]. unfold of_session. simpl. rewrite Hid, Z.eqb_refl. apply orb_true_r.
Qed.

(** C9: A session's connection does not outlive its revocation.  Whatever fails and
    whatever others do meanwhile, a websocket request either ends with its client, if
    there was one, closed, or comes to run a connection of the session; the session
    is then not revoked when the handshake's transaction has committed, and once a
    request that revokes it was answered after that, the disconnection that it asked
    for closes the connection, whatever the hub handles before and after. *)
Theorem revocation_closes_connections {A} (aapp : auth_application) who upgraded handled
    (run : nat → webSocketClient → socket_proc A) w r w' :
  ready (sw_auth w) → undisturbed w → serve_with app who upgraded handled run w = (r, w') →
  (∃ e, r = Err e ∧ refused (next_ref w) e w') ∨
  ∃ c w1 w2, userID c = authenticatedUserID who ∧ sessionID c = authenticatedSessionID who ∧
    run (next_ref w) c w1 = (r, w2) ∧ socket_hub w' = socket_hub w2 ∧ auth_db (sw_auth w') = auth_db (sw_auth w2) ∧
    auth_evolves [] (auth_db (sw_auth w)) (auth_db (sw_auth w1)) ∧
    ¬ ended (sessionID c) (auth_db (sw_auth w1)) ∧
    ∀ by_whom m chosen a2 a3 s,
      ends_sessions aapp by_whom m chosen → realtime aapp = true →
      auth_evolves [] (auth_db (sw_auth w1)) (auth_db a3) → ready a2 → m a2 = (Ok tt, a3) →
      standing (authenticatedSessionID by_whom) (authenticatedUserID by_whom) (auth_db a2) →
      s ∈ sessions (auth_db a3) → AuthTables.session_id s = sessionID c → chosen s = true →
      ∃ session, (userID c, session) ∈ aw_disconnected a3 ∧
        ∀ order before after, Forall (spares (next_ref w) (connectionID c)) before →
          Forall (spares (next_ref w) (connectionID c)) after →
          closed (next_ref w)
            (hub_run (socket_hub w1) (before ++ SessionDisconnected order (userID c) (default 0 session) :: after)).
Proof.
  intros Hready Hun Hrun.
  apply serve_ends in Hrun as [(c & Hc & [(w1 & w2 & [[Hu Hsid] Ht Hs1 Hst] & Hr & Hh & Hd)|He])|(e & -> & He & _)];
    [right|by left|left|done..].
  - exists c, w1, w2. split_and!; [done..|apply Hs1| |].
    + intros Hended. eapply ended_not_standing; [apply (sane_world _ _ Hs1)|done|done].
    + intros. by eapply disconnection_closes.
  - exists e. split; [done|]. by destruct e.
Qed.
End promises.

(** * The watch over the session *)

Lemma session_check_spec ref c w r w' :
  ready (sw_auth w) → known ref c (socket_hub w) → session_check ref c w = (r, w') →
  ready (sw_auth w') ∧ auth_evolves [] (auth_db (sw_auth w)) (auth_db (sw_auth w')) ∧ ∃ active, r = Ok active ∧
    if active then socket_hub w' = socket_hub w ∧ standing (sessionID c) (userID c) (auth_db (sw_auth w'))
    else closed ref (socket_hub w').
Proof.
  intros Hready Hk Hrun. unfold session_check in Hrun.
  apply proc_bind_inv in Hrun as [(e & (a & Hx & _)%on_auth_inv & _)|(now & w1 & (a & Hx & ->)%on_auth_inv & Hrun)]; [done|].
  pose proof (triple_currentTime (λ _, True) (outside (auth_db (sw_auth w)) (λ _, True))
    (λ w0 Hw0, sane_clock _ _ (outside_sane _ _ _ Hw0)) _ _ _ (ready_idle _ Hready) Hx) as [_ Hidle]. clear Hx.
  apply proc_bind_inv in Hrun as [(e & (r0 & _ & Hx)%attempt_inv & _)|(x & w1 & (r0 & Hx & [= ->])%attempt_inv & Hrun)]; [done|].
  apply on_auth_inv in Hx as (a1 & Hx & ->). cbn [sw_auth sw_router] in *.
  pose proof (triple_auto _ _ _ _ _ (session_active_spec (auth_db (sw_auth w)) (sessionID c) (userID c) _) _ _ _ Hidle Hx) as Hst.
  assert (∀ code reason, closed ref (hub_step (socket_hub w) (ClientShutdown ref code reason))) as Hcl.
  { intros code reason. destruct Hk as [(c0 & Hc & _) _]. by apply (shutdown_closes ref code reason _ c0). }
  destruct r0 as [e|[]].
  - apply proc_bind_inv in Hrun as [(e' & Hx' & _)|([] & w2 & Hx' & Hrun)]; apply at_hub_inv in Hx' as [Hx' ->]; [done|].
    apply proc_ret_inv in Hrun as [-> ->]. split; [by eapply outside_ready|]. split; [apply (sane_from _ _ (outside_sane _ _ _ Hst))|]. eexists. split; [done|]. apply Hcl.
  - apply proc_ret_inv in Hrun as [-> ->]. split; [by eapply outside_ready|]. split; [apply (sane_from _ _ (outside_sane _ _ _ Hst))|]. eexists. split; [done|]. split; [done|].
    by apply Hst.
  - apply proc_bind_inv in Hrun as [(e' & Hx' & _)|([] & w2 & Hx' & Hrun)]; apply at_hub_inv in Hx' as [Hx' ->]; [done|].
    apply proc_ret_inv in Hrun as [-> ->]. split; [by eapply outside_ready|]. split; [apply (sane_from _ _ (outside_sane _ _ _ Hst))|]. eexists. split; [done|]. apply Hcl.
Qed.

(** C17: Whatever happens to the database
    calls, after some ticks the watch over a connection's session has either closed
    the connection or found the session standing at its last check; so a session that
    ended has no connection after the next tick, even when its disconnection was
    lost. *)
Theorem session_watch_fails_closed ref c ticks w r w' :
  ready (sw_auth w) → known ref c (socket_hub w) → Forall (Forall (spares ref (connectionID c))) ticks → ticks ≠ [] →
  maintainWebSocketSession ref c ticks w = (r, w') →
  r = Ok tt ∧ (closed ref (socket_hub w') ∨ standing (sessionID c) (userID c) (auth_db (sw_auth w'))) ∧
  (ended (sessionID c) (auth_db (sw_auth w)) → closed ref (socket_hub w')).
Proof.
  intros Hready Hk Hs. revert w Hready Hk. induction Hs as [|before ticks Hb Hs IH]; intros w Hready Hk Hne Hrun; [done|].
  cbn [maintainWebSocketSession] in Hrun.
  apply proc_bind_inv in Hrun as [(e & Hx & _)|([] & w1 & Hx & Hrun)]; [done|]. injection Hx as <-.
  apply proc_bind_inv in Hrun as [(e & Hx & _)|(active & w2 & Hx & Hrun)];
    (apply session_check_spec in Hx as (Hready2 & Hev & b & Hbe & Hcase); [|done|by apply known_run]); [done|]. injection Hbe as <-.
  destruct active; [|apply proc_ret_inv in Hrun as [-> ->]; auto]. destruct Hcase as [Hh Hst].
  assert (¬ ended (sessionID c) (auth_db (sw_auth w))) as Hlives.
  { intros Hended. pose proof (ok_db _ _ _ _ (ready_tables _ Hready2)) as Hd2. eapply ended_not_standing; [exact Hd2| |exact Hst].
    by eapply (stable_db (K := ended _)); [apply (ready_tables _ Hready)|exact Hd2|exact Hev|]. }
  destruct ticks as [|t ticks]; [apply proc_ret_inv in Hrun as [-> ->]; split_and!; [done|auto|by intros ?%Hlives]|].
  apply IH in Hrun as (? & ? & _); [split_and!; [done..|by intros ?%Hlives]|done| |done]. rewrite Hh. by apply known_run.
Qed.
