(* ===== verification/HandshakeWorks.v ===== *)
(** The handshake on working calls: a session that stands is given its connection. *)
From Stdlib Require Import Ascii String.
From S2P Require Import Prelude GoStd Tables Driver MessageService ConversationSync Encoding Redis Presence Hub HubOk Router RouterPromises.
From S2P Require Import AuthTables AuthOk Credentials AuthQueries Auth AuthSpec AuthHandlers AuthWorks.
From S2P Require Import Handshake HubOk HandshakePromises.
Open Scope Z_scope.

(** The client is registered and open. *)
Record open_at (ref : nat) (c : webSocketClient) (h : webSocketHub) : Prop := OpenAt {
  oa_hub : hub_ok h;
  oa_object : objects h !! ref = Some c;
  oa_registered : registered (userID c) (connectionID c) h = Some ref
}.

Section hub.
Context (ref : nat) (c : webSocketClient).

Lemma register_opens h :
  hub_ok h → client_closed c = None → queue c = [] → 0 < SendBuffer (client_config c) → objects h !! ref = None →
  (∀ r o, objects h !! r = Some o → connectionID o ≠ connectionID c) →
  open_at ref c (register_client ref (hub_step h (ClientMade ref c))).
Proof.
  intros Hok Hopen Hq Hb Hnew Hid.
  assert (objects (hub_step h (ClientMade ref c)) !! ref = Some c) as Hc by (simpl; by rewrite lookup_insert_eq).
  assert (registered (userID c) (connectionID c) h = None) as Hnone.
  { destruct (registered _ _ h) as [r|] eqn:E; [|done]. destruct (proj1 (hub_registry _ Hok) _ _ _ E) as (o & Ho & _ & Hi).
    by apply Hid in Ho. }
  split.
  - apply (register_client_ok _ _ c); [done|exact Hnone|]. apply hub_step_ok; [|done]. by split_and!.
  - unfold register_client. by rewrite Hc.
  - rewrite (register_client_run _ _ c) by done. rewrite registered_put, decide_True by done. by rewrite lookup_insert_eq.
Qed.

Lemma disconnect_other_keeps user id h : id ≠ connectionID c → open_at ref c h → open_at ref c (disconnectOne user id h).
Proof.
  intros Hne [Hok Hc Hr]. unfold disconnectOne. destruct (registered user id h) as [r|] eqn:E; [|done].
  destruct (proj1 (hub_registry _ Hok) _ _ _ E) as (o & Ho & Hu & Hi).
  assert (r ≠ ref) as Hrne by (intros ->; congruence).
  destruct (removeClient_spec r StatusPolicyViolation "connection replaced" h o Ho) as [Hslots Hob]; [congruence|].
  split; [by apply removeClient_ok| |].
  - rewrite Hob. by rewrite lookup_alter_ne.
  - rewrite Hslots, decide_False; [done|]. intros [_ Heq]. congruence.
Qed.

(** A hub that answers. *)
Record serving (w : router_world) : Prop := Serving { sv_trips : hub_trips w = []; sv_open : open_at ref c (hub w) }.

Lemma serving_redis {A} (m : proc redis_world string A) w : serving w → serving (on_redis m w).2.
Proof. intros [Ht Ho]. unfold on_redis. destruct (m (remote w)). by split. Qed.

Lemma serving_disconnect router old w :
  ConnectionID old ≠ connectionID c → serving w → serving (DisconnectReplaced router old w).2.
Proof.
  intros Hne Hs. unfold DisconnectReplaced. destruct (negb (valid old)); [done|]. case_bool_decide.
  - destruct Hs as [Ht Ho]. unfold on_hub. rewrite Ht. unfold DisconnectConnection, hub_call.
    destruct (_ || _); [by split|]. split; [done|]. by apply disconnect_other_keeps.
  - destruct (command_text _) as [text|]; [|done]. unfold mbind, proc_bind.
    pose proof (serving_redis (round_trip (PUBLISH (instanceChannel router (InstanceID old)) text)) w Hs) as Hs'.
    by destruct (on_redis _ w) as [[e|n] w1].
Qed.

Lemma announce_serving presence router record a w :
  ConnectionID record = connectionID c → serving w →
  ∃ w1, announce presence router record (SocketWorld a w) = (Ok tt, SocketWorld a w1) ∧ serving w1.
Proof.
  intros Hid Hs. unfold announce, on_router, attempt, mbind, proc_bind. cbn [sw_router sw_auth].
  pose proof (serving_redis (Presence.Register presence record) w Hs) as Hs1.
  destruct (on_redis (Presence.Register presence record) w) as [[e|[old|]] w1]; cbn [snd] in Hs1; [by exists w1| |by exists w1].
  case_bool_decide as Hold; [by exists w1|]. cbn [sw_router sw_auth].
  pose proof (serving_disconnect router old w1 ltac:(congruence) Hs1) as Hs2.
  destruct (DisconnectReplaced router old w1) as [r w2]. by exists w2.
Qed.
End hub.

Lemma share_session_finds env d s user cutoff :
  auth_ok d → s ∈ sessions d → is_live_session (AuthTables.session_id s) user cutoff (current_timestamp env) s = true →
  share_session (AuthTables.session_id s) user cutoff env d = Ok (AuthTables.session_id s, [ShareSession (AuthTables.session_id s)]).
Proof. intros Hd Hs Hl. unfold share_session. rewrite (find_session_by d s) by done. by rewrite Hl. Qed.

Lemma on_auth_run {E A} (m : proc auth_world E A) a w r a' : m a = (r, a') → on_auth m (SocketWorld a w) = (r, SocketWorld a' w).
Proof. unfold on_auth. cbn. by intros ->. Qed.

Lemma socket_deferring_run {A} (m : socket_proc A) w r w' :
  m w = (r, w') → ∃ w'', socket_deferring m w = (r, w'') ∧ sw_router w'' = sw_router w'.
Proof. intros Hm. unfold socket_deferring. rewrite Hm. by eexists. Qed.

Section works.
Context `{SHA256}.
Context (app : socket_application).

Lemma commit_and_run_runs {A} ref handled (run : socket_proc A) d us start e es bytes clock redis log w :
  quiet e →
  commit_and_run ref handled run (SocketWorld (AuthWorld (World d us start (e :: es)) bytes clock redis log) w) =
  run (SocketWorld (AuthWorld (World (apply_changes us d) [] start es) bytes clock redis log) w).
Proof.
  intros He. unfold commit_and_run.
  by rewrite (proc_bind_run _ _ _ _ _ (attempt_run _ _ _ _ (on_auth_run _ _ w _ _ (commit_run d us start e es bytes clock redis log He)))).
Qed.

(** The world in which a client runs, and the handler around the run. *)
Lemma with_presence_runs {A} ref c handled (run : socket_proc A) d us start e es bytes clock redis log w :
  quiet e → serving ref c w →
  ∃ w1, serving ref c w1 ∧
    ∀ r w2, run (SocketWorld (AuthWorld (World (apply_changes us d) [] start es) bytes clock redis log) w1) = (r, w2) → ∃ w', with_presence app c (commit_and_run ref handled run)
      (SocketWorld (AuthWorld (World d us start (e :: es)) bytes clock redis log) w) = (r, w') ∧ socket_hub w' = socket_hub w2.
Proof.
  intros He Hs. unfold with_presence.
  destruct (webSocketPresence app) as [presence|]; [|exists w; split; [done|]; intros r w2 Hr; exists w2; by rewrite commit_and_run_runs].
  destruct (realtimeRouter app) as [router|]; [|exists w; split; [done|]; intros r w2 Hr; exists w2; by rewrite commit_and_run_runs].
  set (record := WebSocketPresenceRecord _ _ _ _).
  destruct (announce_serving ref c presence router record (AuthWorld (World d us start (e :: es)) bytes clock redis log) w
    eq_refl Hs) as (w1 & Ha & Hs1).
  exists w1. split; [done|]. intros r w2 Hr. rewrite (proc_bind_run _ _ _ _ _ Ha).
  unfold and_then. rewrite commit_and_run_runs by done. rewrite Hr. unfold on_router, on_redis. cbn [sw_router].
  destruct (Presence.Unregister _ _ _) as [x y]. eexists. split; [reflexivity|done].
Qed.

Lemma register_session_runs {A} ref c handled (run : socket_proc A) d s start e1 e2 es bytes clock redis log w :
  quiet e1 → quiet e2 → hub_trips w = [] → open_at ref c (register_client ref (hub w)) →
  auth_ok d → s ∈ sessions d → AuthTables.session_id s = sessionID c →
  is_live_session (sessionID c) (userID c) (clock 0%nat - sessionAbsoluteLifetime) start s = true →
  ∃ w1, serving ref c w1 ∧
    ∀ r w2, run (SocketWorld (AuthWorld (World d [] start es) bytes (λ n, clock (S n)) redis log) w1) = (r, w2) →
    ∃ w', register_session app ref c handled run
      (SocketWorld (AuthWorld (World d [] start (e1 :: e2 :: es)) bytes clock redis log) w) = (r, w') ∧ socket_hub w' = socket_hub w2.
Proof.
  intros He1 He2 Ht Hopen Hd Hs Hid Hlive.
  pose proof (share_session_finds (stmt_env_of start e1) d s (userID c) _ Hd Hs ltac:(rewrite Hid; exact Hlive)) as Hst. rewrite Hid in Hst.
  assert (serving ref c (RouterWorld (register_client ref (hub w)) [] (instance_orders w) (remote w))) as Hsv by done.
  destruct (with_presence_runs ref c handled run d [ShareSession (sessionID c)] start e2 es bytes (λ n, clock (S n)) redis log _ He2 Hsv)
    as (w1 & Hw1 & Hrun). exists w1. split; [done|]. intros r w2 Hr. unfold register_session.
  rewrite (proc_bind_run _ _ _ _ _ (on_auth_run currentTime (AuthWorld (World d [] start (e1 :: e2 :: es)) bytes clock redis log) w _ _ eq_refl)).
  rewrite (proc_bind_run _ _ _ _ _ (attempt_run _ _ _ _ (on_auth_run _ _ w _ _
    (statement_run d [] start e1 (e2 :: es) bytes (λ n, clock (S n)) redis log He1 _ _ _ Hst)))).
  assert (on_hub (λ how _, Hub.Register how ref) w = (Ok tt, RouterWorld (register_client ref (hub w)) [] (instance_orders w) (remote w))) as Hreg.
  { unfold on_hub. by rewrite Ht. }
  erewrite proc_bind_run; [|apply attempt_run; unfold on_router; cbn [sw_router]; rewrite Hreg; reflexivity].
  by apply Hrun.
Qed.

Lemma next_ref_fresh w : objects (socket_hub w) !! next_ref w = None.
Proof. pose proof (is_fresh (dom (objects (socket_hub w)))) as Hf. by apply not_elem_of_dom in Hf. Qed.

Lemma token_nonempty (bytes : nat → Z) : token_raw (token_of ((λ i, bytes i mod 256) <$> seq 0 tokenLength)) ≠ EmptyString.
Proof. done. Qed.

(** C16: On working calls a websocket request of
    a session that is live comes to its running connection, open and registered with the
    hub under the request's user and session; whatever presence and the replaced
    connection's instance answer. *)
Theorem handshake_gives_connection who handled s e0 e1 e2 es w :
  has_hub app = true → ready (sw_auth w) → undisturbed w → hub_ok (socket_hub w) → hub_trips (sw_router w) = [] →
  w_events (aw_db (sw_auth w)) = e0 :: e1 :: e2 :: es → quiet e0 → quiet e1 → quiet e2 →
  s ∈ sessions (auth_db (sw_auth w)) → AuthTables.session_id s = authenticatedSessionID who →
  is_live_session (authenticatedSessionID who) (authenticatedUserID who) (aw_clock (sw_auth w) 0 - sessionAbsoluteLifetime)
    (ev_now e0) s = true →
  0 < authenticatedUserID who → 0 < authenticatedSessionID who →
  ∃ c, client_for who (next_connection_id w) c ∧ client_closed c = None ∧
  ∀ (run : nat → webSocketClient → socket_proc unit), ∃ w1, open_at (next_ref w) c (socket_hub w1) ∧
    ∀ r w2, run (next_ref w) c w1 = (r, w2) →
    ∃ w', serve_with app who true handled run w = (r, w') ∧ socket_hub w' = socket_hub w2.
Proof.
  intros Hhub Hready [Hids _] Hok Ht He Hq0 Hq1 Hq2 Hs Hid Hlive Hu Hsid.
  destruct w as [[[d us start evs] bytes clock redis log] rw]. cbn in He, Hs, Hlive, Ht. subst evs.
  pose proof (ready_tx _ Hready) as Hus. cbn in Hus. subst us.
  set (t := token_of ((λ i, bytes i mod 256) <$> seq 0 tokenLength)).
  set (c := WebSocketClient (authenticatedUserID who) (authenticatedSessionID who) (token_raw t) defaultWebSocketClientConfig [] [] None).
  assert (newWebSocketClient (authenticatedUserID who) (authenticatedSessionID who) (token_raw t) true defaultWebSocketClientConfig = Ok c) as Hc.
  { unfold newWebSocketClient. rewrite (bool_decide_eq_false_2 _ (token_nonempty bytes)).
    by replace (authenticatedUserID who <=? 0) with false by lia; replace (authenticatedSessionID who <=? 0) with false by lia. }
  exists c. split; [exact Hc|]. split; [done|]. intros run.
  set (w0 := SocketWorld _ rw) in *. set (ref := next_ref w0).
  assert (open_at ref c (register_client ref (hub_step (hub rw) (ClientMade ref c)))) as Hopen.
  { apply register_opens; try done. apply (next_ref_fresh w0). }
  destruct (register_session_runs ref c handled (run ref c) d s (ev_now e0) e1 e2 es (λ i, bytes (tokenLength + i)%nat) clock redis log
    (with_hub (hub_step (hub rw) (ClientMade ref c)) rw) Hq1 Hq2 Ht Hopen (ok_db _ _ _ _ (ready_tables _ Hready)) Hs Hid Hlive)
    as (w1 & Hw1 & Hrun).
  exists (SocketWorld (AuthWorld (World d [] (ev_now e0) es) (λ i, bytes (tokenLength + i)%nat) (λ n, clock (S n)) redis log) w1).
  split; [apply (sv_open _ _ _ Hw1)|]. intros r w2 Hr. specialize (Hrun r w2 Hr) as (w' & Hrun & Hh).
  unfold serve_with. rewrite Hhub. cbn [negb].
  rewrite (proc_bind_run _ _ _ t _ (on_auth_run newToken (AuthWorld (World d [] start (e0 :: e1 :: e2 :: es)) bytes clock redis log) rw _ _ eq_refl)).
  rewrite Hc. erewrite proc_bind_run; [|reflexivity].
  rewrite (proc_bind_run _ _ _ _ _ (attempt_run _ _ _ _ (on_auth_run _ _ _ _ _
    (begin_run d [] start e0 (e1 :: e2 :: es) (λ i, bytes (tokenLength + i)%nat) clock redis log Hq0)))).
  destruct (socket_deferring_run _ _ _ _ Hrun) as (w'' & Hd & Hr'). exists w''. split; [exact Hd|]. unfold socket_hub. by rewrite Hr'.
Qed.
End works.
