(* ===== verification/HandshakeExamples.v ===== *)
(** The handshake at concrete inputs: alice, who has logged in, opens a connection, and
    loses it when she logs out. *)
From Stdlib Require Import Ascii String.
From S2P Require Import Prelude GoStd Tables Driver MessageService ConversationSync Redis Presence PresencePromises Hub HubOk HubPromises Router RouterPromises.
From S2P Require Import AuthTables AuthOk RateLimit Credentials AuthQueries Auth AuthSpec AuthHandlers AuthPromises AuthExamples.
From S2P Require Import Handshake HubOk HandshakePromises HandshakeWorks.
Open Scope Z_scope.

#[local] Existing Instances example_time padded_digest padded_key plain_cipher ascii_lower.

Definition socket_app : socket_application := SocketApplication true (Some some_presence) (Some east_router).

Definition no_redis : redis_world := RedisWorld (RedisDb ∅ 0 (λ _, 0%nat) []) [].
Definition alice_world : socket_world := SocketWorld authentication.2 (RouterWorld newWebSocketHub [] [] no_redis).

(** A run that is over at once. *)
Definition greeting := serve_with socket_app alice true true (λ _ _, mret tt : socket_proc unit) alice_world.

Lemma alice_undisturbed : undisturbed alice_world.
Proof. split; [|by constructor]. intros r c. cbn. by rewrite lookup_empty. Qed.

Lemma greeting_answered :
  serve_with socket_app alice true true (λ _ _, mret tt : socket_proc unit) alice_world = (greeting.1, greeting.2).
Proof. unfold greeting. apply surjective_pairing. Qed.

Lemma greeting_ok : greeting.1 = Ok tt.
Proof. vm_compute. reflexivity. Qed.

Lemma handshake_admits_standing_sessions_witness :
  greeting.1 = Ok tt ∧
  ((∃ c w1 w2, client_for alice (next_connection_id alice_world) c ∧
     admitted (auth_db (sw_auth alice_world)) alice (next_ref alice_world) c w1 ∧
     (mret tt : socket_proc unit) w1 = (greeting.1, w2) ∧ socket_hub greeting.2 = socket_hub w2 ∧
     auth_db (sw_auth greeting.2) = auth_db (sw_auth w2)) ∨
   ∃ e, greeting.1 = Err e ∧ refused (next_ref alice_world) e greeting.2).
Proof.
  split; [exact greeting_ok|].
  exact (handshake_admits_standing_sessions socket_app alice true true (λ _ _, mret tt) alice_world greeting.1 greeting.2
    authentication_ready alice_undisturbed greeting_answered).
Defined.

(** The tables while the connection runs. *)
Lemma greeting_tables : ∃ w1 : socket_world, auth_db (sw_auth w1) = auth_db (sw_auth greeting.2) ∧ auth_ok (auth_db (sw_auth w1)).
Proof.
  destruct (serve_ends socket_app alice true true (λ _ _, mret tt) alice_world greeting.1 greeting.2 authentication_ready alice_undisturbed greeting_answered)
    as [(c & _ & [(w1 & w2 & Had & Hr & _ & Hd)|(e & He & _)])|(e & He & _)].
  - exists w1. apply proc_ret_inv in Hr as [_ ->]. split; [done|]. apply (ok_db _ _ _ _ (sane_world _ _ (ad_tables _ _ _ _ _ Had))).
  - by rewrite greeting_ok in He.
  - by rewrite greeting_ok in He.
Qed.

(** Alice logs out from elsewhere. *)
Definition greeting_db : auth_database := Eval vm_compute in auth_db (sw_auth greeting.2).
Lemma greeting_db_eq : auth_db (sw_auth greeting.2) = greeting_db.
Proof. vm_compute. reflexivity. Qed.

Definition after_greeting : auth_world :=
  AuthWorld (World greeting_db [] 0 (example_event <$> seq 50 5)) (λ n, Z.of_nat n) (λ _, example_now) no_redis [].
Definition parting := logout example_app alice after_greeting.

Lemma calm_ready d bytes : auth_ok d →
  ready (AuthWorld (World d [] 0 (example_event <$> seq 50 5)) bytes (λ _, example_now) no_redis []).
Proof.
  intros Hok. split; [|done|done]. split; [exact Hok|exact Hok|].
  apply Forall_fmap, Forall_true. intros n. apply quiet_respects; [intros us; apply _|apply example_quiet].
Qed.

Lemma after_greeting_ready : ready after_greeting.
Proof.
  apply calm_ready. destruct greeting_tables as (w1 & Hd & Hok). by rewrite <-greeting_db_eq, <-Hd.
Qed.

Lemma parting_answered : logout example_app alice after_greeting = (Ok tt, parting.2).
Proof. unfold parting. apply succeeded_unit. vm_compute. reflexivity. Qed.

Lemma alice_standing : standing (authenticatedSessionID alice) (authenticatedUserID alice) (auth_db after_greeting).
Proof. exists (nth_session 1 after_greeting). split; [apply nth_session_in; vm_compute; eauto|]. vm_compute. auto. Qed.

Lemma parting_evolves : auth_evolves [] (auth_db after_greeting) (auth_db parting.2).
Proof.
  destruct (ends_sessions_spec _ _ _ _ _ (ends_one example_app alice) after_greeting _ parting.2 (ready_idle _ after_greeting_ready) parting_answered)
    as (Hs & _). apply (sane_from _ _ Hs).
Qed.

Lemma revocation_closes_connections_witness :
  is_ok parting.1 = true ∧
  ∃ c w1 w2, userID c = authenticatedUserID alice ∧ (mret tt : socket_proc unit) w1 = (greeting.1, w2) ∧
    ¬ ended (sessionID c) (auth_db (sw_auth w1)) ∧
    ∃ session, (userID c, session) ∈ aw_disconnected parting.2 ∧
      ∀ order before after, Forall (spares (next_ref alice_world) (connectionID c)) before →
        Forall (spares (next_ref alice_world) (connectionID c)) after →
        closed (next_ref alice_world)
          (hub_run (socket_hub w1) (before ++ SessionDisconnected order (userID c) (default 0 session) :: after)).
Proof.
  split; [vm_compute; reflexivity|].
  assert (authenticatedSessionID alice = AuthTables.session_id (nth_session 1 parting.2)) as Hsid by (vm_compute; reflexivity).
  destruct (revocation_closes_connections socket_app example_app alice true true (λ _ _, mret tt) alice_world greeting.1 greeting.2
    authentication_ready alice_undisturbed greeting_answered)
    as [(e & He & _)|(c & w1 & w2 & Hu & Hs & Hrun & _ & Hd & _ & Hlive & Hclose)]; [by rewrite greeting_ok in He|].
  exists c, w1, w2. refine (conj Hu (conj Hrun (conj Hlive _))).
  refine (Hclose alice _ _ after_greeting parting.2 (nth_session 1 parting.2)
    (ends_one example_app alice) eq_refl _ after_greeting_ready parting_answered alice_standing _ _ _).
  - apply proc_ret_inv in Hrun as [_ ->]. rewrite <-Hd, greeting_db_eq.
    change greeting_db with (auth_db after_greeting). exact parting_evolves.
  - apply nth_session_in. vm_compute. eauto.
  - rewrite <-Hsid. symmetry. exact Hs.
  - rewrite Hsid. apply Z.eqb_refl.
Defined.

(** ** The watch *)

Definition alice_client : webSocketClient := Eval vm_compute in
  WebSocketClient (authenticatedUserID alice) (authenticatedSessionID alice) "alice-laptop" defaultWebSocketClientConfig [] [] None.
Definition hub_with (c : webSocketClient) : webSocketHub := hub_run newWebSocketHub [ClientMade 0 c; Registered 0].

Lemma hub_with_known c : known 0 c (hub_with c).
Proof.
  unfold hub_with, hub_run. cbn [foldl hub_step]. apply register_known. unfold known. cbn [objects newWebSocketHub]. split.
  - exists c. by rewrite lookup_insert_eq.
  - intros r c' [[<- <-]|[_ Hc]]%lookup_insert_Some; [done|]. by rewrite lookup_empty in Hc.
Qed.

(** Her session has ended, but the disconnection never arrived. *)
Definition farewell_db : auth_database := Eval vm_compute in auth_db farewell.2.
Lemma farewell_db_ok : auth_ok farewell_db.
Proof.
  assert (auth_db farewell.2 = farewell_db) as <- by (vm_compute; reflexivity). apply (ok_db _ _ _ _ (ready_tables _ farewell_ready)).
Qed.
Definition after_farewell : auth_world :=
  AuthWorld (World farewell_db [] 0 (example_event <$> seq 50 5)) (λ n, Z.of_nat n) (λ _, example_now) no_redis [].
Definition watched_world : socket_world := SocketWorld after_farewell (RouterWorld (hub_with alice_client) [] [] no_redis).
Definition watching := maintainWebSocketSession 0 alice_client [[Written 0%nat]] watched_world.

Lemma watching_answered :
  maintainWebSocketSession 0 alice_client [[Written 0%nat]] watched_world = (watching.1, watching.2).
Proof. unfold watching. apply surjective_pairing. Qed.

Lemma watched_known : known 0 alice_client (socket_hub watched_world).
Proof. exact (hub_with_known alice_client). Qed.

Lemma session_watch_fails_closed_witness :
  ended (sessionID alice_client) (auth_db (sw_auth watched_world)) ∧
  watching.1 = Ok tt ∧ (closed 0 (socket_hub watching.2) ∨ standing (sessionID alice_client) (userID alice_client) (auth_db (sw_auth watching.2))) ∧
  (ended (sessionID alice_client) (auth_db (sw_auth watched_world)) → closed 0 (socket_hub watching.2)).
Proof.
  split.
  { exists (nth_session 1 after_farewell). split; [apply nth_session_in; vm_compute; eauto|]. split; [vm_compute; reflexivity|]. vm_compute. eauto. }
  refine (session_watch_fails_closed 0 alice_client [[Written 0%nat]] watched_world watching.1 watching.2 (calm_ready _ _ farewell_db_ok) watched_known _ _ watching_answered).
  - repeat constructor.
  - done.
Defined.

(** ** The connection *)

Lemma authentication_events : w_events (aw_db authentication.2) =
  example_event 30 :: example_event 31 :: example_event 32 :: (example_event <$> seq 33 27).
Proof. vm_compute. reflexivity. Qed.

Definition alice_session : session_row := Eval vm_compute in nth_session 1 authentication.2.

Lemma alice_session_in : alice_session ∈ sessions (auth_db (sw_auth alice_world)).
Proof. apply (list_elem_of_lookup_2 _ 1%nat). vm_compute. reflexivity. Qed.

Lemma new_hub_open : hub_ok (socket_hub alice_world) ∧ hub_trips (sw_router alice_world) = [].
Proof. split; [apply new_hub_ok|done]. Qed.

Lemma handshake_gives_connection_witness :
  ∃ c, client_for alice (next_connection_id alice_world) c ∧ client_closed c = None ∧
  ∀ (run : nat → webSocketClient → socket_proc unit), ∃ w1, open_at (next_ref alice_world) c (socket_hub w1) ∧
    ∀ r w2, run (next_ref alice_world) c w1 = (r, w2) →
    ∃ w', serve_with socket_app alice true true run alice_world = (r, w') ∧ socket_hub w' = socket_hub w2.
Proof.
  refine (handshake_gives_connection socket_app alice true alice_session (example_event 30) (example_event 31) (example_event 32)
    (example_event <$> seq 33 27) alice_world eq_refl authentication_ready alice_undisturbed (proj1 new_hub_open) (proj2 new_hub_open)
    authentication_events (example_quiet 30) (example_quiet 31) (example_quiet 32) alice_session_in _ _ _ _); vm_compute; reflexivity.
Defined.
