(* ===== verification/Packets.v ===== *)
(** [internal/reliabilitylab], packets: an amount of money that is split into shares
    when it is created, each of which one user can claim once; a claim's credit is
    delivered to a consumer by way of an outbox.  Tables are maps by primary key. *)
From Stdlib Require Import Ascii String.
From S2P Require Import Prelude GoStd Tables Driver Schema MessageStore.
Open Scope Z_scope.

(** * The tables of the experiment's [schema.sql] *)

Record packet_row : Type := PacketRow { total : Z; shares : Z }.
Record slot_row : Type := SlotRow { slot_amount : Z; claimed_by : option string }.
Record credit_row : Type := CreditRow { credit_slot : Z; credit_amount : Z }.

(** Slots are keyed by packet and number, credits by packet and user. *)
Record lab_database : Type := LabDatabase {
  packets : gmap string packet_row;
  packet_slots : gmap (string * Z) slot_row;
  packet_credits : gmap (string * string) credit_row;
  credit_outbox : gset (string * string);
  received_credits : gmap (string * string) Z
}.

(** [LockPacket] is a row lock. *)
Inductive lab_change : Type :=
| InsertPacket (id : string) (p : packet_row)
| LockPacket (id : string)
| InsertSlot (id : string) (slot amount : Z)
| ClaimSlot (id : string) (slot : Z) (user : string)
| InsertCredit (id user : string) (c : credit_row)
| InsertIntent (id user : string)
| DeleteIntent (id user : string)
| InsertReceived (id user : string) (amount : Z).

(** An insertion does not touch a row that is there, nor a claim a slot that is
    claimed. *)
Definition add_row `{Countable K} {A} (k : K) (x : A) (m : gmap K A) : gmap K A :=
  if m !! k is Some _ then m else <[k := x]> m.
Definition claim_row (user : string) (s : slot_row) : slot_row :=
  SlotRow (slot_amount s) (Some (default user (claimed_by s))).

#[global] Instance apply_lab_change : RowChange lab_database lab_change := λ u d,
  match u with
  | InsertPacket id p =>
      LabDatabase (add_row id p (packets d)) (packet_slots d) (packet_credits d) (credit_outbox d) (received_credits d)
  | LockPacket _ => d
  | InsertSlot id n amount =>
      LabDatabase (packets d) (add_row (id, n) (SlotRow amount None) (packet_slots d)) (packet_credits d) (credit_outbox d)
        (received_credits d)
  | ClaimSlot id n user =>
      LabDatabase (packets d) (alter (claim_row user) (id, n) (packet_slots d)) (packet_credits d) (credit_outbox d)
        (received_credits d)
  | InsertCredit id user c =>
      LabDatabase (packets d) (packet_slots d) (add_row (id, user) c (packet_credits d)) (credit_outbox d) (received_credits d)
  | InsertIntent id user =>
      LabDatabase (packets d) (packet_slots d) (packet_credits d) ({[(id, user)]} ∪ credit_outbox d) (received_credits d)
  | DeleteIntent id user =>
      LabDatabase (packets d) (packet_slots d) (packet_credits d) (credit_outbox d ∖ {[(id, user)]}) (received_credits d)
  | InsertReceived id user amount =>
      LabDatabase (packets d) (packet_slots d) (packet_credits d) (credit_outbox d) (add_row (id, user) amount (received_credits d))
  end.

(** ** The deferred constraint trigger [check_allocation] *)

Definition sum_list : list Z → Z := foldr Z.add 0.

(** A packet's rows of a table, with the rest of their keys. *)
Definition rows_of `{Countable K} {A} (id : string) (m : gmap (string * K) A) : list (K * A) :=
  omap (λ e : string * K * A, if bool_decide (e.1.1 = id) then Some (e.1.2, e.2) else None) (map_to_list m).

Definition slots_of (id : string) (d : lab_database) : list (Z * slot_row) := rows_of id (packet_slots d).

Definition least (ns : list Z) : option Z := head (merge_sort Z.le ns).
Definition greatest (ns : list Z) : option Z := last (merge_sort Z.le ns).

Definition check_allocation (id : string) (d : lab_database) : bool :=
  match packets d !! id with
  | None => true
  | Some p =>
      let rows := slots_of id d in
      (Z.of_nat (List.length rows) =? shares p) && (sum_list (slot_amount ∘ snd <$> rows) =? total p) &&
      bool_decide (least rows.*1 = Some 0) && bool_decide (greatest rows.*1 = Some (shares p - 1))
  end.

(** The packets whose rows, or whose slots' rows, a transaction changed. *)
Definition touched (u : lab_change) : list string :=
  match u with InsertPacket id _ | InsertSlot id _ _ | ClaimSlot id _ _ => [id] | _ => [] end.

(** COMMIT runs the deferred checks first. *)
Definition commit_deferred : proc (world lab_database lab_change) db_error unit :=
  e ← next_event;
  match ev_fault e with
  | LostBefore => discard_tx ≫= λ _, mthrow ConnError
  | f => atomically (λ w,
      if forallb (λ id, check_allocation id (tx_view w)) (w_tx w ≫= touched)
      then (if f is NoFault then Ok tt else Err ConnError, World (tx_view w) [] (w_start w) (w_events w))
      else (if f is NoFault then Err (PgError check_violation) else Err ConnError,
            World (w_db w) [] (w_start w) (w_events w)))
  end.

(** * Statements *)

Abbreviation lab_statement := (statement lab_database lab_change).

Definition insert_packet (id : string) (total shares : Z) : lab_statement unit :=
  with_text [id] (λ _ d,
    _ ← first_violation [(0 <? total, check_violation); (in_range 1 10000 shares, check_violation);
                         (opt_none (packets d !! id), unique_violation)];
    Ok (tt, [InsertPacket id (PacketRow total shares)])).

(** [total / shares + CASE WHEN n < total % shares THEN 1 ELSE 0 END]. *)
Definition share (total shares n : Z) : Z := total / shares + (if n <? total mod shares then 1 else 0).

Definition insert_slot_checks (id : string) (total shares n : Z) (d : lab_database) : list (bool * string) :=
  [(0 <=? n, check_violation); (0 <? share total shares n, check_violation);
   (opt_none (packet_slots d !! (id, n)), unique_violation); (negb (opt_none (packets d !! id)), foreign_key_violation)].

(** One row for each number of [generate_series(0, shares - 1)]. *)
Definition insert_slots (id : string) (total shares : Z) : lab_statement unit :=
  with_text [id] (λ _ d,
    _ ← first_violation (seqZ 0 shares ≫= λ n, insert_slot_checks id total shares n d);
    Ok (tt, (λ n, InsertSlot id n (share total shares n)) <$> seqZ 0 shares)).

(** [FOR UPDATE]. *)
Definition lock_packet (id : string) : lab_statement unit :=
  with_text [id] (λ _ d, match packets d !! id with None => Err NoRows | Some _ => Ok (tt, [LockPacket id]) end).

Definition select_credit (id user : string) : lab_statement (Z * Z) :=
  with_text [id; user] (query_row (λ d, (λ c, (credit_slot c, credit_amount c)) <$> packet_credits d !! (id, user))).

(** The numbers of a packet's unclaimed slots. *)
Definition free_slots (id : string) (d : lab_database) : list Z :=
  (List.filter (λ e : Z * slot_row, opt_none (claimed_by e.2)) (slots_of id d)).*1.

Definition has_claimed (id user : string) (d : lab_database) : bool :=
  existsb (λ e : Z * slot_row, bool_decide (claimed_by e.2 = Some user)) (slots_of id d).

Definition claim_slot (id user : string) : lab_statement (Z * Z) :=
  with_text [id; user] (λ _ d,
    match (n ← least (free_slots id d); s ← packet_slots d !! (id, n); Some (n, s)) with
    | None => Err NoRows
    | Some (n, s) =>
        _ ← first_violation [(in_range 1 128 (char_length user), check_violation);
                             (negb (has_claimed id user d), unique_violation)];
        Ok ((n, slot_amount s), [ClaimSlot id n user])
    end).

Definition slot_credited (id : string) (n : Z) (d : lab_database) : bool :=
  existsb (λ e : string * string * credit_row, bool_decide (e.1.1 = id) && (credit_slot e.2 =? n)) (map_to_list (packet_credits d)).

(** [INSERT INTO packet_credits]. *)
Definition insert_credit (id : string) (slot amount : Z) (user : string) : lab_statement unit :=
  with_text [id; user] (λ _ d,
    _ ← first_violation [(opt_none (packet_credits d !! (id, user)), unique_violation);
                         (negb (slot_credited id slot d), unique_violation);
                         (match packet_slots d !! (id, slot) with
                          | Some s => (slot_amount s =? amount) && bool_decide (claimed_by s = Some user)
                          | None => false
                          end, foreign_key_violation)];
    Ok (tt, [InsertCredit id user (CreditRow slot amount)])).

Definition insert_intent (id user : string) : lab_statement unit :=
  with_text [id; user] (λ _ d,
    _ ← first_violation [(negb (bool_decide ((id, user) ∈ credit_outbox d)), unique_violation);
                         (negb (opt_none (packet_credits d !! (id, user))), foreign_key_violation)];
    Ok (tt, [InsertIntent id user])).

(** [INSERT INTO received_credits SELECT ... JOIN ... ON CONFLICT DO NOTHING]. *)
Definition receive_credit (id user : string) : lab_statement unit :=
  with_text [id; user] (λ _ d,
    match packet_credits d !! (id, user) with
    | Some c =>
        if bool_decide ((id, user) ∈ credit_outbox d) then
          _ ← first_violation [(0 <? credit_amount c, check_violation)];
          Ok (tt, if received_credits d !! (id, user) is Some _ then [] else [InsertReceived id user (credit_amount c)])
        else Ok (tt, [])
    | None => Ok (tt, [])
    end).

Definition delete_intent (id user : string) : lab_statement unit :=
  with_text [id; user] (λ _ d,
    Ok (tt, if bool_decide ((id, user) ∈ credit_outbox d) then [DeleteIntent id user] else [])).

(** * The store *)

Inductive packet_error : Type :=
| PacketDatabaseError (e : db_error)
| ErrExhausted
| ClaimCommit (e : db_error)
| InvalidArgument (text : string).

Abbreviation packet_proc := (proc (world lab_database lab_change) packet_error).

Record Receipt : Type := MkReceipt { receipt_packet : string; receipt_user : string; receipt_slot : Z; receipt_amount : Z }.
#[global] Instance Receipt_eq_dec : EqDecision Receipt.
Proof. solve_decision. Defined.

Definition on_lab {A} (m : proc (world lab_database lab_change) db_error A) : packet_proc A := run_error PacketDatabaseError m.

Definition Create (id : string) (total shares : Z) : packet_proc unit :=
  if bool_decide (id = EmptyString) || (shares <? 1) || (10000 <? shares) || (total <? shares)
  then mthrow (InvalidArgument "invalid packet allocation")
  else
    _ ← on_lab begin_tx;
    deferring_rollback (
      _ ← on_lab (tx_statement (insert_packet id total shares));
      _ ← on_lab (tx_statement (insert_slots id total shares));
      on_lab commit_deferred).

(** What follows when the user has no credit yet.  The checkpoints are the tests'. *)
Definition claim_new (packet user : string) : packet_proc Receipt :=
  claimed ← attempt (tx_statement (claim_slot packet user));
  match claimed with
  | Err NoRows => mthrow ErrExhausted
  | Err e => mthrow (PacketDatabaseError e)
  | Ok (slot, amount) =>
      _ ← on_lab (tx_statement (insert_credit packet slot amount user));
      _ ← on_lab (tx_statement (insert_intent packet user));
      _ ← run_error ClaimCommit commit_deferred;
      mret (MkReceipt packet user slot amount)
  end.

Definition Claim (packet user : string) : packet_proc Receipt :=
  if bool_decide (user = EmptyString) || (128 <? len user) then mthrow (InvalidArgument "invalid user")
  else
    _ ← on_lab begin_tx;
    deferring_rollback (
      _ ← on_lab (tx_statement (lock_packet packet));
      existing ← attempt (tx_statement (select_credit packet user));
      match existing with
      | Ok (slot, amount) =>
          _ ← on_lab commit_deferred;
          mret (MkReceipt packet user slot amount)
      | Err NoRows => claim_new packet user
      | Err e => mthrow (PacketDatabaseError e)
      end).

Definition Deliver (packet user : string) : packet_proc unit :=
  _ ← on_lab (auto_statement (receive_credit packet user));
  on_lab (auto_statement (delete_intent packet user)).

(** [PacketHandler]: [who] is what [authenticate] answered. *)
Inductive claim_reply : Type :=
| ClaimRefused (status : Z) (text : string)
| Claimed (receipt : Receipt).

Definition PacketHandler (who : option string) (packet : string) :
    world lab_database lab_change → claim_reply * world lab_database lab_change := λ w,
  match who with
  | None => (ClaimRefused 401 "unauthorized", w)
  | Some user =>
      if bool_decide (user = EmptyString) then (ClaimRefused 401 "unauthorized", w)
      else
        let '(r, w') := Claim packet user w in
        (match r with
         | Err ErrExhausted => ClaimRefused 409 "exhausted"
         | Err (PacketDatabaseError NoRows) => ClaimRefused 404 "packet not found"
         | Err _ => ClaimRefused 503 "claim outcome unresolved; retry same packet and user"
         | Ok receipt => Claimed receipt
         end, w')
  end.
