(* ===== verification/PacketsOk.v ===== *)
(** The packet tables: their invariant and how they evolve; then what slots, claims and
    credits add up to. *)
From Stdlib Require Import Ascii String.
From S2P Require Import Prelude GoStd Tables Driver Schema MessageStore Packets.
Open Scope Z_scope.

(** * Invariants *)

(** Every row is one that the constraints allow; between the statements of a claim
    too. *)
Record lab_ok (d : lab_database) : Prop := LabOk {
  lo_packets : ∀ id p, packets d !! id = Some p → 1 ≤ shares p ≤ 10000 ∧ shares p ≤ total p;
  lo_slots : ∀ id n s, packet_slots d !! (id, n) = Some s →
    ∃ p, packets d !! id = Some p ∧ 0 ≤ n < shares p ∧ slot_amount s = share (total p) (shares p) n;
  lo_claims : ∀ id n m s s' u, packet_slots d !! (id, n) = Some s → packet_slots d !! (id, m) = Some s' →
    claimed_by s = Some u → claimed_by s' = Some u → n = m;
  lo_credits : ∀ id u c, packet_credits d !! (id, u) = Some c →
    packet_slots d !! (id, credit_slot c) = Some (SlotRow (credit_amount c) (Some u));
  lo_intents : ∀ k, k ∈ credit_outbox d → is_Some (packet_credits d !! k);
  lo_received : ∀ k a, received_credits d !! k = Some a → ∃ c, packet_credits d !! k = Some c ∧ credit_amount c = a
}.

(** The consumer will learn, or has learnt, of a credit. *)
Definition notified (d : lab_database) (k : string * string) : Prop :=
  k ∈ credit_outbox d ∨ is_Some (received_credits d !! k).

(** Nothing is half done about a packet. *)
Record settled_at (d : lab_database) (id : string) : Prop := SettledAt {
  sa_complete : ∀ p n, packets d !! id = Some p → 0 ≤ n < shares p → is_Some (packet_slots d !! (id, n));
  sa_credited : ∀ n s u, packet_slots d !! (id, n) = Some s → claimed_by s = Some u →
    ∃ c, packet_credits d !! (id, u) = Some c ∧ credit_slot c = n;
  sa_notified : ∀ u, is_Some (packet_credits d !! (id, u)) → notified d (id, u)
}.

(** Every committed state is settled. *)
Definition settled (d : lab_database) : Prop := lab_ok d ∧ ∀ id, settled_at d id.

Lemma settled_ok d : settled d → lab_ok d.
Proof. by intros [? _]. Qed.

(** * Evolution *)

(** A transaction that has locked or made a packet keeps others off it. *)
Definition held (us : list lab_change) (id : string) : Prop :=
  LockPacket id ∈ us ∨ ∃ p, InsertPacket id p ∈ us.

Definition slot_evolves (s s' : slot_row) : Prop :=
  slot_amount s' = slot_amount s ∧ ∀ u, claimed_by s = Some u → claimed_by s' = Some u.

Record lab_evolves (us : list lab_change) (d d' : lab_database) : Prop := LabEvolves {
  le_packets : ∀ id p, packets d !! id = Some p → packets d' !! id = Some p;
  le_slots : ∀ k s, packet_slots d !! k = Some s → ∃ s', packet_slots d' !! k = Some s' ∧ slot_evolves s s';
  le_credits : ∀ k c, packet_credits d !! k = Some c → packet_credits d' !! k = Some c;
  le_received : ∀ k a, received_credits d !! k = Some a → received_credits d' !! k = Some a;
  le_notified : ∀ k, notified d k → notified d' k;
  le_settled : ∀ id, settled_at d id → settled_at d' id;
  le_held : ∀ id, held us id → packets d' !! id = packets d !! id ∧
    (∀ n, packet_slots d' !! (id, n) = packet_slots d !! (id, n)) ∧
    ∀ u, packet_credits d' !! (id, u) = packet_credits d !! (id, u)
}.

#[export] Instance lab_evolves_preorder us : PreOrder (lab_evolves us).
Proof.
  split.
  - intros d. split; try done. intros k s Hs. by exists s.
  - intros d1 d2 d3 [P1 S1 C1 R1 N1 T1 L1] [P2 S2 C2 R2 N2 T2 L2]. split; auto.
    + intros k s Hs. destruct (S1 k s Hs) as (s2 & Hs2 & Ea & Ec). destruct (S2 k s2 Hs2) as (s3 & Hs3 & Fa & Fc).
      exists s3. split; [done|]. split; [congruence|auto].
    + intros id Hid. destruct (L1 id Hid) as (A1 & B1 & D1), (L2 id Hid) as (A2 & B2 & D2).
      split_and!; intros; congruence.
Qed.

Lemma not_held id : ¬ held [] id.
Proof. intros [?%not_elem_of_nil|[? ?%not_elem_of_nil]]; done. Qed.

Lemma lab_evolves_nil us d d' : lab_evolves us d d' → lab_evolves [] d d'.
Proof. intros [? ? ? ? ? ? _]. split; try done. by intros id ?%not_held. Qed.

(** A step of one's own that only adds, and leaves everything settled. *)
Lemma lab_evolves_intro d d' :
  (∀ id p, packets d !! id = Some p → packets d' !! id = Some p) →
  (∀ k s, packet_slots d !! k = Some s → ∃ s', packet_slots d' !! k = Some s' ∧ slot_evolves s s') →
  (∀ k c, packet_credits d !! k = Some c → packet_credits d' !! k = Some c) →
  (∀ k a, received_credits d !! k = Some a → received_credits d' !! k = Some a) →
  (∀ k, notified d k → notified d' k) → settled d' → lab_evolves [] d d'.
Proof. intros ? ? ? ? ? [_ Hs]. split; try done. by intros id ?%not_held. Qed.

(** ** Stable assertions about a transaction's changes and its view *)

Definition stable (F : list lab_change → lab_database → Prop) : Prop :=
  ∀ us d d', lab_ok d → lab_ok d' → lab_evolves us d d' → F us d → F us d'.

(** ** What one's own changes do *)

Lemma lookup_add_row `{Countable K} {A} (k : K) (x : A) (m : gmap K A) k' :
  add_row k x m !! k' = if decide (k' = k) then Some (default x (m !! k)) else m !! k'.
Proof.
  unfold add_row. destruct (m !! k) as [y|] eqn:E; destruct (decide (k' = k)) as [->|Hne]; try done.
  - by rewrite lookup_insert_eq.
  - by rewrite lookup_insert_ne.
Qed.

Lemma add_row_keeps `{Countable K} {A} (k : K) (x : A) (m : gmap K A) k' y : m !! k' = Some y → add_row k x m !! k' = Some y.
Proof. intros Hy. rewrite lookup_add_row. destruct (decide (k' = k)) as [->|]; [by rewrite Hy|done]. Qed.

(** What only grows. *)
Record grown (d d' : lab_database) : Prop := Grown {
  gr_packets : ∀ id p, packets d !! id = Some p → packets d' !! id = Some p;
  gr_slots : ∀ k s, packet_slots d !! k = Some s → ∃ s', packet_slots d' !! k = Some s' ∧ slot_evolves s s';
  gr_credits : ∀ k c, packet_credits d !! k = Some c → packet_credits d' !! k = Some c;
  gr_received : ∀ k a, received_credits d !! k = Some a → received_credits d' !! k = Some a;
  gr_notified : ∀ k, notified d k → notified d' k
}.

#[export] Instance grown_preorder : PreOrder grown.
Proof.
  split.
  - intros d. split; try done. intros k s Hs. by exists s.
  - intros d1 d2 d3 [P1 S1 C1 R1 N1] [P2 S2 C2 R2 N2]. split; auto.
    intros k s Hs. destruct (S1 k s Hs) as (s2 & Hs2 & Ea & Ec). destruct (S2 k s2 Hs2) as (s3 & Hs3 & Fa & Fc).
    exists s3. split; [done|]. split; [congruence|auto].
Qed.

Lemma grown_settled d d' : grown d d' → settled d' → lab_evolves [] d d'.
Proof. intros [? ? ? ? ?]. by apply lab_evolves_intro. Qed.

Lemma change_grows u d : (∀ id user, u ≠ DeleteIntent id user) → grown d (apply_change u d).
Proof.
  intros Hne. assert (∀ d', packet_slots d' = packet_slots d → ∀ k s, packet_slots d !! k = Some s →
    ∃ s', packet_slots d' !! k = Some s' ∧ slot_evolves s s') as Hsame.
  { intros d' Heq k s Hs. exists s. by rewrite Heq. }
  destruct u as [id p|id|id n a|id n user|id user c|id user|id user|id user a]; simpl; try done;
    try (by edestruct Hne); split; simpl; try done; try (by apply Hsame); try (intros ? ?; apply add_row_keeps).
  - intros k s Hs. exists s. split; [by apply add_row_keeps|done].
  - intros k s Hs. destruct (decide (k = (id, n))) as [->|Hk].
    + exists (claim_row user s). rewrite lookup_alter_eq, Hs. split; [done|]. split; [done|]. intros u Hu. simpl. by rewrite Hu.
    + exists s. by rewrite lookup_alter_ne.
  - intros k [Hk|Hk]; [left; simpl; set_solver|by right].
  - intros k [Hk|[x Hx]]; [by left|right]. exists x. by apply add_row_keeps.
Qed.

Lemma apply_changes_cons u us d : apply_changes (u :: us) d = apply_changes us (apply_change u d).
Proof. done. Qed.

Lemma changes_grow us d : Forall (λ u, ∀ id user, u ≠ DeleteIntent id user) us → grown d (apply_changes us d).
Proof.
  intros Hus. revert d. induction Hus as [|u us Hu _ IH]; intros d; [done|].
  etrans; [by apply (change_grows u)|]. apply IH.
Qed.

(** * Driver calls *)

(** The world is consistent, and its committed state comes from [d0]. *)
Definition lab_world (d0 : lab_database) (w : world lab_database lab_change) : Prop :=
  world_ok settled lab_ok lab_evolves w ∧ lab_evolves [] d0 (w_db w).

Definition idle (d0 : lab_database) (w : world lab_database lab_change) : Prop := lab_world d0 w ∧ w_tx w = [].

(** In a transaction that adds. *)
Definition in_tx (d0 : lab_database) (F : list lab_change → lab_database → Prop) (w : world lab_database lab_change) : Prop :=
  lab_world d0 w ∧ Forall (λ u, ∀ id user, u ≠ DeleteIntent id user) (w_tx w) ∧ F (w_tx w) (tx_view w).

Section calls.
Context (d0 : lab_database).
Implicit Types (w : world lab_database lab_change).

Lemma begin_step w r w' : idle d0 w → begin_tx w = (r, w') →
  match r with
  | Ok _ => in_tx d0 (λ us d, us = [] ∧ ∀ id, settled_at d id) w'
  | Err e => idle d0 w' ∧ e = ConnError
  end.
Proof.
  intros [[Hw Hev] Htx] H. apply (begin_tx_spec settled lab_ok lab_evolves settled_ok) in H as (Hw' & Hd & Hr); [|done].
  assert (lab_evolves [] d0 (w_db w')) as Hev' by (etrans; [done|by eapply lab_evolves_nil]).
  destruct r as [e|[]]; [destruct Hr as [Hr ->]; split; [split; [by split|congruence]|done]|].
  split; [by split|]. rewrite Hr. split; [done|]. split; [done|]. unfold tx_view. rewrite Hr. apply Hw'.
Qed.

Lemma drift_in_tx F w w' : stable F → in_tx d0 F w → world_ok settled lab_ok lab_evolves w' → drift lab_evolves w w' → in_tx d0 F w'.
Proof.
  intros HF ([Hw Hev] & Hus & HFw) Hw' Hdr. split; [split; [done|]|].
  - etrans; [done|]. eapply lab_evolves_nil, (drift_db _ _ _ Hdr).
  - rewrite (drift_tx _ _ _ Hdr). split; [done|]. apply (HF _ (tx_view w)); [apply Hw|apply Hw'|apply (drift_view _ _ _ Hdr)|done].
Qed.

Lemma statement_step {A} (st : lab_statement A) F G w r w' : stable F →
  (∀ env us d a us', lab_ok d → F us d → st env d = Ok (a, us') →
    Forall (λ u, ∀ id user, u ≠ DeleteIntent id user) us' ∧ lab_ok (apply_changes us' d) ∧ G a (us ++ us') (apply_changes us' d)) →
  in_tx d0 F w → tx_statement st w = (r, w') →
  match r with
  | Ok a => in_tx d0 (G a) w'
  | Err e => in_tx d0 F w' ∧ (e = ConnError ∨ ∃ env, st env (tx_view w') = Err e)
  end.
Proof.
  intros HF Hst Hin H. apply (tx_statement_spec settled lab_ok lab_evolves) in H; [|apply Hin].
  destruct r as [e|a].
  - destruct H as (Hw' & Hdr & He). split; [by eapply drift_in_tx|done].
  - destruct H as (w1 & env & us & Hw1 & Hdr & _ & _ & Ha & ->).
    destruct (drift_in_tx F w w1 HF Hin Hw1 Hdr) as ([_ Hev] & Hus & HF1).
    destruct (Hst env (w_tx w1) (tx_view w1) a us) as (Hus' & Hok & HG); [apply Hw1|done|done|]. split; [split|split].
    + by apply world_ok_push.
    + done.
    + simpl. by apply Forall_app.
    + by rewrite view_push.
Qed.

(** COMMIT of a settled view. *)
Lemma commit_step F w r w' : stable F → (∀ us d, lab_ok d → F us d → ∀ id, settled_at d id) →
  in_tx d0 F w → commit_deferred w = (r, w') →
  lab_world d0 w' ∧
  match r with
  | Ok _ => ∃ us, F us (w_db w')
  | Err e => e = ConnError ∨ ∃ us d, lab_ok d ∧ F us d ∧ forallb (λ id, check_allocation id d) (us ≫= touched) = false
  end.
Proof.
  intros HF Hset Hin H. unfold commit_deferred in H.
  apply proc_bind_inv in H as [(x & Hr & ->)|(e & w1 & Hr & H)];
    apply (next_event_spec settled lab_ok lab_evolves) in Hr as (Hw1 & Hdr & Hx); [|apply Hin|..|apply Hin].
  { subst. destruct (drift_in_tx F w w' HF Hin Hw1 Hdr) as (Hl & _). split; [done|by left]. }
  destruct (drift_in_tx F w w1 HF Hin Hw1 Hdr) as ([_ Hev] & Hus & HF1).
  assert (settled (tx_view w1)) as Hsv by (split; [apply Hw1|eapply Hset; [apply Hw1|done]]).
  assert (lab_evolves [] d0 (tx_view w1)) as Hev1.
  { etrans; [exact Hev|]. apply grown_settled; [by apply changes_grow|done]. }
  assert (∀ d, settled d → lab_evolves [] d0 d → lab_world d0 (World d [] (w_start w1) (w_events w1))) as Hnew.
  { intros d Hd Hevd. split; [|done]. destruct Hw1. split; simpl; [done|by apply settled_ok|done]. }
  assert (settled (w_db w1)) as Hs1 by apply Hw1.
  destruct (ev_fault e);
    [|apply proc_bind_inv in H as [(? & Hd & ->)|([] & w2 & Hd & H)]; [done|];
      apply proc_throw_inv in H as [-> ->]; injection Hd as <-; split; [by apply Hnew|by left]|];
    unfold atomically in H; destruct (forallb _ _) eqn:Ec; injection H as <- <-; (split; [by apply Hnew|]); eauto.
  right. exists (w_tx w1), (tx_view w1). split_and!; [apply Hw1|done|done].
Qed.

(** What was not committed is gone. *)
Lemma discarded w : lab_world d0 w → idle d0 (World (w_db w) [] (w_start w) (w_events w)).
Proof. intros [Hw Hev]. split; [|done]. split; [|done]. by apply (discard_tx_ok settled lab_ok lab_evolves settled_ok). Qed.
End calls.

(** * Sums over the slots *)

(** * Rows of a packet *)

Section rows.
Context `{Countable K} {A : Type}.
Implicit Types (m : gmap (string * K) A).

Lemma elem_of_rows_of id m k x : (k, x) ∈ rows_of id m ↔ m !! (id, k) = Some x.
Proof.
  unfold rows_of. rewrite list_elem_of_omap. split.
  - intros ([[id' k'] x'] & Hin & Heq). cbn in Heq. case_bool_decide; simplify_eq. by apply elem_of_map_to_list in Hin.
  - intros Hx. exists (id, k, x). split; [by apply elem_of_map_to_list|]. cbn. by rewrite bool_decide_eq_true_2.
Qed.

Lemma NoDup_rows_of id m : NoDup (rows_of id m).*1.
Proof.
  unfold rows_of. pose proof (NoDup_fst_map_to_list m) as Hnd. induction (map_to_list m) as [|[[id' k] x] l IH]; [constructor|].
  apply NoDup_cons in Hnd as [Hnew Hnd]. specialize (IH Hnd). cbn [omap list_omap fst snd].
  case_bool_decide as Heq; [subst|done]. apply NoDup_cons. split; [|done]. cbn [fst].
  intros ([k' x'] & -> & Hin)%list_elem_of_fmap. apply list_elem_of_omap in Hin as ([[id' k2] x2] & Hin & Heq).
  cbn in Heq. case_bool_decide; simplify_eq. apply Hnew. apply list_elem_of_fmap. by exists (id, k', x').
Qed.
End rows.

Lemma elem_of_slots_of id d n s : (n, s) ∈ slots_of id d ↔ packet_slots d !! (id, n) = Some s.
Proof. apply elem_of_rows_of. Qed.

(** * Sums *)

Lemma sum_list_app l1 l2 : sum_list (l1 ++ l2) = sum_list l1 + sum_list l2.
Proof. unfold sum_list. induction l1 as [|x l1 IH]; simpl; [done|]. rewrite IH. lia. Qed.

#[export] Instance sum_list_perm : Proper ((≡ₚ) ==> (=)) sum_list.
Proof. unfold sum_list. induction 1; simpl in *; lia. Qed.

Lemma sum_list_nonneg l : Forall (λ x, 0 ≤ x) l → 0 ≤ sum_list l.
Proof. unfold sum_list. induction 1; simpl in *; lia. Qed.

Lemma sum_list_submseteq l1 l2 : Forall (λ x, 0 ≤ x) l2 → l1 ⊆+ l2 → sum_list l1 ≤ sum_list l2.
Proof.
  intros Hpos [k Hk]%submseteq_Permutation. rewrite Hk in Hpos |- *. rewrite sum_list_app.
  apply Forall_app in Hpos as [_ Hpos%sum_list_nonneg]. lia.
Qed.

(** The first [k] of the shares. *)
Lemma sum_shares_prefix T S (k : nat) :
  sum_list (share T S <$> seqZ 0 (Z.of_nat k)) = Z.of_nat k * (T / S) + Z.min (Z.of_nat k) (Z.max 0 (T mod S)).
Proof.
  induction k as [|k IH]; [simpl; lia|]. rewrite seqZ_S, fmap_app, sum_list_app, IH. cbn [fmap list_fmap sum_list foldr].
  unfold share. case_match; lia.
Qed.

(** No unit is lost or made by splitting. *)
Lemma sum_shares T S : 0 < S → sum_list (share T S <$> seqZ 0 S) = T.
Proof.
  intros HS. rewrite <-(Z2Nat.id S) at 2 by lia. rewrite sum_shares_prefix, Z2Nat.id by lia.
  pose proof (Z.mod_pos_bound T S HS). pose proof (Z.div_mod T S). lia.
Qed.

Lemma share_pos T S n : 0 < S → S ≤ T → 1 ≤ share T S n.
Proof.
  intros HS HT. unfold share. assert (1 ≤ T / S) by (apply Z.div_le_lower_bound; lia). case_match; lia.
Qed.

(** * Credits *)

Definition credits_of (id : string) (d : lab_database) : list (string * credit_row) := rows_of id (packet_credits d).

Definition paid (id : string) (d : lab_database) : Z := sum_list (credit_amount ∘ snd <$> credits_of id d).

(** Every slot has been claimed. *)
Definition exhausted (id : string) (d : lab_database) : Prop :=
  is_Some (packets d !! id) ∧ ∀ n s, packet_slots d !! (id, n) = Some s → is_Some (claimed_by s).

Section credits.
Context (d : lab_database) (Hd : lab_ok d) (id : string) (p : packet_row) (Hp : packets d !! id = Some p).

Lemma slot_of_packet n s : packet_slots d !! (id, n) = Some s → 0 ≤ n < shares p ∧ slot_amount s = share (total p) (shares p) n.
Proof. intros (p' & Hp' & Hn & Ha)%(lo_slots _ Hd). by simplify_eq. Qed.

Lemma paid_slots : paid id d = sum_list (share (total p) (shares p) <$> (credit_slot ∘ snd <$> credits_of id d)).
Proof.
  unfold paid. f_equal. rewrite <-list_fmap_compose. apply list_fmap_ext. intros i [u c] Hc%list_elem_of_lookup_2%elem_of_rows_of.
  apply (lo_credits _ Hd), slot_of_packet in Hc as [_ Hc]. exact Hc.
Qed.

(** No slot is paid for twice. *)
Lemma paid_slots_distinct : NoDup (credit_slot ∘ snd <$> credits_of id d).
Proof.
  apply NoDup_fmap_2_strong; [|by eapply NoDup_fmap_1, NoDup_rows_of].
  intros [u c] [v c'] Hc%elem_of_rows_of Hc'%elem_of_rows_of Heq. cbn in Heq.
  pose proof (lo_credits _ Hd _ _ _ Hc) as Hs. pose proof (lo_credits _ Hd _ _ _ Hc') as Hs'.
  rewrite <-Heq, Hs in Hs'. injection Hs' as Ha ->. congruence.
Qed.

Lemma paid_slots_shares : (credit_slot ∘ snd <$> credits_of id d) ⊆+ seqZ 0 (shares p).
Proof.
  apply NoDup_submseteq; [apply paid_slots_distinct|]. intros n ([u c] & -> & Hc%elem_of_rows_of)%list_elem_of_fmap.
  apply (lo_credits _ Hd), slot_of_packet in Hc as [Hn _]. apply elem_of_seqZ. cbn. lia.
Qed.

Lemma paid_at_most : paid id d ≤ total p.
Proof.
  destruct (lo_packets _ Hd _ _ Hp) as [Hs Ht]. rewrite paid_slots. rewrite <-(sum_shares (total p) (shares p)) at 2 by lia.
  apply sum_list_submseteq; [|by apply fmap_submseteq, paid_slots_shares].
  apply Forall_fmap, Forall_true. intros n. pose proof (share_pos (total p) (shares p) n). cbn. lia.
Qed.

Lemma paid_in_full : settled_at d id → exhausted id d → paid id d = total p.
Proof.
  intros Hset [_ Hex]. destruct (lo_packets _ Hd _ _ Hp) as [Hs _]. rewrite paid_slots.
  rewrite <-(sum_shares (total p) (shares p)) at 2 by lia. apply sum_list_perm, fmap_Permutation, NoDup_Permutation;
    [apply paid_slots_distinct|apply NoDup_seqZ|]. intros n. split; intros Hn.
  { eapply elem_of_submseteq; [exact Hn|apply paid_slots_shares]. }
  rewrite elem_of_seqZ in Hn. destruct (sa_complete _ _ Hset p n Hp) as [s Hslot]; [lia|].
  destruct (Hex n s Hslot) as [u Hu]. destruct (sa_credited _ _ Hset n s u Hslot Hu) as (c & Hc & <-).
  apply list_elem_of_fmap. exists (u, c). split; [done|]. by apply elem_of_rows_of.
Qed.

(** ** The deferred check *)

Lemma slots_complete : settled_at d id → (slots_of id d).*1 ≡ₚ seqZ 0 (shares p).
Proof.
  intros Hset. apply NoDup_Permutation; [apply NoDup_rows_of|apply NoDup_seqZ|]. intros n. rewrite elem_of_seqZ, list_elem_of_fmap. split.
  - intros ([m s] & -> & Hs%elem_of_slots_of). apply slot_of_packet in Hs as [Hn _]. cbn. lia.
  - intros Hn. destruct (sa_complete _ _ Hset p n Hp) as [s Hs]; [lia|]. exists (n, s). split; [done|]. by apply elem_of_slots_of.
Qed.
End credits.
