(* ===== verification/PacketRuns.v ===== *)
(** What one claim does to the tables; then the runs of claims and creations, whatever
    others do between their calls, and the statements of a delivery among all that the
    program may run. *)
From Stdlib Require Import Ascii String.
From S2P Require Import Prelude GoStd Tables Driver Schema MessageStore Packets PacketsOk.
Open Scope Z_scope.

(** * Rows of a packet *)

Lemma least_Some ns n : least ns = Some n → n ∈ ns.
Proof.
  unfold least. intros Hn. rewrite <-(merge_sort_Permutation Z.le ns).
  destruct (merge_sort Z.le ns); simplify_eq/=. by left.
Qed.

Lemma least_None ns : least ns = None → ns = [].
Proof.
  unfold least. intros Hn. apply Permutation_nil_r. rewrite <-(merge_sort_Permutation Z.le ns).
  by destruct (merge_sort Z.le ns).
Qed.

Lemma free_slot id d n : n ∈ free_slots id d ↔ ∃ s, packet_slots d !! (id, n) = Some s ∧ claimed_by s = None.
Proof.
  unfold free_slots. rewrite list_elem_of_fmap. split.
  - intros ([n' s] & -> & Hin). rewrite list_elem_of_In, filter_In, <-list_elem_of_In, elem_of_slots_of in Hin.
    destruct Hin as [Hs Hf]. cbn in Hf. exists s. split; [done|]. by destruct (claimed_by s).
  - intros (s & Hs & Hf). exists (n, s). split; [done|].
    rewrite list_elem_of_In, filter_In, <-list_elem_of_In, elem_of_slots_of. cbn. by rewrite Hf.
Qed.

Lemma not_has_claimed id user d : has_claimed id user d = false →
  ∀ n s, packet_slots d !! (id, n) = Some s → claimed_by s ≠ Some user.
Proof.
  intros Hf n s Hs Hc. apply not_true_iff_false in Hf. apply Hf. unfold has_claimed. apply existsb_exists. exists (n, s).
  split; [by rewrite <-list_elem_of_In, elem_of_slots_of|]. by apply bool_decide_eq_true.
Qed.

Lemma first_ok {A} cs (x y : A) : (_ ← first_violation cs; Ok x) = Ok y → Forall (λ c : bool * string, c.1 = true) cs ∧ x = y.
Proof. intros ([] & Hc%first_violation_ok & H)%result_bind_ok. by injection H. Qed.

Lemma text_ok {A} texts (st : lab_statement A) env d x : with_text texts st env d = Ok x → st env d = Ok x.
Proof. unfold with_text. by destruct (forallb _ _). Qed.

(** An error of a text check is not about rows. *)
Lemma text_no_rows {A} texts (st : lab_statement A) env d : with_text texts st env d = Err NoRows → st env d = Err NoRows.
Proof. unfold with_text. by destruct (forallb _ _). Qed.

(** * A claim *)

Section claim.
Context (p u : string).

Definition locked (us : list lab_change) (d : lab_database) : Prop :=
  (us = [LockPacket p] ∧ is_Some (packets d !! p)) ∧ ∀ id, settled_at d id.
Definition unclaimed (us : list lab_change) (d : lab_database) : Prop := locked us d ∧ packet_credits d !! (p, u) = None.
Definition claimed_before (n a : Z) (us : list lab_change) (d : lab_database) : Prop :=
  locked us d ∧ packet_credits d !! (p, u) = Some (CreditRow n a).

(** The user's slot is [n]; the flags tell whether the credit and the intent are there. *)
Record claiming (n a : Z) (credited noted : bool) (us : list lab_change) (d : lab_database) : Prop := Claiming {
  cl_lock : LockPacket p ∈ us;
  cl_others : ∀ id, id ≠ p → settled_at d id;
  cl_complete : ∀ q m, packets d !! p = Some q → 0 ≤ m < shares q → is_Some (packet_slots d !! (p, m));
  cl_slot : packet_slots d !! (p, n) = Some (SlotRow a (Some u));
  cl_credit : packet_credits d !! (p, u) = if credited then Some (CreditRow n a) else None;
  cl_credited : ∀ m s v, packet_slots d !! (p, m) = Some s → claimed_by s = Some v → v ≠ u →
    ∃ c, packet_credits d !! (p, v) = Some c ∧ credit_slot c = m;
  cl_noted : ∀ v, is_Some (packet_credits d !! (p, v)) → noted = true ∨ v ≠ u → notified d (p, v)
}.

Lemma locked_stable : stable locked.
Proof. intros us d d' _ _ Hev [[-> [q Hq]] Hs]. split; [split; [done|]; exists q; by apply (le_packets _ _ _ Hev)|]. intros id. by apply (le_settled _ _ _ Hev). Qed.

Lemma held_lock us : LockPacket p ∈ us → held us p.
Proof. by left. Qed.

Lemma unclaimed_stable : stable unclaimed.
Proof.
  intros us d d' Hd Hd' Hev [Hl Hc]. split; [by apply (locked_stable us d d')|]. destruct Hl as [[-> _] _].
  destruct (le_held _ _ _ Hev p) as (_ & _ & Hcr); [apply held_lock; by left|]. by rewrite Hcr.
Qed.

Lemma claimed_before_stable n a : stable (claimed_before n a).
Proof.
  intros us d d' Hd Hd' Hev [Hl Hc]. split; [by apply (locked_stable us d d')|]. by apply (le_credits _ _ _ Hev).
Qed.

Lemma claiming_stable n a credited noted : stable (claiming n a credited noted).
Proof.
  intros us d d' Hd Hd' Hev [Hlk Ho Hcm Hsl Hcr Hcd Hno].
  destruct (le_held _ _ _ Hev p (held_lock _ Hlk)) as (Hp & Hs & Hc). split; [done|..].
  - intros id Hid. apply (le_settled _ _ _ Hev). by apply Ho.
  - intros q m. rewrite Hp, Hs. apply Hcm.
  - by rewrite Hs.
  - by rewrite Hc.
  - intros m s v. rewrite Hs, Hc. apply Hcd.
  - intros v. rewrite Hc. intros Hv Hn. apply (le_notified _ _ _ Hev). by apply Hno.
Qed.

(** With the credit and its intent nothing is left to do. *)
Lemma claiming_settled n a us d : lab_ok d → claiming n a true true us d → ∀ id, settled_at d id.
Proof.
  intros Hd [Hlk Ho Hcm Hsl Hcr Hcd Hno] id. destruct (decide (id = p)) as [->|Hid]; [|by apply Ho].
  split; [done| |by intros v Hv; apply Hno; [|left]].
  intros m s v Hs Hv. destruct (decide (v = u)) as [->|Hne]; [|by eapply Hcd].
  exists (CreditRow n a). split; [done|]. simpl. eapply (lo_claims _ Hd p n m); [exact Hsl|exact Hs|done|done].
Qed.

Ltac statement_ok := split; [repeat constructor; intros; discriminate|].

(** ** The statements *)

Lemma lock_packet_step env us d a us' :
  lab_ok d → us = [] ∧ (∀ id, settled_at d id) → lock_packet p env d = Ok (a, us') →
  Forall (λ x, ∀ id user, x ≠ DeleteIntent id user) us' ∧ lab_ok (apply_changes us' d) ∧ locked (us ++ us') (apply_changes us' d).
Proof.
  intros Hd [-> Hs] Hst%text_ok. destruct (packets d !! p) as [q|] eqn:Eq; [|done]. injection Hst as <- <-. statement_ok. split; [done|].
  split; [split; [done|]; by exists q|done].
Qed.

Lemma select_credit_step env us d x us' :
  lab_ok d → locked us d → select_credit p u env d = Ok (x, us') →
  Forall (λ x, ∀ id user, x ≠ DeleteIntent id user) us' ∧ lab_ok (apply_changes us' d) ∧
  claimed_before x.1 x.2 (us ++ us') (apply_changes us' d).
Proof.
  intros Hd Hl Hst%text_ok. unfold query_row in Hst. destruct (packet_credits d !! (p, u)) as [c|] eqn:Ec; [|done].
  injection Hst as <- <-. statement_ok. split; [done|]. rewrite app_nil_r. split; [done|]. simpl. rewrite Ec. by destruct c.
Qed.

Lemma select_credit_none env d : select_credit p u env d = Err NoRows → packet_credits d !! (p, u) = None.
Proof. intros Hst%text_no_rows. unfold query_row in Hst. by destruct (packet_credits d !! (p, u)). Qed.

Lemma claim_slot_step env us d x us' :
  lab_ok d → unclaimed us d → claim_slot p u env d = Ok (x, us') →
  Forall (λ x, ∀ id user, x ≠ DeleteIntent id user) us' ∧ lab_ok (apply_changes us' d) ∧
  claiming x.1 x.2 false false (us ++ us') (apply_changes us' d).
Proof.
  intros Hd [[[-> _] Hset] Hnone] Hst%text_ok. destruct (least (free_slots p d)) as [n|] eqn:En; [|done]. cbn in Hst.
  apply least_Some, free_slot in En as (s & Hs & Hfree). rewrite Hs in Hst.
  apply first_ok in Hst as [Hchk [= <- <-]]. apply Forall_cons in Hchk as [_ [Hhas _]%Forall_cons]. cbn in Hhas.
  apply negb_true_iff in Hhas. pose proof (not_has_claimed _ _ _ Hhas) as Hno.
  assert (∀ k, k ≠ (p, n) → alter (claim_row u) (p, n) (packet_slots d) !! k = packet_slots d !! k) as Hother.
  { intros k Hk. by rewrite lookup_alter_ne. }
  assert (alter (claim_row u) (p, n) (packet_slots d) !! (p, n) = Some (SlotRow (slot_amount s) (Some u))) as Hnew.
  { rewrite lookup_alter_eq, Hs. unfold claim_row. simpl. by rewrite Hfree. }
  statement_ok. destruct Hd as [Hpk Hsl Hcl Hcr Hin Hrc]. pose proof (Hset p) as [Hcm Hcd Hnt]. cbn [apply_changes foldl]. split.
  - split; simpl; try done.
    + intros id m s'. destruct (decide ((id, m) = (p, n))) as [[= -> ->]|Hk]; [|rewrite Hother by done; apply Hsl].
      rewrite Hnew. intros [= <-]. simpl. apply (Hsl p n s Hs).
    + intros id m m' s1 s2 v. destruct (decide ((id, m') = (p, n))) as [Hk'|Hk'], (decide ((id, m) = (p, n))) as [[= -> ->]|Hk].
      * by injection Hk' as ->.
      * injection Hk' as -> ->. rewrite Hnew, Hother by done. intros Hs1 [= <-] Hv [= <-]. by apply Hno in Hs1.
      * rewrite Hnew, Hother by done. intros [= <-] Hs2 [= <-] Hv. by apply Hno in Hs2.
      * rewrite !Hother by done. apply Hcl.
    + intros id v c Hc. pose proof (Hcr id v c Hc) as Hslot. rewrite Hother; [done|]. intros [= -> Hn].
      rewrite Hn, Hs in Hslot. injection Hslot as ->. done.
  - split; simpl; try done.
    + rewrite list_elem_of_In. by left.
    + intros id Hid. destruct (Hset id) as [Ha Hb Hc]. split; simpl.
      * intros q m Hq Hm. rewrite Hother by congruence. by eapply Ha.
      * intros m s' v. rewrite Hother by congruence. apply Hb.
      * done.
    + intros q m Hq Hm. destruct (decide (m = n)) as [->|Hne]; [by rewrite Hnew|]. rewrite Hother by congruence. by eapply Hcm.
    + intros m s' v. destruct (decide (m = n)) as [->|Hne]; [rewrite Hnew; intros [= <-]; simpl; congruence|].
      rewrite Hother by congruence. intros Hs' Hv _. by eapply Hcd.
    + intros v Hv _. by apply Hnt.
Qed.

Lemma claim_slot_none env d : claim_slot p u env d = Err NoRows → free_slots p d = [].
Proof.
  intros Hst%text_no_rows. destruct (least (free_slots p d)) as [n|] eqn:En; [|by apply least_None].
  cbn in Hst. apply least_Some, free_slot in En as (s & Hs & _). rewrite Hs in Hst.
  apply result_bind_err in Hst as [Hv|(? & _ & ?)]; [|done]. cbn [first_violation] in Hv.
  destruct (in_range _ _ _); [|done]. by destruct (negb _).
Qed.

Lemma insert_credit_step n a env us d x us' :
  lab_ok d → claiming n a false false us d → insert_credit p n a u env d = Ok (x, us') →
  Forall (λ x, ∀ id user, x ≠ DeleteIntent id user) us' ∧ lab_ok (apply_changes us' d) ∧
  claiming n a true false (us ++ us') (apply_changes us' d).
Proof.
  intros Hd Hcl Hst%text_ok. apply first_ok in Hst as [_ [= <- <-]]. statement_ok.
  destruct Hcl as [Hlk Ho Hcm Hsl Hcr Hcd Hno]. destruct Hd as [Hpk Hsl' Hcl Hcr' Hin Hrc].
  assert (∀ k, k ≠ (p, u) → add_row (p, u) (CreditRow n a) (packet_credits d) !! k = packet_credits d !! k) as Hother.
  { intros k Hk. by rewrite lookup_add_row, decide_False. }
  assert (add_row (p, u) (CreditRow n a) (packet_credits d) !! (p, u) = Some (CreditRow n a)) as Hnew.
  { by rewrite lookup_add_row, decide_True, Hcr. }
  cbn [apply_changes foldl]. split; split; simpl; try done.
  - intros id v c. destruct (decide ((id, v) = (p, u))) as [[= -> ->]|Hk]; [rewrite Hnew; by intros [= <-]|].
    rewrite Hother by done. apply Hcr'.
  - intros k Hk. destruct (Hin k Hk) as [c Hc]. exists c. by apply add_row_keeps.
  - intros k b Hk. destruct (Hrc k b Hk) as (c & Hc & ?). exists c. split; [by apply add_row_keeps|done].
  - apply elem_of_app. by left.
  - intros id Hid. destruct (Ho id Hid) as [Ha Hb Hc]. split; simpl; [done|..].
    + intros m s v Hs Hv. rewrite Hother by congruence. by eapply Hb.
    + intros v. rewrite Hother by congruence. apply Hc.
  - intros m s v Hs Hv Hne. rewrite Hother by congruence. by eapply Hcd.
  - intros v Hv [?|Hne]; [done|]. rewrite Hother in Hv by congruence. by apply Hno; [|right].
Qed.

Lemma insert_intent_step n a env us d x us' :
  lab_ok d → claiming n a true false us d → insert_intent p u env d = Ok (x, us') →
  Forall (λ x, ∀ id user, x ≠ DeleteIntent id user) us' ∧ lab_ok (apply_changes us' d) ∧
  claiming n a true true (us ++ us') (apply_changes us' d).
Proof.
  intros Hd Hcl Hst%text_ok. apply first_ok in Hst as [_ [= <- <-]]. statement_ok.
  destruct Hcl as [Hlk Ho Hcm Hsl Hcr Hcd Hno]. destruct Hd as [Hpk Hsl' Hcl Hcr' Hin Hrc].
  assert (∀ k, notified d k → notified (apply_change (InsertIntent p u) d) k) as Hmono.
  { intros k [Hk|Hk]; [left; simpl; set_solver|by right]. }
  cbn [apply_changes foldl]. split; split; simpl; try done.
  - intros k [->%elem_of_singleton|Hk]%elem_of_union; [by rewrite Hcr|by apply Hin].
  - apply elem_of_app. by left.
  - intros id Hid. destruct (Ho id Hid) as [Ha Hb Hc]. split; simpl; [done|done|]. intros v Hv. by apply Hmono, Hc.
  - intros v Hv _. destruct (decide (v = u)) as [->|Hne]; [left; simpl; set_solver|]. by apply Hmono, Hno; [|right].
Qed.
End claim.

(** * Runs *)

(** * The operations *)

(** What an answer says about the committed tables. *)
Definition claim_outcome (packet user : string) (r : result packet_error Receipt) (d : lab_database) : Prop :=
  match r with
  | Ok receipt => receipt_packet receipt = packet ∧ receipt_user receipt = user ∧
      packet_credits d !! (packet, user) = Some (CreditRow (receipt_slot receipt) (receipt_amount receipt))
  | Err ErrExhausted => exhausted packet d ∧ packet_credits d !! (packet, user) = None
  | Err (PacketDatabaseError NoRows) => packets d !! packet = None
  | Err _ => True
  end.

Lemma database_error_outcome packet user e d : e ≠ NoRows → claim_outcome packet user (Err (PacketDatabaseError e)) d.
Proof. by destruct e. Qed.

Lemma violation_error {A} checks (x : A) e : (_ ← first_violation checks; Ok x) = Err e → e ≠ NoRows.
Proof. intros [(code & -> & _)%first_violation_error|(? & _ & ?)]%result_bind_err; done. Qed.

Lemma with_text_error {A} texts (st : lab_statement A) env d e : with_text texts st env d = Err e → st env d = Err e ∨ e ≠ NoRows.
Proof. unfold with_text. destruct (forallb _ _); [by left|]. intros [= <-]. by right. Qed.

Lemma insert_credit_error packet n a user env d e : insert_credit packet n a user env d = Err e → e ≠ NoRows.
Proof. by intros [?%violation_error|?]%with_text_error. Qed.

Lemma insert_intent_error packet user env d e : insert_intent packet user env d = Err e → e ≠ NoRows.
Proof. by intros [?%violation_error|?]%with_text_error. Qed.

(** The only packet that is not found is one that is not there. *)
Lemma lock_packet_error packet env d e : lock_packet packet env d = Err e → e ≠ NoRows ∨ packets d !! packet = None.
Proof. intros [Hst|?]%with_text_error; [|by left]. destruct (packets d !! packet); [done|by right]. Qed.

Section operations.
Context (d0 : lab_database).
Implicit Types (w : world lab_database lab_change).

Lemma lab_statement_inv {A B} (st : lab_statement A) (f : A → packet_proc B) w r w' :
  (on_lab (tx_statement st) ≫= f) w = (r, w') →
  (∃ e, tx_statement st w = (Err e, w') ∧ r = Err (PacketDatabaseError e)) ∨
  ∃ a w1, tx_statement st w = (Ok a, w1) ∧ f a w1 = (r, w').
Proof.
  intros [(e & Hx & ->)|(a & w1 & Hx & Hrun)]%proc_bind_inv; apply run_error_inv in Hx as (r0 & Hx & Hr); destruct r0 as [e0|a0]; simplify_eq/=; eauto.
Qed.

Lemma in_tx_world F w : in_tx d0 F w → lab_world d0 w.
Proof. by intros [? _]. Qed.

Lemma claim_new_step packet user w r w' :
  in_tx d0 (unclaimed packet user) w → claim_new packet user w = (r, w') →
  lab_world d0 w' ∧ claim_outcome packet user r (w_db w').
Proof.
  intros Hin Hrun. unfold claim_new in Hrun.
  apply proc_bind_inv in Hrun as [(e & (r0 & _ & Hx)%attempt_inv & _)|(x & w1 & (r0 & Hx & [= ->])%attempt_inv & Hrun)]; [done|].
  apply (statement_step d0 _ _ (λ x, claiming packet user x.1 x.2 false false) _ _ _ (unclaimed_stable packet user)
    (claim_slot_step packet user) Hin) in Hx.
  destruct r0 as [e|[n a]].
  { destruct Hx as [Hin1 Hcause].
    assert (w' = w1 ∧ (r = Err ErrExhausted ∧ e = NoRows ∨ ∃ x, r = Err (PacketDatabaseError x) ∧ x ≠ NoRows)) as [-> Hr].
    { destruct e; apply proc_throw_inv in Hrun as [-> ->]; (split; [done|]); [right; by eexists|right; by eexists|by left]. }
    split; [by eapply in_tx_world|]. destruct Hr as [[-> ->]|(x & -> & Hx)]; [|by apply database_error_outcome].
    destruct Hcause as [?|[env Hnone]]; [done|]. apply claim_slot_none in Hnone.
    destruct Hin1 as (_ & _ & [[[Htx Hex] _] Hcr]). unfold tx_view in Hnone, Hex, Hcr. rewrite Htx in Hnone, Hex, Hcr.
    split; [|done]. split; [done|]. intros n s Hs. destruct (claimed_by s) as [v|] eqn:Ec; [by exists v|]. exfalso.
    apply (not_elem_of_nil n). cbn in Hnone. rewrite <-Hnone. apply free_slot. eauto. }
  cbn [fst snd] in Hx. rename Hx into Hin1.
  apply lab_statement_inv in Hrun as [(e & Hx & ->)|([] & w2 & Hx & Hrun)];
    apply (statement_step d0 _ _ (λ _, claiming packet user n a true false) _ _ _ (claiming_stable packet user n a false false)
      (insert_credit_step packet user n a) Hin1) in Hx;
    [split; [by eapply in_tx_world, Hx|]; apply database_error_outcome; destruct Hx as [_ [->|[env Hx]]]; [done|by eapply insert_credit_error]|].
  apply lab_statement_inv in Hrun as [(e & Hy & ->)|([] & w3 & Hy & Hrun)];
    apply (statement_step d0 _ _ (λ _, claiming packet user n a true true) _ _ _ (claiming_stable packet user n a true false)
      (insert_intent_step packet user n a) Hx) in Hy;
    [split; [by eapply in_tx_world, Hy|]; apply database_error_outcome; destruct Hy as [_ [->|[env Hy]]]; [done|by eapply insert_intent_error]|].
  apply proc_bind_inv in Hrun as [(e & (r0 & Hz & Hr)%run_error_inv & ->)|([] & w4 & (r0 & Hz & Hr)%run_error_inv & Hrun)];
    destruct r0 as [e0|[]]; simplify_eq/=.
  - apply (commit_step d0 _ _ _ _ (claiming_stable packet user n a true true) (claiming_settled packet user n a) Hy) in Hz as [Hw _].
    done.
  - apply (commit_step d0 _ _ _ _ (claiming_stable packet user n a true true) (claiming_settled packet user n a) Hy) in Hz as [Hw [us Hcl]].
    apply proc_ret_inv in Hrun as [-> ->]. split; [done|]. split; [done|]. split; [done|]. apply (cl_credit _ _ _ _ _ _ _ _ Hcl).
Qed.

Lemma lock_failed packet user w e :
  in_tx d0 (λ us d, us = [] ∧ ∀ id, settled_at d id) w ∧ (e = ConnError ∨ ∃ env, lock_packet packet env (tx_view w) = Err e) →
  lab_world d0 w ∧ claim_outcome packet user (Err (PacketDatabaseError e)) (w_db w).
Proof.
  intros [Hin Hcause]. split; [by eapply in_tx_world|]. destruct Hcause as [->|[env [?|Hx]%lock_packet_error]];
    [done|by apply database_error_outcome|]. destruct Hin as (_ & _ & Htx & _). unfold tx_view in Hx. rewrite Htx in Hx. by destruct e.
Qed.

Lemma locked_settled packet us d : lab_ok d → locked packet us d → ∀ id, settled_at d id.
Proof. by intros _ [_ ?]. Qed.

Lemma Claim_step packet user w r w' :
  idle d0 w → Claim packet user w = (r, w') → idle d0 w' ∧ claim_outcome packet user r (w_db w').
Proof.
  intros Hidle Hrun. unfold Claim in Hrun. destruct (_ || _); [by apply proc_throw_inv in Hrun as [-> ->]|].
  apply proc_bind_inv in Hrun as [(e & (r0 & Hx & Hr)%run_error_inv & ->)|([] & w1 & (r0 & Hx & Hr)%run_error_inv & Hrun)];
    apply (begin_step d0) in Hx; try done; destruct r0 as [e0|[]]; simplify_eq/=; [by destruct Hx as [? ->]|].
  apply deferring_rollback_spec in Hrun as (w2 & Hrun & ->). cbn [w_db].
  cut (lab_world d0 w2 ∧ claim_outcome packet user r (w_db w2)); [intros [Hw Ho]; split; [by apply discarded|done]|].
  assert (stable (λ us d, us = [] ∧ ∀ id, settled_at d id)) as Hst0.
  { intros us d d' _ _ Hev [-> Hs]. split; [done|]. intros id. by apply (le_settled _ _ _ Hev). }
  apply lab_statement_inv in Hrun as [(e & Hy & ->)|([] & w3 & Hy & Hrun)];
    apply (statement_step d0 _ _ (λ _, locked packet) _ _ _ Hst0 (lock_packet_step packet) Hx) in Hy;
    [by apply (lock_failed packet user)|].
  apply proc_bind_inv in Hrun as [(e & (r0 & _ & Hz)%attempt_inv & _)|(x & w4 & (r0 & Hz & [= ->])%attempt_inv & Hrun)]; [done|].
  apply (statement_step d0 _ _ (λ x, claimed_before packet user x.1 x.2) _ _ _ (locked_stable packet) (select_credit_step packet user) Hy) in Hz.
  destruct r0 as [e|[n a]].
  - destruct Hz as [Hin Hcause]. assert (e ≠ NoRows → lab_world d0 w2 ∧ claim_outcome packet user r (w_db w2)) as Herr.
    { destruct e; intros Hne; try done; apply proc_throw_inv in Hrun as [-> ->]; (split; [by eapply in_tx_world|]); by apply database_error_outcome. }
    destruct e; try (by apply Herr). destruct Hcause as [?|[env Hnone]]; [done|]. apply select_credit_none in Hnone.
    eapply claim_new_step; [|exact Hrun]. destruct Hin as (? & ? & ?). by split_and!.
  - cbn [fst snd] in Hz.
    apply proc_bind_inv in Hrun as [(e & (r0 & Hc & Hr)%run_error_inv & ->)|([] & w5 & (r0 & Hc & Hr)%run_error_inv & Hrun)];
      destruct r0 as [e0|[]]; simplify_eq/=;
      (apply (commit_step d0 _ _ _ _ (claimed_before_stable packet user n a)) in Hc as [Hw Hc]; [|by intros us d _ [[_ ?] _]|done]);
      [split; [done|]; by destruct Hc as [->|(us & d & _ & [[[-> _] _] _] & Hc)]|].
    apply proc_ret_inv in Hrun as [-> ->]. split; [done|]. split; [done|]. split; [done|]. by destruct Hc as [us [_ Hcr]].
Qed.
End operations.

(** * Creation *)

Section creation.
Context (d0 : lab_database) (id : string) (T S : Z).
Context (HS : 1 ≤ S ≤ 10000) (HT : S ≤ T).

(** The packet's row is there, its slots are not yet. *)
Record creating (us : list lab_change) (d : lab_database) : Prop := Creating {
  cr_made : ∃ p, InsertPacket id p ∈ us;
  cr_others : ∀ id', id' ≠ id → settled_at d id';
  cr_packet : packets d !! id = Some (PacketRow T S);
  cr_slots : ∀ n, packet_slots d !! (id, n) = None;
  cr_credits : ∀ u, packet_credits d !! (id, u) = None
}.

Record created (us : list lab_change) (d : lab_database) : Prop := Created {
  cd_made : ∃ p, InsertPacket id p ∈ us;
  cd_settled : ∀ id', settled_at d id';
  cd_packet : packets d !! id = Some (PacketRow T S);
  cd_slots : ∀ n, 0 ≤ n < S → packet_slots d !! (id, n) = Some (SlotRow (share T S n) None)
}.

Lemma creating_stable : stable creating.
Proof.
  intros us d d' _ _ Hev [Hm Ho Hp Hs Hc]. destruct (le_held _ _ _ Hev id (or_intror Hm)) as (Ep & Es & Ec).
  split; [done|..].
  - intros id' Hid. apply (le_settled _ _ _ Hev). by apply Ho.
  - by rewrite Ep.
  - intros n. by rewrite Es.
  - intros u. by rewrite Ec.
Qed.

Lemma created_stable : stable created.
Proof.
  intros us d d' _ _ Hev [Hm Ho Hp Hs]. destruct (le_held _ _ _ Hev id (or_intror Hm)) as (Ep & Es & Ec).
  split; [done|..].
  - intros id'. by apply (le_settled _ _ _ Hev).
  - by rewrite Ep.
  - intros n Hn. rewrite Es. by apply Hs.
Qed.

Lemma insert_packet_step env us d x us' :
  lab_ok d → us = [] ∧ (∀ id, settled_at d id) → insert_packet id T S env d = Ok (x, us') →
  Forall (λ x, ∀ id user, x ≠ DeleteIntent id user) us' ∧ lab_ok (apply_changes us' d) ∧ creating (us ++ us') (apply_changes us' d).
Proof.
  intros Hd [-> Hset] Hst%text_ok. apply first_ok in Hst as [Hchk [= <- <-]].
  do 2 apply Forall_cons in Hchk as [_ Hchk]. apply Forall_cons in Hchk as [Hnew _]. cbn in Hnew.
  destruct (packets d !! id) as [?|] eqn:Enew; [done|]. split; [by repeat constructor|]. cbn [apply_changes foldl].
  assert (∀ n, packet_slots d !! (id, n) = None) as Hns.
  { intros n. destruct (packet_slots d !! (id, n)) as [s|] eqn:Es; [|done]. destruct (lo_slots _ Hd _ _ _ Es) as (? & ? & _). congruence. }
  assert (∀ u, packet_credits d !! (id, u) = None) as Hnc.
  { intros u. destruct (packet_credits d !! (id, u)) as [c|] eqn:Ec; [|done]. pose proof (lo_credits _ Hd _ _ _ Ec). by rewrite Hns in H. }
  assert (∀ id' p, packets d !! id' = Some p → add_row id (PacketRow T S) (packets d) !! id' = Some p) as Hkeep.
  { intros. by apply add_row_keeps. }
  assert (add_row id (PacketRow T S) (packets d) !! id = Some (PacketRow T S)) as Hrow.
  { by rewrite lookup_add_row, decide_True, Enew. }
  destruct Hd as [Hpk Hsl Hcl Hcr Hin Hrc]. split.
  - split; simpl; try done.
    + intros id' p. rewrite lookup_add_row. destruct (decide (id' = id)) as [->|]; [|by apply Hpk].
      rewrite Enew. by intros [= <-].
    + intros id' n s Hs. destruct (Hsl id' n s Hs) as (p & Hp & ?). exists p. split; [by apply Hkeep|done].
  - split; simpl; try done.
    + eexists. by left.
    + intros id' Hne. destruct (Hset id') as [Ha Hb Hc]. split; simpl; try done.
      intros p n. rewrite lookup_add_row, decide_False by done. apply Ha.
Qed.

Lemma insert_slots_lookup ns d k :
  packet_slots (apply_changes ((λ n, InsertSlot id n (share T S n)) <$> ns) d) !! k =
  match packet_slots d !! k with
  | Some s => Some s
  | None => if decide (k.1 = id ∧ k.2 ∈ ns) then Some (SlotRow (share T S k.2) None) else None
  end.
Proof.
  revert d. induction ns as [|n ns IH]; intros d.
  - simpl. destruct (packet_slots d !! k); [done|]. rewrite decide_False; [done|]. by intros [_ ?%not_elem_of_nil].
  - rewrite fmap_cons, apply_changes_cons, IH. cbn [apply_change apply_lab_change packet_slots].
    rewrite lookup_add_row. destruct k as [id' m]. cbn [fst snd]. destruct (decide ((id', m) = (id, n))) as [[= -> ->]|Hk].
    + destruct (packet_slots d !! (id, n)); [done|]. simpl. rewrite decide_True; [done|]. split; [done|by left].
    + destruct (packet_slots d !! (id', m)); [done|]. destruct (decide (id' = id ∧ m ∈ ns)) as [[-> Hm]|Hn].
      * rewrite decide_True; [done|]. split; [done|by right].
      * rewrite decide_False; [done|]. intros [-> [->|?]%elem_of_cons]; [done|]. by apply Hn.
Qed.

(** The other tables are as they were. *)
Lemma insert_slots_rest ns d :
  let d' := apply_changes ((λ n, InsertSlot id n (share T S n)) <$> ns) d in
  packets d' = packets d ∧ packet_credits d' = packet_credits d ∧ credit_outbox d' = credit_outbox d ∧
  received_credits d' = received_credits d.
Proof.
  revert d. induction ns as [|n ns IH]; intros d; [done|]. cbv zeta. rewrite fmap_cons, apply_changes_cons.
  destruct (IH (apply_change (InsertSlot id n (share T S n)) d)) as (A & B & C & D). by rewrite A, B, C, D.
Qed.

Lemma insert_slots_step env us d x us' :
  lab_ok d → creating us d → insert_slots id T S env d = Ok (x, us') →
  Forall (λ x, ∀ id user, x ≠ DeleteIntent id user) us' ∧ lab_ok (apply_changes us' d) ∧ created (us ++ us') (apply_changes us' d).
Proof.
  intros Hd [[p0 Hm] Ho Hp Hns Hnc] Hst%text_ok. apply first_ok in Hst as [_ [= <- <-]].
  split; [by apply Forall_fmap, Forall_true|]. pose proof (insert_slots_lookup (seqZ 0 S) d) as Hlk.
  destruct (insert_slots_rest (seqZ 0 S) d) as (Ep & Ec & Eo & Er). cbv zeta in *.
  set (d' := apply_changes _ d) in *.
  assert (∀ id' n, id' ≠ id → packet_slots d' !! (id', n) = packet_slots d !! (id', n)) as Hother.
  { intros id' n Hne. rewrite Hlk. cbn [fst snd]. destruct (packet_slots d !! (id', n)); [done|].
    rewrite decide_False; [done|]. by intros [? _]. }
  assert (∀ n, packet_slots d' !! (id, n) = if decide (0 ≤ n < S) then Some (SlotRow (share T S n) None) else None) as Hnew.
  { intros n. rewrite Hlk, Hns. cbn [fst snd]. destruct (decide (0 ≤ n < S)) as [Hn|Hn].
    - rewrite decide_True; [done|]. split; [done|]. apply elem_of_seqZ. lia.
    - rewrite decide_False; [done|]. intros [_ ?%elem_of_seqZ]. lia. }
  destruct Hd as [Hpk Hsl Hcl Hcr Hin Hrc]. split.
  - split; rewrite ?Ep, ?Ec, ?Eo, ?Er; try done.
    + intros id' n s. destruct (decide (id' = id)) as [->|Hne]; [|rewrite Hother by done; apply Hsl].
      rewrite Hnew. destruct (decide _) as [Hn|]; [|done]. intros [= <-]. exists (PacketRow T S). by rewrite Hp.
    + intros id' n m s s' v. destruct (decide (id' = id)) as [->|Hne]; [|rewrite !Hother by done; apply Hcl].
      rewrite Hnew. destruct (decide _) as [Hn|]; [|done]. by intros [= <-].
    + intros id' v c Hc. rewrite Hother; [by apply Hcr|]. intros ->. by rewrite Hnc in Hc.
  - split.
    + exists p0. apply elem_of_app. by left.
    + intros id'. destruct (decide (id' = id)) as [->|Hne].
      * split; rewrite ?Ep, ?Ec; [|intros n s v|intros v; by rewrite Hnc; intros []].
        -- intros p n. rewrite Hp. intros [= <-] Hn. rewrite Hnew, decide_True by done. eauto.
        -- rewrite Hnew. destruct (decide _); [|done]. by intros [= <-].
      * destruct (Ho id' Hne) as [Ha Hb Hc]. split; rewrite ?Ep, ?Ec; [intros p n; rewrite Hother by done; apply Ha|..].
        -- intros n s v. rewrite Hother by done. apply Hb.
        -- intros v Hv. unfold notified. rewrite Eo, Er. by apply Hc.
    + by rewrite Ep.
    + intros n Hn. by rewrite Hnew, decide_True.
Qed.

(** Every packet has its share for each of its slots, unclaimed at first. *)
Definition allocated (d : lab_database) : Prop :=
  packets d !! id = Some (PacketRow T S) ∧ ∀ n, 0 ≤ n < S → packet_slots d !! (id, n) = Some (SlotRow (share T S n) None).
End creation.

Section operations.
Context (d0 : lab_database).
Implicit Types (w : world lab_database lab_change).

Lemma Create_step id T S w r w' :
  idle d0 w → Create id T S w = (r, w') → idle d0 w' ∧ (is_ok r = true → allocated id T S (w_db w')).
Proof.
  intros Hidle Hrun. unfold Create in Hrun. destruct (_ || _) eqn:Echk; [by apply proc_throw_inv in Hrun as [-> ->]|].
  assert (1 ≤ S ≤ 10000 ∧ S ≤ T) as [HS HT].
  { apply orb_false_iff in Echk as [Echk ?]. apply orb_false_iff in Echk as [Echk ?]. apply orb_false_iff in Echk as [_ ?]. lia. }
  apply proc_bind_inv in Hrun as [(e & (r0 & Hx & Hr)%run_error_inv & ->)|([] & w1 & (r0 & Hx & Hr)%run_error_inv & Hrun)];
    apply (begin_step d0) in Hx; try done; destruct r0 as [e0|[]]; simplify_eq/=; [by destruct Hx|].
  apply deferring_rollback_spec in Hrun as (w2 & Hrun & ->). cbn [w_db].
  cut (lab_world d0 w2 ∧ (is_ok r = true → allocated id T S (w_db w2))); [intros [Hw Ho]; split; [by apply discarded|done]|].
  assert (stable (λ us d, us = [] ∧ ∀ id, settled_at d id)) as Hst0.
  { intros us d d' _ _ Hev [-> Hs]. split; [done|]. intros id'. by apply (le_settled _ _ _ Hev). }
  apply lab_statement_inv in Hrun as [(e & Hy & ->)|([] & w3 & Hy & Hrun)];
    apply (statement_step d0 _ _ (λ _, creating id T S) _ _ _ Hst0 (insert_packet_step id T S HS HT)) in Hy; try done;
    [split; [by eapply in_tx_world, Hy|done]|].
  apply lab_statement_inv in Hrun as [(e & Hz & ->)|([] & w4 & Hz & Hrun)];
    apply (statement_step d0 _ _ (λ _, created id T S) _ _ _ (creating_stable id T S) (insert_slots_step id T S)) in Hz; try done;
    [split; [by eapply in_tx_world, Hz|done]|].
  apply run_error_inv in Hrun as (r0 & Hc & ->).
  apply (commit_step d0 _ _ _ _ (created_stable id T S)) in Hc as [Hw Hc]; [|by intros us d _ [? ? ? ?]|done].
  split; [done|]. destruct r0 as [e|[]]; [done|]. intros _. destruct Hc as [us [_ _ Hp Hs]]. by split.
Qed.
End operations.

(** * A delivery, among everything that others run *)

(** What no statement of the program takes back, whoever runs it and when
    ([lab_changes_keep]): a credit, and what a consumer received.  Intents may come and
    go. *)
Record lab_keeps (us : list lab_change) (d d' : lab_database) : Prop := LabKeeps {
  lk_credits : ∀ k c, packet_credits d !! k = Some c → packet_credits d' !! k = Some c;
  lk_received : ∀ k a, received_credits d !! k = Some a → received_credits d' !! k = Some a
}.

#[export] Instance lab_keeps_preorder us : PreOrder (lab_keeps us).
Proof. split; [done|]. intros d1 d2 d3 [] []. split; auto. Qed.

Lemma lab_changes_keep us' us d : lab_keeps us' d (apply_changes us d).
Proof.
  revert d. induction us as [|u us IH]; intros d; [done|]. rewrite apply_changes_cons. etrans; [|apply IH].
  destruct u; split; simpl; intros; try done; by apply add_row_keeps.
Qed.

Definition sound (w : world lab_database lab_change) : Prop := world_ok lab_ok lab_ok lab_keeps w ∧ w_tx w = [].

(** Others do not take the intent away without having delivered. *)
Definition spares_intent (k : string * string) (e : event lab_database lab_change) : Prop :=
  ∀ d, notified d k → notified (ev_env e [] d) k.

Section delivery.
Context (packet user : string).
Implicit Types (w : world lab_database lab_change) (d : lab_database).

Abbreviation k := (packet, user).

Lemma receive_credit_effect env d x us :
  lab_ok d → receive_credit packet user env d = Ok (x, us) →
  let d' := apply_changes us d in
  lab_ok d' ∧ credit_outbox d' = credit_outbox d ∧
  (k ∈ credit_outbox d → ∃ c, packet_credits d !! k = Some c ∧ received_credits d' !! k = Some (credit_amount c)) ∧
  (k ∉ credit_outbox d → d' = d).
Proof.
  intros Hd Hst%text_ok. destruct (packet_credits d !! k) as [c|] eqn:Hc.
  2: { injection Hst as <- <-. split_and!; [done..| |done]. intros Hin. destruct (lo_intents _ Hd _ Hin) as [c Hc']. congruence. }
  case_bool_decide as Hin; [|by injection Hst as <- <-]. apply first_ok in Hst as [_ Hst].
  destruct (received_credits d !! k) as [a|] eqn:Hr; injection Hst as <- <-; cbn [apply_changes foldl].
  - split_and!; try done. intros _. exists c. destruct (lo_received _ Hd _ _ Hr) as (c' & Hc' & <-). split; congruence.
  - split_and!; try done.
    + destruct Hd as [Hpk Hsl Hcl Hcr Hit Hrc]. split; simpl; try done. intros k' a. rewrite lookup_add_row.
      destruct (decide (k' = k)) as [->|]; [|apply Hrc]. rewrite Hr. intros [= <-]. by exists c.
    + intros _. exists c. split; [done|]. simpl. by rewrite lookup_add_row, decide_True, Hr.
Qed.

Lemma delete_intent_effect env d x us :
  lab_ok d → delete_intent packet user env d = Ok (x, us) →
  let d' := apply_changes us d in
  lab_ok d' ∧ received_credits d' = received_credits d ∧ k ∉ credit_outbox d'.
Proof.
  intros Hd Hst%text_ok. injection Hst as <- <-. case_bool_decide as Hin; cbn [apply_changes foldl]; [|done].
  split_and!; [|done|simpl; set_solver].
  destruct Hd as [Hpk Hsl Hcl Hcr Hit Hrc]. split; simpl; try done. intros k' Hk'. apply Hit. simpl in Hk'. set_solver.
Qed.

(** One statement of a delivery, whose changes keep the tables' invariant. *)
Lemma sound_statement (st : lab_statement unit) w r w' :
  (∀ env d x us, lab_ok d → st env d = Ok (x, us) → lab_ok (apply_changes us d)) →
  sound w → on_lab (auto_statement st) w = (r, w') →
  sound w' ∧ lab_keeps [] (w_db w) (w_db w') ∧
  ((w' = w ∧ is_ok r = false) ∨
   ∃ e, w_events w = e :: w_events w' ∧
     let found := ev_env e [] (w_db w) in
     lab_ok found ∧ lab_keeps [] (w_db w) found ∧
     ((w_db w' = found ∧ is_ok r = false) ∨
      ∃ env us, st env found = Ok (tt, us) ∧ w_db w' = apply_changes us found)).
Proof.
  intros Hst [[Hd Hv He] Htx] (r0 & Hrun & Hr)%run_error_inv.
  assert (is_ok r = is_ok r0) as Hok by (by rewrite Hr; destruct r0). rewrite Hok.
  apply auto_statement_cases in Hrun as [[-> ?]|(e & Hes & Htx' & Hcase)]; [by split_and!; [split| |left]|].
  rewrite Hes in He. apply Forall_cons in He as [He Hrest]. rewrite Htx in Hcase.
  destruct (He [] (w_db w) Hd Hd) as [[Hf Hk] _].
  assert (∀ d', w_db w' = d' → lab_ok d' → sound w') as Hsound.
  { intros d' Hdb Hd'. split; [|congruence]. split; [by rewrite Hdb| |done]. unfold tx_view. by rewrite Htx', Htx, Hdb. }
  destruct Hcase as [[Hdb ?]|([] & us & Ha & Hdb & _)].
  - split; [by eapply Hsound|]. split; [by rewrite Hdb|]. right. exists e. refine (conj Hes (conj Hf (conj Hk (or_introl (conj Hdb _))))). congruence.
  - split; [by eapply Hsound, Hst|]. split; [rewrite Hdb; etrans; [exact Hk|apply lab_changes_keep]|].
    right. exists e. refine (conj Hes (conj Hf (conj Hk (or_intror _)))). by eexists _, us.
Qed.
End delivery.
