(* ===== verification/PacketWorks.v ===== *)
(** What the packets' operations do when the calls succeed and nobody interferes. *)
From Stdlib Require Import Ascii String Sorted.
From S2P Require Import Prelude GoStd Tables Driver Schema MessageStore Packets PacketsOk PacketRuns.
Open Scope Z_scope.

(** * Lengths *)

Lemma decode_runes_fuel_length fuel bs : (List.length (decode_runes_fuel fuel bs) ≤ fuel)%nat.
Proof. revert bs. induction fuel as [|fuel IH]; intros [|b bs]; [simpl; lia..|]. cbn [decode_runes_fuel List.length]. apply le_n_S, IH. Qed.

(** A text of at most 128 bytes has as many characters. *)
Lemma char_length_len s : s ≠ EmptyString → 1 ≤ char_length s ≤ len s.
Proof.
  intros Hs. unfold char_length, RuneCountInString, runes_of, len. rewrite length_fmap. unfold decode_runes.
  pose proof (decode_runes_fuel_length (List.length (bytes_of s)) (bytes_of s)).
  assert (List.length (bytes_of s) = String.length s) as Hl.
  { clear. induction s as [|c s IH]; simpl; [done|]. by rewrite <-IH. }
  rewrite Hl in *. split; [|lia]. destruct s as [|c s]; [done|]. simpl. lia.
Qed.

(** * The deferred check *)

Lemma merge_sort_seqZ ns k : 0 ≤ k → ns ≡ₚ seqZ 0 k → merge_sort Z.le ns = seqZ 0 k.
Proof.
  intros Hk Hns. apply (StronglySorted_unique Z.le); [apply StronglySorted_merge_sort; apply _| |by rewrite merge_sort_Permutation].
  apply seqZ_sorted.
Qed.

Lemma check_allocation_settled d id : lab_ok d → settled_at d id → check_allocation id d = true.
Proof.
  intros Hd Hset. unfold check_allocation. destruct (packets d !! id) as [p|] eqn:Hp; [|done].
  destruct (lo_packets _ Hd _ _ Hp) as [Hs Ht]. pose proof (slots_complete d Hd id p Hp Hset) as Hperm.
  assert (sum_list (slot_amount ∘ snd <$> slots_of id d) = total p) as Hsum.
  { rewrite <-(sum_shares (total p) (shares p)) at 1 by lia. rewrite <-Hperm, <-list_fmap_compose. f_equal.
    apply list_fmap_ext. intros i [n s] Hn%list_elem_of_lookup_2%elem_of_slots_of. by eapply slot_of_packet in Hn as [_ Hn]. }
  rewrite Hsum, Z.eqb_refl, andb_true_r. apply Permutation_length in Hperm as Hlen. rewrite length_fmap, length_seqZ in Hlen.
  rewrite Hlen, Z2Nat.id, Z.eqb_refl by lia. unfold least, greatest. rewrite !(merge_sort_seqZ _ (shares p)) by (lia || done).
  rewrite !bool_decide_eq_true_2; [done| |].
  - replace (shares p) with (Z.of_nat (S (Z.to_nat (shares p - 1)))) at 1 by lia. rewrite seqZ_S, last_snoc. f_equal. lia.
  - rewrite seqZ_cons by lia. done.
Qed.

(** * Running calls *)

Lemma lab_statement_run {A B} (st : lab_statement A) (f : A → packet_proc B) d us t e es a us' :
  quiet e → st (stmt_env_of t e) (apply_changes us d) = Ok (a, us') →
  (on_lab (tx_statement st) ≫= f) (World d us t (e :: es)) = f a (World d (us ++ us') t es).
Proof. intros Hq Hst. apply proc_bind_run, run_error_run. by apply tx_statement_quiet. Qed.

Lemma attempt_statement_run {A B} (st : lab_statement A) (f : result db_error A → packet_proc B) d us t e es a us' :
  quiet e → st (stmt_env_of t e) (apply_changes us d) = Ok (a, us') →
  (attempt (tx_statement st) ≫= f) (World d us t (e :: es)) = f (Ok a) (World d (us ++ us') t es).
Proof. intros Hq Hst. apply proc_bind_run. unfold attempt. by rewrite (tx_statement_quiet _ _ _ _ _ _ a us'). Qed.

Lemma attempt_statement_error {A B} (st : lab_statement A) (f : result db_error A → packet_proc B) d us t e es x :
  quiet e → st (stmt_env_of t e) (apply_changes us d) = Err x →
  (attempt (tx_statement st) ≫= f) (World d us t (e :: es)) = f (Err x) (World d us t es).
Proof. intros Hq Hst. apply proc_bind_run. unfold attempt. by rewrite (tx_statement_quiet_error _ _ _ _ _ _ x). Qed.

Lemma begin_packet_run {B} (f : unit → packet_proc B) d t e es :
  quiet e → (on_lab begin_tx ≫= f) (World d [] t (e :: es)) = f tt (World d [] (ev_now e) es).
Proof. intros Hq. apply proc_bind_run, run_error_run. by apply begin_tx_quiet. Qed.

Lemma commit_deferred_run d us t e es :
  quiet e → settled (apply_changes us d) → commit_deferred (World d us t (e :: es)) = (Ok tt, World (apply_changes us d) [] t es).
Proof.
  intros [Hf He] [Hd Hs]. unfold commit_deferred, mbind, proc_bind, next_event. simpl. rewrite Hf, He. unfold atomically, tx_view. simpl.
  replace (forallb _ _) with true; [done|]. symmetry. apply forallb_forall. intros id _. by apply check_allocation_settled.
Qed.

Lemma deferring_rollback_run {E A} (m : proc (world lab_database lab_change) E A) w r d us t es :
  m w = (r, World d us t es) → deferring_rollback m w = (r, World d [] t es).
Proof. unfold deferring_rollback. by intros ->. Qed.

Lemma with_text_run {A} texts (st : lab_statement A) env d : forallb valid_text texts = true → with_text texts st env d = st env d.
Proof. unfold with_text. by intros ->. Qed.

(** * A claim *)

Section claim_works.
Context (packet user : string) (p : packet_row) (d : lab_database).
Context (Hd : settled d) (Hp : packets d !! packet = Some p).
Context (Htext : valid_text packet = true ∧ valid_text user = true) (Huser : user ≠ EmptyString) (Hlen : len user ≤ 128).

Lemma claim_texts : forallb valid_text [packet; user] = true.
Proof. simpl. by rewrite (proj1 Htext), (proj2 Htext). Qed.

Lemma lock_packet_run env : lock_packet packet env d = Ok (tt, [LockPacket packet]).
Proof. unfold lock_packet. rewrite with_text_run by (simpl; by rewrite (proj1 Htext)). by rewrite Hp. Qed.

Lemma select_credit_run env :
  select_credit packet user env d =
  match packet_credits d !! (packet, user) with Some c => Ok (credit_slot c, credit_amount c, []) | None => Err NoRows end.
Proof. unfold select_credit. rewrite with_text_run by apply claim_texts. unfold query_row. by destruct (packet_credits d !! _). Qed.

Context (Hnone : packet_credits d !! (packet, user) = None).

Lemma not_claimed : has_claimed packet user d = false.
Proof.
  apply not_true_iff_false. unfold has_claimed. intros ([n s] & Hs & Hc)%existsb_exists. apply bool_decide_eq_true in Hc. cbn in Hc.
  rewrite <-list_elem_of_In, elem_of_slots_of in Hs. destruct (sa_credited _ _ (proj2 Hd packet) n s user Hs Hc) as (c & ? & _). congruence.
Qed.

(** The slot that is free with the least number, with its amount. *)
Definition next_slot : option (Z * Z) :=
  n ← least (free_slots packet d); Some (n, share (total p) (shares p) n).

Lemma next_slot_row n a : next_slot = Some (n, a) → packet_slots d !! (packet, n) = Some (SlotRow a None).
Proof.
  unfold next_slot. destruct (least _) as [m|] eqn:Em; [|done]. intros [= -> <-].
  apply least_Some, free_slot in Em as (s & Hs & Hf). rewrite Hs. f_equal. apply (slot_of_packet d (settled_ok _ Hd) packet p Hp) in Hs as [_ Ha].
  destruct s; simpl in *; congruence.
Qed.

Lemma claim_slot_run env :
  claim_slot packet user env d = match next_slot with Some (n, a) => Ok ((n, a), [ClaimSlot packet n user]) | None => Err NoRows end.
Proof.
  unfold claim_slot. rewrite with_text_run by apply claim_texts. unfold next_slot. destruct (least _) as [m|] eqn:Em; [|done].
  cbn [mbind option_bind]. pose proof (next_slot_row m (share (total p) (shares p) m)) as Hs. unfold next_slot in Hs. rewrite Em in Hs.
  specialize (Hs eq_refl). rewrite Hs. cbn [mbind option_bind].
  assert (first_violation [(in_range 1 128 (char_length user), check_violation); (negb (has_claimed packet user d), unique_violation)] = Ok tt)
    as ->; [|done].
  pose proof (char_length_len user Huser). apply first_violation_ok. repeat constructor; cbn [fst].
  - unfold in_range. lia.
  - by rewrite not_claimed.
Qed.

Context (n a : Z) (Hslot : next_slot = Some (n, a)).
Abbreviation d1 := (apply_change (ClaimSlot packet n user) d).
Abbreviation d2 := (apply_change (InsertCredit packet user (CreditRow n a)) d1).

Lemma slot_uncredited : slot_credited packet n d = false.
Proof.
  apply not_true_iff_false. unfold slot_credited. intros ([[id u] c] & Hc & Hx)%existsb_exists.
  apply andb_true_iff in Hx as [Hid%bool_decide_eq_true Hn]. cbn in *. apply Z.eqb_eq in Hn. subst.
  rewrite <-list_elem_of_In, elem_of_map_to_list in Hc. apply (lo_credits _ (settled_ok _ Hd)) in Hc.
  apply next_slot_row in Hslot. congruence.
Qed.

Lemma insert_credit_run env : insert_credit packet n a user env d1 = Ok (tt, [InsertCredit packet user (CreditRow n a)]).
Proof.
  unfold insert_credit. rewrite with_text_run by apply claim_texts.
  match goal with |- context [first_violation ?l] => assert (first_violation l = Ok tt) as ->; [|done] end.
  apply first_violation_ok. repeat constructor; cbn [fst].
  - simpl. by rewrite Hnone.
  - apply negb_true_iff, slot_uncredited.
  - simpl. rewrite lookup_alter_eq, (next_slot_row n a Hslot). simpl. by rewrite Z.eqb_refl, bool_decide_eq_true_2.
Qed.

Lemma insert_intent_run env : insert_intent packet user env d2 = Ok (tt, [InsertIntent packet user]).
Proof.
  unfold insert_intent. rewrite with_text_run by apply claim_texts.
  match goal with |- context [first_violation ?l] => assert (first_violation l = Ok tt) as ->; [|done] end.
  apply first_violation_ok. repeat constructor; cbn [fst].
  - apply negb_true_iff, bool_decide_eq_false. simpl. intros Hin%(lo_intents _ (settled_ok _ Hd)). rewrite Hnone in Hin. by destruct Hin.
  - simpl. by rewrite lookup_add_row, decide_True, Hnone.
Qed.
End claim_works.

(** What a claim does when nothing fails: it answers what was credited before, or else
    credits the next slot, unless there is none. *)
Definition claimed_view (packet user : string) (n a : Z) (d : lab_database) : lab_database :=
  apply_changes [LockPacket packet; ClaimSlot packet n user; InsertCredit packet user (CreditRow n a); InsertIntent packet user] d.

Definition claim_result (packet user : string) (p : packet_row) (d : lab_database) : result packet_error Receipt * lab_database :=
  match packet_credits d !! (packet, user) with
  | Some c => (Ok (MkReceipt packet user (credit_slot c) (credit_amount c)), d)
  | None => match next_slot packet p d with
            | Some (n, a) => (Ok (MkReceipt packet user n a), claimed_view packet user n a d)
            | None => (Err ErrExhausted, d)
            end
  end.

Section claim_runs.
Context (packet user : string) (p : packet_row) (d : lab_database).
Context (Hd : settled d) (Hp : packets d !! packet = Some p).
Context (Htext : valid_text packet = true ∧ valid_text user = true) (Huser : user ≠ EmptyString) (Hlen : len user ≤ 128).

Lemma claimed_view_settled n a :
  packet_credits d !! (packet, user) = None → next_slot packet p d = Some (n, a) → settled (claimed_view packet user n a d).
Proof.
  intros Hnone Hslot. destruct Hd as [Hok Hset]. set (env := StmtEnv 0 0 0 (λ _, "") (λ _, false)).
  assert (unclaimed packet user [LockPacket packet] d) as H1 by (split; [split; [split; [done|by exists p]|done]|done]).
  pose proof (claim_slot_run packet user p d Hd Hp Htext Huser Hlen Hnone env) as E1. rewrite Hslot in E1.
  destruct (claim_slot_step packet user env _ _ _ _ Hok H1 E1) as (_ & Hok2 & H2).
  pose proof (insert_credit_run packet user p d Hd Hp Htext Hnone n a Hslot env) as E2.
  destruct (insert_credit_step packet user n a env _ _ _ _ Hok2 H2 E2) as (_ & Hok3 & H3).
  pose proof (insert_intent_run packet user d Hd Htext Hnone n a env) as E3.
  destruct (insert_intent_step packet user n a env _ _ _ _ Hok3 H3 E3) as (_ & Hok4 & H4).
  split; [exact Hok4|]. by eapply claiming_settled.
Qed.

Lemma claim_new_run t e1 e2 e3 e4 es : Forall quiet [e1; e2; e3; e4] → packet_credits d !! (packet, user) = None →
  ∃ us k, (k ≤ 4)%nat ∧ claim_new packet user (World d [LockPacket packet] t (e1 :: e2 :: e3 :: e4 :: es)) =
    ((claim_result packet user p d).1, World (claim_result packet user p d).2 us t (drop k (e1 :: e2 :: e3 :: e4 :: es))).
Proof.
  intros Hq Hnone. apply Forall_cons in Hq as [Hq1 Hq]. apply Forall_cons in Hq as [Hq2 Hq]. apply Forall_cons in Hq as [Hq3 [Hq4 _]%Forall_cons]. unfold claim_new, claim_result. rewrite Hnone.
  pose proof (claim_slot_run packet user p d Hd Hp Htext Huser Hlen Hnone (stmt_env_of t e1)) as E1.
  destruct (next_slot packet p d) as [[n a]|] eqn:Hslot.
  - rewrite (attempt_statement_run _ _ d [LockPacket packet] _ _ _ (n, a) _ Hq1 E1).
    pose proof (insert_credit_run packet user p d Hd Hp Htext Hnone n a Hslot (stmt_env_of t e2)) as E2.
    rewrite (lab_statement_run _ _ d ([LockPacket packet] ++ [ClaimSlot packet n user]) _ _ _ tt _ Hq2 E2).
    pose proof (insert_intent_run packet user d Hd Htext Hnone n a (stmt_env_of t e3)) as E3.
    rewrite (lab_statement_run _ _ d (([LockPacket packet] ++ [ClaimSlot packet n user]) ++ [InsertCredit packet user (CreditRow n a)]) _ _ _ tt _ Hq3 E3).
    rewrite (proc_bind_run _ _ _ tt (World (claimed_view packet user n a d) [] t es)).
    + exists [], 4%nat. by split; [lia|].
    + apply run_error_run. apply commit_deferred_run; [done|]. by apply claimed_view_settled.
  - rewrite (attempt_statement_error _ _ d [LockPacket packet] _ _ _ NoRows Hq1 E1). exists [LockPacket packet], 1%nat. by split; [lia|].
Qed.

(** Every call that is made succeeds; seven suffice. *)
Lemma Claim_run t events : Forall quiet events → (7 ≤ List.length events)%nat →
  ∃ t' k, (k ≤ 7)%nat ∧ Claim packet user (World d [] t events) =
    ((claim_result packet user p d).1, World (claim_result packet user p d).2 [] t' (drop k events)).
Proof.
  destruct events as [|e1 [|e2 [|e3 [|e4 [|e5 [|e6 [|e7 es]]]]]]]; simpl; try lia. intros Hq _. apply Forall_cons in Hq as [Hq1 Hq]. apply Forall_cons in Hq as [Hq2 Hq]. apply Forall_cons in Hq as [Hq3 Hq].
  unfold Claim. rewrite bool_decide_eq_false_2 by done. replace (128 <? len user) with false by lia. cbn [orb].
  rewrite begin_packet_run by done.
  cut (∃ us k, (k ≤ 4)%nat ∧ (_ ← on_lab (tx_statement (lock_packet packet)); existing ← attempt (tx_statement (select_credit packet user));
      match existing with
      | Ok (slot, amount) => _ ← on_lab commit_deferred; mret (MkReceipt packet user slot amount)
      | Err NoRows => claim_new packet user
      | Err e => mthrow (PacketDatabaseError e)
      end) (World d [] (ev_now e1) (e2 :: e3 :: e4 :: e5 :: e6 :: e7 :: es)) =
    ((claim_result packet user p d).1, World (claim_result packet user p d).2 us (ev_now e1) (drop k (e4 :: e5 :: e6 :: e7 :: es)))).
  { intros (us & k & Hk & Hrun). exists (ev_now e1), (3 + k)%nat. split; [lia|]. by eapply deferring_rollback_run. }
  pose proof (lock_packet_run packet user p d Hp Htext (stmt_env_of (ev_now e1) e2)) as E1.
  rewrite (lab_statement_run _ _ _ [] _ _ _ tt _ Hq2 E1).
  pose proof (select_credit_run packet user d Htext (stmt_env_of (ev_now e1) e3)) as E2.
  destruct (packet_credits d !! (packet, user)) as [c|] eqn:Hc.
  - rewrite (attempt_statement_run _ _ d [LockPacket packet] _ _ _ (credit_slot c, credit_amount c) _ Hq3 E2). apply Forall_cons in Hq as [Hq4 _].
    exists [], 1%nat. split; [lia|]. unfold claim_result. rewrite Hc.
    rewrite (proc_bind_run _ _ _ tt (World d [] (ev_now e1) (e5 :: e6 :: e7 :: es))); [done|].
    apply run_error_run. by apply (commit_deferred_run d ([LockPacket packet] ++ [])).
  - rewrite (attempt_statement_error _ _ d [LockPacket packet] _ _ _ NoRows Hq3 E2). apply claim_new_run; [|done].
    apply Forall_cons in Hq as [? Hq]. apply Forall_cons in Hq as [? Hq]. apply Forall_cons in Hq as [? [? _]%Forall_cons]. by rewrite !Forall_cons.
Qed.
End claim_runs.

(** * A creation *)

Section create_runs.
Context (id : string) (T S : Z) (d : lab_database).
Context (Hd : settled d) (Hnew : packets d !! id = None).
Context (Htext : valid_text id = true) (Hid : id ≠ EmptyString) (HS : 1 ≤ S ≤ 10000) (HT : S ≤ T).

Lemma insert_packet_run env : insert_packet id T S env d = Ok (tt, [InsertPacket id (PacketRow T S)]).
Proof.
  unfold insert_packet. rewrite with_text_run by (simpl; by rewrite Htext).
  match goal with |- context [first_violation ?l] => assert (first_violation l = Ok tt) as ->; [|done] end.
  apply first_violation_ok. repeat constructor; cbn [fst]; [lia|unfold in_range; lia|by rewrite Hnew].
Qed.

Abbreviation made := (apply_change (InsertPacket id (PacketRow T S)) d).
Abbreviation slot_changes := ((λ n, InsertSlot id n (share T S n)) <$> seqZ 0 S).

Lemma insert_slots_run env : insert_slots id T S env made = Ok (tt, slot_changes).
Proof.
  unfold insert_slots. rewrite with_text_run by (simpl; by rewrite Htext).
  match goal with |- context [first_violation ?l] => assert (first_violation l = Ok tt) as ->; [|done] end.
  apply first_violation_ok, Forall_bind, Forall_seqZ. intros n Hn. repeat constructor; cbn [fst].
  - lia.
  - pose proof (share_pos T S n). lia.
  - simpl. destruct (packet_slots d !! (id, n)) as [s|] eqn:Es; [|done].
    destruct (lo_slots _ (settled_ok _ Hd) _ _ _ Es) as (q & Hq & _). congruence.
  - simpl. by rewrite lookup_add_row, decide_True, Hnew.
Qed.

Lemma made_settled : settled (apply_changes slot_changes made).
Proof.
  destruct Hd as [Hok Hset]. set (env := StmtEnv 0 0 0 (λ _, "") (λ _, false)).
  pose proof (insert_packet_run env) as E1.
  destruct (insert_packet_step id T S HS HT env [] d _ _ Hok (conj eq_refl Hset) E1) as (_ & Hok2 & H2).
  pose proof (insert_slots_run env) as E2.
  destruct (insert_slots_step id T S env _ _ _ _ Hok2 H2 E2) as (_ & Hok3 & [_ H3 _ _]). done.
Qed.

Lemma Create_run t e1 e2 e3 e4 es : Forall quiet [e1; e2; e3; e4] →
  Create id T S (World d [] t (e1 :: e2 :: e3 :: e4 :: es)) = (Ok tt, World (apply_changes slot_changes made) [] (ev_now e1) es).
Proof.
  intros Hq. apply Forall_cons in Hq as [Hq1 Hq]. apply Forall_cons in Hq as [Hq2 Hq]. apply Forall_cons in Hq as [Hq3 [Hq4 _]%Forall_cons].
  unfold Create. rewrite bool_decide_eq_false_2 by done.
  replace (S <? 1) with false by lia. replace (10000 <? S) with false by lia. replace (T <? S) with false by lia. cbn [orb].
  rewrite begin_packet_run by done. apply (deferring_rollback_run _ _ _ _ []).
  rewrite (lab_statement_run _ _ d [] _ _ _ tt _ Hq2 (insert_packet_run _)).
  rewrite (lab_statement_run _ _ d [InsertPacket id (PacketRow T S)] _ _ _ tt _ Hq3 (insert_slots_run _)).
  apply run_error_run. apply (commit_deferred_run d ([InsertPacket id (PacketRow T S)] ++ slot_changes)); [done|]. apply made_settled.
Qed.
End create_runs.
