(* ===== verification/PacketPromises.v ===== *)
(** What the packets promise, and the properties at a small packet. *)
From Stdlib Require Import Ascii String Sorted.
From S2P Require Import Prelude GoStd Tables Driver Schema MessageStore Packets PacketsOk PacketRuns PacketWorks.
Open Scope Z_scope.

(** The world between two operations. *)
Definition consistent (w : world lab_database lab_change) : Prop := world_ok settled lab_ok lab_evolves w ∧ w_tx w = [].

Lemma consistent_idle w : consistent w → idle (w_db w) w.
Proof. by intros [Hw Ht]. Qed.

(** * Whatever happens between the calls *)

(** C26: Whatever other claimants, failures and lost answers a claim meets, the
    tables stay consistent, a packet's credits never add up to more than its total,
    every slot is credited at most once, and a claimant who is told that the packet is
    exhausted leaves it with exactly its total credited. *)
Theorem packet_pays_its_total packet user w r w' p :
  consistent w → Claim packet user w = (r, w') → packets (w_db w') !! packet = Some p →
  consistent w' ∧ paid packet (w_db w') ≤ total p ∧ NoDup (credit_slot ∘ snd <$> credits_of packet (w_db w')) ∧
  (r = Err ErrExhausted → paid packet (w_db w') = total p).
Proof.
  intros Hw%consistent_idle Hrun Hp. apply (Claim_step (w_db w)) in Hrun as [[[Hw' _] Ht] Ho]; [|done].
  pose proof (ok_db _ _ _ _ Hw') as Hs. split; [by split|]. split; [by apply paid_at_most; [apply settled_ok|]|].
  split; [by apply paid_slots_distinct, settled_ok|]. intros ->. destruct Ho as [Hex _].
  by apply paid_in_full; [apply settled_ok| |apply Hs|].
Qed.

(** C27: A user who is credited for a packet gets the same receipt from every
    later claim of it that succeeds, however the calls in between ended; two users'
    receipts for a packet name different slots. *)
Theorem claims_agree packet user1 user2 w w1 r1 w2 r2 w3 :
  consistent w → Claim packet user1 w = (Ok r1, w1) →
  lab_evolves [] (w_db w1) (w_db w2) → consistent w2 → Claim packet user2 w2 = (Ok r2, w3) →
  (user1 = user2 → r1 = r2) ∧ (user1 ≠ user2 → receipt_slot r1 ≠ receipt_slot r2).
Proof.
  intros Hw%consistent_idle Hrun1 Hev Hw2%consistent_idle Hrun2.
  apply (Claim_step (w_db w)) in Hrun1 as [_ (Hp1 & Hu1 & Hc1)]; [|done].
  apply (Claim_step (w_db w2)) in Hrun2 as [[[Hw3 Hev2] _] (Hp2 & Hu2 & Hc2)]; [|done].
  apply (le_credits _ _ _ Hev), (le_credits _ _ _ Hev2) in Hc1. pose proof (settled_ok _ (ok_db _ _ _ _ Hw3)) as Hok. split.
  - intros ->. rewrite Hc1 in Hc2. injection Hc2 as Hs Ha. destruct r1, r2. simpl in *. congruence.
  - intros Hne Hs. pose proof (lo_credits _ Hok _ _ _ Hc1) as Hs1. pose proof (lo_credits _ Hok _ _ _ Hc2) as Hs2.
    simpl in Hs1, Hs2. rewrite Hs, Hs2 in Hs1. congruence.
Qed.

(** The first statement of a delivery, and the whole of one. *)
Lemma receive_run packet user w r w1 :
  sound w → on_lab (auto_statement (receive_credit packet user)) w = (r, w1) →
  sound w1 ∧ lab_keeps [] (w_db w) (w_db w1) ∧
  (is_ok r = true → ∃ e, w_events w = e :: w_events w1 ∧
    let found := ev_env e [] (w_db w) in
    credit_outbox (w_db w1) = credit_outbox found ∧ lab_keeps [] (w_db w) found ∧
    ((packet, user) ∈ credit_outbox found →
      ∃ c, packet_credits found !! (packet, user) = Some c ∧ received_credits (w_db w1) !! (packet, user) = Some (credit_amount c)) ∧
    ((packet, user) ∉ credit_outbox found → w_db w1 = found)) ∧
  (Forall (spares_intent (packet, user)) (w_events w) → notified (w_db w) (packet, user) →
    Forall (spares_intent (packet, user)) (w_events w1) ∧ notified (w_db w1) (packet, user)).
Proof.
  intros Hw Hrun. apply sound_statement in Hrun as (Hw1 & Hk & Hcase); [|intros; by eapply receive_credit_effect|done].
  split; [done|]. split; [done|]. destruct Hcase as [[-> Hr]|(e & Hes & Hf & Hkf & Hcase)]; [split; [congruence|done]|].
  destruct Hcase as [[Hdb Hr]|(env & us & Hst & Hdb)].
  { split; [congruence|]. rewrite Hes, Hdb. intros [He Hrest]%Forall_cons Hn. split; [done|]. by apply He. }
  destruct (receive_credit_effect packet user env _ _ us Hf Hst) as (_ & Ho & Hin & Hout). rewrite <-Hdb in Ho, Hin, Hout. split.
  - intros _. exists e. split_and!; done.
  - rewrite Hes. intros [He Hrest]%Forall_cons Hn. split; [done|]. destruct (He _ Hn) as [Hi|[a Ha]].
    + right. destruct (Hin Hi) as (c & _ & Hc). by eexists.
    + right. exists a. rewrite Hdb. by apply (lk_received _ _ _ (lab_changes_keep [] us _)).
Qed.

Lemma delete_run packet user w r w1 :
  sound w → on_lab (auto_statement (delete_intent packet user)) w = (r, w1) →
  sound w1 ∧ lab_keeps [] (w_db w) (w_db w1) ∧
  (is_ok r = true → ¬ ((packet, user) ∈ credit_outbox (w_db w1)) ∧
    ∃ e, w_events w = e :: w_events w1 ∧ received_credits (w_db w1) = received_credits (ev_env e [] (w_db w))).
Proof.
  intros Hw Hrun. apply sound_statement in Hrun as (Hw1 & Hk & Hcase); [|intros; by eapply delete_intent_effect|done].
  split; [done|]. split; [done|]. destruct Hcase as [[_ ->]|(e & Hes & Hf & _ & [[_ ->]|(env & us & Hst & Hdb)])]; [done..|].
  destruct (delete_intent_effect packet user env _ _ us Hf Hst) as (_ & Hr & Hout). rewrite <-Hdb in Hr, Hout. eauto.
Qed.

(** C28: Whatever else runs between its statements, other deliveries of the same
    credit at any point of theirs included, a delivery takes back no credit and nothing
    that a consumer received, and a consumer has at most the credit's own amount.  One
    that succeeds leaves no intent; if its first statement found the intent, the
    consumer then has the credit's amount, and if it found none, it paid nothing.  As
    long as the others take the intent of a credit away only when it has been received
    (a delivery that began before the credit was committed need not), the consumer has
    been paid after a success, and after a failure it has been or the intent is still
    there for the next try. *)
Theorem delivery_pays_once packet user w r w' :
  sound w → Deliver packet user w = (r, w') →
  sound w' ∧ lab_keeps [] (w_db w) (w_db w') ∧
  (∀ k a, received_credits (w_db w') !! k = Some a → ∃ c, packet_credits (w_db w') !! k = Some c ∧ credit_amount c = a) ∧
  (is_ok r = true → ¬ ((packet, user) ∈ credit_outbox (w_db w')) ∧ ∃ e1 e2, w_events w = e1 :: e2 :: w_events w' ∧
    let found := ev_env e1 [] (w_db w) in
    ((packet, user) ∈ credit_outbox found →
      ∃ c, packet_credits found !! (packet, user) = Some c ∧ received_credits (w_db w') !! (packet, user) = Some (credit_amount c)) ∧
    ((packet, user) ∉ credit_outbox found → received_credits (w_db w') = received_credits (ev_env e2 [] found))) ∧
  (Forall (spares_intent (packet, user)) (w_events w) → notified (w_db w) (packet, user) →
    notified (w_db w') (packet, user) ∧ (is_ok r = true → is_Some (received_credits (w_db w') !! (packet, user)))).
Proof.
  intros Hw Hrun. unfold Deliver in Hrun.
  apply proc_bind_inv in Hrun as [(x & Hx & ->)|([] & w1 & Hx & Hrun)];
    apply receive_run in Hx as (Hw1 & Hk1 & Hok1 & Hsp1); [|done| |done].
  { split_and!; [done..|apply Hw1|done|]. intros Hsp Hn. by destruct (Hsp1 Hsp Hn). }
  apply delete_run in Hrun as (Hw2 & Hk2 & Hok2); [|done]. destruct (Hok1 eq_refl) as (e1 & Hes1 & Ho1 & Hkf & Hin & Hout).
  split; [done|]. split; [etrans; [exact Hk1|exact Hk2]|]. split; [apply Hw2|]. split.
  - intros Hr. destruct (Hok2 Hr) as (Hgone & e2 & Hes2 & Hr2). split; [done|]. exists e1, e2.
    split; [by rewrite Hes1, Hes2|]. split.
    + intros Hi. destruct (Hin Hi) as (c & Hc & Ha). exists c. split; [done|]. by apply (lk_received _ _ _ Hk2).
    + intros Hi. by rewrite Hr2, (Hout Hi).
  - intros Hsp Hn. rewrite Hes1 in Hsp. apply Forall_cons in Hsp as [He1 _]. destruct (He1 _ Hn) as [Hi|[a Ha]].
    + destruct (Hin Hi) as (c & _ & Ha). apply (lk_received _ _ _ Hk2) in Ha. split; [right|]; by eexists.
    + assert (is_Some (received_credits (w_db w1) !! (packet, user))) as [b Hb].
      { destruct (decide ((packet, user) ∈ credit_outbox (ev_env e1 [] (w_db w)))) as [Hi|Hi].
        - destruct (Hin Hi) as (c & _ & Hc). by eexists.
        - rewrite (Hout Hi). by eexists. }
      apply (lk_received _ _ _ Hk2) in Hb. split; [right|]; by eexists.
Qed.

(** What the claim endpoint answers is so: a receipt is the
    authenticated user's committed credit; 409 means that the packet is exhausted, its
    total credited, without the user; 404 that there is no such packet; and without a
    user nothing is done. *)
Theorem handler_answers_truthfully who packet w reply w' :
  consistent w → PacketHandler who packet w = (reply, w') →
  consistent w' ∧
  match reply with
  | Claimed r => who = Some (receipt_user r) ∧ receipt_packet r = packet ∧
      packet_credits (w_db w') !! (packet, receipt_user r) = Some (CreditRow (receipt_slot r) (receipt_amount r))
  | ClaimRefused 401 _ => w' = w ∧ default EmptyString who = EmptyString
  | ClaimRefused 404 _ => packets (w_db w') !! packet = None
  | ClaimRefused 409 _ => ∃ p user, packets (w_db w') !! packet = Some p ∧ paid packet (w_db w') = total p ∧
      who = Some user ∧ packet_credits (w_db w') !! (packet, user) = None
  | ClaimRefused status _ => status = 503
  end.
Proof.
  intros Hw Hrun. unfold PacketHandler in Hrun. destruct who as [user|]; [|by simplify_eq].
  case_bool_decide; [by simplify_eq|]. destruct (Claim packet user w) as [r w1] eqn:Hc.
  apply consistent_idle in Hw. apply (Claim_step (w_db w)) in Hc as [[[Hw' _] Ht] Ho]; [|done].
  assert (w1 = w') as -> by (by destruct r as [[]|]; simplify_eq). split; [by split|].
  destruct r as [e|r].
  - destruct e as [e| |e|text]; simplify_eq; [by destruct e; simplify_eq| |done|done]. destruct Ho as [Hex Hnone].
    pose proof (ok_db _ _ _ _ Hw') as Hs. destruct Hex as [[p Hp] Hex]. exists p, user. split; [done|].
    split; [by apply paid_in_full; [apply settled_ok| |apply Hs|split; [exists p|]]|done].
  - injection Hrun as <-. by destruct Ho as (Hp & <- & Hcr).
Qed.

(** * When the calls succeed *)

(** Claims of a packet, one after the other. *)
Fixpoint claim_each (packet : string) (users : list string) (w : world lab_database lab_change) :
    list (result packet_error Receipt) * world lab_database lab_change :=
  match users with
  | [] => ([], w)
  | user :: users =>
      let '(r, w1) := Claim packet user w in
      let '(rs, w2) := claim_each packet users w1 in
      (r :: rs, w2)
  end.

(** The answer to the [n]th of them. *)
Definition nth_answer (packet : string) (total shares : Z) (n : nat) (user : string) : result packet_error Receipt :=
  if Z.of_nat n <? shares then Ok (MkReceipt packet user (Z.of_nat n) (share total shares (Z.of_nat n))) else Err ErrExhausted.

Definition claimant (user : string) : Prop := valid_text user = true ∧ user ≠ EmptyString ∧ len user ≤ 128.

Lemma least_intro ns n : n ∈ ns → (∀ m, m ∈ ns → n ≤ m) → least ns = Some n.
Proof.
  intros Hn Hle. unfold least. assert (StronglySorted Z.le (merge_sort Z.le ns)) as Hs by (apply StronglySorted_merge_sort; apply _).
  pose proof (merge_sort_Permutation Z.le ns) as Hp. rewrite <-Hp in Hn. destruct (merge_sort Z.le ns) as [|h l]; [by apply elem_of_nil in Hn|].
  simpl. f_equal. assert (n ≤ h) by (apply Hle; rewrite <-Hp; by left).
  apply StronglySorted_inv in Hs as [_ Hs]. rewrite List.Forall_forall in Hs.
  apply elem_of_cons in Hn as [->|Hn]; [done|]. apply list_elem_of_In, Hs in Hn. lia.
Qed.

Section shared_out.
Context (id : string) (T S : Z) (Hid : valid_text id = true) (HS : 1 ≤ S ≤ 10000) (HT : S ≤ T).

(** [users] have claimed, in this order. *)
Record shared_among (users : list string) (d : lab_database) : Prop := SharedAmong {
  sh_settled : settled d;
  sh_packet : packets d !! id = Some (PacketRow T S);
  sh_slots : ∀ n, 0 ≤ n < S → packet_slots d !! (id, n) = Some (SlotRow (share T S n) (users !! Z.to_nat n))
}.

Lemma shared_slot users d n s :
  shared_among users d → packet_slots d !! (id, n) = Some s → 0 ≤ n < S ∧ claimed_by s = users !! Z.to_nat n.
Proof.
  intros [Hs Hp Hsl] Hn. destruct (slot_of_packet d (settled_ok _ Hs) id _ Hp n s Hn) as [Hr _]. split; [done|].
  rewrite Hsl in Hn by done. by simplify_eq.
Qed.

Lemma shared_uncredited users d u : shared_among users d → u ∉ users → packet_credits d !! (id, u) = None.
Proof.
  intros Hsh Hu. destruct (packet_credits d !! (id, u)) as [c|] eqn:Hc; [|done]. exfalso. apply Hu.
  apply (lo_credits _ (settled_ok _ (sh_settled _ _ Hsh))) in Hc. destruct (shared_slot _ _ _ _ Hsh Hc) as [_ Hl].
  by eapply list_elem_of_lookup_2.
Qed.

Lemma shared_next users d :
  shared_among users d →
  next_slot id (PacketRow T S) d =
  if Z.of_nat (List.length users) <? S then Some (Z.of_nat (List.length users), share T S (Z.of_nat (List.length users))) else None.
Proof.
  intros Hsh. set (k := List.length users). unfold next_slot. cbn [total shares].
  assert (∀ n, n ∈ free_slots id d ↔ Z.of_nat k ≤ n < S) as Hfree.
  { intros n. split.
    - intros (s & Hs & Hf)%free_slot. destruct (shared_slot _ _ _ _ Hsh Hs) as [Hn Hl]. rewrite Hf in Hl. symmetry in Hl.
      apply lookup_ge_None in Hl. lia.
    - intros Hn. apply free_slot. eexists. rewrite (sh_slots _ _ Hsh) by lia. split; [done|]. simpl. apply lookup_ge_None. lia. }
  destruct (Z.ltb_spec (Z.of_nat k) S).
  - rewrite (least_intro _ (Z.of_nat k)); [done| |].
    + apply Hfree. lia.
    + intros m Hm%Hfree. lia.
  - destruct (least (free_slots id d)) as [n|] eqn:Hn; [|done]. apply least_Some, Hfree in Hn. lia.
Qed.

Lemma shared_claim users d u :
  shared_among users d → claimant u → u ∉ users →
  (claim_result id u (PacketRow T S) d).1 = nth_answer id T S (List.length users) u ∧
  shared_among (users ++ [u]) (claim_result id u (PacketRow T S) d).2.
Proof.
  intros Hsh (Htext & Hne & Hlen) Hu. pose proof (shared_uncredited _ _ _ Hsh Hu) as Hnone. pose proof (shared_next _ _ Hsh) as Hnext.
  unfold claim_result, nth_answer. rewrite Hnone, Hnext. set (k := List.length users) in *. destruct Hsh as [Hs Hp Hsl].
  destruct (Z.ltb_spec (Z.of_nat k) S).
  - split; [done|]. cbn [snd]. split; [by eapply claimed_view_settled|done|].
    intros n Hn. cbn [claimed_view apply_changes foldl apply_change apply_lab_change packet_slots].
    destruct (decide (n = Z.of_nat k)) as [->|Hk].
    + rewrite lookup_alter_eq, Hsl by lia. cbn. unfold claim_row. cbn. f_equal. f_equal.
      rewrite Nat2Z.id, (lookup_ge_None_2 users), list_lookup_middle by done. done.
    + rewrite lookup_alter_ne by congruence. rewrite Hsl by done. f_equal. f_equal.
      destruct (decide (n < Z.of_nat k)); [by rewrite lookup_app_l by lia|].
      rewrite !lookup_ge_None_2; [done|rewrite length_app; simpl; lia|lia].
  - split; [done|]. split; [done|done|]. intros n Hn. cbn [snd]. rewrite lookup_app_l by lia. by apply Hsl.
Qed.

Lemma claim_each_run users todo d t events :
  shared_among users d → NoDup (users ++ todo) → Forall claimant todo → Forall quiet events →
  (7 * List.length todo ≤ List.length events)%nat →
  ∃ w, claim_each id todo (World d [] t events) = (imap (λ n u, nth_answer id T S (List.length users + n) u) todo, w) ∧
    shared_among (users ++ todo) (w_db w) ∧ w_tx w = [].
Proof.
  revert users d t events. induction todo as [|u todo IH]; intros users d t events Hsh Hnd Htodo Hq Hlen.
  { exists (World d [] t events). split; [done|]. by rewrite app_nil_r. }
  apply Forall_cons in Htodo as [Hu Htodo]. assert (u ∉ users) as Hnew.
  { intros Hin. apply NoDup_app in Hnd as (_ & Hnd & _). apply (Hnd u Hin). by left. }
  destruct (shared_claim users d u Hsh Hu Hnew) as [Hr Hsh']. destruct Hu as (Htext & Hne & Hl). cbn [List.length] in Hlen.
  destruct (Claim_run id u (PacketRow T S) d (sh_settled _ _ Hsh) (sh_packet _ _ Hsh) (conj Hid Htext) Hne Hl t events Hq)
    as (t' & k & Hk & Hrun); [lia|].
  destruct (IH (users ++ [u]) (claim_result id u (PacketRow T S) d).2 t' (drop k events)) as (w & Hrun' & Hw); try done.
  - by rewrite <-app_assoc.
  - by apply Forall_drop.
  - rewrite length_drop. lia.
  - exists w. cbn [claim_each]. rewrite Hrun, Hrun', Hr. split; [|by rewrite <-app_assoc in Hw]. f_equal. cbn [imap].
    rewrite Nat.add_0_r. f_equal. apply imap_ext. intros i v _. cbn. f_equal. rewrite length_app. simpl. lia.
Qed.
End shared_out.

(** C25: With a working database, a packet that is created with valid
    arguments is shared out to the users who claim it, in the order they come: each gets
    the next slot and its share, the shares differ by at most one unit and add up to the
    total, and once there are as many claims as shares everybody else is told that it is
    exhausted. *)
Theorem packet_is_shared_out id T S d t events users :
  settled d → packets d !! id = None → valid_text id = true → id ≠ EmptyString → 1 ≤ S ≤ 10000 → S ≤ T →
  NoDup users → Forall claimant users → Forall quiet events → (4 + 7 * List.length users ≤ List.length events)%nat →
  ∃ w1 w2, Create id T S (World d [] t events) = (Ok tt, w1) ∧
    claim_each id users w1 = (imap (nth_answer id T S) users, w2) ∧ settled (w_db w2) ∧
    sum_list (share T S <$> seqZ 0 S) = T ∧ (∀ n m, share T S n ≤ share T S m + 1).
Proof.
  intros Hd Hnew Hid Hne HS HT Hnd Hus Hq Hlen. destruct events as [|e1 [|e2 [|e3 [|e4 es]]]]; simpl in Hlen; try lia.
  apply Forall_cons in Hq as [Hq1 Hq]. apply Forall_cons in Hq as [Hq2 Hq]. apply Forall_cons in Hq as [Hq3 [Hq4 Hq]%Forall_cons].
  pose proof (Create_run id T S d Hd Hnew Hid Hne HS HT t e1 e2 e3 e4 es) as Hrun. rewrite Hrun by by rewrite !Forall_cons.
  pose proof (made_settled id T S d Hd Hnew Hid HS HT) as Hms.
  set (d' := apply_changes _ _) in *.
  assert (shared_among id T S [] d') as Hsh.
  { destruct (insert_slots_rest id T S (seqZ 0 S) (apply_change (InsertPacket id (PacketRow T S)) d)) as (Hp & _).
    split; [done| |].
    - unfold d'. rewrite Hp. simpl. by rewrite lookup_add_row, decide_True, Hnew.
    - intros n Hn. unfold d'. rewrite insert_slots_lookup. simpl.
      destruct (packet_slots d !! (id, n)) as [s|] eqn:Es; [destruct (lo_slots _ (settled_ok _ Hd) _ _ _ Es) as (? & ? & _); congruence|].
      rewrite decide_True; [done|]. split; [done|]. apply elem_of_seqZ. lia. }
  destruct (claim_each_run id T S Hid [] users d' (ev_now e1) es) as (w & Hw & Hsh' & _); try done; [lia|].
  eexists _, w. split; [done|]. split; [exact Hw|]. split; [apply Hsh'|]. split; [apply sum_shares; lia|].
  intros n m. unfold share. repeat case_match; lia.
Qed.

(** * A delivery that comes too early *)

(** If a claim commits between the two statements of a
    delivery for its packet and user, the delivery reports success and takes the intent
    away without having delivered anything: the credit is there, but the consumer has
    not got it and nothing is left that would make anyone deliver it. *)
Theorem early_delivery_loses_the_credit packet user p d n a t e1 e2 es :
  settled d → packets d !! packet = Some p → valid_text packet = true → claimant user →
  packet_credits d !! (packet, user) = None → next_slot packet p d = Some (n, a) →
  quiet e1 → ev_fault e2 = NoFault → ev_env e2 [] d = (claim_result packet user p d).2 →
  ∃ w', Deliver packet user (World d [] t (e1 :: e2 :: es)) = (Ok tt, w') ∧
    packet_credits (w_db w') !! (packet, user) = Some (CreditRow n a) ∧ ¬ notified (w_db w') (packet, user).
Proof.
  intros Hd Hp Hpt (Hut & Hne & Hlen) Hnone Hslot Hq1 Hf2 He2. unfold claim_result in He2. rewrite Hnone, Hslot in He2.
  set (d2 := claimed_view packet user n a d) in *. set (k := (packet, user)) in *.
  assert (packet_credits d2 !! k = Some (CreditRow n a)) as Hc2.
  { change (packet_credits d2) with (add_row k (CreditRow n a) (packet_credits d)).
    rewrite lookup_add_row, decide_True by done. by rewrite Hnone. }
  assert (k ∈ credit_outbox d2) as Hin 
    by (change (credit_outbox d2) with ({[k]} ∪ credit_outbox d); set_solver).
  assert (received_credits d !! k = None) as Hnr.
  { destruct (received_credits d !! k) as [x|] eqn:Hx; [|done].
    destruct (lo_received _ (settled_ok _ Hd) _ _ Hx) as (c & Hc & _). congruence. }
  assert (forallb valid_text [packet; user] = true) as Htext by (simpl; by rewrite Hpt, Hut).
  unfold Deliver. rewrite (proc_bind_run _ _ _ tt (World d [] t (e2 :: es))).
  2: { apply run_error_run. apply (auto_statement_quiet _ _ _ _ _ _ tt []); [done|]. unfold receive_credit.
    rewrite with_text_run by done. fold k. by rewrite Hnone. }
  eexists. split; [apply run_error_run|].
  { unfold auto_statement, mbind, proc_bind, next_event. simpl. rewrite Hf2, He2. unfold atomically. simpl.
    unfold delete_intent. rewrite with_text_run by done. fold k. rewrite bool_decide_eq_true_2 by done. reflexivity. }
  split; [exact Hc2|]. intros [Hk|[x Hx]].
  - change (k ∈ credit_outbox d2 ∖ {[k]}) in Hk. set_solver.
  - change (received_credits d !! k = Some x) in Hx. congruence.
Qed.

(** * At a small packet *)

Definition calm (n : nat) : event lab_database lab_change := Event (Z.of_nat n) 0 (λ _, EmptyString) (λ _, false) NoFault (λ _ d, d).
Definition calm_events (n : nat) : list (event lab_database lab_change) := calm <$> seq 0 n.

Lemma calm_quiet n : Forall quiet (calm_events n).
Proof. apply Forall_fmap, Forall_true. by split. Qed.

Definition empty_lab : lab_database := LabDatabase ∅ ∅ ∅ ∅ ∅.

Lemma lookup_nothing `{Countable K} {A} (k : K) (x : A) (P : Prop) : (∅ : gmap K A) !! k = Some x → P.
Proof. by rewrite lookup_empty. Qed.

Lemma empty_settled : settled empty_lab.
Proof.
  split; [split|split]; simpl; intros;
    try match goal with Hx : _ !! _ = Some _ |- _ => exact (lookup_nothing _ _ _ Hx) end; [set_solver|].
  match goal with Hx : is_Some _ |- _ => destruct Hx as [x Hx]; exact (lookup_nothing _ _ _ Hx) end.
Qed.

Lemma ann_bob_cy_claimants : Forall claimant ["ann"%string; "bob"%string; "cy"%string].
Proof. repeat constructor; vm_compute; done. Qed.

Lemma packet_is_shared_out_witness :
  imap (nth_answer "p" 7 2) ["ann"%string; "bob"%string; "cy"%string] =
    [Ok (MkReceipt "p" "ann" 0 4); Ok (MkReceipt "p" "bob" 1 3); Err ErrExhausted] ∧
  ∃ w1 w2, Create "p" 7 2 (World empty_lab [] 0 (calm_events 25)) = (Ok tt, w1) ∧
    claim_each "p" ["ann"%string; "bob"%string; "cy"%string] w1 =
      (imap (nth_answer "p" 7 2) ["ann"%string; "bob"%string; "cy"%string], w2) ∧ settled (w_db w2) ∧
    sum_list (share 7 2 <$> seqZ 0 2) = 7 ∧ (∀ n m, share 7 2 n ≤ share 7 2 m + 1).
Proof.
  split; [reflexivity|].
  apply (packet_is_shared_out "p" 7 2 empty_lab 0 (calm_events 25) ["ann"%string; "bob"%string; "cy"%string]);
    [exact empty_settled|reflexivity|reflexivity|discriminate|lia|lia| |exact ann_bob_cy_claimants|apply calm_quiet|vm_compute; lia].
  apply (bool_decide_unpack _). vm_compute. exact I.
Defined.

(** ** Two claims of one share *)

Definition one_share : lab_database := apply_changes [InsertSlot "p" 0 (share 7 1 0)] (apply_change (InsertPacket "p" (PacketRow 7 1)) empty_lab).

Lemma one_share_settled : settled one_share.
Proof.
  apply (made_settled "p" 7 1 empty_lab empty_settled); [reflexivity|reflexivity|lia|lia].
Qed.

Lemma calm_consistent d n : settled d → consistent (World d [] 0 (calm_events n)).
Proof.
  intros Hd. split; [|done]. split; [done|by apply settled_ok|]. simpl. apply (Forall_impl quiet); [apply calm_quiet|].
  intros e He. by apply quiet_respects; [intros us; apply _|].
Qed.

Definition one_share_world : world lab_database lab_change := World one_share [] 0 (calm_events 20).
Definition ann_claims := Claim "p" "ann" one_share_world.

Definition ann_receipt : Receipt := MkReceipt "p" "ann" 0 7.
Lemma ann_claims_ok : Claim "p" "ann" one_share_world = (Ok ann_receipt, ann_claims.2).
Proof. apply injective_projections; [vm_compute|]; reflexivity. Qed.

(** The tables after her claim, and a world that starts with them. *)
Definition ann_db : lab_database := Eval vm_compute in w_db ann_claims.2.
Lemma ann_db_eq : w_db ann_claims.2 = ann_db.
Proof. vm_compute. reflexivity. Qed.

Lemma ann_db_settled : settled ann_db.
Proof.
  pose proof (Claim_step one_share "p" "ann" one_share_world _ _ (consistent_idle _ (calm_consistent _ 20 one_share_settled)) ann_claims_ok)
    as [[[Hw _] _] _]. rewrite <-ann_db_eq. apply Hw.
Qed.

Definition ann_world : world lab_database lab_change := World ann_db [] 0 (calm_events 20).
Lemma ann_world_consistent : consistent ann_world.
Proof. apply calm_consistent, ann_db_settled. Qed.

Definition bob_claims := Claim "p" "bob" ann_world.
Lemma bob_claims_exhausted : Claim "p" "bob" ann_world = (Err ErrExhausted, bob_claims.2).
Proof. apply injective_projections; [vm_compute|]; reflexivity. Qed.

Lemma packet_pays_its_total_witness :
  packets (w_db bob_claims.2) !! "p"%string = Some (PacketRow 7 1) ∧
  consistent bob_claims.2 ∧ paid "p" (w_db bob_claims.2) ≤ 7 ∧
  NoDup (credit_slot ∘ snd <$> credits_of "p" (w_db bob_claims.2)) ∧
  (Err ErrExhausted = Err ErrExhausted :> result packet_error Receipt → paid "p" (w_db bob_claims.2) = 7).
Proof.
  assert (packets (w_db bob_claims.2) !! "p"%string = Some (PacketRow 7 1)) as Hp by (vm_compute; reflexivity).
  split; [exact Hp|].
  exact (packet_pays_its_total "p" "bob" ann_world (Err ErrExhausted) bob_claims.2 (PacketRow 7 1) ann_world_consistent bob_claims_exhausted Hp).
Defined.

Definition ann_again := Claim "p" "ann" ann_world.
Lemma ann_again_ok : Claim "p" "ann" ann_world = (Ok ann_receipt, ann_again.2).
Proof. apply injective_projections; [vm_compute|]; reflexivity. Qed.

Lemma ann_evolves : lab_evolves [] (w_db ann_claims.2) (w_db ann_world).
Proof. rewrite ann_db_eq. reflexivity. Qed.

Lemma claims_agree_witness :
  Claim "p" "ann" ann_world = (Ok ann_receipt, ann_again.2) ∧
  ("ann"%string = "ann"%string → ann_receipt = ann_receipt) ∧
  ("ann"%string ≠ "ann"%string → receipt_slot ann_receipt ≠ receipt_slot ann_receipt).
Proof.
  split; [exact ann_again_ok|].
  exact (claims_agree "p" "ann" "ann" one_share_world ann_claims.2 ann_receipt ann_world ann_receipt ann_again.2
    (calm_consistent _ 20 one_share_settled) ann_claims_ok ann_evolves ann_world_consistent ann_again_ok).
Defined.

(** ** Delivery *)

Definition ann_paid := Deliver "p" "ann" ann_world.
Lemma ann_paid_ok : Deliver "p" "ann" ann_world = (Ok tt, ann_paid.2).
Proof. apply injective_projections; [vm_compute|]; reflexivity. Qed.

Lemma calm_sound d n : settled d → sound (World d [] 0 (calm_events n)).
Proof.
  intros Hd. split; [|done]. pose proof (settled_ok _ Hd) as Hok. split; [exact Hok|exact Hok|].
  eapply Forall_impl; [apply calm_quiet|]. intros e. apply quiet_respects. intros us. apply _.
Qed.

Lemma calm_spares k n : Forall (spares_intent k) (calm_events n).
Proof. eapply Forall_impl; [apply calm_quiet|]. intros e [_ He] d. by rewrite He. Qed.

(** Twice: the second one finds no intent. *)
Definition ann_paid_again := Deliver "p" "ann" ann_paid.2.
Lemma ann_paid_again_run : Deliver "p" "ann" ann_paid.2 = (ann_paid_again.1, ann_paid_again.2).
Proof. unfold ann_paid_again. apply surjective_pairing. Qed.
Lemma ann_paid_again_ok : ann_paid_again.1 = Ok tt.
Proof. vm_compute. reflexivity. Qed.

Lemma ann_notified : notified (w_db ann_world) ("p"%string, "ann"%string).
Proof. left. apply (bool_decide_unpack _). vm_compute. done. Qed.

Lemma delivery_pays_once_witness :
  received_credits (w_db ann_paid.2) !! ("p"%string, "ann"%string) = Some 7 ∧
  ("p"%string, "ann"%string) ∉ credit_outbox (w_db ann_paid.2) ∧
  is_Some (received_credits (w_db ann_paid.2) !! ("p"%string, "ann"%string)) ∧ ann_paid_again.1 = Ok tt ∧
  received_credits (w_db ann_paid_again.2) !! ("p"%string, "ann"%string) = Some 7.
Proof.
  destruct (delivery_pays_once "p" "ann" ann_world (Ok tt) ann_paid.2 (calm_sound _ 20 ann_db_settled) ann_paid_ok)
    as (Hsound & _ & _ & Hpaid & Hsp).
  destruct (delivery_pays_once "p" "ann" ann_paid.2 ann_paid_again.1 ann_paid_again.2 Hsound ann_paid_again_run)
    as (Hsound2 & Hkeep & _).
  assert (received_credits (w_db ann_paid.2) !! ("p"%string, "ann"%string) = Some 7) as Hr by (vm_compute; reflexivity).
  split; [exact Hr|]. split; [exact (proj1 (Hpaid eq_refl))|]. split; [exact (proj2 (Hsp (calm_spares _ 20) ann_notified) eq_refl)|]. split; [exact ann_paid_again_ok|]. exact (lk_received _ _ _ Hkeep _ _ Hr).
Defined.

Definition bob_asks := PacketHandler (Some "bob"%string) "p" ann_world.
Lemma bob_asks_refused : PacketHandler (Some "bob"%string) "p" ann_world = (ClaimRefused 409 "exhausted", bob_asks.2).
Proof. apply injective_projections; [vm_compute|]; reflexivity. Qed.

Lemma handler_answers_truthfully_witness :
  consistent bob_asks.2 ∧
  ∃ p user, packets (w_db bob_asks.2) !! "p"%string = Some p ∧ paid "p" (w_db bob_asks.2) = total p ∧
    Some "bob"%string = Some user ∧ packet_credits (w_db bob_asks.2) !! ("p"%string, user) = None.
Proof.
  exact (handler_answers_truthfully (Some "bob"%string) "p" ann_world _ bob_asks.2 ann_world_consistent bob_asks_refused).
Defined.

(** Ann's claim commits while her credit is being delivered. *)
Definition ann_commits : event lab_database lab_change :=
  Event 1 0 (λ _, EmptyString) (λ _, false) NoFault (λ us d, if us is [] then (claim_result "p" "ann" (PacketRow 7 1) d).2 else d).

Lemma early_delivery_loses_the_credit_witness :
  ∃ w', Deliver "p" "ann" (World one_share [] 0 [calm 0; ann_commits]) = (Ok tt, w') ∧
    packet_credits (w_db w') !! ("p"%string, "ann"%string) = Some (CreditRow 0 7) ∧ ¬ notified (w_db w') ("p"%string, "ann"%string).
Proof.
  apply (early_delivery_loses_the_credit "p" "ann" (PacketRow 7 1) one_share 0 7 0 (calm 0) ann_commits []);
    [exact one_share_settled|reflexivity|reflexivity|split; [reflexivity|split; [discriminate|vm_compute; discriminate]]|reflexivity| |by split|reflexivity|reflexivity].
  vm_compute. reflexivity.
Defined.
