(* ===== verification/Fence.v ===== *)
(** [internal/reliabilitylab], fencing: leases whose tokens only grow, and writes that
    are refused under any token but the current one.  Tables are maps by name; times are
    microseconds.  The second half shows that tokens only grow, and that once a lease
    has been acquired no write under an earlier token gets through. *)
From Stdlib Require Import Ascii String.
From S2P Require Import Prelude GoStd Tables Driver Schema MessageStore.
Open Scope Z_scope.

(** * The tables *)

Record lease_row : Type := LeaseRow { lease_token : Z; lease_until : Z }.
Record resource_row : Type := ResourceRow { resource_value : string; last_token : Z }.
Record fence_database : Type := FenceDatabase { leases : gmap string lease_row; resources : gmap string resource_row }.

(** [LockLease] is a row lock. *)
Inductive fence_change : Type :=
| PutLease (name : string) (l : lease_row)
| LockLease (name : string)
| WriteResource (name value : string) (token : Z).

#[global] Instance apply_fence_change : RowChange fence_database fence_change := λ u d,
  match u with
  | PutLease name l => FenceDatabase (<[name := l]> (leases d)) (resources d)
  | LockLease _ => d
  | WriteResource name value token =>
      FenceDatabase (leases d) (alter (λ _, ResourceRow value token) name (resources d))
  end.

(** * Statements *)

Abbreviation fence_statement := (statement fence_database fence_change).

(** [INSERT INTO resource_leases ... ON CONFLICT (name) DO UPDATE ... WHERE until <=
    clock_timestamp() RETURNING token]; the statement reads one clock. *)
Definition acquire_statement (name : string) (ms : Z) : fence_statement Z :=
  with_text [name] (λ env d,
    let until := clock_timestamp env + ms * 1000 in
    match leases d !! name with
    | None => Ok (1, [PutLease name (LeaseRow 1 until)])
    | Some l =>
        if lease_until l <=? clock_timestamp env then
          _ ← first_violation [(lease_token l <? int64_max, numeric_value_out_of_range)];
          Ok (lease_token l + 1, [PutLease name (LeaseRow (lease_token l + 1) until)])
        else Err NoRows
    end).

(** [FOR UPDATE]. *)
Definition lock_lease (name : string) : fence_statement Z :=
  with_text [name] (λ _ d,
    match leases d !! name with None => Err NoRows | Some l => Ok (lease_token l, [LockLease name]) end).

(** The write goes through while the lease runs, unless a later token has written. *)
Definition may_write (now token : Z) (l : option lease_row) (r : resource_row) : bool :=
  (last_token r <=? token) && match l with Some l => (lease_token l =? token) && (now <? lease_until l) | None => false end.

(** Yields the number of rows. *)
Definition write_resource (name : string) (token : Z) (value : string) : fence_statement Z :=
  with_text [name; value] (λ env d,
    match resources d !! name with
    | Some r =>
        if may_write (clock_timestamp env) token (leases d !! name) r then Ok (1, [WriteResource name value token]) else Ok (0, [])
    | None => Ok (0, [])
    end).

(** * Operations *)

Inductive fence_error : Type :=
| FenceDatabaseError (e : db_error)
| ErrStaleOwner
| LeaseNotPositive.

Abbreviation fence_proc := (proc (world fence_database fence_change) fence_error).

Definition on_fence {A} (m : proc (world fence_database fence_change) db_error A) : fence_proc A := run_error FenceDatabaseError m.

Definition AcquireFence (name : string) (lease : Z) : fence_proc Z :=
  if lease <=? 0 then mthrow LeaseNotPositive
  else on_fence (auto_statement (acquire_statement name (Milliseconds lease))).

Definition WriteFenced (name : string) (token : Z) (value : string) : fence_proc unit :=
  _ ← on_fence begin_tx;
  deferring_rollback (
    locked ← attempt (tx_statement (lock_lease name));
    match locked with
    | Err NoRows => mthrow ErrStaleOwner
    | Err e => mthrow (FenceDatabaseError e)
    | Ok current =>
        if negb (current =? token) then mthrow ErrStaleOwner
        else
          affected ← on_fence (tx_statement (write_resource name token value));
          if negb (affected =? 1) then mthrow ErrStaleOwner
          else on_fence commit_tx
    end).

(** * What fencing promises *)

(** * Invariant and evolution *)

Definition current_token (name : string) (d : fence_database) : Z := default 0 (lease_token <$> leases d !! name).

(** No resource is ahead of its lease. *)
Record fence_ok (d : fence_database) : Prop := FenceOk {
  fo_tokens : ∀ name l, leases d !! name = Some l → 1 ≤ lease_token l;
  fo_resources : ∀ name r, resources d !! name = Some r → last_token r ≤ current_token name d
}.

(** A resource changes only under a token that is not behind the lease's; a locked lease
    and a written resource are left alone. *)
Record fence_evolves (us : list fence_change) (d d' : fence_database) : Prop := FenceEvolves {
  fe_tokens : ∀ name, current_token name d ≤ current_token name d';
  fe_leases : ∀ name l, leases d !! name = Some l →
    ∃ l', leases d' !! name = Some l' ∧ lease_token l ≤ lease_token l' ∧ (lease_token l' = lease_token l → l' = l);
  fe_resources : ∀ name r, resources d !! name = Some r →
    ∃ r', resources d' !! name = Some r' ∧ last_token r ≤ last_token r' ∧ (r' = r ∨ current_token name d ≤ last_token r');
  fe_held : ∀ name, LockLease name ∈ us → leases d' !! name = leases d !! name;
  fe_written : ∀ name value token, WriteResource name value token ∈ us → resources d' !! name = resources d !! name
}.

#[export] Instance fence_evolves_preorder us : PreOrder (fence_evolves us).
Proof.
  split.
  - intros d. split; [done|intros name l Hl; by exists l|intros name r Hr; exists r; auto using Z.le_refl|done|done].
  - intros d1 d2 d3 [C1 L1 R1 K1 W1] [C2 L2 R2 K2 W2]. split.
    + intros name. specialize (C1 name). specialize (C2 name). lia.
    + intros name l Hl. destruct (L1 name l Hl) as (l2 & Hl2 & Hle & Heq), (L2 name l2 Hl2) as (l3 & Hl3 & Hle' & Heq').
      exists l3. split; [done|]. split; [lia|]. intros Ht. rewrite Heq'; [apply Heq; lia|lia].
    + intros name r Hr. destruct (R1 name r Hr) as (r2 & Hr2 & Hle & Hc), (R2 name r2 Hr2) as (r3 & Hr3 & Hle' & Hc').
      specialize (C1 name). exists r3. split; [done|]. split; [lia|].
      destruct Hc' as [->|?]; [|right; lia]. destruct Hc as [->|?]; [by left|right; lia].
    + intros name Hn. by rewrite K2, K1.
    + intros name value token Hn. by rewrite (W2 _ _ _ Hn), (W1 _ _ _ Hn).
Qed.

Lemma fence_evolves_nil us d d' : fence_evolves us d d' → fence_evolves [] d d'.
Proof. intros [? ? ? _ _]. split; [done|done|done|by intros ? ?%not_elem_of_nil|by intros ? ? ? ?%not_elem_of_nil]. Qed.

(** * What the statements do *)

(** A lease that is acquired anew, or for the first time. *)
Lemma put_lease_ok name l d :
  fence_ok d → (1 ≤ lease_token l) → current_token name d < lease_token l →
  fence_ok (apply_change (PutLease name l) d) ∧ fence_evolves [] d (apply_change (PutLease name l) d).
Proof.
  intros [Ht Hr] Hpos Hlt. set (d' := apply_change _ _).
  assert (∀ name', leases d' !! name' = if decide (name' = name) then Some l else leases d !! name') as Hl.
  { intros name'. unfold d'. simpl. destruct (decide (name' = name)) as [->|]; [by rewrite lookup_insert_eq|by rewrite lookup_insert_ne]. }
  split; split.
  - intros name' l'. rewrite Hl. destruct (decide _); [by intros [= <-]|apply Ht].
  - intros name' r Hn. specialize (Hr name' r Hn). unfold current_token in *. rewrite Hl. destruct (decide (name' = name)) as [->|]; [simpl; lia|done].
  - intros name'. unfold current_token in *. rewrite Hl. destruct (decide (name' = name)) as [->|]; [simpl; lia|done].
  - intros name' l' Hl'. rewrite Hl. destruct (decide (name' = name)) as [->|]; [|by exists l'].
    unfold current_token in Hlt. rewrite Hl' in Hlt. simpl in Hlt. exists l. split; [done|]. split; [lia|]. intros; lia.
  - intros name' r Hn. exists r. auto using Z.le_refl.
  - by intros ? ?%not_elem_of_nil.
  - by intros ? ? ? ?%not_elem_of_nil.
Qed.

Lemma acquire_statement_step name ms env d t us :
  fence_ok d → acquire_statement name ms env d = Ok (t, us) →
  fence_ok (apply_changes us d) ∧ fence_evolves [] d (apply_changes us d) ∧
  current_token name d < t ∧ current_token name (apply_changes us d) = t.
Proof.
  intros Hd [_ Hst]%with_text_ok. cbv zeta in Hst.
  assert (∃ l, us = [PutLease name l] ∧ lease_token l = t ∧ 1 ≤ t ∧ current_token name d < t) as (l & -> & Hlt & Hpos & Hcur).
  { unfold current_token. destruct (leases d !! name) as [l|] eqn:Hl.
    - destruct (_ <=? _); [|done]. apply result_bind_ok in Hst as ([] & _ & [= <- <-]). pose proof (fo_tokens _ Hd _ _ Hl).
      eexists. split; [done|]. simpl. lia.
    - injection Hst as <- <-. eexists. split; [done|]. simpl. lia. }
  destruct (put_lease_ok name l d Hd) as [Hok Hev]; [lia|lia|]. split; [done|]. split; [done|]. split; [done|].
  unfold current_token. simpl. by rewrite lookup_insert_eq.
Qed.

Lemma write_ok name value token d l r :
  fence_ok d → leases d !! name = Some l → lease_token l = token → resources d !! name = Some r → last_token r ≤ token →
  fence_ok (apply_change (WriteResource name value token) d) ∧ fence_evolves [] d (apply_change (WriteResource name value token) d).
Proof.
  intros [Ht Hres] Hl Htok Hr Hle. set (d' := apply_change _ _).
  assert (∀ name', resources d' !! name' = if decide (name' = name) then Some (ResourceRow value token) else resources d !! name') as Hrd.
  { intros name'. unfold d'. simpl. destruct (decide (name' = name)) as [->|]; [by rewrite lookup_alter_eq, Hr|by rewrite lookup_alter_ne]. }
  assert (∀ name', current_token name' d' = current_token name' d) as Hcur by done.
  split; split.
  - done.
  - intros name' r'. rewrite Hrd, Hcur. destruct (decide (name' = name)) as [->|]; [|apply Hres].
    intros [= <-]. simpl. unfold current_token. rewrite Hl. simpl. lia.
  - done.
  - intros name' l' Hl'. by exists l'.
  - intros name' r' Hr'. rewrite Hrd. destruct (decide (name' = name)) as [->|]; [|exists r'; auto using Z.le_refl].
    eexists. split; [done|]. simpl. assert (r' = r) as -> by congruence. split; [done|]. right. unfold current_token. rewrite Hl. simpl. lia.
  - by intros ? ?%not_elem_of_nil.
  - by intros ? ? ? ?%not_elem_of_nil.
Qed.

(** * The operations, whatever happens between their calls *)

(** The world between two operations. *)
Definition fenced (w : world fence_database fence_change) : Prop := world_ok fence_ok fence_ok fence_evolves w ∧ w_tx w = [].

Section operations.
Context (d0 : fence_database).
Implicit Types (w : world fence_database fence_change).

(** In a transaction that has written [us], with [K] true of the committed tables. *)
Definition fence_tx (us : list fence_change) (K : fence_database → Prop) w : Prop :=
  world_ok fence_ok fence_ok fence_evolves w ∧ w_tx w = us ∧ fence_evolves [] d0 (w_db w) ∧ K (w_db w).

Lemma drift_fence_tx us K w w' :
  (∀ d d', fence_evolves us d d' → K d → K d') → fence_tx us K w → world_ok fence_ok fence_ok fence_evolves w' →
  drift fence_evolves w w' → fence_tx us K w'.
Proof.
  intros HK (Hw & Ht & Hev & Hk) Hw' Hdr. pose proof (drift_db _ _ _ Hdr) as Hd. rewrite Ht in Hd.
  split; [done|]. split; [by rewrite (drift_tx _ _ _ Hdr)|]. split; [etrans; [done|by eapply fence_evolves_nil]|by eapply HK].
Qed.

Lemma fence_statement_step {A} (st : fence_statement A) us K w r w' :
  (∀ d d', fence_evolves us d d' → K d → K d') →
  (∀ env d a us', fence_ok d → fence_ok (apply_changes us d) → K d → st env (apply_changes us d) = Ok (a, us') →
    fence_ok (apply_changes (us ++ us') d)) →
  fence_tx us K w → tx_statement st w = (r, w') →
  match r with
  | Ok a => ∃ env d us', st env (apply_changes us d) = Ok (a, us') ∧ w_db w' = d ∧ fence_tx (us ++ us') K w'
  | Err _ => fence_tx us K w'
  end.
Proof.
  intros HK Hst Hin H. apply (tx_statement_spec fence_ok fence_ok fence_evolves) in H; [|apply Hin]. destruct r as [e|a].
  - destruct H as (Hw' & Hdr & _). by eapply drift_fence_tx.
  - destruct H as (w1 & env & us' & Hw1 & Hdr & _ & _ & Ha & ->).
    destruct (drift_fence_tx us K w w1 HK Hin Hw1 Hdr) as (_ & Ht & Hev & Hk).
    unfold tx_view in Ha. rewrite Ht in Ha. exists env, (w_db w1), us'. split; [done|]. split; [done|].
    assert (fence_ok (apply_changes (us ++ us') (w_db w1))) as Hok.
    { eapply Hst; [apply Hw1| |done|exact Ha]. rewrite <-Ht. apply Hw1. }
    split; [|split; [simpl; by rewrite Ht|done]]. apply world_ok_push; [done|]. unfold tx_view. rewrite Ht. by rewrite <-apply_changes_app.
Qed.

(** What was not committed is gone. *)
Lemma fence_discarded us K w : fence_tx us K w → fence_tx [] (λ _, True) (World (w_db w) [] (w_start w) (w_events w)).
Proof. intros (Hw & _ & Hev & _). split; [by eapply discard_tx_ok; [|exact Hw]|done]. Qed.

Lemma AcquireFence_step name lease w r w' :
  fence_tx [] (λ _, True) w → AcquireFence name lease w = (r, w') →
  fence_tx [] (λ _, True) w' ∧ ∀ t, r = Ok t → current_token name d0 < t ≤ current_token name (w_db w').
Proof.
  intros (Hw & Ht & Hev & _) Hrun. unfold AcquireFence in Hrun. destruct (lease <=? 0).
  { apply proc_throw_inv in Hrun as [-> ->]. done. }
  apply run_error_inv in Hrun as (r0 & Hx & ->).
  apply (auto_statement_spec fence_ok fence_ok fence_evolves (λ _ H, H)) in Hx as (Hw' & Ht' & w1 & Hw1 & Hdr & Hcase); [| |done|done].
  2: { intros w1 env a us Hw1 _ Ha. destruct (acquire_statement_step _ _ _ _ _ _ (ok_db _ _ _ _ Hw1) Ha) as (Hok & _). done. }
  pose proof (drift_db _ _ _ Hdr) as Hd. rewrite Ht in Hd. assert (fence_evolves [] d0 (w_db w1)) as Hev1 by by etrans.
  destruct Hcase as [[-> Hr]|(env & a & us & Ha & Hdb & Hr)].
  { split; [done|]. destruct Hr as [->|(? & x & _ & ->)]; done. }
  destruct (acquire_statement_step _ _ _ _ _ _ (ok_db _ _ _ _ Hw1) Ha) as (Hok & Hev2 & Hlt & Hcur). rewrite <-Hdb in Hev2, Hcur.
  split; [split; [done|split; [done|split; [by etrans|done]]]|]. intros t Heq. destruct Hr as [-> | ->]; [|done]. injection Heq as <-.
  pose proof (fe_tokens _ _ _ Hev1 name). lia.
Qed.

(** The lease is locked and has the token. *)
Definition owned (name : string) (token : Z) (d : fence_database) : Prop := ∃ l, leases d !! name = Some l ∧ lease_token l = token.

Lemma owned_stable us name token d d' : LockLease name ∈ us → fence_evolves us d d' → owned name token d → owned name token d'.
Proof. intros Hin Hev (l & Hl & Ht). exists l. by rewrite (fe_held _ _ _ Hev name Hin). Qed.

(** So is the resource, which is not ahead. *)
Definition writable (name : string) (token : Z) (d : fence_database) : Prop :=
  owned name token d ∧ ∃ r, resources d !! name = Some r ∧ last_token r ≤ token.

Lemma owned_current name token d : owned name token d → current_token name d = token.
Proof. intros (l & Hl & <-). unfold current_token. by rewrite Hl. Qed.

Lemma owned_not_behind name token w us : fence_tx us (owned name token) w → current_token name d0 ≤ token.
Proof. intros (_ & _ & Hev & Ho). rewrite <-(owned_current _ _ _ Ho). by apply (fe_tokens _ _ _ Hev). Qed.

Lemma write_commit name token value w r w' :
  fence_tx [LockLease name; WriteResource name value token] (writable name token) w → commit_tx w = (r, w') →
  world_ok fence_ok fence_ok fence_evolves w' ∧ fence_evolves [] d0 (w_db w') ∧
  (is_ok r = true → resources (w_db w') !! name = Some (ResourceRow value token)).
Proof.
  intros Hin H. set (us := [LockLease name; WriteResource name value token]) in *.
  assert (∀ d d', fence_evolves us d d' → writable name token d → writable name token d') as Hst.
  { intros d d' Hev [Ho (x & Hx & Hle)]. split; [eapply owned_stable; [|done|done]; by left|]. exists x.
    rewrite (fe_written _ _ _ Hev name value token); [done|]. by right; left. }
  assert (∀ d, fence_ok d → writable name token d → fence_ok (apply_changes us d) ∧ fence_evolves [] d (apply_changes us d) ∧
    resources (apply_changes us d) !! name = Some (ResourceRow value token)) as Hwr.
  { intros d Hd [(l & Hl & Htok) (x & Hx & Hle)]. destruct (write_ok name value token d l x Hd Hl Htok Hx Hle) as [Hok Hev].
    split; [exact Hok|]. split; [exact Hev|]. change (alter (λ _, ResourceRow value token) name (resources d) !! name = Some (ResourceRow value token)).
    by rewrite lookup_alter_eq, Hx. }
  apply (commit_tx_spec fence_ok fence_ok fence_evolves (λ _ Hd, Hd)) in H as (Hw' & w1 & Hw1 & Hdr & Hr); [| |apply Hin].
  2: { intros w1 Hw1 Hdr. destruct (drift_fence_tx _ _ _ _ Hst Hin Hw1 Hdr) as (_ & Ht & _ & Hk). unfold tx_view. rewrite Ht.
    apply Hwr; [apply Hw1|done]. }
  destruct (drift_fence_tx _ _ _ _ Hst Hin Hw1 Hdr) as (_ & Ht & Hev & Hk). unfold tx_view in Hr. rewrite Ht in Hr.
  destruct (Hwr _ (ok_db _ _ _ _ Hw1) Hk) as (_ & Hevw & Hres). split; [done|].
  assert (fence_evolves [] d0 (apply_changes us (w_db w1))) by by etrans.
  destruct r as [e|[]]; [destruct Hr as [-> [[-> _] | ->]]; done|]. destruct Hr as [-> _]. done.
Qed.
Lemma lock_lease_step name env d current us :
  lock_lease name env d = Ok (current, us) → us = [LockLease name] ∧ owned name current d.
Proof.
  intros [_ Hst]%with_text_ok. destruct (leases d !! name) as [l|] eqn:Hl; [|done]. injection Hst as <- <-.
  split; [done|]. by exists l.
Qed.

Lemma write_resource_step name token value env d affected us :
  owned name token d → write_resource name token value env d = Ok (affected, us) →
  affected = 1 ∧ us = [WriteResource name value token] ∧ writable name token d ∨ affected = 0 ∧ us = [].
Proof.
  intros Ho [_ Hst]%with_text_ok. destruct (resources d !! name) as [x|] eqn:Hx; [|right; by simplify_eq].
  destruct (may_write _ _ _ _) eqn:Hm; [|right; by simplify_eq]. left. simplify_eq. split; [done|]. split; [done|]. split; [done|].
  exists x. split; [done|]. unfold may_write in Hm. lia.
Qed.

Lemma in_fence_tx us K w : fence_tx us K w → world_ok fence_ok fence_ok fence_evolves w ∧ fence_evolves [] d0 (w_db w).
Proof. by intros (? & _ & ? & _). Qed.

Lemma WriteFenced_step name token value w r w' :
  fence_tx [] (λ _, True) w → WriteFenced name token value w = (r, w') →
  fence_tx [] (λ _, True) w' ∧
  (is_ok r = true → current_token name d0 ≤ token ∧ resources (w_db w') !! name = Some (ResourceRow value token)).
Proof.
  intros Hin Hrun. unfold WriteFenced in Hrun.
  apply proc_bind_inv in Hrun as [(e & (r0 & Hx & Hr)%run_error_inv & ->)|([] & w1 & (r0 & Hx & Hr)%run_error_inv & Hrun)];
    apply (begin_tx_spec fence_ok fence_ok fence_evolves (λ _ H, H)) in Hx as (Hw1 & Hd & Ht); try apply Hin;
    destruct Hin as (_ & Ht0 & Hev & _); rewrite Ht0 in Hd, Ht; destruct r0 as [e0|[]]; simplify_eq/=.
  { split; [|done]. destruct Ht as [Ht _]. split; [done|]. split; [done|]. split; [by etrans|done]. }
  assert (fence_tx [] (λ _, True) w1) as Hin by (split; [done|split; [done|split; [by etrans|done]]]).
  apply deferring_rollback_spec in Hrun as (w2 & Hrun & ->). cbn [w_db].
  cut ((world_ok fence_ok fence_ok fence_evolves w2 ∧ fence_evolves [] d0 (w_db w2)) ∧
    (is_ok r = true → current_token name d0 ≤ token ∧ resources (w_db w2) !! name = Some (ResourceRow value token))).
  { intros [[Hw2 Hev2] Ho]. split; [|done]. by apply (fence_discarded (w_tx w2) (λ _, True)). }
  apply proc_bind_inv in Hrun as [(e & (r0 & _ & Hy)%attempt_inv & _)|(x & w3 & (r0 & Hy & [= ->])%attempt_inv & Hrun)]; [done|].
  apply (fence_statement_step _ [] (λ _, True)) in Hy; [|done| |done].
  2: { intros env d a us' Hd' _ _ [-> _]%lock_lease_step. done. }
  destruct r0 as [e|current].
  { assert (w2 = w3 ∧ is_ok r = false) as [-> Hr] by (destruct e; apply proc_throw_inv in Hrun as [-> ->]; done).
    split; [by eapply in_fence_tx|by rewrite Hr]. }
  destruct Hy as (env & d & us' & [-> Ho]%lock_lease_step & Hdb & Hin3). cbn [app] in Hin3. cbn [apply_changes foldl] in Ho. rewrite <-Hdb in Ho.
  destruct (negb (current =? token)) eqn:Hne; [apply proc_throw_inv in Hrun as [-> ->]; by split; [eapply in_fence_tx|]|].
  assert (current = token) as -> by lia.
  assert (fence_tx [LockLease name] (owned name token) w3) as Hown by (destruct Hin3 as (? & ? & ? & _); done).
  pose proof (owned_not_behind _ _ _ _ Hown) as Hcur.
  assert (∀ d1 d2, fence_evolves [LockLease name] d1 d2 → owned name token d1 → owned name token d2) as Hst.
  { intros d1 d2. apply owned_stable. by left. }
  assert (∀ env d a us', fence_ok d → fence_ok (apply_changes [LockLease name] d) → owned name token d →
    write_resource name token value env (apply_changes [LockLease name] d) = Ok (a, us') → fence_ok (apply_changes ([LockLease name] ++ us') d)) as Hok.
  { intros env' d' a us' Hd' _ Hod Hstm. apply write_resource_step in Hstm as [(_ & -> & (l & Hl & Htok) & x & Hx' & Hle)|[_ ->]]; [|done|done].
    by apply (write_ok name value token d' l x). }
  apply proc_bind_inv in Hrun as [(e & (r0 & Hz & Hr)%run_error_inv & ->)|(affected & w4 & (r0 & Hz & Hr)%run_error_inv & Hrun)];
    apply (fence_statement_step _ [LockLease name] (owned name token) _ _ _ Hst Hok Hown) in Hz; destruct r0 as [e0|a]; simplify_eq/=.
  { split; [by eapply in_fence_tx|done]. }
  destruct Hz as (env' & d' & us' & Hstm & Hdb' & Hin4).
  destruct (negb (a =? 1)) eqn:Ha; [apply proc_throw_inv in Hrun as [-> ->]; by split; [eapply in_fence_tx|]|].
  apply write_resource_step in Hstm as [(_ & -> & Hwr)|[-> _]]; [|done|by rewrite <-Hdb'; apply Hin4].
  apply run_error_inv in Hrun as (r0 & Hc & ->).
  apply (write_commit name token value) in Hc as (Hw' & Hev' & Hres).
  - split; [by split|]. intros Hr. split; [done|]. apply Hres. by destruct r0.
  - destruct Hin4 as (? & ? & ? & _). split; [done|]. split; [done|]. split; [done|]. by rewrite Hdb'.
Qed.
End operations.

Lemma fenced_tx w : fenced w → fence_tx (w_db w) [] (λ _, True) w.
Proof. by intros [Hw Ht]. Qed.

(** C29: Once a lease has been acquired, whatever calls fail and
    whatever others do in between, its tokens only grow, a write under an earlier token
    never succeeds, the resource changes only under this token or a later one, and a
    write that succeeds stores its value under its token. *)
Theorem superseded_owner_cannot_write name lease w t w1 w2 :
  fenced w → AcquireFence name lease w = (Ok t, w1) → fence_evolves [] (w_db w1) (w_db w2) → fenced w2 →
  (∀ lease' r w3, AcquireFence name lease' w2 = (r, w3) → fenced w3 ∧ ∀ t', r = Ok t' → t < t') ∧
  ∀ token value r w3, WriteFenced name token value w2 = (r, w3) →
    fenced w3 ∧ (token < t → is_ok r = false) ∧
    (∀ row, resources (w_db w2) !! name = Some row →
      ∃ row', resources (w_db w3) !! name = Some row' ∧ (row' = row ∨ t ≤ last_token row')) ∧
    (is_ok r = true → resources (w_db w3) !! name = Some (ResourceRow value token)).
Proof.
  intros Hw Hrun Hev Hw2. apply (AcquireFence_step (w_db w)) in Hrun as [_ Ht]; [|by apply fenced_tx].
  destruct (Ht t eq_refl) as [_ Hle]. pose proof (fe_tokens _ _ _ Hev name) as Hmono. split.
  - intros lease' r w3 Hrun. apply (AcquireFence_step (w_db w2)) in Hrun as [(Hw3 & Ht3 & _) Ht']; [|by apply fenced_tx].
    split; [done|]. intros t' Hr. specialize (Ht' t' Hr). lia.
  - intros token value r w3 Hrun. apply (WriteFenced_step (w_db w2)) in Hrun as [(Hw3 & Ht3 & Hev3 & _) Ho]; [|by apply fenced_tx].
    split; [done|]. split; [intros Hlt; apply not_true_iff_false; intros Hr; destruct (Ho Hr); lia|]. split; [|by intros Hr; apply Ho].
    intros row Hrow. destruct (fe_resources _ _ _ Hev3 _ _ Hrow) as (row' & Hrow' & _ & Hc). exists row'. split; [done|].
    destruct Hc as [?|?]; [by left|right; lia].
Qed.

(** A lease shorter than a millisecond has run out when it is given: its owner is refused
    at once. *)
Theorem brief_lease_is_void name lease value d t e1 e2 e3 e4 es :
  0 < lease < millisecond → valid_text name = true → valid_text value = true → leases d !! name = None →
  quiet e1 → quiet e2 → quiet e3 → quiet e4 → ev_now e1 ≤ ev_now e4 →
  ∃ w1 w2, AcquireFence name lease (World d [] t (e1 :: e2 :: e3 :: e4 :: es)) = (Ok 1, w1) ∧
    WriteFenced name 1 value w1 = (Err ErrStaleOwner, w2).
Proof.
  intros Hlease Hname Hvalue Hnew Hq1 Hq2 Hq3 Hq4 Hclock. set (d1 := apply_change (PutLease name (LeaseRow 1 (ev_now e1))) d).
  assert (leases d1 !! name = Some (LeaseRow 1 (ev_now e1))) as Hl by (unfold d1; simpl; by rewrite lookup_insert_eq).
  unfold AcquireFence. replace (lease <=? 0) with false by lia.
  unfold on_fence. rewrite (run_error_run _ _ _ 1 (World d1 [] t (e2 :: e3 :: e4 :: es))).
  2: { rewrite (auto_statement_quiet _ _ _ _ _ _ 1 [PutLease name (LeaseRow 1 (ev_now e1))]); [done|done|].
    unfold acquire_statement, with_text. simpl. rewrite Hname, Hnew. simpl. unfold Milliseconds. rewrite Z.quot_small by lia.
    by rewrite Z.add_0_r. }
  eexists _, _. split; [done|]. unfold WriteFenced. rewrite (proc_bind_run _ _ _ tt (World d1 [] (ev_now e2) (e3 :: e4 :: es))).
  2: { apply run_error_run. by apply begin_tx_quiet. }
  unfold deferring_rollback.
  rewrite (proc_bind_run _ _ _ (Ok 1) (World d1 [LockLease name] (ev_now e2) (e4 :: es))).
  2: { unfold attempt. rewrite (tx_statement_quiet _ _ _ _ _ _ 1 [LockLease name]); [done|done|].
    unfold lock_lease, with_text. cbn [forallb]. rewrite Hname. cbn [andb].
    change (apply_changes [] d1) with d1. by rewrite Hl. }
  cbn [Z.eqb Pos.eqb negb]. rewrite (proc_bind_run _ _ _ 0 (World d1 [LockLease name] (ev_now e2) es)); [done|].
  apply run_error_run. rewrite (tx_statement_quiet _ _ _ _ _ _ 0 []); [done|done|].
  unfold write_resource, with_text. cbn [forallb]. rewrite Hname, Hvalue. cbn [andb].
  change (apply_changes [LockLease name] d1) with d1. destruct (resources d1 !! name); [|done].
  unfold may_write. rewrite Hl. cbn. replace (ev_now e4 <? ev_now e1) with false by lia. by rewrite andb_false_r.
Qed.

(** * At a concrete input *)

Definition still (n : nat) : event fence_database fence_change := Event (Z.of_nat n) 0 (λ _, EmptyString) (λ _, false) NoFault (λ _ d, d).

Definition one_resource : fence_database := FenceDatabase ∅ {["lamp"%string := ResourceRow "off" 0]}.

Lemma still_fenced d n : fence_ok d → fenced (World d [] 0 (still <$> seq 0 n)).
Proof.
  intros Hd. split; [|done]. split; [done|done|]. simpl. apply Forall_fmap, Forall_true. intros k.
  apply quiet_respects; [intros us; apply _|by split].
Qed.

Lemma one_resource_ok : fence_ok one_resource.
Proof.
  split; simpl; intros name x; [by rewrite lookup_empty|]. intros [<- <-]%lookup_singleton_Some. done.
Qed.

Definition lamp_world : world fence_database fence_change := World one_resource [] 0 (still <$> seq 0 9).
Definition lamp_acquired := AcquireFence "lamp" second lamp_world.
Lemma lamp_acquired_run : AcquireFence "lamp" second lamp_world = (Ok 1, lamp_acquired.2).
Proof. apply injective_projections; [vm_compute|]; reflexivity. Qed.

Lemma lamp_acquired_fenced : fenced lamp_acquired.2.
Proof.
  destruct (AcquireFence_step one_resource "lamp" second lamp_world _ _ (fenced_tx _ (still_fenced _ 9 one_resource_ok)) lamp_acquired_run)
    as [(Hw & Ht & _) _]. by split.
Qed.

Definition lamp_stale := WriteFenced "lamp" 0 "broken" lamp_acquired.2.
Lemma lamp_stale_run : WriteFenced "lamp" 0 "broken" lamp_acquired.2 = (lamp_stale.1, lamp_stale.2).
Proof. unfold lamp_stale. apply surjective_pairing. Qed.

Definition lamp_lit := WriteFenced "lamp" 1 "on" lamp_acquired.2.
Lemma lamp_lit_run : WriteFenced "lamp" 1 "on" lamp_acquired.2 = (Ok tt, lamp_lit.2).
Proof. apply injective_projections; [vm_compute|]; reflexivity. Qed.

Lemma superseded_owner_cannot_write_witness :
  is_ok lamp_stale.1 = false ∧ resources (w_db lamp_lit.2) !! "lamp"%string = Some (ResourceRow "on" 1).
Proof.
  pose proof (superseded_owner_cannot_write "lamp" second lamp_world 1 lamp_acquired.2 lamp_acquired.2
    (still_fenced _ 9 one_resource_ok) lamp_acquired_run ltac:(reflexivity) lamp_acquired_fenced) as [_ Hwrite].
  split.
  - destruct (Hwrite 0 "broken"%string _ _ lamp_stale_run) as (_ & Hstale & _). apply Hstale. lia.
  - destruct (Hwrite 1 "on"%string _ _ lamp_lit_run) as (_ & _ & _ & Hres). exact (Hres eq_refl).
Defined.
