(* ===== verification/Cache.v ===== *)
(** [internal/reliabilitylab/cache.go]: values in the database with a cache in Redis.  An
    update leaves an invalidation intent in the same statement; whoever carries out the
    intent deletes the cached value and then the intent, if no later update has
    renewed it.  Every operation is a sequence of calls, and others' calls come between. *)
From Stdlib Require Import Ascii String.
From S2P Require Import Prelude GoStd Tables Driver Schema MessageStore Redis.
Open Scope Z_scope.

(** * The tables *)

Record value_row : Type := ValueRow { row_value : string; row_version : Z }.
Record cache_tables : Type := CacheTables { cache_values : gmap string value_row; cache_invalidations : gmap string Z }.

Inductive cache_change : Type :=
| PutValue (key : string) (r : value_row)
| PutIntent (key : string) (version : Z)
| DeleteIntent (key : string).

#[global] Instance apply_cache_change : RowChange cache_tables cache_change := λ u d,
  match u with
  | PutValue key r => CacheTables (<[key := r]> (cache_values d)) (cache_invalidations d)
  | PutIntent key version => CacheTables (cache_values d) (<[key := version]> (cache_invalidations d))
  | DeleteIntent key => CacheTables (cache_values d) (delete key (cache_invalidations d))
  end.

(** * Statements *)

Abbreviation cache_statement := (statement cache_tables cache_change).

Definition select_value (key : string) : cache_statement string :=
  with_text [key] (query_row (λ d, row_value <$> cache_values d !! key)).

(** One statement writes the value and the intent; the first version is 1. *)
Definition update_value (key value : string) : cache_statement unit :=
  with_text [key; value] (λ _ d,
    let version := match cache_values d !! key with None => 1 | Some r => row_version r + 1 end in
    _ ← first_violation [(version <=? int64_max, numeric_value_out_of_range)];
    Ok (tt, [PutValue key (ValueRow value version); PutIntent key version])).

Definition select_intent (key : string) : cache_statement Z :=
  with_text [key] (query_row (λ d, cache_invalidations d !! key)).

Definition delete_intent (key : string) (version : Z) : cache_statement unit :=
  with_text [key] (λ _ d,
    Ok (tt, if bool_decide (cache_invalidations d !! key = Some version) then [DeleteIntent key] else [])).

(** * Calls *)

Inductive cache_error : Type :=
| CacheDatabaseError (e : db_error)
| CacheRedisError (text : string).

(** A statement commits by itself. *)
Definition call_tables {A} (outcome : fault) (env : stmt_env) (st : cache_statement A) (d : cache_tables) : result cache_error A * cache_tables :=
  match outcome with
  | LostBefore => (Err (CacheDatabaseError ConnError), d)
  | _ =>
      match st env d with
      | Err e => (Err (CacheDatabaseError e), d)
      | Ok (a, us) =>
          (if outcome is LostAfter then Err (CacheDatabaseError ConnError) else Ok a, apply_changes us d)
      end
  end.

Definition call_redis {A} (outcome : fault) (s : script A) (db : redis_db) : result cache_error A * redis_db :=
  match outcome with
  | LostBefore => (Err (CacheRedisError connection_failed), db)
  | _ =>
      let '(r, db') := s db in
      (match outcome, r with
       | LostAfter, _ => Err (CacheRedisError connection_failed)
       | _, Ok a => Ok a
       | _, Err text => Err (CacheRedisError text)
       end, db')
  end.

(** go-redis sends a duration in milliseconds, at least one. *)
Definition expiry_ms (ttl : Z) : Z := if ttl <? millisecond then 1 else ttl / millisecond.

(** * Operations *)

Inductive cache_op : Type :=
| OpRead (key : string)
| OpUpdate (key value : string)
| OpInvalidate (key : string).

Definition op_key (op : cache_op) : string := match op with OpRead key | OpUpdate key _ | OpInvalidate key => key end.

(** Where an operation stands: about to ask the database, about to fill the cache with
    what it loaded, about to delete the cached value, about to acknowledge. *)
Inductive cache_phase : Type :=
| Started
| Missed
| Loaded (value : string)
| Versioned (version : Z)
| Invalidated (version : Z)
| Finished (r : result cache_error string).

(** Its next call. *)
Definition Read_step (ttl : Z) (key : string) (outcome : fault) (env : stmt_env) (phase : cache_phase) (d : cache_tables) (db : redis_db) :
    option (cache_phase * cache_tables * redis_db) :=
  match phase with
  | Started =>
      let '(r, db) := call_redis outcome (GET key) db in
      Some (match r with Ok (Some value) => Finished (Ok value) | _ => Missed end, d, db)
  | Missed =>
      let '(r, d) := call_tables outcome env (select_value key) d in
      Some (match r with
            | Ok value => if 0 <? ttl then Loaded value else Finished (Ok value)
            | Err e => Finished (Err e)
            end, d, db)
  | Loaded value =>
      let '(_, db) := call_redis outcome (SET_PX key value (expiry_ms ttl)) db in Some (Finished (Ok value), d, db)
  | _ => None
  end.

Definition finish {A} (r : result cache_error A) : cache_phase :=
  Finished (match r with Ok _ => Ok EmptyString | Err e => Err e end).

Definition Update_step (key value : string) (outcome : fault) (env : stmt_env) (phase : cache_phase) (d : cache_tables) (db : redis_db) :
    option (cache_phase * cache_tables * redis_db) :=
  match phase with
  | Started => let '(r, d) := call_tables outcome env (update_value key value) d in Some (finish r, d, db)
  | _ => None
  end.

Definition Invalidate_step (key : string) (outcome : fault) (env : stmt_env) (phase : cache_phase) (d : cache_tables) (db : redis_db) :
    option (cache_phase * cache_tables * redis_db) :=
  match phase with
  | Started =>
      let '(r, d) := call_tables outcome env (select_intent key) d in
      Some (match r with Ok version => Versioned version | Err e => Finished (Err e) end, d, db)
  | Versioned version =>
      let '(r, db) := call_redis outcome (DEL key) db in
      Some (match r with Ok _ => Invalidated version | Err e => Finished (Err e) end, d, db)
  | Invalidated version =>
      let '(r, d) := call_tables outcome env (delete_intent key version) d in Some (finish r, d, db)
  | _ => None
  end.

Definition cache_op_step (ttl : Z) (op : cache_op) (outcome : fault) (env : stmt_env) (phase : cache_phase) (d : cache_tables) (db : redis_db) :
    option (cache_phase * cache_tables * redis_db) :=
  match op with
  | OpRead key => Read_step ttl key outcome env phase d db
  | OpUpdate key value => Update_step key value outcome env phase d db
  | OpInvalidate key => Invalidate_step key outcome env phase d db
  end.

(** An operation by itself, with what each of its calls meets. *)
Fixpoint cache_op_run (ttl : Z) (op : cache_op) (calls : list (fault * stmt_env)) (phase : cache_phase) (d : cache_tables) (db : redis_db) :
    option (result cache_error string * cache_tables * redis_db) :=
  match phase, calls with
  | Finished r, _ => Some (r, d, db)
  | _, [] => None
  | _, (outcome, env) :: calls =>
      '(phase, d, db) ← cache_op_step ttl op outcome env phase d db;
      cache_op_run ttl op calls phase d db
  end.

(** * Operations among each other *)

Record thread : Type := Thread { th_op : cache_op; th_phase : cache_phase }.

Record cache_state : Type := CacheState { tables : cache_tables; store : redis_db; threads : list thread }.

Definition cache_at (key : string) (x : cache_state) : option redis_entry := entry_at key (store x).

Definition later (now : Z) (db : redis_db) : redis_db := RedisDb (entries db) now (subscriptions db) (published db).

Inductive cache_step (ttl : Z) : cache_state → cache_state → Prop :=
| CacheBegins d db ts op : cache_step ttl (CacheState d db ts) (CacheState d db (Thread op Started :: ts))
| CacheCalls d db ts1 op phase ts2 outcome env phase' d' db' :
    cache_op_step ttl op outcome env phase d db = Some (phase', d', db') →
    cache_step ttl (CacheState d db (ts1 ++ Thread op phase :: ts2)) (CacheState d' db' (ts1 ++ Thread op phase' :: ts2))
| CacheCrashes d db ts1 t ts2 : cache_step ttl (CacheState d db (ts1 ++ t :: ts2)) (CacheState d db (ts1 ++ ts2))
| CacheEvicts d db ts key : cache_step ttl (CacheState d db ts) (CacheState d (del_entry key db) ts)
| CacheWaits d db ts now : clock db ≤ now → cache_step ttl (CacheState d db ts) (CacheState d (later now db) ts).
