(* ===== verification/CachePromises.v ===== *)
(** What the cache promises: a stale value lies in it only while an intent to delete it
    lies in the database, unless a read overlapped the update; and even then it was
    being carried by a read less than its time to live ago.  Then both at
    a value that is read, cached, replaced and repaired. *)
From Stdlib Require Import Ascii String.
From S2P Require Import Prelude GoStd Tables Driver Schema MessageStore Redis Cache.
Open Scope Z_scope.

(** * What a call does *)

Definition current (key : string) (d : cache_tables) : option string := row_value <$> cache_values d !! key.
Definition version_of (key : string) (d : cache_tables) : Z := default 0 (row_version <$> cache_values d !! key).
Definition intent_at (key : string) (d : cache_tables) : option Z := cache_invalidations d !! key.

Definition filled (ttl : Z) (value : string) (db : redis_db) : redis_entry := RedisEntry (RText value) (Some (clock db + expiry_ms ttl)).

Inductive call_effect (ttl : Z) (d : cache_tables) (db : redis_db) : cache_op → cache_phase → cache_phase → cache_tables → redis_db → Prop :=
| EffectFails op phase r : call_effect ttl d db op phase (Finished r) d db
| EffectMisses key : call_effect ttl d db (OpRead key) Started Missed d db
| EffectLoads key value : current key d = Some value → call_effect ttl d db (OpRead key) Missed (Loaded value) d db
| EffectFills key value r : call_effect ttl d db (OpRead key) (Loaded value) (Finished r) d (put_entry key (filled ttl value db) db)
| EffectUpdates key value r :
    call_effect ttl d db (OpUpdate key value) Started (Finished r)
      (CacheTables (<[key := ValueRow value (version_of key d + 1)]> (cache_values d)) (<[key := version_of key d + 1]> (cache_invalidations d))) db
| EffectReadsIntent key version : intent_at key d = Some version → call_effect ttl d db (OpInvalidate key) Started (Versioned version) d db
| EffectDeletes key version phase' :
    phase' = Invalidated version ∨ (∃ r, phase' = Finished r) →
    call_effect ttl d db (OpInvalidate key) (Versioned version) phase' d (del_entry key db)
| EffectAcknowledges key version r :
    intent_at key d = Some version →
    call_effect ttl d db (OpInvalidate key) (Invalidated version) (Finished r)
      (CacheTables (cache_values d) (delete key (cache_invalidations d))) db.

Lemma expiry_positive ttl : 0 < expiry_ms ttl.
Proof.
  unfold expiry_ms. destruct (Z.ltb_spec ttl millisecond); [done|]. apply Z.div_str_pos. split; [done|]. done.
Qed.

(** A statement that was not run, or was, whether its reply came or not. *)
Lemma call_tables_spec {A} outcome env (st : cache_statement A) d r d' :
  call_tables outcome env st d = (r, d') →
  (d' = d ∧ ∃ e, r = Err e) ∨ (∃ a us, st env d = Ok (a, us) ∧ d' = apply_changes us d ∧ ∀ b, r = Ok b → b = a).
Proof.
  unfold call_tables. destruct outcome; [| |].
  - destruct (st env d) as [e|[a us]]; intros [= <- <-]; [left; eauto|]. right. exists a, us. naive_solver.
  - intros [= <- <-]. left. eauto.
  - destruct (st env d) as [e|[a us]]; intros [= <- <-]; [left; eauto|]. right. exists a, us. naive_solver.
Qed.

Lemma cache_op_effect ttl op outcome env phase d db phase' d' db' :
  cache_op_step ttl op outcome env phase d db = Some (phase', d', db') → call_effect ttl d db op phase phase' d' db'.
Proof.
  destruct op as [key|key value|key]; cbn [cache_op_step].
  - destruct phase as [| |value|v|v|r]; cbn [Read_step]; try done.
    + destruct (call_redis outcome (GET key) db) as [r db1] eqn:Hc. intros [= <- <- <-].
      assert (db1 = db) as ->.
      { unfold call_redis, GET in Hc. destruct outcome; [|by injection Hc as _ <-|];
        (destruct (entry_at key db) as [e|]; [destruct (entry_value e)|]); injection Hc as _ <-; done. }
      destruct r as [e|[value|]]; constructor.
    + destruct (call_tables outcome env (select_value key) d) as [r d1] eqn:Hc. intros [= <- <- <-].
      apply call_tables_spec in Hc as [(-> & e & ->)|(a & us & Hst & -> & Hr)]; [constructor|].
      apply with_text_ok in Hst as [_ [Hf ->]%query_row_ok]. destruct r as [e|b]; [constructor|]. rewrite (Hr b) by done.
      destruct (0 <? ttl); [by constructor|constructor].
    + unfold call_redis, SET_PX. pose proof (expiry_positive ttl). replace (expiry_ms ttl <=? 0) with false by lia.
      destruct outcome; intros [= <- <- <-]; constructor.
  - destruct phase; try done. cbn [Update_step]. destruct (call_tables outcome env (update_value key value) d) as [r d1] eqn:Hc. intros [= <- <- <-].
    apply call_tables_spec in Hc as [(-> & e & ->)|(a & us & Hst & -> & Hr)]; [constructor|].
    apply with_text_ok in Hst as [_ Hst]. apply result_bind_ok in Hst as ([] & _ & [= <- <-]).
    assert (match cache_values d !! key with None => 1 | Some row => row_version row + 1 end = version_of key d + 1) as ->.
    { unfold version_of. by destruct (cache_values d !! key). }
    apply EffectUpdates.
  - destruct phase as [| |value|v|v|r]; cbn [Invalidate_step]; try done.
    + destruct (call_tables outcome env (select_intent key) d) as [r d1] eqn:Hc. intros [= <- <- <-].
      apply call_tables_spec in Hc as [(-> & e & ->)|(a & us & Hst & -> & Hr)]; [constructor|].
      apply with_text_ok in Hst as [_ [Hf ->]%query_row_ok]. destruct r as [e|b]; [constructor|]. rewrite (Hr b) by done. by constructor.
    + unfold call_redis, DEL. destruct outcome; intros [= <- <- <-]; first [apply EffectFails|apply EffectDeletes; eauto].
    + destruct (call_tables outcome env (delete_intent key v) d) as [r d1] eqn:Hc. intros [= <- <- <-].
      apply call_tables_spec in Hc as [(-> & e & ->)|(a & us & Hst & -> & Hr)]; [constructor|].
      apply with_text_ok in Hst as [_ Hst]. injection Hst as <- <-. case_bool_decide; [by constructor|constructor].
Qed.

(** * Without an overlapping read *)

Definition fresh (key : string) (e : redis_entry) (x : cache_state) : Prop :=
  ∃ value, entry_value e = RText value ∧ current key (tables x) = Some value.

(** No update of a key commits while a read carries a value of that key to the cache. *)
Definition calm (x y : cache_state) : Prop :=
  ∀ key value, Thread (OpRead key) (Loaded value) ∈ threads x → current key (tables y) = current key (tables x).

Inductive calm_run (ttl : Z) : cache_state → cache_state → Prop :=
| CalmStart x : calm_run ttl x x
| CalmStep x y z : calm_run ttl x y → cache_step ttl y z → calm y z → calm_run ttl x z.

Definition cache_begin (db : redis_db) : cache_state := CacheState (CacheTables ∅ ∅) db [].

Record cache_ok (x : cache_state) : Prop := CacheOk {
  co_intents : ∀ key v, intent_at key (tables x) = Some v → v = version_of key (tables x);
  co_loaded : ∀ key value, Thread (OpRead key) (Loaded value) ∈ threads x → current key (tables x) = Some value;
  co_versions : ∀ key phase v, Thread (OpInvalidate key) phase ∈ threads x → phase = Versioned v ∨ phase = Invalidated v →
    v ≤ version_of key (tables x);
  co_cached : ∀ key e, cache_at key x = Some e → fresh key e x ∨ is_Some (intent_at key (tables x));
  co_deleted : ∀ key v e, Thread (OpInvalidate key) (Invalidated v) ∈ threads x → intent_at key (tables x) = Some v →
    cache_at key x = Some e → fresh key e x
}.

(** Nothing new, and nothing in the cache that was not there. *)
Lemma cache_ok_less x y :
  cache_ok x → tables y = tables x → (∀ key e, cache_at key y = Some e → cache_at key x = Some e) →
  (∀ op phase, Thread op phase ∈ threads y → Thread op phase ∈ threads x ∨ phase = Started ∨ phase = Missed ∨ ∃ r, phase = Finished r) →
  cache_ok y.
Proof.
  intros [Hi Hl Hv Hc Hd] Ht Hcache Hth. unfold fresh in *. rewrite <-Ht in *. split; unfold fresh; [done| | | |].
  - intros key value [Hin|Hne]%Hth; [by eapply Hl|]. by destruct Hne as [?|[?|[? ?]]].
  - intros key phase v [Hin|Hne]%Hth Hp; [by eapply Hv|]. by destruct Hp as [-> | ->], Hne as [?|[?|[? ?]]].
  - intros key e He%Hcache. by apply Hc.
  - intros key v e [Hin|Hne]%Hth Hint He%Hcache; [by eapply Hd|]. by destruct Hne as [?|[?|[? ?]]].
Qed.

Lemma thread_replaced t ts1 op phase phase' ts2 :
  t ∈ ts1 ++ Thread op phase' :: ts2 → t ∈ ts1 ++ Thread op phase :: ts2 ∨ t = Thread op phase'.
Proof. rewrite !elem_of_app, !elem_of_cons. tauto. Qed.

Lemma thread_here op phase ts1 ts2 : Thread op phase ∈ ts1 ++ Thread op phase :: ts2.
Proof. apply elem_of_app. right. by left. Qed.

Lemma cache_at_later key d db ts now : clock db ≤ now → ∀ e,
  cache_at key (CacheState d (later now db) ts) = Some e → cache_at key (CacheState d db ts) = Some e.
Proof.
  intros Hle e. unfold cache_at, entry_at. cbn. destruct (entries db !! key) as [e'|]; [|done]. cbn.
  unfold live. destruct (entry_expires e') as [t|]; [|done]. destruct (Z.ltb_spec now t); [|done]. intros [= <-].
  by replace (clock db <? t) with true by lia.
Qed.

Section calls.
Context (ttl : Z) (d : cache_tables) (db : redis_db) (ts1 ts2 : list thread).
Abbreviation before op phase := (CacheState d db (ts1 ++ Thread op phase :: ts2)).

Lemma fill_ok key value r :
  cache_ok (before (OpRead key) (Loaded value)) →
  cache_ok (CacheState d (put_entry key (filled ttl value db) db) (ts1 ++ Thread (OpRead key) (Finished r) :: ts2)).
Proof.
  intros [Hi Hl Hv Hc Hd]. pose proof (Hl key value (thread_here _ _ _ _)) as Hcur. cbn in *.
  assert (∀ key' e, cache_at key' (CacheState d (put_entry key (filled ttl value db) db) []) = Some e →
    fresh key' e (CacheState d db []) ∨ cache_at key' (CacheState d db []) = Some e) as Hput.
  { intros key' e. unfold cache_at. cbn. rewrite entry_at_put. destruct (decide _) as [->|]; [|by right].
    destruct (live _ _); [|done]. intros [= <-]. left. by exists value. }
  split; cbn; [done| | | |].
  - intros key' value' [Hin|[= -> ]]%(thread_replaced _ _ _ (Loaded value)). by eapply Hl.
  - intros key' phase v [Hin|[= -> ]]%(thread_replaced _ _ _ (Loaded value)). by eapply Hv.
  - intros key' e [He|He]%Hput; [by left|by apply Hc].
  - intros key' v e [Hin|[= -> ]]%(thread_replaced _ _ _ (Loaded value)) Hint [He|He]%Hput; [done|by eapply Hd].
Qed.

Lemma update_ok key value r :
  let d' := CacheTables (<[key := ValueRow value (version_of key d + 1)]> (cache_values d)) (<[key := version_of key d + 1]> (cache_invalidations d)) in
  let y := CacheState d' db (ts1 ++ Thread (OpUpdate key value) (Finished r) :: ts2) in
  calm (before (OpUpdate key value) Started) y → cache_ok (before (OpUpdate key value) Started) → cache_ok y.
Proof.
  intros d' y Hcalm [Hi Hl Hv Hc Hd]. cbn in *.
  assert (∀ key', key' ≠ key → intent_at key' d' = intent_at key' d ∧ version_of key' d' = version_of key' d ∧ current key' d' = current key' d) as Hother.
  { intros key' Hne. unfold d', intent_at, version_of, current. cbn. by rewrite !lookup_insert_ne. }
  assert (intent_at key d' = Some (version_of key d + 1) ∧ version_of key d' = version_of key d + 1) as [Hint Hver].
  { unfold d', intent_at, version_of. cbn. by rewrite !lookup_insert_eq. }
  split; cbn.
  - intros key' v. destruct (decide (key' = key)) as [->|Hne]; [rewrite Hint, Hver; congruence|]. destruct (Hother key' Hne) as (-> & -> & _). apply Hi.
  - intros key' value' [Hin|[= ]]%(thread_replaced _ _ _ Started). change (current key' d') with (current key' (tables y)). rewrite (Hcalm key' value') by done. by apply Hl.
  - intros key' phase v [Hin|[= ]]%(thread_replaced _ _ _ Started) Hp. pose proof (Hv key' phase v Hin Hp).
    destruct (decide (key' = key)) as [->|Hne]; [lia|]. by destruct (Hother key' Hne) as (_ & -> & _).
  - intros key' e He. destruct (decide (key' = key)) as [->|Hne]; [right; by rewrite Hint|].
    unfold fresh. cbn. destruct (Hother key' Hne) as (-> & _ & ->). by apply Hc.
  - intros key' v e [Hin|[= ]]%(thread_replaced _ _ _ Started) Hv' He. pose proof (Hv key' _ v Hin ltac:(by right)).
    destruct (decide (key' = key)) as [->|Hne]; [rewrite Hint in Hv'; injection Hv' as <-; lia|].
    unfold fresh. cbn. destruct (Hother key' Hne) as (Hi' & _ & ->). rewrite Hi' in Hv'. by eapply Hd.
Qed.

Lemma delete_ok key v phase' :
  phase' = Invalidated v ∨ (∃ r, phase' = Finished r) → cache_ok (before (OpInvalidate key) (Versioned v)) →
  cache_ok (CacheState d (del_entry key db) (ts1 ++ Thread (OpInvalidate key) phase' :: ts2)).
Proof.
  intros Hp [Hi Hl Hv Hc Hd]. cbn in *.
  assert (∀ key' e, cache_at key' (CacheState d (del_entry key db) []) = Some e → key' ≠ key ∧ cache_at key' (CacheState d db []) = Some e) as Hdel.
  { intros key' e. unfold cache_at. cbn. rewrite entry_at_del. by destruct (decide _). }
  split; cbn; [done| | | |].
  - intros key' value [Hin|[= -> ->]]%(thread_replaced _ _ _ (Versioned v)). by eapply Hl.
  - intros key' phase v' [Hin|[= -> ->]]%(thread_replaced _ _ _ (Versioned v)) Hp'; [by eapply Hv|].
    apply (Hv key (Versioned v') v'); [|by left]. assert (v' = v) as ->; [|apply thread_here].
    destruct Hp as [-> | [r ->]], Hp' as [?|?]; congruence.
  - intros key' e [_ He]%Hdel. by apply Hc.
  - intros key' v' e [Hin|[= -> ]]%(thread_replaced _ _ _ (Versioned v)) Hint [Hne He]%Hdel; [by eapply Hd|done].
Qed.

Lemma acknowledge_ok key v r :
  intent_at key d = Some v → cache_ok (before (OpInvalidate key) (Invalidated v)) →
  cache_ok (CacheState (CacheTables (cache_values d) (delete key (cache_invalidations d))) db (ts1 ++ Thread (OpInvalidate key) (Finished r) :: ts2)).
Proof.
  intros Hint [Hi Hl Hv Hc Hd]. cbn in *. set (d' := CacheTables _ _).
  assert (∀ key', intent_at key' d' = if decide (key' = key) then None else intent_at key' d) as Hdel.
  { intros key'. unfold d', intent_at. cbn. destruct (decide _) as [->|]; [by rewrite lookup_delete_eq|by rewrite lookup_delete_ne]. }
  split; cbn.
  - intros key' v'. rewrite Hdel. destruct (decide _); [done|]. apply Hi.
  - intros key' value [Hin|[= ]]%(thread_replaced _ _ _ (Invalidated v)). by eapply Hl.
  - intros key' phase v' [Hin|[= -> ->]]%(thread_replaced _ _ _ (Invalidated v)) Hp'; [by eapply Hv|by destruct Hp'].
  - intros key' e He. rewrite Hdel. destruct (decide (key' = key)) as [->|Hne]; [left; eapply Hd; [apply thread_here|done|done]|by apply Hc].
  - intros key' v' e [Hin|[= ]]%(thread_replaced _ _ _ (Invalidated v)). rewrite Hdel. destruct (decide _); [done|]. by eapply Hd.
Qed.
End calls.

Lemma cache_ok_step ttl x y : cache_step ttl x y → calm x y → cache_ok x → cache_ok y.
Proof.
  destruct 1 as [d db ts op|d db ts1 op phase ts2 outcome env phase' d' db' Hcall|d db ts1 t ts2|d db ts key|d db ts now Hnow]; intros Hcalm Hx.
  - eapply cache_ok_less; [exact Hx|done|done|]. cbn. intros op' phase' [[= -> ->] | Hin]%elem_of_cons; auto.
  - apply cache_op_effect in Hcall. destruct Hcall.
    + eapply cache_ok_less; [exact Hx|done|done|]. cbn. intros op' phase' [?|[= -> ->]]%(thread_replaced _ _ _ phase); eauto.
    + eapply cache_ok_less; [exact Hx|done|done|]. cbn. intros op' phase' [?|[= -> ->]]%(thread_replaced _ _ _ Started); eauto.
    + destruct Hx as [Hi Hl Hv Hc Hd]. split; cbn in *; [done| | |done|].
      * intros key' value' [Hin|[= -> ->]]%(thread_replaced _ _ _ Missed); [by apply Hl|done].
      * intros key' phase v [Hin|[= -> ->]]%(thread_replaced _ _ _ Missed); by eapply Hv.
      * intros key' v e [Hin|[= -> ->]]%(thread_replaced _ _ _ Missed); by eapply Hd.
    + by eapply fill_ok.
    + by apply update_ok.
    + destruct Hx as [Hi Hl Hv Hc Hd]. split; cbn in *; [done| | |done|].
      * intros key' value' [Hin|[= -> ->]]%(thread_replaced _ _ _ Started); by apply Hl.
      * intros key' phase v [Hin|[= -> ->]]%(thread_replaced _ _ _ Started) Hp; [by eapply Hv|].
        destruct Hp as [[= ->]|?]; [|done]. by rewrite (Hi _ _ H).
      * intros key' v e [Hin|[= -> ]]%(thread_replaced _ _ _ Started); by eapply Hd.
    + by eapply delete_ok.
    + by eapply acknowledge_ok.
  - eapply cache_ok_less; [exact Hx|done|done|]. cbn. intros op phase. rewrite !elem_of_app, elem_of_cons. tauto.
  - eapply cache_ok_less; [exact Hx|done| |by auto]. intros key' e. unfold cache_at. cbn. rewrite entry_at_del. by destruct (decide _).
  - eapply cache_ok_less; [exact Hx|done| |by auto]. intros key e. by apply cache_at_later.
Qed.

Lemma cache_ok_run ttl db x : (∀ key, entry_at key db = None) → calm_run ttl (cache_begin db) x → cache_ok x.
Proof.
  intros Hdb Hrun. remember (cache_begin db) as x0 eqn:H0. induction Hrun as [x|x y z _ IH Hs Hc]; subst.
  - split; cbn; [done|by intros ? ? ?%elem_of_nil|by intros ? ? ? ?%elem_of_nil| |by intros ? ? ? ?%elem_of_nil].
    intros key e. unfold cache_at. cbn. by rewrite Hdb.
  - eapply cache_ok_step; [exact Hs|exact Hc|by apply IH].
Qed.

(** ** Repair *)

Definition working (envs : list stmt_env) : list (fault * stmt_env) := (λ env, (NoFault, env)) <$> envs.

Lemma Invalidate_alone ttl key v env1 env2 env3 d db :
  valid_text key = true → intent_at key d = Some v →
  cache_op_run ttl (OpInvalidate key) (working [env1; env2; env3]) Started d db =
    Some (Ok EmptyString, CacheTables (cache_values d) (delete key (cache_invalidations d)), del_entry key db).
Proof.
  intros Hkey Hv. unfold intent_at in Hv.
  assert (call_tables NoFault env1 (select_intent key) d = (Ok v, d)) as H1.
  { unfold call_tables, select_intent, with_text, query_row. cbn [forallb]. rewrite Hkey. cbn. by rewrite Hv. }
  assert (call_tables NoFault env3 (delete_intent key v) d = (Ok tt, CacheTables (cache_values d) (delete key (cache_invalidations d)))) as H3.
  { unfold call_tables, delete_intent, with_text. cbn [forallb]. rewrite Hkey. cbn. by rewrite bool_decide_eq_true_2. }
  cbn [cache_op_run working fmap list_fmap cache_op_step Invalidate_step]. rewrite H1. cbn [mbind option_bind]. cbn [call_redis DEL cache_op_run cache_op_step Invalidate_step mbind option_bind].
  rewrite H3. done.
Qed.

Lemma Read_alone ttl key value env1 env2 env3 d db :
  valid_text key = true → entry_at key db = None → current key d = Some value →
  ∃ db', cache_op_run ttl (OpRead key) (working [env1; env2; env3]) Started d db = Some (Ok value, d, db').
Proof.
  intros Hkey Hnone Hcur. unfold current in Hcur.
  assert (call_tables NoFault env2 (select_value key) d = (Ok value, d)) as H2.
  { unfold call_tables, select_value, with_text, query_row. cbn [forallb]. rewrite Hkey. cbn. by rewrite Hcur. }
  cbn [cache_op_run working fmap list_fmap cache_op_step Read_step]. unfold call_redis at 1, GET. rewrite Hnone.
  cbn [cache_op_run cache_op_step Read_step mbind option_bind]. rewrite H2. destruct (0 <? ttl); [|by eexists].
  cbn [cache_op_run cache_op_step Read_step mbind option_bind]. destruct (call_redis _ _ db) as [r db']. by eexists.
Qed.

(** C30: As long as no update of a key commits while a read
    carries that key's value to the cache, whatever else operations, failing calls, lost
    replies, crashes, evictions and time do: every value the cache still answers is the
    database's, or an intent to delete it lies in the database; and an intent that one
    invalidation carries out on working calls is gone, and the next read answers what
    the database holds. *)
Theorem stale_values_have_an_intent ttl db x key :
  (∀ key, entry_at key db = None) → calm_run ttl (cache_begin db) x →
  (∀ e, cache_at key x = Some e → fresh key e x ∨ is_Some (intent_at key (tables x))) ∧
  ∀ v value env1 env2 env3, valid_text key = true → intent_at key (tables x) = Some v → current key (tables x) = Some value →
    ∃ d' db', cache_op_run ttl (OpInvalidate key) (working [env1; env2; env3]) Started (tables x) (store x) = Some (Ok EmptyString, d', db') ∧
      intent_at key d' = None ∧
      ∃ db'', cache_op_run ttl (OpRead key) (working [env1; env2; env3]) Started d' db' = Some (Ok value, d', db'').
Proof.
  intros Hdb Hrun. apply cache_ok_run in Hrun as Hx; [|done]. split; [apply Hx|].
  intros v value env1 env2 env3 Hkey Hint Hcur. eexists _, _. split; [by eapply Invalidate_alone|].
  split; [apply lookup_delete_eq|]. apply Read_alone; [done|rewrite entry_at_del; by rewrite decide_True|done].
Qed.

(** * With overlapping reads *)

(** What happened, the latest first. *)
Inductive cache_trace (ttl : Z) (x0 : cache_state) : list cache_state → Prop :=
| TraceStart : cache_trace ttl x0 [x0]
| TraceStep x y tr : cache_trace ttl x0 (x :: tr) → cache_step ttl x y → cache_trace ttl x0 (y :: x :: tr).

(** A read has been carrying the value ever since a moment when the database held it. *)
Definition carried (key value : string) (tr : list cache_state) : Prop :=
  ∃ n x, tr !! n = Some x ∧ current key (tables x) = Some value ∧
    ∀ i y, (i ≤ n)%nat → tr !! i = Some y → Thread (OpRead key) (Loaded value) ∈ threads y.

(** A read that was carrying the value wrote it to the cache, where it may still be live. *)
Definition written_back (ttl : Z) (key value : string) (until : Z) (tr : list cache_state) : Prop :=
  ∃ recent x old, tr = recent ++ x :: old ∧ carried key value (x :: old) ∧ until = clock (store x) + expiry_ms ttl.

Lemma carried_on key value tr y : carried key value tr → Thread (OpRead key) (Loaded value) ∈ threads y → carried key value (y :: tr).
Proof.
  intros (n & x & Hx & Hc & Hall) Hy. exists (S n), x. split; [done|]. split; [done|].
  intros [|i] z Hi Hz; [by injection Hz as <-|]. apply (Hall i); [lia|done].
Qed.

Lemma written_on ttl key value until tr y : written_back ttl key value until tr → written_back ttl key value until (y :: tr).
Proof. intros (recent & x & old & -> & H). by exists (y :: recent), x, old. Qed.

Record trace_ok (ttl : Z) (x : cache_state) (tr : list cache_state) : Prop := TraceOk {
  to_loaded : ∀ key value, Thread (OpRead key) (Loaded value) ∈ threads x → carried key value tr;
  to_cached : ∀ key e, cache_at key x = Some e →
    ∃ value until, entry_value e = RText value ∧ entry_expires e = Some until ∧ written_back ttl key value until tr
}.

Lemma trace_ok_step ttl x y tr : trace_ok ttl x (x :: tr) → cache_step ttl x y → trace_ok ttl y (y :: x :: tr).
Proof.
  intros [Hl Hc] Hs.
  assert (∀ key e, cache_at key x = Some e →
    ∃ value until, entry_value e = RText value ∧ entry_expires e = Some until ∧ written_back ttl key value until (y :: x :: tr)) as Hold.
  { intros key e (value & until & ? & ? & ?)%Hc. exists value, until. eauto using written_on. }
  assert (∀ key value, Thread (OpRead key) (Loaded value) ∈ threads y →
    Thread (OpRead key) (Loaded value) ∈ threads x ∨ current key (tables y) = Some value) as Hth.
  { destruct Hs as [d db ts op|d db ts1 op phase ts2 outcome env phase' d' db' Hcall|d db ts1 t ts2| |]; intros key' value' Hin; cbn in *.
    - apply elem_of_cons in Hin as [[=]|Hin]. by left.
    - apply (thread_replaced _ _ _ phase) in Hin as [?|[= <- <-]]; [by left|]. apply cache_op_effect in Hcall. inversion Hcall; subst; by right.
    - left. rewrite elem_of_app, elem_of_cons in *. tauto.
    - by left.
    - by left. }
  split.
  - intros key value Hin. destruct (Hth _ _ Hin) as [?|?]; [by apply carried_on; [apply Hl|]|].
    exists 0%nat, y. split; [done|]. split; [done|]. intros i z Hi Hz. assert (i = 0%nat) as -> by lia. by injection Hz as <-.
  - destruct Hs as [d db ts op|d db ts1 op phase ts2 outcome env phase' d' db' Hcall|d db ts1 t ts2|d db ts key|d db ts now Hnow];
      intros key' e He; [by apply Hold| |by apply Hold| |by apply Hold; eapply cache_at_later].
    + apply cache_op_effect in Hcall. unfold cache_at in He. cbn in He. destruct Hcall; try by apply Hold.
      * rewrite entry_at_put in He. destruct (decide _) as [->|]; [|by apply Hold]. destruct (live _ _); [|done]. injection He as <-.
        eexists _, _. split; [done|]. split; [done|]. eexists [_], _, tr. split; [done|]. split; [|done]. apply Hl, thread_here.
      * rewrite entry_at_del in He. destruct (decide _); [done|]. by apply Hold.
    + unfold cache_at in He. cbn in He. rewrite entry_at_del in He. destruct (decide _); [done|]. by apply Hold.
Qed.

Lemma trace_ok_run ttl d db tr : (∀ key, entry_at key db = None) → cache_trace ttl (CacheState d db []) tr →
  ∃ x old, tr = x :: old ∧ trace_ok ttl x tr.
Proof.
  intros Hdb. induction 1 as [|x y tr _ (x' & old & [= <- <-] & Hok) Hs].
  - eexists _, _. split; [done|]. split; [by intros ? ? ?%elem_of_nil|]. intros key e. unfold cache_at. cbn. by rewrite Hdb.
  - eexists _, _. split; [done|]. by apply trace_ok_step.
Qed.

(** C31: Whatever updates overlap a read, and whatever fails: a value
    that a read answers is in the database now, or it was there when a read loaded it
    that has been carrying it until now or was carrying it when it wrote it back, less
    than the time to live ago; so a late refill after the last deletion is bounded. *)
Theorem read_answers_are_recent ttl d db x tr key outcome env phase value d' db' :
  (∀ key, entry_at key db = None) → cache_trace ttl (CacheState d db []) (x :: tr) →
  Thread (OpRead key) phase ∈ threads x →
  cache_op_step ttl (OpRead key) outcome env phase (tables x) (store x) = Some (Finished (Ok value), d', db') →
  current key (tables x) = Some value ∨ carried key value (x :: tr) ∨
  ∃ until, written_back ttl key value until (x :: tr) ∧ clock (store x) < until.
Proof.
  intros Hdb Hrun Hin Hstep. destruct (trace_ok_run _ _ _ _ Hdb Hrun) as (x' & old & [= <- <-] & [Hl Hc]).
  destruct phase as [| |value'|v|v|r]; cbn in Hstep; try done.
  - destruct (call_redis outcome (GET key) (store x)) as [r db1] eqn:Hcall. destruct r as [e|[value'|]]; [done| |done].
    injection Hstep as -> _ _. right. right. unfold call_redis, GET in Hcall.
    destruct outcome; [|by injection Hcall|by destruct (entry_at key (store x)) as [e|]; [destruct (entry_value e)|]; injection Hcall].
    destruct (entry_at key (store x)) as [e|] eqn:He; [|by injection Hcall].
    destruct (Hc key e He) as (value' & until & Hv & Hu & Hw). rewrite Hv in Hcall. injection Hcall as -> _.
    exists until. split; [done|]. unfold entry_at in He. destruct (entries (store x) !! key) as [e'|]; [|done]. cbn in He.
    destruct (live (clock (store x)) e') eqn:Hlive; [|done]. injection He as ->. unfold live in Hlive. rewrite Hu in Hlive. lia.
  - destruct (call_tables outcome env (select_value key) (tables x)) as [r d1] eqn:Hcall. destruct r as [e|value']; [done|].
    destruct (0 <? ttl); [done|]. injection Hstep as -> _ _. left.
    apply call_tables_spec in Hcall as [(_ & e & [=])|(a & us & Hst & _ & Hr)]. rewrite (Hr value) by done.
    by apply with_text_ok in Hst as [_ [Hf _]%query_row_ok].
  - right. left. destruct (call_redis outcome _ (store x)) as [r db1]. injection Hstep as -> _ _. by apply Hl.
Qed.

(** * The cache at work *)

Definition some_env : stmt_env := StmtEnv 0 0 0 (λ _, EmptyString) (λ _, false).
Definition ttl : Z := 3 * second.
Definition empty_store : redis_db := RedisDb ∅ 1000 (λ _, 0%nat) [].

Lemma empty_store_at key : entry_at key empty_store = None.
Proof. done. Qed.

Definition reads : cache_op := OpRead "k".
Definition writes (value : string) : cache_op := OpUpdate "k" value.

(** The tables and the store after an update, after a read, and after another update. *)
Definition tables_1 : cache_tables := CacheTables {["k"%string := ValueRow "a" 1]} {["k"%string := 1]}.
Definition store_1 : redis_db := put_entry "k" (filled ttl "a" empty_store) empty_store.
Definition tables_2 : cache_tables := CacheTables {["k"%string := ValueRow "b" 2]} {["k"%string := 2]}.

Definition done_with (value : string) : cache_phase := Finished (Ok value).

(** One call of the latest operation. *)
Lemma latest_call d db op phase rest phase' d' db' :
  cache_op_step ttl op NoFault some_env phase d db = Some (phase', d', db') →
  cache_step ttl (CacheState d db (Thread op phase :: rest)) (CacheState d' db' (Thread op phase' :: rest)).
Proof. apply (CacheCalls ttl d db [] op phase rest). Qed.

Lemma same_tables_calm d db ts db' ts' : calm (CacheState d db ts) (CacheState d db' ts').
Proof. done. Qed.

Lemma updating_calm d db value rest d' db' ts' :
  Forall (λ t, ∀ v, th_phase t ≠ Loaded v) rest →
  calm (CacheState d db (Thread (writes value) Started :: rest)) (CacheState d' db' ts').
Proof.
  intros Hall key v [[=]|Hin]%elem_of_cons. exfalso. by apply (proj1 (Forall_forall _ _) Hall _ Hin v).
Qed.

Definition replaced : cache_state :=
  CacheState tables_2 store_1 [Thread (writes "b") (done_with EmptyString); Thread reads (done_with "a"); Thread (writes "a") (done_with EmptyString)].

Lemma replaced_run : calm_run ttl (cache_begin empty_store) replaced.
Proof.
  set (t1 := Thread (writes "a") (done_with EmptyString)). set (t2 := Thread reads (done_with "a")).
  apply (CalmStep _ _ (CacheState tables_1 store_1 [Thread (writes "b") Started; t2; t1]));
    [|by apply latest_call; vm_compute|by apply updating_calm; repeat constructor].
  apply (CalmStep _ _ (CacheState tables_1 store_1 [t2; t1])); [|constructor|apply same_tables_calm].
  apply (CalmStep _ _ (CacheState tables_1 empty_store [Thread reads (Loaded "a"); t1])); [|by apply latest_call; vm_compute|apply same_tables_calm].
  apply (CalmStep _ _ (CacheState tables_1 empty_store [Thread reads Missed; t1])); [|by apply latest_call; vm_compute|apply same_tables_calm].
  apply (CalmStep _ _ (CacheState tables_1 empty_store [Thread reads Started; t1])); [|by apply latest_call; vm_compute|apply same_tables_calm].
  apply (CalmStep _ _ (CacheState tables_1 empty_store [t1])); [|constructor|apply same_tables_calm].
  apply (CalmStep _ _ (CacheState (CacheTables ∅ ∅) empty_store [Thread (writes "a") Started]));
    [|by apply latest_call; vm_compute|by apply updating_calm].
  apply (CalmStep _ _ (cache_begin empty_store)); [constructor|constructor|apply same_tables_calm].
Qed.

Lemma stale_values_have_an_intent_witness :
  cache_at "k" replaced = Some (filled ttl "a" empty_store) ∧ is_Some (intent_at "k" (tables replaced)) ∧
  ∃ d' db' db'', intent_at "k" d' = None ∧
    cache_op_run ttl reads (working [some_env; some_env; some_env]) Started d' db' = Some (Ok "b"%string, d', db'').
Proof.
  destruct (stale_values_have_an_intent ttl empty_store replaced "k" empty_store_at replaced_run) as [Hstale Hrepair].
  assert (cache_at "k" replaced = Some (filled ttl "a" empty_store)) as Hat by (vm_compute; reflexivity). split; [done|]. split.
  - destruct (Hstale _ Hat) as [(value & [= <-] & Hc)|?]; [vm_compute in Hc; discriminate Hc|done].
  - destruct (Hrepair 2 "b"%string some_env some_env some_env) as (d' & db' & _ & Hgone & db'' & Hread);
      [vm_compute; reflexivity..|]. by exists d', db', db''.
Defined.

(** An update comes while a read carries the old value; the read answers it. *)
Definition overtaken_trace : list cache_state :=
  [CacheState tables_2 empty_store [Thread (writes "b") (done_with EmptyString); Thread reads (Loaded "a")];
   CacheState tables_1 empty_store [Thread (writes "b") Started; Thread reads (Loaded "a")];
   CacheState tables_1 empty_store [Thread reads (Loaded "a")]; CacheState tables_1 empty_store [Thread reads Missed];
   CacheState tables_1 empty_store [Thread reads Started]; CacheState tables_1 empty_store []].

Lemma overtaken : cache_trace ttl (CacheState tables_1 empty_store []) overtaken_trace.
Proof.
  unfold overtaken_trace.
  apply TraceStep; [|by apply latest_call; vm_compute]. apply TraceStep; [|constructor].
  apply TraceStep; [|by apply latest_call; vm_compute]. apply TraceStep; [|by apply latest_call; vm_compute].
  apply TraceStep; [|constructor]. constructor.
Qed.

Lemma read_answers_are_recent_witness :
  current "k" tables_2 = Some "b"%string ∧
  (carried "k" "a" overtaken_trace ∨ ∃ until, written_back ttl "k" "a" until overtaken_trace ∧ 1000 < until).
Proof.
  split; [vm_compute; reflexivity|].
  destruct (read_answers_are_recent ttl tables_1 empty_store _ _ "k" NoFault some_env (Loaded "a") "a" tables_2 store_1
    empty_store_at overtaken ltac:(right; by left) ltac:(vm_compute; reflexivity)) as [Hc|H]; [|exact H].
  vm_compute in Hc. discriminate Hc.
Defined.
