(* ===== verification/LoadTracker.v ===== *)
(** [cmd/im-loadtest/main.go], the tracker: which realtime deliveries are expected,
    which have arrived, and the wait for the rest.  Every operation on a shard holds
    its mutex, so it is one step; a count reads one shard after the other, and other
    steps may come in between. *)
From Stdlib Require Import Ascii String.
From S2P Require Import Prelude GoStd.
Open Scope Z_scope.

(** * State *)

Record trackerShard : Type := TrackerShard {
  started : gmap string Z;
  expected : gmap string (gset string);
  received : gmap string (gmap string Z)
}.

(** [change] tells whether the channel's one buffer slot is taken. *)
Record tracker : Type := Tracker {
  shards : list trackerShard;
  unexpected : Z;
  duplicate : Z;
  readerErrors : list string;
  change : bool
}.

Definition trackerShardCount : nat := 64.

Definition newTracker : tracker := Tracker (replicate trackerShardCount (TrackerShard ∅ ∅ ∅)) 0 0 [] false.

(** FNV-1a on 32 bits. *)
Definition fnv1a (text : string) : Z :=
  foldl (λ hash b, (Z.lxor hash b * 16777619) mod 2 ^ 32) 2166136261 (bytes_of text).

Definition shard (clientID : string) : nat := Z.to_nat (fnv1a clientID mod Z.of_nat trackerShardCount).

Definition shard_at (i : nat) (t : tracker) : trackerShard := default (TrackerShard ∅ ∅ ∅) (shards t !! i).

Definition with_shard (clientID : string) (s : trackerShard) (t : tracker) : tracker :=
  Tracker (<[shard clientID := s]> (shards t)) (unexpected t) (duplicate t) (readerErrors t) (change t).

(** A full channel keeps its signal. *)
Definition signal (t : tracker) : tracker := Tracker (shards t) (unexpected t) (duplicate t) (readerErrors t) true.

(** * Operations *)

Definition expect (clientID : string) (at_ : Z) (labels : list string) (t : tracker) : tracker :=
  let s := shard_at (shard clientID) t in
  with_shard clientID
    (TrackerShard (<[clientID := at_]> (started s)) (<[clientID := list_to_set labels]> (expected s)) (received s)) t.

Definition drop (clientID : string) (t : tracker) : tracker :=
  let s := shard_at (shard clientID) t in
  signal (with_shard clientID
    (TrackerShard (delete clientID (started s)) (delete clientID (expected s)) (delete clientID (received s))) t).

Definition count_unexpected (t : tracker) : tracker :=
  Tracker (shards t) (unexpected t + 1) (duplicate t) (readerErrors t) (change t).
Definition count_duplicate (t : tracker) : tracker :=
  Tracker (shards t) (unexpected t) (duplicate t + 1) (readerErrors t) (change t).

(** A missing start is the zero time. *)
Definition observe (label clientID : string) (now : Z) (t : tracker) : tracker :=
  let s := shard_at (shard clientID) t in
  match expected s !! clientID with
  | None => count_unexpected t
  | Some expectedLabels =>
      if negb (bool_decide (label ∈ expectedLabels)) then count_unexpected t
      else
        let arrivals := default ∅ (received s !! clientID) in
        if arrivals !! label is Some _ then count_duplicate t
        else
          let latency := now - default 0 (started s !! clientID) in
          signal (with_shard clientID
            (TrackerShard (started s) (expected s) (<[clientID := <[label := latency]> arrivals]> (received s))) t)
  end.

Definition readerError (label err : string) (t : tracker) : tracker :=
  signal (Tracker (shards t) (unexpected t) (duplicate t) (readerErrors t ++ [label +:+ ": " +:+ err]) (change t)).

Inductive tracker_event : Type :=
| Expect (clientID : string) (at_ : Z) (labels : list string)
| Drop (clientID : string)
| Observe (label clientID : string) (now : Z)
| ReaderError (label err : string).

Definition tracker_step (t : tracker) (e : tracker_event) : tracker :=
  match e with
  | Expect clientID at_ labels => expect clientID at_ labels t
  | Drop clientID => drop clientID t
  | Observe label clientID now => observe label clientID now t
  | ReaderError label err => readerError label err t
  end.

(** What the connections bring, as opposed to what the senders do. *)
Definition arrival_event (e : tracker_event) : Prop := match e with Observe _ _ _ | ReaderError _ _ => True | _ => False end.

Definition tracker_run : list tracker_event → tracker → tracker := λ es t, foldl tracker_step t es.

(** ** Reading *)

(** Shards [i], ..., [i + n - 1]; [before j] happens before shard [j] is locked. *)
Fixpoint read_shards (before : nat → list tracker_event) (i n : nat) (t : tracker) : list trackerShard * tracker :=
  match n with
  | O => ([], t)
  | S n =>
      let t := tracker_run (before i) t in
      let '(ss, t') := read_shards before (S i) n t in
      (shard_at i t :: ss, t')
  end.

Definition sum_nat : list nat → nat := foldr Nat.add 0%nat.

Definition count_shards (ss : list trackerShard) : nat * nat :=
  (sum_nat (ss ≫= λ s, (size ∘ snd) <$> map_to_list (expected s)),
   sum_nat (ss ≫= λ s, (size ∘ snd) <$> map_to_list (received s))).

Definition counts (before : nat → list tracker_event) (t : tracker) : (nat * nat) * tracker :=
  let '(ss, t') := read_shards before 0 trackerShardCount t in (count_shards ss, t').

(** What a shard expects, with the latency of what has arrived.  Maps are ranged over in
    any order; the missing are sorted. *)
Definition deliveries (s : trackerShard) : list (string * string * option Z) :=
  map_to_list (expected s) ≫= λ e : string * gset string,
    (λ label, (e.1, label, arrivals ← received s !! e.1; arrivals !! label)) <$> elements e.2.

Definition sort_strings : list string → list string := merge_sort (λ a b, Is_true (String.leb a b)).

Record tracker_report : Type := TrackerReport {
  expectedCount : nat; receivedCount : nat; missing : list string; latencies : list Z;
  duplicates : Z; unexpecteds : Z; reader_errors : list string
}.

Definition report_of (ss : list trackerShard) (t : tracker) : tracker_report :=
  let all := ss ≫= deliveries in
  let arrived := omap snd all in
  let absent := omap (λ d : string * string * option Z, if d.2 is None then Some (d.1.1 +:+ "@" +:+ d.1.2) else None) all in
  TrackerReport (sum_nat (ss ≫= λ s, (size ∘ snd) <$> map_to_list (expected s))) (List.length arrived) (sort_strings absent) arrived
    (duplicate t) (unexpected t) (readerErrors t).

Definition snapshot (before : nat → list tracker_event) (t : tracker) : tracker_report * tracker :=
  let '(ss, t') := read_shards before 0 trackerShardCount t in (report_of ss t', t').

(** ** [wait]: count, then sleep until something changes or the time is over *)

Inductive wake : Type := Changed | TimedOut.

Definition take_signal (t : tracker) : tracker := Tracker (shards t) (unexpected t) (duplicate t) (readerErrors t) false.

(** One time round: what happens while it counts, what happens while it sleeps, and why
    it wakes up; waking up by the channel takes a signal. *)
Record turn : Type := Turn { while_counting : nat → list tracker_event; while_asleep : list tracker_event; woken_by : wake }.

(** Asleep with nothing in the channel, or out of turns. *)
Inductive wait_end : Type := Complete | GaveUp | Asleep | Unfinished.

Fixpoint wait (turns : list turn) (t : tracker) : wait_end * tracker :=
  match turns with
  | [] => (Unfinished, t)
  | r :: turns =>
      let '((e, a), t1) := counts (while_counting r) t in
      if (e =? a)%nat then (Complete, t1)
      else
        let t2 := tracker_run (while_asleep r) t1 in
        match woken_by r with
        | TimedOut => (GaveUp, t2)
        | Changed => if change t2 then wait turns (take_signal t2) else (Asleep, t2)
        end
  end.
