(* ===== verification/LoadTrackerOk.v ===== *)
(** The tracker is a ledger of expected deliveries, and what its count, its wait and its
    report are worth. *)
From Stdlib Require Import Ascii String.
From S2P Require Import Prelude GoStd LoadTracker.
Open Scope Z_scope.

(** * The ledger *)

Record entry : Type := Entry { e_started : Z; e_labels : gset string; e_latencies : gmap string Z }.
Record ledger : Type := Ledger {
  entries : gmap string entry;
  l_unexpected : Z; l_duplicate : Z; l_errors : list string
}.

Definition ledger_step (l : ledger) (e : tracker_event) : ledger :=
  match e with
  | Expect id at_ labels =>
      let seen := default ∅ (e_latencies <$> entries l !! id) in
      Ledger (<[id := Entry at_ (list_to_set labels) seen]> (entries l)) (l_unexpected l) (l_duplicate l) (l_errors l)
  | Drop id => Ledger (delete id (entries l)) (l_unexpected l) (l_duplicate l) (l_errors l)
  | Observe label id now =>
      match entries l !! id with
      | None => Ledger (entries l) (l_unexpected l + 1) (l_duplicate l) (l_errors l)
      | Some x =>
          if negb (bool_decide (label ∈ e_labels x)) then Ledger (entries l) (l_unexpected l + 1) (l_duplicate l) (l_errors l)
          else if e_latencies x !! label is Some _ then Ledger (entries l) (l_unexpected l) (l_duplicate l + 1) (l_errors l)
          else Ledger (<[id := Entry (e_started x) (e_labels x) (<[label := now - e_started x]> (e_latencies x))]> (entries l))
                 (l_unexpected l) (l_duplicate l) (l_errors l)
      end
  | ReaderError label err => Ledger (entries l) (l_unexpected l) (l_duplicate l) (l_errors l ++ [label +:+ ": " +:+ err])
  end.

Definition empty_ledger : ledger := Ledger ∅ 0 0 [].
Definition ledger_run : list tracker_event → ledger → ledger := λ es l, foldl ledger_step l es.

(** * The refinement *)

(** A client's arrivals are stored from the first one on. *)
Definition arrivals (x : entry) : option (gmap string Z) :=
  if bool_decide (e_latencies x = ∅) then None else Some (e_latencies x).

Definition holds_part {A} (f : nat → gmap string A) (m : gmap string A) : Prop :=
  ∀ i id, (i < trackerShardCount)%nat → f i !! id = if decide (i = shard id) then m !! id else None.

Record tracks (t : tracker) (l : ledger) : Prop := Tracks {
  tr_length : List.length (shards t) = trackerShardCount;
  tr_started : holds_part (λ i, started (shard_at i t)) (e_started <$> entries l);
  tr_expected : holds_part (λ i, expected (shard_at i t)) (e_labels <$> entries l);
  tr_received : holds_part (λ i, received (shard_at i t)) (omap arrivals (entries l));
  tr_unexpected : unexpected t = l_unexpected l;
  tr_duplicate : duplicate t = l_duplicate l;
  tr_errors : readerErrors t = l_errors l
}.

Lemma shard_bound id : (shard id < trackerShardCount)%nat.
Proof. unfold shard. pose proof (Z.mod_pos_bound (fnv1a id) (Z.of_nat trackerShardCount)). unfold trackerShardCount in *. lia. Qed.

Lemma shard_at_with id s t i :
  List.length (shards t) = trackerShardCount →
  shard_at i (with_shard id s t) = if decide (i = shard id) then s else shard_at i t.
Proof.
  intros Hl. unfold shard_at, with_shard. simpl. pose proof (shard_bound id). destruct (decide (i = shard id)) as [->|Hne].
  - by rewrite list_lookup_insert_eq by lia.
  - by rewrite list_lookup_insert_ne.
Qed.

(** An update at one key, in the part that holds it. *)
Lemma holds_part_update {A} (f f' : nat → gmap string A) m m' id :
  holds_part f m → (∀ i, i ≠ shard id → f' i = f i) → (∀ k, k ≠ id → f' (shard id) !! k = f (shard id) !! k) →
  (∀ k, k ≠ id → m' !! k = m !! k) → f' (shard id) !! id = m' !! id → holds_part f' m'.
Proof.
  intros Hf Ho Hk Hm Hid i k Hi. destruct (decide (i = shard id)) as [->|Hne].
  - destruct (decide (k = id)) as [->|Hki]; [by rewrite decide_True|]. rewrite Hk, Hm by done. by apply Hf.
  - rewrite Ho by done. rewrite Hf by done. destruct (decide (i = shard k)) as [->|]; [|done].
    rewrite Hm; [done|]. by intros ->.
Qed.

Lemma empty_tracks : tracks newTracker empty_ledger.
Proof.
  assert (∀ i, shard_at i newTracker = TrackerShard ∅ ∅ ∅) as He.
  { intros i. unfold shard_at, newTracker. cbn [shards]. destruct (replicate _ _ !! i) as [s|] eqn:E; [|done].
    by apply lookup_replicate in E as [-> _]. }
  split; try done; intros i id _; rewrite He; by destruct (decide _).
Qed.

Lemma tracks_signal t l : tracks t l → tracks (signal t) l.
Proof. by intros [? ? ? ? ? ? ?]. Qed.

(** Only the counters change. *)
Lemma tracks_same t t' l l' :
  tracks t l → shards t' = shards t → entries l' = entries l → unexpected t' = l_unexpected l' →
  duplicate t' = l_duplicate l' → readerErrors t' = l_errors l' → tracks t' l'.
Proof.
  intros [Hl Hs He Hr _ _ _] Es El ? ? ?. assert (∀ i, shard_at i t' = shard_at i t) as Ei by (intros i; unfold shard_at; by rewrite Es).
  split; try done; [by rewrite Es|..]; intros i id Hi; rewrite Ei, El; auto.
Qed.

(** Replacing the shard of [id], with what changes at [id] alone. *)
Lemma tracks_with t l l' id s :
  tracks t l → l_unexpected l' = l_unexpected l → l_duplicate l' = l_duplicate l → l_errors l' = l_errors l →
  (∀ k, k ≠ id → entries l' !! k = entries l !! k) →
  (∀ k, k ≠ id → started s !! k = started (shard_at (shard id) t) !! k) →
  (∀ k, k ≠ id → expected s !! k = expected (shard_at (shard id) t) !! k) →
  (∀ k, k ≠ id → received s !! k = received (shard_at (shard id) t) !! k) →
  started s !! id = e_started <$> entries l' !! id → expected s !! id = e_labels <$> entries l' !! id →
  received s !! id = entries l' !! id ≫= arrivals →
  tracks (with_shard id s t) l'.
Proof.
  intros [Hl Hs He Hr Hu Hd Herr] Eu Ed Ee Hother Ks Ke Kr Is Ie Ir. split.
  - cbn. by rewrite length_insert.
  - eapply (holds_part_update _ _ _ _ id Hs); intros; rewrite ?shard_at_with by done; rewrite ?decide_False by done;
      rewrite ?decide_True by done; rewrite ?lookup_fmap, ?Hother by done; auto.
  - eapply (holds_part_update _ _ _ _ id He); intros; rewrite ?shard_at_with by done; rewrite ?decide_False by done;
      rewrite ?decide_True by done; rewrite ?lookup_fmap, ?Hother by done; auto.
  - eapply (holds_part_update _ _ _ _ id Hr); intros; rewrite ?shard_at_with by done; rewrite ?decide_False by done;
      rewrite ?decide_True by done; rewrite ?lookup_omap, ?Hother by done; auto.
  - cbn. congruence.
  - cbn. congruence.
  - cbn. congruence.
Qed.

Lemma arrivals_default x : default ∅ (arrivals x) = e_latencies x.
Proof. unfold arrivals. case_bool_decide as H; [by rewrite H|done]. Qed.

Section lookups.
Context (t : tracker) (l : ledger) (Ht : tracks t l) (id : string).

Lemma shard_expected : expected (shard_at (shard id) t) !! id = e_labels <$> entries l !! id.
Proof. rewrite (tr_expected _ _ Ht) by apply shard_bound. by rewrite decide_True, lookup_fmap. Qed.
Lemma shard_started : started (shard_at (shard id) t) !! id = e_started <$> entries l !! id.
Proof. rewrite (tr_started _ _ Ht) by apply shard_bound. by rewrite decide_True, lookup_fmap. Qed.
Lemma shard_received : received (shard_at (shard id) t) !! id = entries l !! id ≫= arrivals.
Proof. rewrite (tr_received _ _ Ht) by apply shard_bound. by rewrite decide_True, lookup_omap. Qed.
End lookups.

(** Each operation on the shards is the ledger's. *)
Lemma tracks_step t l e : tracks t l → tracks (tracker_step t e) (ledger_step l e).
Proof.
  intros Ht. destruct e as [id at_ labels|id|label id now|label err]; cbn [tracker_step ledger_step].
  - apply (tracks_with t l); cbn; intros; rewrite ?lookup_insert_ne, ?lookup_insert_eq by done; try done.
    rewrite (shard_received _ _ Ht). by destruct (entries l !! id).
  - apply tracks_signal, (tracks_with t l); cbn; intros; rewrite ?lookup_delete_ne, ?lookup_delete_eq by done; done.
  - unfold observe. rewrite (shard_expected _ _ Ht), (shard_received _ _ Ht), (shard_started _ _ Ht).
    destruct (entries l !! id) as [x|] eqn:Hx; cbn [fmap option_fmap option_map mbind option_bind default].
    2: { by apply (tracks_same t _ l); try done; cbn; rewrite ?(tr_unexpected _ _ Ht), ?(tr_duplicate _ _ Ht), ?(tr_errors _ _ Ht). }
    destruct (negb _); [by apply (tracks_same t _ l); try done; cbn; rewrite ?(tr_unexpected _ _ Ht), ?(tr_duplicate _ _ Ht), ?(tr_errors _ _ Ht)|]. rewrite arrivals_default.
    destruct (e_latencies x !! label) as [y|] eqn:Hy; [by apply (tracks_same t _ l); try done; cbn; rewrite ?(tr_unexpected _ _ Ht), ?(tr_duplicate _ _ Ht), ?(tr_errors _ _ Ht)|].
    apply tracks_signal, (tracks_with t l); cbn; intros; rewrite ?lookup_insert_ne, ?lookup_insert_eq by done; try done.
    + by rewrite (shard_started _ _ Ht), Hx.
    + by rewrite (shard_expected _ _ Ht), Hx.
    + cbn. unfold arrivals. cbn. rewrite bool_decide_eq_false_2; [done|]. apply insert_non_empty.
  - by apply (tracks_same t _ l); try done; cbn; rewrite ?(tr_unexpected _ _ Ht), ?(tr_duplicate _ _ Ht), ?(tr_errors _ _ Ht).
Qed.

Lemma tracks_run t l es : tracks t l → tracks (tracker_run es t) (ledger_run es l).
Proof. revert t l. induction es as [|e es IH]; intros t l Ht; [done|]. by apply IH, tracks_step. Qed.

(** * Arrivals only add *)

Definition latency (l : ledger) (id label : string) : option Z := x ← entries l !! id; e_latencies x !! label.
Definition awaited (l : ledger) (id label : string) : Prop := ∃ x, entries l !! id = Some x ∧ label ∈ e_labels x.

(** Only what is expected arrives. *)
Definition ledger_ok (l : ledger) : Prop := ∀ id x, entries l !! id = Some x → dom (e_latencies x) ⊆ e_labels x.

Definition entry_grows (o o' : option entry) : Prop :=
  match o, o' with
  | Some x, Some x' => e_labels x' = e_labels x ∧ e_latencies x ⊆ e_latencies x'
  | None, None => True
  | _, _ => False
  end.

Definition grows (l l' : ledger) : Prop := ∀ id, entry_grows (entries l !! id) (entries l' !! id).

#[export] Instance grows_preorder : PreOrder grows.
Proof.
  split.
  - intros l id. unfold entry_grows. by destruct (entries l !! id).
  - intros l1 l2 l3 H12 H23 id. specialize (H12 id). specialize (H23 id). unfold entry_grows in *.
    destruct (entries l1 !! id), (entries l2 !! id), (entries l3 !! id); try done.
    destruct H12 as [E12 S12], H23 as [E23 S23]. split; [congruence|by etrans].
Qed.

Lemma grows_awaited l l' id label : grows l l' → awaited l' id label ↔ awaited l id label.
Proof.
  intros H. specialize (H id). unfold entry_grows, awaited in *.
  destruct (entries l !! id) as [x|], (entries l' !! id) as [x'|]; try done.
  destruct H as [E _]. split; intros (y & [= <-] & Hy); eexists; (split; [done|]); congruence.
Qed.

Lemma grows_latency l l' id label a : grows l l' → latency l id label = Some a → latency l' id label = Some a.
Proof.
  intros H. specialize (H id). unfold entry_grows, latency in *.
  destruct (entries l !! id) as [x|], (entries l' !! id) as [x'|]; try done. destruct H as [_ S]. cbn. intros Ha. by eapply lookup_weaken.
Qed.

Lemma grows_same l l' : entries l' = entries l → grows l l'.
Proof. intros He id. rewrite He. unfold entry_grows. by destruct (entries l !! id). Qed.


Lemma arrival_grows l e : arrival_event e → grows l (ledger_step l e).
Proof.
  destruct e as [| |label id now|]; [done|done| |]; intros _; [|by apply grows_same]. cbn.
  destruct (entries l !! id) as [x|] eqn:Hx; [|by apply grows_same]. destruct (negb _); [by apply grows_same|].
  destruct (e_latencies x !! label) eqn:Hl; [by apply grows_same|]. intros k. cbn. destruct (decide (k = id)) as [->|Hne].
  - rewrite Hx, lookup_insert_eq. cbn. split; [done|]. by apply insert_subseteq.
  - rewrite lookup_insert_ne by done. unfold entry_grows. by destruct (entries l !! k).
Qed.

Lemma arrivals_grow l es : Forall arrival_event es → grows l (ledger_run es l).
Proof.
  intros Hes. revert l. induction Hes as [|e es He _ IH]; intros l; [reflexivity|]. etrans; [by apply arrival_grows|]. apply IH.
Qed.

Lemma ledger_ok_step l e : (∀ id at_ labels, e = Expect id at_ labels → entries l !! id = None) → ledger_ok l → ledger_ok (ledger_step l e).
Proof.
  intros Hnew Hl. destruct e as [id at_ labels|id|label id now|label err]; cbn; [| | |done].
  - intros k x. cbn. destruct (decide (k = id)) as [->|Hne]; [|rewrite lookup_insert_ne by done; apply Hl].
    rewrite lookup_insert_eq, (Hnew id at_ labels) by done. intros [= <-]. cbn. set_solver.
  - intros k x. cbn. intros [_ Hx]%lookup_delete_Some. by apply (Hl k).
  - destruct (entries l !! id) as [x|] eqn:Hx; [|done]. destruct (negb _) eqn:Hn; [done|].
    apply negb_false_iff, bool_decide_eq_true in Hn. destruct (e_latencies x !! label); [done|].
    intros k y. cbn. destruct (decide (k = id)) as [->|Hne]; [|rewrite lookup_insert_ne by done; apply Hl].
    rewrite lookup_insert_eq. intros [= <-]. cbn. specialize (Hl id x Hx). set_solver.
Qed.

Lemma arrivals_ok l es : Forall arrival_event es → ledger_ok l → ledger_ok (ledger_run es l).
Proof.
  intros Hes. revert l. induction Hes as [|e es He _ IH]; intros l Hl; [done|]. cbn. apply IH, ledger_ok_step; [|done].
  by intros id at_ labels ->.
Qed.

(** * Shards that were read at different times are those of one ledger in between *)

Record parts (ss : list trackerShard) (v : ledger) : Prop := Parts {
  pa_length : List.length ss = trackerShardCount;
  pa_expected : holds_part (λ i, expected (default (TrackerShard ∅ ∅ ∅) (ss !! i))) (e_labels <$> entries v);
  pa_received : holds_part (λ i, received (default (TrackerShard ∅ ∅ ∅) (ss !! i))) (omap arrivals (entries v))
}.

(** [l1] in shard [i], [v] elsewhere. *)
Definition splice (i : nat) (l1 v : ledger) : ledger :=
  Ledger (filter (λ e, shard e.1 = i) (entries l1) ∪ filter (λ e, shard e.1 ≠ i) (entries v)) 0 0 [].

Lemma splice_lookup i l1 v id :
  entries (splice i l1 v) !! id = if decide (shard id = i) then entries l1 !! id else entries v !! id.
Proof.
  unfold splice. cbn. destruct (decide (shard id = i)) as [He|Hne].
  - destruct (entries l1 !! id) as [x|] eqn:Hx.
    + apply lookup_union_Some_l. by apply map_lookup_filter_Some.
    + apply lookup_union_None. split; apply map_lookup_filter_None; [by left|]. right. intros x _. cbn. tauto.
  - rewrite lookup_union_r; [|apply map_lookup_filter_None; right; intros x _; cbn; done].
    destruct (entries v !! id) as [x|] eqn:Hx; [by apply map_lookup_filter_Some|apply map_lookup_filter_None; by left].
Qed.

Lemma read_shards_between before i n t l ss t' :
  (i + n ≤ trackerShardCount)%nat → (∀ j, Forall arrival_event (before j)) → tracks t l → read_shards before i n t = (ss, t') →
  let l' := ledger_run (seq i n ≫= before) l in
  ∃ v, grows l v ∧ grows v l' ∧ tracks t' l' ∧ (ledger_ok l → ledger_ok v ∧ ledger_ok l') ∧ List.length ss = n ∧
    ∀ j id, (j < n)%nat →
      expected (default (TrackerShard ∅ ∅ ∅) (ss !! j)) !! id = (if decide ((i + j)%nat = shard id) then e_labels <$> entries v !! id else None) ∧
      received (default (TrackerShard ∅ ∅ ∅) (ss !! j)) !! id = (if decide ((i + j)%nat = shard id) then entries v !! id ≫= arrivals else None).
Proof.
  revert i t l ss t'. induction n as [|n IH]; intros i t l ss t' Hi Hb Ht Hrun; cbn [read_shards] in Hrun.
  { injection Hrun as <- <-. exists l. split_and!; try done. intros; lia. }
  set (t1 := tracker_run (before i) t) in *. set (l1 := ledger_run (before i) l).
  assert (tracks t1 l1) as Ht1 by by apply tracks_run.
  assert (grows l l1) as Hg1 by by apply arrivals_grow.
  destruct (read_shards before (S i) n t1) as [ss1 t2] eqn:Hrest. injection Hrun as <- <-.
  destruct (IH (S i) t1 l1 ss1 t2) as (v & Hgv & Hgl & Ht2 & Hok & Hlen & Hparts); [lia|done|done|done|].
  cbv zeta. change (seq i (S n)) with (i :: seq (S i) n). cbn [mbind list_bind]. unfold ledger_run at 1 2 3. rewrite !foldl_app.
  fold (ledger_run (before i) l). fold l1. fold (ledger_run (seq (S i) n ≫= before) l1). set (l' := ledger_run _ l1) in *.
  exists (splice i l1 v). split_and!.
  - intros id. rewrite splice_lookup. destruct (decide _); [apply Hg1|]. assert (grows l v) as Hlv by by etrans. apply Hlv.
  - intros id. rewrite splice_lookup. destruct (decide _); [|apply Hgl]. assert (grows l1 l') as Hll by by etrans. apply Hll.
  - done.
  - intros Hl. assert (ledger_ok l1) as Hl1 by by apply arrivals_ok. destruct (Hok Hl1) as [Hv Hl']. split; [|done].
    intros id x. rewrite splice_lookup. destruct (decide _); [apply Hl1|apply Hv].
  - cbn. lia.
  - intros [|j] id Hj.
    + change (default _ ((shard_at i t1 :: ss1) !! 0%nat)) with (shard_at i t1). rewrite Nat.add_0_r. rewrite (tr_expected _ _ Ht1), (tr_received _ _ Ht1), splice_lookup, lookup_fmap, lookup_omap by lia.
      destruct (decide (i = shard id)) as [->|]; [|done]. by rewrite decide_True.
    + change (default ?x ((shard_at i t1 :: ss1) !! S j)) with (default x (ss1 !! j)).
      destruct (Hparts j id) as [He Hr]; [lia|]. rewrite He, Hr, splice_lookup.
      replace (i + S j)%nat with (S (i + j)) by lia. destruct (decide _) as [<-|]; [|done]. rewrite decide_False by lia. done.
Qed.

Lemma read_shards_parts before t l ss t' :
  (∀ j, Forall arrival_event (before j)) → tracks t l → ledger_ok l → read_shards before 0 trackerShardCount t = (ss, t') →
  let l' := ledger_run (seq 0 trackerShardCount ≫= before) l in
  ∃ v, grows l v ∧ grows v l' ∧ tracks t' l' ∧ ledger_ok v ∧ ledger_ok l' ∧ parts ss v.
Proof.
  intros Hb Ht Hok Hrun. destruct (read_shards_between before 0 trackerShardCount t l ss t') as (v & ? & ? & ? & Hoks & ? & Hp); try done.
  destruct (Hoks Hok). exists v. split_and!; try done.
  split; [done|..]; intros i id Hi; destruct (Hp i id Hi) as [He Hr]; rewrite ?lookup_fmap, ?lookup_omap; done.
Qed.

(** * Counting, waiting, reporting *)

(** * Lists of lists *)

Lemma fmap_of_bind {A B C} (f : A → list B) (g : B → C) l : g <$> (l ≫= f) = l ≫= λ x, g <$> f x.
Proof. induction l as [|x l IH]; [done|]. cbn. rewrite fmap_app. f_equal. exact IH. Qed.

Lemma bind_of_bind {A B C} (f : A → list B) (g : B → list C) l : (l ≫= f) ≫= g = l ≫= λ x, f x ≫= g.
Proof. induction l as [|x l IH]; [done|]. cbn. rewrite bind_app. f_equal. exact IH. Qed.

Lemma bind_ext_in {A B} (f g : A → list B) (l : list A) : (∀ x, x ∈ l → f x = g x) → l ≫= f = l ≫= g.
Proof. intros H. apply Forall_bind_ext, Forall_forall, H. Qed.

Lemma omap_of_fmap {A B C} (f : A → B) (g : B → option C) (l : list A) : omap g (f <$> l) = omap (g ∘ f) l.
Proof. induction l as [|x l IH]; [done|]. cbn. by rewrite IH. Qed.

Lemma omap_of_app {A B} (f : A → option B) (l1 l2 : list A) : omap f (l1 ++ l2) = omap f l1 ++ omap f l2.
Proof. induction l1 as [|x l1 IH]; [done|]. cbn. rewrite IH. by destruct (f x). Qed.

Lemma omap_ext_in {A B} (f g : A → option B) (l : list A) : (∀ x, x ∈ l → f x = g x) → omap f l = omap g l.
Proof. induction l as [|x l IH]; [done|]. intros H. cbn. rewrite (H x) by by left. rewrite IH; [done|]. intros y Hy. apply H. by right. Qed.

(** * Sums over shards *)

Lemma lookup_of_part {A} (f : nat → gmap string A) m i id x :
  holds_part f m → (i < trackerShardCount)%nat → f i !! id = Some x ↔ i = shard id ∧ m !! id = Some x.
Proof. intros Hf Hi. rewrite Hf by done. destruct (decide _); naive_solver. Qed.

Lemma parts_permutation {A} (f : nat → gmap string A) m :
  holds_part f m → (seq 0 trackerShardCount ≫= λ i, map_to_list (f i)) ≡ₚ map_to_list m.
Proof.
  intros Hf. apply NoDup_Permutation; [|apply NoDup_map_to_list|].
  - apply NoDup_bind; [| |apply NoDup_seq].
    + intros i j [id x] Hi%elem_of_seq Hj%elem_of_seq H1%elem_of_map_to_list H2%elem_of_map_to_list.
      apply (lookup_of_part f m) in H1 as [-> _]; [|done|lia]. apply (lookup_of_part f m) in H2 as [-> _]; [done|done|lia].
    + intros i _. apply NoDup_map_to_list.
  - intros [id x]. rewrite list_elem_of_bind, elem_of_map_to_list. split.
    + intros (i & Hx%elem_of_map_to_list & Hi%elem_of_seq). apply (lookup_of_part f m) in Hx as [_ Hx]; [done|done|lia].
    + intros Hx. exists (shard id). pose proof (shard_bound id). rewrite elem_of_map_to_list, elem_of_seq. split; [|lia].
      by apply (lookup_of_part f m).
Qed.

Definition part (ss : list trackerShard) (i : nat) : trackerShard := default (TrackerShard ∅ ∅ ∅) (ss !! i).

Lemma bind_by_index {B} (g : trackerShard → list B) ss :
  List.length ss = trackerShardCount → (ss ≫= g) = (seq 0 trackerShardCount ≫= λ i, g (part ss i)).
Proof.
  intros <-. induction ss as [|s ss IH] using rev_ind; [done|].
  rewrite length_app, Nat.add_1_r, seq_S, !bind_app, IH. cbn [mbind list_bind]. rewrite !app_nil_r. f_equal.
  - apply bind_ext_in. intros i Hi%elem_of_seq. unfold part. by rewrite lookup_app_l by lia.
  - unfold part. cbn. by rewrite list_lookup_middle.
Qed.

#[export] Instance sum_nat_perm : Proper ((≡ₚ) ==> (=)) sum_nat.
Proof. unfold sum_nat. induction 1; simpl in *; lia. Qed.

(** * Reports *)

Definition ledger_deliveries (l : ledger) : list (string * string * option Z) :=
  map_to_list (e_labels <$> entries l) ≫= λ e : string * gset string, (λ label, (e.1, label, latency l e.1 label)) <$> elements e.2.

Lemma elem_of_ledger_deliveries l id label o : (id, label, o) ∈ ledger_deliveries l ↔ awaited l id label ∧ o = latency l id label.
Proof.
  unfold ledger_deliveries. rewrite list_elem_of_bind. split.
  - intros ([id' labels] & (label' & [= -> -> ->] & Hlab)%list_elem_of_fmap & Hid). apply elem_of_map_to_list in Hid.
    rewrite lookup_fmap in Hid. apply fmap_Some in Hid as (x & Hx & ->). split; [|done]. exists x. by apply elem_of_elements in Hlab.
  - intros ((x & Hx & Hlab) & ->). exists (id, e_labels x). split.
    + apply list_elem_of_fmap. exists label. by rewrite elem_of_elements.
    + apply elem_of_map_to_list. by rewrite lookup_fmap, Hx.
Qed.

Section parts.
Context (ss : list trackerShard) (v : ledger) (Hp : parts ss v).

Lemma shards_expected : (ss ≫= λ s, map_to_list (expected s)) ≡ₚ map_to_list (e_labels <$> entries v).
Proof. rewrite bind_by_index by apply Hp. apply parts_permutation, Hp. Qed.

Lemma shards_received : (ss ≫= λ s, map_to_list (received s)) ≡ₚ map_to_list (omap arrivals (entries v)).
Proof. rewrite bind_by_index by apply Hp. apply parts_permutation, Hp. Qed.

Lemma shards_deliveries : (ss ≫= deliveries) ≡ₚ ledger_deliveries v.
Proof.
  unfold ledger_deliveries. rewrite <-shards_expected, !bind_by_index by apply Hp. rewrite bind_of_bind. apply reflexive_eq, bind_ext_in.
  intros i Hi%elem_of_seq. unfold deliveries. apply bind_ext_in. intros [id labels] Hid%elem_of_map_to_list. cbn [fst snd].
  apply list_fmap_ext. intros _ label _. f_equal.
  assert (i = shard id) as ->. { apply (lookup_of_part _ _ _ _ _ (pa_expected _ _ Hp)) in Hid as [-> _]; [done|lia]. }
  pose proof (pa_received _ _ Hp (shard id) id (shard_bound id)) as Hr. rewrite decide_True, lookup_omap in Hr by done.
  change (received (part ss (shard id)) !! id = entries v !! id ≫= arrivals) in Hr. rewrite Hr. unfold latency.
  destruct (entries v !! id) as [x|]; [|done]. cbn. unfold arrivals. case_bool_decide as He; [by rewrite He|done].
Qed.

Lemma shards_expected_count : sum_nat (ss ≫= λ s, (size ∘ snd) <$> map_to_list (expected s)) = List.length (ledger_deliveries v).
Proof.
  assert ((ss ≫= λ s, (size ∘ snd) <$> map_to_list (expected s)) = (size ∘ snd) <$> (ss ≫= λ s, map_to_list (expected s))) as ->.
  { by rewrite fmap_of_bind. }
  rewrite shards_expected. unfold ledger_deliveries. induction (map_to_list _) as [|[id labels] m IH]; [done|].
  cbn. rewrite length_app, length_fmap, <-IH. unfold size, set_size. cbn. done.
Qed.
End parts.

Lemma length_latencies (labels : gset string) (lat : gmap string Z) :
  dom lat ⊆ labels → List.length (omap (λ label, lat !! label) (elements labels)) = size lat.
Proof.
  intros Hsub. rewrite <-size_dom. assert (List.length (omap (λ label, lat !! label) (elements labels)) =
    List.length (base.filter (λ label, label ∈ dom lat) (elements labels))) as ->.
  { induction (elements labels) as [|x xs IH]; [done|]. rewrite filter_cons. cbn.
    destruct (lat !! x) as [a|] eqn:Ha; [rewrite decide_True by (by apply elem_of_dom_2 in Ha); cbn; by rewrite IH|].
    by rewrite decide_False by (by apply not_elem_of_dom). }
  unfold size at 1, set_size. cbn. apply Permutation_length, NoDup_Permutation; [apply NoDup_filter, NoDup_elements|apply NoDup_elements|].
  intros x. rewrite list_elem_of_filter, !elem_of_elements. set_solver.
Qed.

Lemma ledger_received_count v :
  ledger_ok v → sum_nat ((size ∘ snd) <$> map_to_list (omap arrivals (entries v))) = List.length (omap snd (ledger_deliveries v)).
Proof.
  intros Hok. unfold ledger_deliveries.
  assert (∀ m : gmap string entry, (∀ id x, m !! id = Some x → entries v !! id = Some x) →
    sum_nat ((size ∘ snd) <$> map_to_list (omap arrivals m)) =
    List.length (omap snd (map_to_list (e_labels <$> m) ≫= λ e : string * gset string, (λ label, (e.1, label, latency v e.1 label)) <$> elements e.2)))
    as Hgen; [|by apply Hgen].
  intros m. induction m as [|id x m Hnone IH] using map_ind; intros Hsub.
  { rewrite omap_empty, fmap_empty, !map_to_list_empty. done. }
  assert (entries v !! id = Some x) as Hx by (apply Hsub; by rewrite lookup_insert_eq).
  rewrite fmap_insert, (map_to_list_insert (e_labels <$> m)) by by rewrite lookup_fmap, Hnone.
  cbn [mbind list_bind fst snd]. rewrite omap_of_app, length_app, <-IH; [|intros id' y Hy; apply Hsub; rewrite lookup_insert_ne; congruence].
  assert (List.length (omap snd ((λ label, (id, label, latency v id label)) <$> elements (e_labels x))) = size (e_latencies x)) as ->.
  { rewrite <-(length_latencies (e_labels x)) by by apply (Hok id). f_equal. rewrite omap_of_fmap. apply omap_ext_in.
    intros label _. cbn. unfold latency. by rewrite Hx. }
  unfold arrivals at 1. rewrite omap_insert. unfold arrivals at 1. case_bool_decide as He.
  - rewrite He, map_size_empty. rewrite delete_id; [done|]. by rewrite lookup_omap, Hnone.
  - rewrite map_to_list_insert by by rewrite lookup_omap, Hnone. done.
Qed.

(** * Verdicts *)

Definition all_arrived (l : ledger) : Prop := ∀ id label, awaited l id label → is_Some (latency l id label).

Lemma omap_length_le {A B} (f : A → option B) (l : list A) :
  (List.length (omap f l) ≤ List.length l)%nat ∧ (List.length (omap f l) = List.length l ↔ ∀ x, x ∈ l → is_Some (f x)).
Proof.
  induction l as [|x l [Hle Heq]]; [split; [done|]; split; [by intros _ y ?%elem_of_nil|done]|]. cbn. destruct (f x) as [y|] eqn:Hx; cbn.
  - split; [lia|]. split.
    + intros [= H]. pose proof (proj1 Heq H) as H'. intros z [->|Hz]%elem_of_cons; [by rewrite Hx|by apply H'].
    + intros H. f_equal. apply (proj2 Heq). intros z Hz. apply H. by right.
  - change (list_omap A B f l) with (omap f l). split; [lia|]. split; [intros H; lia|]. intros H. specialize (H x ltac:(by left)). rewrite Hx in H. by destruct H.
Qed.

Lemma deliveries_arrived l : (∀ d, d ∈ ledger_deliveries l → is_Some d.2) ↔ all_arrived l.
Proof.
  split.
  - intros H id label Ha. by apply (H (id, label, latency l id label)), elem_of_ledger_deliveries.
  - intros H [[id label] o] [Ha ->]%elem_of_ledger_deliveries. by apply H.
Qed.

(** The two counts of shards read in turn. *)
Lemma count_shards_spec ss v :
  parts ss v → ledger_ok v → count_shards ss = (List.length (ledger_deliveries v), List.length (omap snd (ledger_deliveries v))).
Proof.
  intros Hp Hok. unfold count_shards. rewrite (shards_expected_count _ _ Hp), <-(ledger_received_count v Hok). f_equal.
  by rewrite <-fmap_of_bind, (shards_received _ _ Hp).
Qed.

Lemma counts_equal ss v e a : parts ss v → ledger_ok v → count_shards ss = (e, a) → (e = a ↔ all_arrived v).
Proof.
  intros Hp Hok Hc. rewrite (count_shards_spec _ _ Hp Hok) in Hc. injection Hc as <- <-.
  destruct (omap_length_le snd (ledger_deliveries v)) as [_ H]. rewrite <-deliveries_arrived, <-H. by split.
Qed.

(** ** Histories *)

Definition expect_id (e : tracker_event) : option string := if e is Expect id _ _ then Some id else None.

(** Nothing is expected twice. *)
Definition fresh_history (es : list tracker_event) : Prop := NoDup (omap expect_id es).

Lemma ledger_run_snoc es e l : ledger_run (es ++ [e]) l = ledger_step (ledger_run es l) e.
Proof. unfold ledger_run. by rewrite foldl_app. Qed.

Lemma empty_entries id x : entries empty_ledger !! id ≠ Some x.
Proof. unfold empty_ledger. simpl. by rewrite lookup_empty. Qed.

Lemma history_entries es id x : entries (ledger_run es empty_ledger) !! id = Some x → id ∈ omap expect_id es.
Proof.
  revert x. induction es as [|e es IH] using rev_ind; intros x Hx; [by apply empty_entries in Hx|].
  rewrite ledger_run_snoc in Hx. rewrite omap_of_app, elem_of_app. destruct e as [id' at_ labels|id'|label id' now|label err]; cbn in Hx |- *.
  - destruct (decide (id = id')) as [->|Hne]; [right; by left|]. rewrite lookup_insert_ne in Hx by done. left. by eapply IH.
  - apply lookup_delete_Some in Hx as [_ Hx]. left. by eapply IH.
  - left. destruct (entries (ledger_run es empty_ledger) !! id') as [y|] eqn:Hy; [|by eapply IH].
    destruct (negb _); [by eapply IH|]. destruct (e_latencies y !! label); [by eapply IH|]. cbn in Hx.
    destruct (decide (id = id')) as [->|Hne]; [by eapply IH|]. rewrite lookup_insert_ne in Hx by done. by eapply IH.
  - left. by eapply IH.
Qed.

Lemma fresh_history_ok es : fresh_history es → ledger_ok (ledger_run es empty_ledger).
Proof.
  unfold fresh_history. induction es as [|e es IH] using rev_ind; intros Hf; [intros id x Hx; by apply empty_entries in Hx|].
  rewrite ledger_run_snoc, omap_of_app in *. apply NoDup_app in Hf as (Hf & Hd & _). apply ledger_ok_step; [|by apply IH].
  intros id at_ labels ->. destruct (entries (ledger_run es empty_ledger) !! id) as [x|] eqn:Hx; [|done].
  exfalso. apply (Hd id); [by eapply history_entries|]. cbn. by left.
Qed.

(** The load test's report accounts for every expected
    delivery, although its shards are read one after the other while deliveries keep
    arriving: what is expected is what has arrived and what is missing; a delivery that
    has not arrived when the report is done is among the missing, and none is missing
    that had arrived when it was begun; so a report without missing ones, as one whose
    counts are equal, means that everything expected has arrived. *)
Lemma report_accounts_for_deliveries es before rep t' :
  fresh_history es → (∀ i, Forall arrival_event (before i)) → snapshot before (tracker_run es newTracker) = (rep, t') →
  let l := ledger_run es empty_ledger in
  let l' := ledger_run (es ++ (seq 0 trackerShardCount ≫= before)) empty_ledger in
  tracks t' l' ∧
  expectedCount rep = (receivedCount rep + List.length (missing rep))%nat ∧ receivedCount rep = List.length (latencies rep) ∧
  (∀ id label, awaited l id label → latency l' id label = None → (id +:+ "@" +:+ label)%string ∈ missing rep) ∧
  (∀ m, m ∈ missing rep → ∃ id label, m = (id +:+ "@" +:+ label)%string ∧ awaited l id label ∧ latency l id label = None) ∧
  (expectedCount rep = receivedCount rep → missing rep = [] ∧ all_arrived l').
Proof.
  intros Hf Hb Hrun. cbv zeta. set (l := ledger_run es empty_ledger).
  assert (ledger_run (es ++ (seq 0 trackerShardCount ≫= before)) empty_ledger = ledger_run (seq 0 trackerShardCount ≫= before) l) as ->.
  { unfold ledger_run, l. by rewrite foldl_app. }
  unfold snapshot in Hrun. destruct (read_shards before 0 trackerShardCount (tracker_run es newTracker)) as [ss t1] eqn:Hread.
  injection Hrun as <- <-.
  destruct (read_shards_parts before (tracker_run es newTracker) l ss t1 Hb (tracks_run _ _ es empty_tracks) (fresh_history_ok es Hf) Hread)
    as (v & Hlv & Hvl & Ht & Hok & Hok' & Hp). set (l' := ledger_run _ l) in *.
  pose proof (shards_deliveries ss v Hp) as Hperm. set (all := ss ≫= deliveries) in *.
  set (absent := omap (λ d : string * string * option Z, if d.2 is None then Some (d.1.1 +:+ "@" +:+ d.1.2)%string else None) all).
  assert (∀ m, m ∈ sort_strings absent ↔ ∃ id label, m = (id +:+ "@" +:+ label)%string ∧ awaited v id label ∧ latency v id label = None) as Habs.
  { intros m. unfold sort_strings. rewrite merge_sort_Permutation. unfold absent. rewrite list_elem_of_omap. split.
    - intros ([[id label] o] & Hin & Hm). rewrite Hperm in Hin. apply elem_of_ledger_deliveries in Hin as [Ha ->]. cbn in Hm.
      exists id, label. destruct (latency v id label); [done|]. injection Hm as <-. done.
    - intros (id & label & -> & Ha & Hn). exists (id, label, None). rewrite Hperm. split; [by apply elem_of_ledger_deliveries|done]. }
  assert (List.length all = (List.length (omap snd all) + List.length absent)%nat) as Hsum.
  { unfold absent. clear. induction all as [|[[id label] [a|]] all IH]; cbn; [done|rewrite IH; lia..]. }
  assert (List.length (sort_strings absent) = List.length absent) as Hlen by (unfold sort_strings; by rewrite merge_sort_Permutation).
  assert (sum_nat (ss ≫= λ s, (size ∘ snd) <$> map_to_list (expected s)) = List.length all) as Hexp.
  { rewrite (shards_expected_count ss v Hp). symmetry. by apply Permutation_length. }
  split; [done|]. cbn [report_of expectedCount receivedCount missing latencies]. fold all. fold absent. rewrite Hexp, Hlen.
  split; [done|]. split; [done|]. split; [|split].
  - intros id label Ha Hn. apply Habs. exists id, label. split; [done|]. split; [by apply (grows_awaited _ _ _ _ Hlv)|].
    destruct (latency v id label) as [a|] eqn:E; [|done]. apply (grows_latency _ _ _ _ _ Hvl) in E. congruence.
  - intros m (id & label & -> & Ha & Hn)%Habs. exists id, label. split; [done|]. split; [by apply (grows_awaited _ _ _ _ Hlv)|].
    destruct (latency l id label) as [a|] eqn:E; [|done]. apply (grows_latency _ _ _ _ _ Hlv) in E. congruence.
  - intros Heq. assert (absent = []) as Hnil by (apply nil_length_inv; lia). split; [by rewrite Hnil|].
    intros id label Ha. apply (grows_awaited _ _ _ _ Hvl) in Ha.
    destruct (latency v id label) as [a|] eqn:E; [exists a; by apply (grows_latency _ _ _ _ _ Hvl)|].
    exfalso. apply (not_elem_of_nil (id +:+ "@" +:+ label)%string). rewrite Hnil in Habs. apply Habs. by exists id, label.
Qed.

(** * The wait *)

(** An arrival that changes an entry leaves a signal. *)
Lemma no_signal_step t l e :
  arrival_event e → tracks t l → change (tracker_step t e) = false → change t = false ∧ entries (ledger_step l e) = entries l.
Proof.
  destruct e as [| |label id now|label err]; [done|done| |done]. intros _ Ht. cbn. unfold observe.
  rewrite (shard_expected _ _ Ht), (shard_received _ _ Ht). destruct (entries l !! id) as [x|] eqn:Hx; cbn; [|done].
  destruct (negb _); [done|]. rewrite arrivals_default. by destruct (e_latencies x !! label).
Qed.

Lemma no_signal_run t l es :
  Forall arrival_event es → tracks t l → change (tracker_run es t) = false →
  change t = false ∧ entries (ledger_run es l) = entries l.
Proof.
  intros Hes. revert t l. induction Hes as [|e es He _ IH]; intros t l Ht Hc; [done|].
  destruct (IH (tracker_step t e) (ledger_step l e)) as [Hc1 He1]; [by apply tracks_step|done|].
  destruct (no_signal_step t l e He Ht Hc1) as [Hc0 He0]. split; [done|]. cbn. fold (ledger_run es (ledger_step l e)). by rewrite He1.
Qed.

Lemma read_shards_run before i n t ss t' :
  read_shards before i n t = (ss, t') → t' = tracker_run (seq i n ≫= before) t.
Proof.
  revert i t ss t'. induction n as [|n IH]; intros i t ss t' Hrun; cbn [read_shards] in Hrun; [by injection Hrun as _ <-|].
  destruct (read_shards before (S i) n _) as [ss1 t1] eqn:Hrest. injection Hrun as _ <-. apply IH in Hrest as ->.
  change (seq i (S n)) with (i :: seq (S i) n). cbn [mbind list_bind]. unfold tracker_run. by rewrite foldl_app.
Qed.

Definition calm_turn (r : turn) : Prop := (∀ i, Forall arrival_event (while_counting r i)) ∧ Forall arrival_event (while_asleep r).

Lemma calm_counting r n i : calm_turn r → Forall arrival_event (seq i n ≫= while_counting r).
Proof. intros [Hc _]. apply Forall_bind, Forall_true, Hc. Qed.

Lemma tracks_take_signal t l : tracks t l → tracks (take_signal t) l.
Proof. by intros [? ? ? ? ? ? ?]. Qed.

Lemma all_arrived_mono l l' : grows l l' → all_arrived l → all_arrived l'.
Proof.
  intros Hg Hl id label Ha%(grows_awaited _ _ _ _ Hg). destruct (Hl id label Ha) as [a Hx]. exists a. by eapply grows_latency.
Qed.

(** The wait for deliveries that keep arriving returns at once with all of
    them only when all have arrived, and it is never asleep once they have: no signal is
    lost, although a full channel drops signals and the counting takes no lock on the
    whole. *)
Theorem wait_is_sound turns t l r t' :
  tracks t l → ledger_ok l → Forall calm_turn turns → wait turns t = (r, t') →
  ∃ l', tracks t' l' ∧ grows l l' ∧ (r = Complete → all_arrived l') ∧ (r = Asleep → ¬ all_arrived l').
Proof.
  intros Ht Hok Hturns. revert t l Ht Hok. induction Hturns as [|x turns Hx _ IH]; intros t l Ht Hok Hrun; cbn [wait] in Hrun.
  { injection Hrun as <- <-. by exists l. }
  unfold counts in Hrun. destruct (read_shards (while_counting x) 0 trackerShardCount t) as [ss t1] eqn:Hread.
  destruct (read_shards_parts _ t l ss t1 (proj1 Hx) Ht Hok Hread) as (v & Hlv & Hvl & Ht1 & Hokv & Hok1 & Hp).
  set (l1 := ledger_run _ l) in *. destruct (count_shards ss) as [e a] eqn:Hcount.
  pose proof (counts_equal ss v e a Hp Hokv Hcount) as Heq. destruct (Nat.eqb_spec e a) as [->|Hne].
  { injection Hrun as <- <-. exists l1. split; [done|]. split; [by etrans|]. split; [|done]. intros _. eapply all_arrived_mono; [done|by apply Heq]. }
  assert (¬ all_arrived v) as Hmiss by by rewrite <-Heq. set (t2 := tracker_run (while_asleep x) t1) in *. set (l2 := ledger_run (while_asleep x) l1).
  assert (tracks t2 l2) as Ht2 by by apply tracks_run. assert (grows l1 l2) as Hg2 by (apply arrivals_grow, Hx).
  assert (grows l l2) as Hg by (etrans; [exact Hlv|]; by etrans).
  destruct (woken_by x); [|injection Hrun as <- <-; by exists l2]. destruct (change t2) eqn:Hc.
  - apply (IH (take_signal t2) l2) in Hrun as (l' & ? & ? & ?); [|by apply tracks_take_signal|by apply arrivals_ok; [apply Hx|]].
    exists l'. split; [done|]. split; [by etrans|done].
  - injection Hrun as <- <-. exists l2. split; [done|]. split; [done|]. split; [done|]. intros _ Hall.
    destruct (no_signal_run t1 l1 (while_asleep x) (proj2 Hx) Ht1 Hc) as [Hc1 He2].
    apply read_shards_run in Hread as ->. destruct (no_signal_run t l _ (calm_counting x _ _ Hx) Ht Hc1) as [_ He1].
    assert (grows l2 v) as Hback. { etrans; [apply grows_same|exact Hlv]. unfold l2. rewrite He2. unfold l1. by rewrite He1. }
    apply Hmiss. by eapply all_arrived_mono.
Qed.
