(* ===== verification/LoadSend.v ===== *)
(** [cmd/im-loadtest/main.go], sending: the configuration, a JSON request, one message
    with its retry, the scheduling of all of them on a bounded number of slots, and the
    summary; then the users and their sessions, and what a connection's reader makes of
    its events. *)
From Stdlib Require Import Ascii String.
From S2P Require Import Prelude GoStd Text Json Numerals LoadTracker.
Open Scope Z_scope.

(** * Configuration *)

Record config : Type := Config {
  baseURL : string; metricsURL : string; databaseURL : string; allowedDB : string;
  users_count : Z; devicesPerUser : Z; messages_count : Z; concurrency : Z; targetRate : Z;
  trafficPattern : string; requestTimeout : Z; deliveryWait : Z; metricSampleInterval : Z;
  allowWrite : bool
}.

Definition trafficPatternRing : string := "ring".
Definition trafficPatternHot : string := "hot".

(** net/url's [ParseRequestURI], as far as it accepts. *)
Class URLSyntax := ParseRequestURI : string → bool.

(** Of several invalid URLs, Go's map order decides which is named. *)
Inductive config_error : Type :=
| NeedsAllowWrite | NeedsAllowDatabase | UsersOutOfRange | DevicesOutOfRange | TooManyLogins | MessagesOutOfRange
| ConcurrencyOutOfRange | RateOutOfRange | UnknownPattern | TimeoutsNotPositive | InvalidURL.

Definition validateConfig `{URLSyntax} (cfg : config) : result config_error unit :=
  if negb (allowWrite cfg) then Err NeedsAllowWrite
  else if bool_decide (TrimSpace (bytes_of (allowedDB cfg)) = []) then Err NeedsAllowDatabase
  else if (users_count cfg <? 2) || (10 <? users_count cfg) then Err UsersOutOfRange
  else if (devicesPerUser cfg <? 1) || (3 <? devicesPerUser cfg) then Err DevicesOutOfRange
  else if 30 <? users_count cfg * devicesPerUser cfg then Err TooManyLogins
  else if (messages_count cfg <? 1) || (100000 <? messages_count cfg) then Err MessagesOutOfRange
  else if (concurrency cfg <? 1) || (1000 <? concurrency cfg) then Err ConcurrencyOutOfRange
  else if (targetRate cfg <? 0) || (100000 <? targetRate cfg) then Err RateOutOfRange
  else if negb (bool_decide (trafficPattern cfg = trafficPatternRing)) && negb (bool_decide (trafficPattern cfg = trafficPatternHot))
  then Err UnknownPattern
  else if (requestTimeout cfg <=? 0) || (deliveryWait cfg <=? 0) || (metricSampleInterval cfg <=? 0) then Err TimeoutsNotPositive
  else if forallb ParseRequestURI [baseURL cfg; metricsURL cfg; databaseURL cfg] then Ok tt
  else Err InvalidURL.

(** * Names *)

(** [%0<width>d] of a number that is not negative. *)
Definition padded (width : nat) (n : Z) : string :=
  let digits := FormatInt n in String.concat EmptyString (replicate (width - String.length digits) "0"%string) +:+ digits.

Definition client_message_id (runID : string) (index : nat) : string :=
  "msg_" +:+ runID +:+ "_" +:+ padded 8 (Z.of_nat index + 1).

Definition device_label (user device : Z) : string := "u" +:+ padded 2 (user + 1) +:+ "-d" +:+ padded 2 (device + 1).

(** [index] is not negative, so Go's remainder is [mod]. *)
Definition messageParticipants (pattern : string) (index userCount : Z) : Z * Z :=
  if bool_decide (pattern = trafficPatternHot) then (index mod 2, 1 - index mod 2)
  else (index mod userCount, (index mod userCount + 1) mod userCount).

(** * Requests *)

Record apiMessage : Type := MkApiMessage {
  api_ID : Z; api_ConversationID : Z; api_ConversationSeq : Z; api_ClientMessageID : string;
  api_SenderID : Z; api_ReceiverID : Z; api_Content : string
}.
Definition zero_message : apiMessage := MkApiMessage 0 0 0 EmptyString 0 0 EmptyString.

(** What comes back: nothing, a body that breaks off, or a status with its Retry-After,
    the [error] of the body and what the body decodes to (at most a mebibyte is read). *)
Inductive load_reply (A : Type) : Type :=
| Unreachable (err : string)
| Broken (status : Z) (retryAfter err : string)
| Answered (status : Z) (retryAfter error : string) (body : option A).
Arguments Unreachable {A} _.
Arguments Broken {A} _ _ _.
Arguments Answered {A} _ _ _ _.

Definition success_status (status : Z) : bool := (200 <=? status) && (status <? 300).

(** Status, Retry-After, error and output of [doJSON]. *)
Definition doJSON {A} (zero : A) (reply : load_reply A) : Z * string * option string * A :=
  match reply with
  | Unreachable err => (0, EmptyString, Some err, zero)
  | Broken status retryAfter err => (status, retryAfter, Some err, zero)
  | Answered status retryAfter error body =>
      if success_status status then
        match body with
        | Some a => (status, retryAfter, None, a)
        | None => (status, retryAfter, Some "decode response"%string, zero)
        end
      else if bool_decide (error = EmptyString) then (status, retryAfter, None, zero)
      else (status, retryAfter, Some error, zero)
  end.

(** * One message *)

Record sendResult : Type := SendResult {
  clientMessageID : string; message : apiMessage; send_latency : Z; status : Z; attempts : Z;
  recovered : bool; dropped : bool; err : string
}.

Definition http_error (status : Z) : string := "HTTP " +:+ FormatInt status.

(** What an attempt makes of the result, and whether the loop is left. *)
Definition after_attempt (attempt : Z) (reply : load_reply apiMessage) (r : sendResult) : sendResult * bool :=
  let '(st, _, requestErr, created) := doJSON zero_message reply in
  let r := SendResult (clientMessageID r) (message r) (send_latency r) st attempt (recovered r) (dropped r) (err r) in
  if bool_decide (requestErr = None) && ((st =? 201) || (st =? 200)) then
    (SendResult (clientMessageID r) created (send_latency r) st attempt ((1 <? attempt) || (st =? 200)) (dropped r) (err r), true)
  else if (attempt =? 1) && ((st =? 0) || (500 <=? st)) then (r, false)
  else (SendResult (clientMessageID r) (message r) (send_latency r) st attempt (recovered r) (dropped r)
          (default (http_error st) requestErr), false).

Record testUser : Type := TestUser { user_ID : Z; Username : string; Password : string; Sessions : list string }.

(** The API under load; a user's sessions are their access tokens. *)
Record conversationListPage : Type := ConversationListPage {
  lp_Conversations : list (Z * Z); lp_NextCursor : Z; lp_SnapshotCursor : Z; lp_HasMore : bool
}.
Record conversationSyncPage : Type := ConversationSyncPage {
  sp_ConversationID : Z; sp_Messages : list apiMessage; sp_NextCursor : Z; sp_SnapshotCursor : Z; sp_HasMore : bool
}.
Class LoadTarget (S : Type) := {
  post_message : string → string → Z → string → S → load_reply apiMessage * S;
  get_conversations : string → Z → option Z → S → load_reply conversationListPage * S;
  get_stream : string → Z → Z → option Z → S → load_reply conversationSyncPage * S
}.

Definition delivery_labels (cfg : config) (sender receiver : Z) : list string :=
  seqZ 0 (devicesPerUser cfg) ≫= λ device, [device_label sender device; device_label receiver device].

Definition load_content (runID : string) (index : nat) : string :=
  "load test " +:+ runID +:+ " message " +:+ FormatInt (Z.of_nat index + 1).

(** Sender and receiver of a message, with the sender's access token; an index out of
    range is a panic. *)
Definition load_parties (cfg : config) (users : list testUser) (index : nat) : option (Z * Z * string * Z) :=
  let '(sender, receiver) := messageParticipants (trafficPattern cfg) (Z.of_nat index) (Z.of_nat (List.length users)) in
  u ← users !! Z.to_nat sender; token ← head (Sessions u); v ← users !! Z.to_nat receiver;
  Some (sender, receiver, token, user_ID v).

(** The end of [sendOne]: a result without a message has an error, and is not expected
    any more. *)
Definition without_message (latency : Z) (r : sendResult) : sendResult * list tracker_event :=
  if api_ID (message r) =? 0 then
    (SendResult (clientMessageID r) (message r) latency (status r) (attempts r) (recovered r) (dropped r)
       (if bool_decide (err r = EmptyString) then "HTTP " +:+ FormatInt (status r) +:+ " returned no message" else err r),
     [Drop (clientMessageID r)])
  else (SendResult (clientMessageID r) (message r) latency (status r) (attempts r) (recovered r) (dropped r) (err r), []).

(** Where [sendOne] stands: it locks the tracker, calls the target, locks the tracker. *)
Inductive send_phase : Type :=
| Begun
| Posting (attempt : Z) (r : sendResult)
| Posted (r : sendResult)
| Returned (r : sendResult).

Section sending.
Context {T : Type} `{!LoadTarget T}.

(** Its next operation, with what it does to the tracker; [now] and [latency] are the
    clock's. *)
Definition sendOne_step (cfg : config) (runID : string) (users : list testUser) (index : nat) (now latency : Z)
    (phase : send_phase) (s : T) : option (send_phase * list tracker_event * T) :=
  '(sender, receiver, token, receiverID) ← load_parties cfg users index;
  let clientID := client_message_id runID index in
  match phase with
  | Begun => Some (Posting 1 (SendResult clientID zero_message 0 0 0 false false EmptyString),
                   [Expect clientID now (delivery_labels cfg sender receiver)], s)
  | Posting attempt r =>
      let '(reply, s) := post_message token clientID receiverID (load_content runID index) s in
      let '(r, over) := after_attempt attempt reply r in
      Some (if over || (attempt =? 2) then Posted r else Posting (attempt + 1) r, [], s)
  | Posted r => let '(r, events) := without_message latency r in Some (Returned r, events, s)
  | Returned _ => None
  end.

Fixpoint sendOne_steps (n : nat) (cfg : config) (runID : string) (users : list testUser) (index : nat) (now latency : Z)
    (phase : send_phase) (s : T) : option (sendResult * list tracker_event * T) :=
  match phase, n with
  | Returned r, _ => Some (r, [], s)
  | _, O => None
  | _, S n =>
      '(phase, events, s) ← sendOne_step cfg runID users index now latency phase s;
      '(r, events', s) ← sendOne_steps n cfg runID users index now latency phase s;
      Some (r, events ++ events', s)
  end.

(** At most two attempts. *)
Definition sendOne (cfg : config) (runID : string) (users : list testUser) (index : nat) (now latency : Z) (s : T) :
    option (sendResult * list tracker_event * T) :=
  sendOne_steps 4 cfg runID users index now latency Begun s.
End sending.

Definition droppedSend (runID : string) (index : nat) (reason : string) : sendResult :=
  SendResult (client_message_id runID index) zero_message 0 0 0 false true ("not started: " +:+ reason).

(** * All of them *)

(** [next_index] is the loop's index; a goroutine holds its slot from its start until
    after its result is in the channel.  [history] is what happened to the tracker. *)
Record load_state (T : Type) : Type := LoadState {
  next_index : nat; running : list (nat * send_phase); finishing : nat; results : list sendResult;
  target : T; history : list tracker_event
}.
Arguments LoadState {T} _ _ _ _ _ _.
Arguments next_index {T} _.
Arguments running {T} _.
Arguments finishing {T} _.
Arguments results {T} _.
Arguments target {T} _.
Arguments history {T} _.

Definition slots {T} (x : load_state T) : nat := List.length (running x) + finishing x.

Definition cancelled_reason (cfg : config) : string :=
  if 0 <? targetRate cfg then "load context cancelled before scheduled start" else "load context cancelled before request start".

Section scheduling.
Context {T : Type} `{!LoadTarget T}.
Context (cfg : config) (runID : string) (users : list testUser).
(** Whether anyone cancels the context; [main] does not. *)
Context (cancellable : bool).

(** The channel of slots is full or it is not. *)
Inductive load_step : load_state T → load_state T → Prop :=
| LoadStart n l f rs s es :
    (Z.of_nat n < messages_count cfg)%Z → (Z.of_nat (List.length l + f) < concurrency cfg)%Z →
    load_step (LoadState n l f rs s es) (LoadState (n + 1) ((n, Begun) :: l) f rs s es)
| LoadBusy n l f rs s es :
    (Z.of_nat n < messages_count cfg)%Z → (0 < targetRate cfg)%Z → (concurrency cfg ≤ Z.of_nat (List.length l + f))%Z →
    load_step (LoadState n l f rs s es)
      (LoadState (n + 1) l f (droppedSend runID n "max in-flight requests reached" :: rs) s es)
| LoadCancelled n l f rs s es :
    cancellable = true → (Z.of_nat n < messages_count cfg)%Z →
    load_step (LoadState n l f rs s es) (LoadState (n + 1) l f (droppedSend runID n (cancelled_reason cfg) :: rs) s es)
| LoadSender n l1 i phase l2 f rs s es now latency phase' events s' :
    sendOne_step cfg runID users i now latency phase s = Some (phase', events, s') →
    load_step (LoadState n (l1 ++ (i, phase) :: l2) f rs s es) (LoadState n (l1 ++ (i, phase') :: l2) f rs s' (es ++ events))
| LoadAnswered n l1 i r l2 f rs s es :
    load_step (LoadState n (l1 ++ (i, Returned r) :: l2) f rs s es) (LoadState n (l1 ++ l2) (f + 1) (r :: rs) s es)
| LoadReleased n l f rs s es :
    load_step (LoadState n l (f + 1) rs s es) (LoadState n l f rs s es).

(** What happens meanwhile: the target does as it likes, and deliveries come. *)
Inductive load_meanwhile : load_state T → load_state T → Prop :=
| TargetMoves n l f rs s es s' : load_meanwhile (LoadState n l f rs s es) (LoadState n l f rs s' es)
| Arrival n l f rs s es e : arrival_event e → load_meanwhile (LoadState n l f rs s es) (LoadState n l f rs s (es ++ [e])).

(** Some steps of its own, among others'. *)
Inductive load_run : nat → load_state T → load_state T → Prop :=
| LoadDone x : load_run 0 x x
| LoadOwn k x y z : load_run k x y → load_step y z → load_run (k + 1) x z
| LoadOther k x y z : load_run k x y → load_meanwhile y z → load_run k x z.

Definition load_begin (s : T) : load_state T := LoadState 0 [] 0 [] s [].

(** [requests.Wait()] returns after the loop. *)
Definition load_over (x : load_state T) : Prop :=
  (messages_count cfg ≤ Z.of_nat (next_index x))%Z ∧ running x = [] ∧ finishing x = 0%nat.
End scheduling.

(** [sort.Slice] by client message id. *)
Definition collected (rs : list sendResult) : list sendResult :=
  merge_sort (λ a b, Is_true (String.leb (clientMessageID a) (clientMessageID b))) rs.

(** * The summary *)

Record send_summary : Type := SendSummary {
  sum_successful : nat; sum_recovered : nat; sum_dropped : nat; sum_errors : list string; sum_latencies : list Z
}.

Definition summarize_one (acc : send_summary) (r : sendResult) : send_summary :=
  let d := if dropped r then S (sum_dropped acc) else sum_dropped acc in
  let ls := if dropped r then sum_latencies acc else sum_latencies acc ++ [send_latency r] in
  if bool_decide (err r = EmptyString)
  then SendSummary (S (sum_successful acc)) (if recovered r then S (sum_recovered acc) else sum_recovered acc) d (sum_errors acc) ls
  else SendSummary (sum_successful acc) (sum_recovered acc) d (sum_errors acc ++ [clientMessageID r +:+ ": " +:+ err r]) ls.

Definition summarizeSends (rs : list sendResult) : send_summary := foldl summarize_one (SendSummary 0 0 0 [] []) rs.

(** * The database *)

(** The two queries' answers. *)
Definition validateDatabase (current_database : result string string) (users_table : result string bool) (allowed : string) :
    result string string :=
  actual ← current_database;
  if negb (bool_decide (actual = allowed)) then Err ("connected to another database than -allow-database: " +:+ actual)
  else
    exists_ ← users_table;
    if (exists_ : bool) then Ok actual else Err "users table is missing; initialize the IM schema first"%string.

(** * Users *)

(** The password hash and [INSERT INTO users ... RETURNING id]. *)
Class LoadUsers (T : Type) := {
  hashPassword : string → T → result string string * T;
  insert_user : string → string → string → T → result string Z * T;
  post_login : string → string → string → string → T → load_reply string * T
}.

Definition load_username (runID : string) (index : Z) : string := "lt_" +:+ runID +:+ "_" +:+ padded 2 (index + 1).
Definition load_password (runID : string) (index : Z) : string := "Load_" +:+ runID +:+ "_" +:+ padded 2 (index + 1) +:+ "!".

Section setup.
Context {T : Type} `{!LoadUsers T}.

Fixpoint seed_from (runID : string) (index : Z) (n : nat) (users : list testUser) (s : T) : result string (list testUser) * T :=
  match n with
  | O => (Ok users, s)
  | S n =>
      let username := load_username runID index in
      let password := load_password runID index in
      let '(hash, s) := hashPassword password s in
      match hash with
      | Err e => (Err e, s)
      | Ok hash =>
          let '(id, s) := insert_user username ("Load Test " +:+ FormatInt (index + 1)) hash s in
          match id with
          | Err e => (Err ("insert " +:+ username +:+ ": " +:+ e), s)
          | Ok id => seed_from runID (index + 1) n (users ++ [TestUser id username password []]) s
          end
      end
  end.

Definition seedUsers (runID : string) (count : Z) (s : T) : result string (list testUser) * T :=
  seed_from runID 0 (Z.to_nat count) [] s.

Definition device_id (runID : string) (user device : Z) : string :=
  "load-" +:+ runID +:+ "-u" +:+ padded 2 (user + 1) +:+ "-d" +:+ padded 2 (device + 1).
Definition login_request_id (runID : string) (user device : Z) : string :=
  "login_" +:+ runID +:+ "_u" +:+ padded 2 (user + 1) +:+ "_d" +:+ padded 2 (device + 1).

(** A user's devices from [device] on; the sessions are the answers' access tokens. *)
Fixpoint login_devices (runID : string) (user device : Z) (n : nat) (u : testUser) (s : T) : result string testUser * T :=
  match n with
  | O => (Ok u, s)
  | S n =>
      let deviceID := device_id runID user device in
      let '(reply, s) := post_login (Username u) (Password u) (login_request_id runID user device) deviceID s in
      let '(status, retryAfter, err, token) := doJSON EmptyString reply in
      if status =? 429 then (Err ("login " +:+ deviceID +:+ " returned 429; Retry-After=" +:+ retryAfter), s)
      else
        match err with
        | Some text => (Err ("login " +:+ deviceID +:+ ": " +:+ text), s)
        | None =>
            if negb (status =? 200) then (Err ("login " +:+ deviceID +:+ " returned HTTP " +:+ FormatInt status), s)
            else login_devices runID user (device + 1) n (TestUser (user_ID u) (Username u) (Password u) (Sessions u ++ [token])) s
        end
  end.

Fixpoint login_users (cfg : config) (runID : string) (user : Z) (users : list testUser) (s : T) : result string (list testUser) * T :=
  match users with
  | [] => (Ok [], s)
  | u :: users =>
      let '(r, s) := login_devices runID user 0 (Z.to_nat (devicesPerUser cfg)) u s in
      match r with
      | Err e => (Err e, s)
      | Ok u =>
          let '(rest, s) := login_users cfg runID (user + 1) users s in
          (match rest with Ok users => Ok (u :: users) | Err e => Err e end, s)
      end
  end.

Definition loginDevices (cfg : config) (runID : string) (users : list testUser) (s : T) : result string (list testUser) * T :=
  login_users cfg runID 0 users s.

(** What the users come from. *)
Definition load_users (cfg : config) (runID : string) (s : T) : result string (list testUser) * T :=
  let '(r, s) := seedUsers runID (users_count cfg) s in
  match r with Err e => (Err e, s) | Ok users => loginDevices cfg runID users s end.

End setup.

(** * Readers *)

Record wsEnvelope : Type := WsEnvelope {
  env_Type : string; env_ConversationID : Z; env_ConversationSeq : Z; env_Message : apiMessage
}.

(** What a read gives: an error with its close status, or a payload that decodes or not;
    a normal closure and a cancelled context end the reader without a complaint. *)
Inductive socket_read : Type :=
| ReadFails (cancelled : bool) (close_status : Z) (err : string)
| ReadsPayload (envelope : result string wsEnvelope).

Definition StatusNormalClosure : Z := 1000.
Definition StatusGoingAway : Z := 1001.

(** The tracker events of one turn, and whether the reader goes on. *)
Definition readWebSocket (label : string) (now : Z) (r : socket_read) : list tracker_event * bool :=
  match r with
  | ReadFails cancelled close_status err =>
      (if negb cancelled && negb (close_status =? StatusNormalClosure) && negb (close_status =? StatusGoingAway)
       then [ReaderError label err] else [], false)
  | ReadsPayload (Err e) => ([ReaderError label ("decode event: " +:+ e)], true)
  | ReadsPayload (Ok envelope) =>
      if bool_decide (env_Type envelope = "message.created"%string) then
        if (env_ConversationID envelope <=? 0) || (env_ConversationSeq envelope <=? 0) ||
           negb (api_ConversationID (env_Message envelope) =? env_ConversationID envelope) ||
           negb (api_ConversationSeq (env_Message envelope) =? env_ConversationSeq envelope)
        then ([ReaderError label "message.created has an invalid conversation cursor"], true)
        else ([Observe label (api_ClientMessageID (env_Message envelope)) now], true)
      else ([], true)
  end.
