(* ===== verification/LoadSendOk.v ===== *)
(** One message of the load test, the invariant of all of them, and what set-up
    gives them. *)
From Stdlib Require Import Ascii String.
From S2P Require Import Prelude GoStd Numerals LoadTracker LoadTrackerOk LoadSend.
Open Scope Z_scope.

(** * Names *)

Lemma parse_digits_zeros k s : parse_digits 0 (String.concat EmptyString (replicate k "0"%string) +:+ s) = parse_digits 0 s.
Proof. induction k as [|k IH]; [done|]. destruct k as [|k]; [done|]. by rewrite <-IH. Qed.

Lemma parse_padded width n : 0 < n → parse_digits 0 (padded width n) = Some n.
Proof.
  intros Hn. unfold padded. rewrite parse_digits_zeros. destruct n as [|p|]; [done| |done].
  rewrite FormatInt_pos. unfold digits_of. by rewrite parse_digits_go.
Qed.

Lemma append_inj a s t : a +:+ s = a +:+ t → s = t.
Proof. induction a as [|c a IH]; [done|]. intros [= H]. by apply IH. Qed.

#[export] Instance client_message_id_inj runID : Inj (=) (=) (client_message_id runID).
Proof.
  intros i j H. unfold client_message_id in H. repeat apply append_inj in H.
  apply (f_equal (parse_digits 0)) in H. rewrite !parse_padded in H by lia. injection H as H. lia.
Qed.

(** * Participants *)

Lemma participants_differ pattern index n :
  0 ≤ index → 2 ≤ n → let '(a, b) := messageParticipants pattern index n in 0 ≤ a < n ∧ 0 ≤ b < n ∧ a ≠ b.
Proof.
  intros Hi Hn. unfold messageParticipants. case_bool_decide.
  - pose proof (Z.mod_pos_bound index 2). split; [lia|]. split; lia.
  - pose proof (Z.mod_pos_bound index n). pose proof (Z.mod_pos_bound (index mod n + 1) n).
    split; [lia|]. split; [lia|]. intros Heq. pose proof (Z.div_mod (index mod n + 1) n ltac:(lia)) as Hd.
    rewrite <-Heq in Hd. clear Heq. revert Hd. generalize (index mod n) ((index mod n + 1) / n). intros r q Hd.
    assert (n * q = 1) as Hq by lia. destruct (Z.eq_mul_1 _ _ Hq); lia.
Qed.

(** Every user that the loop may pick has logged in. *)
Definition logged_in (users : list testUser) : Prop :=
  (2 ≤ List.length users)%nat ∧ Forall (λ u, Sessions u ≠ []) users.

Lemma load_parties_total cfg users index : logged_in users → is_Some (load_parties cfg users index).
Proof.
  intros [Hn Hall]. unfold load_parties. pose proof (participants_differ (trafficPattern cfg) (Z.of_nat index) (Z.of_nat (List.length users))) as H.
  destruct (messageParticipants _ _ _) as [a b]. destruct H as (Ha & Hb & _); [lia..|].
  destruct (lookup_lt_is_Some_2 users (Z.to_nat a)) as [u Hu]; [lia|]. destruct (lookup_lt_is_Some_2 users (Z.to_nat b)) as [v Hv]; [lia|].
  pose proof (proj1 (Forall_lookup _ _) Hall _ _ Hu) as Hs. cbn in Hs. rewrite Hu. cbn. destruct (Sessions u) as [|token l]; [by destruct Hs|].
  cbn. rewrite Hv. by eexists.
Qed.

(** * One message *)

Lemma http_error_text status : http_error status ≠ EmptyString.
Proof. done. Qed.

Lemma after_attempt_id k reply r : clientMessageID (after_attempt k reply r).1 = clientMessageID r ∧ dropped (after_attempt k reply r).1 = dropped r.
Proof.
  unfold after_attempt. destruct (doJSON _ _) as [[[st ra] e] m]. destruct (_ && _); [done|]. by destruct (_ && _).
Qed.

(** A result that is returned has an error or a message, and is forgotten without one. *)
Lemma without_message_spec latency r r' events :
  without_message latency r = (r', events) →
  clientMessageID r' = clientMessageID r ∧ dropped r' = dropped r ∧ message r' = message r ∧
  (err r' = EmptyString → api_ID (message r') ≠ 0 ∧ events = []) ∧ (∀ e, e ∈ events → e = Drop (clientMessageID r)).
Proof.
  unfold without_message. destruct (Z.eqb_spec (api_ID (message r)) 0); intros [= <- <-]; cbn.
  - split; [done|]. split; [done|]. split; [done|]. split; [by case_bool_decide|]. by intros ? ->%list_elem_of_singleton.
  - split; [done|]. split; [done|]. split; [done|]. split; [done|]. by intros ? ?%elem_of_nil.
Qed.

(** * All of them *)

Section invariant.
Context {T : Type} `{!LoadTarget T}.
Context (cfg : config) (runID : string) (users : list testUser).
Implicit Types (x y : load_state T) (es : list tracker_event).

Abbreviation cid := (client_message_id runID).

(** The message an event of a sender is about. *)
Definition about (e : tracker_event) : option string :=
  match e with Expect id _ _ | Drop id => Some id | _ => None end.

Definition expected_in es (i : nat) : Prop :=
  ∃ at_ sender receiver token receiverID, load_parties cfg users i = Some (sender, receiver, token, receiverID) ∧
    Expect (cid i) at_ (delivery_labels cfg sender receiver) ∈ es ∧ Drop (cid i) ∉ es.

Definition result_ok es (i : nat) (r : sendResult) : Prop :=
  clientMessageID r = cid i ∧ (err r = EmptyString → dropped r = false ∧ api_ID (message r) ≠ 0 ∧ expected_in es i).

Definition phase_ok es (i : nat) (phase : send_phase) : Prop :=
  match phase with
  | Begun => ∀ e, e ∈ es → about e ≠ Some (cid i)
  | Posting a r => (a = 1 ∨ a = 2) ∧ clientMessageID r = cid i ∧ dropped r = false ∧ expected_in es i
  | Posted r => clientMessageID r = cid i ∧ dropped r = false ∧ expected_in es i
  | Returned r => result_ok es i r
  end.

Definition phase_weight (phase : send_phase) : nat :=
  match phase with Begun => 6 | Posting a _ => if a =? 1 then 5 else 4 | Posted _ => 3 | Returned _ => 2 end.

Lemma expected_frame es events i : (∀ e, e ∈ events → about e ≠ Some (cid i)) → expected_in es i → expected_in (es ++ events) i.
Proof.
  intros Hev (at_ & a & b & token & id & Hp & He & Hd). exists at_, a, b, token, id. split; [done|].
  rewrite !elem_of_app. split; [by left|]. intros [?|H]; [done|]. by apply (Hev _ H).
Qed.

Lemma result_frame es events i r : (∀ e, e ∈ events → about e ≠ Some (cid i)) → result_ok es i r → result_ok (es ++ events) i r.
Proof. intros Hev [Hid H]. split; [done|]. intros He. destruct (H He) as (? & ? & ?). by eauto using expected_frame. Qed.

Lemma phase_frame es events i phase : (∀ e, e ∈ events → about e ≠ Some (cid i)) → phase_ok es i phase → phase_ok (es ++ events) i phase.
Proof.
  intros Hev. destruct phase as [|a r|r|r]; cbn.
  - intros H e [?|?]%elem_of_app; [by apply H|by apply Hev].
  - intros (? & ? & ? & ?). split_and!; auto using expected_frame.
  - intros (? & ? & ?). split_and!; auto using expected_frame.
  - by apply result_frame.
Qed.

Lemma sendOne_step_ok i now latency phase s phase' events s' es :
  phase_ok es i phase → sendOne_step cfg runID users i now latency phase s = Some (phase', events, s') →
  phase_ok (es ++ events) i phase' ∧ (phase_weight phase' < phase_weight phase)%nat ∧
  (∀ e, e ∈ events → about e = Some (cid i)) ∧ (omap expect_id events = [] ∨ omap expect_id events = [cid i] ∧ phase = Begun).
Proof.
  intros Hok Hstep. unfold sendOne_step in Hstep.
  destruct (load_parties cfg users i) as [[[[a b] token] id]|] eqn:Hp; [|done]. cbn in Hstep. destruct phase as [|k r|r|r]; cbn in Hok.
  - injection Hstep as <- <- <-. cbn. split; [|split; [lia|split; [|by right]]].
    + split; [by left|]. split; [done|]. split; [done|]. exists now, a, b, token, id. split; [done|]. rewrite !elem_of_app. split; [right; by left|].
      intros [H|H%list_elem_of_singleton]; [by apply (Hok _ H)|done].
    + intros e ->%list_elem_of_singleton. done.
  - destruct Hok as (Hk & Hid & Hd & He). destruct (post_message _ _ _ _ _) as [reply s1].
    destruct (after_attempt k reply r) as [r1 over] eqn:Ha. injection Hstep as <- <- <-. rewrite app_nil_r.
    pose proof (after_attempt_id k reply r) as [Hid1 Hd1]. rewrite Ha in Hid1, Hd1. cbn in Hid1, Hd1.
    split; [|split; [|split; [by intros e ?%elem_of_nil|by left]]].
    + destruct (over || _) eqn:Ho; cbn; [|split; [|by rewrite Hid1, Hd1]]; [by rewrite Hid1, Hd1|].
      apply orb_false_iff in Ho as [_ Ho%Z.eqb_neq]. lia.
    + destruct Hk as [-> | ->]; [destruct over; vm_compute; lia|]. rewrite orb_true_r. cbn. lia.
  - destruct Hok as (Hid & Hd & He). destruct (without_message latency r) as [r1 ev] eqn:Hw. injection Hstep as <- <- <-.
    apply without_message_spec in Hw as (Hid1 & Hd1 & Hm & Herr & Hdrop). split; [|split; [cbn; lia|split]].
    + split; [congruence|]. intros [H ->]%Herr. rewrite app_nil_r. split; [congruence|]. done.
    + intros e ->%Hdrop. cbn. by rewrite Hid.
    + left. clear Herr. induction ev as [|e ev IH]; [done|]. rewrite (Hdrop e) by by left. apply IH. intros e' ?. apply Hdrop. by right.
  - done.
Qed.

(** ** The invariant *)

Context (cancellable : bool).
Abbreviation lstep := (load_step cfg runID users cancellable).

Record load_inv x : Prop := LoadInv {
  li_ids : (clientMessageID <$> results x) ++ (cid ∘ fst <$> running x) ≡ₚ cid <$> seq 0 (next_index x);
  li_next : Z.of_nat (next_index x) ≤ Z.max 0 (messages_count cfg);
  li_slots : Z.of_nat (slots x) ≤ Z.max 0 (concurrency cfg);
  li_running : Forall (λ p, phase_ok (history x) p.1 p.2) (running x);
  li_results : Forall (λ r, ∃ i, result_ok (history x) i r) (results x);
  li_fresh : NoDup (omap expect_id (history x));
  li_about : ∀ e id, e ∈ history x → about e = Some id → ∃ i, (i < next_index x)%nat ∧ id = cid i
}.

Lemma ids_nodup x : load_inv x → NoDup ((clientMessageID <$> results x) ++ (cid ∘ fst <$> running x)).
Proof. intros Hx. rewrite (li_ids _ Hx). apply NoDup_fmap_2, NoDup_seq. apply _. Qed.

Lemma expect_about es id : id ∈ omap expect_id es → ∃ e, e ∈ es ∧ about e = Some id.
Proof. intros (e & He & Hid)%list_elem_of_omap. exists e. split; [done|]. by destruct e. Qed.

(** A loop's turn that adds a result or a goroutine for its index. *)
Lemma load_inv_turn n l f rs s es l' rs' :
  load_inv (LoadState n l f rs s es) → Z.of_nat n < messages_count cfg →
  (clientMessageID <$> rs') ++ (cid ∘ fst <$> l') ≡ₚ cid n :: (clientMessageID <$> rs) ++ (cid ∘ fst <$> l) →
  Z.of_nat (List.length l' + f) ≤ Z.max 0 (concurrency cfg) →
  (∀ p, p ∈ l' → p ∈ l ∨ p = (n, Begun)) → (∀ r, r ∈ rs' → r ∈ rs ∨ result_ok es n r) →
  load_inv (LoadState (n + 1) l' f rs' s es).
Proof.
  intros [Hids Hnext Hslots Hrun Hres Hfresh Habout] Hn Hperm Hslots' Hl Hrs. cbn in *. split; cbn; [|lia|done| | |done|].
  - rewrite Hperm, Hids, seq_app, fmap_app. cbn. by rewrite Permutation_app_comm.
  - apply Forall_forall. intros p [Hp | ->]%Hl; [by apply (proj1 (Forall_forall _ _) Hrun)|]. cbn. intros e He Hid.
    destruct (Habout _ _ He Hid) as (i & Hi & Heq%(inj cid)). lia.
  - apply Forall_forall. intros r [Hr|Hr]%Hrs; [by apply (proj1 (Forall_forall _ _) Hres)|by exists n].
  - intros e id He Hid. destruct (Habout _ _ He Hid) as (i & Hi & ->). exists i. split; [lia|done].
Qed.

Lemma dropped_ok es n reason : result_ok es n (droppedSend runID n reason).
Proof. split; [done|]. cbn. intros H. destruct reason; discriminate. Qed.

(** What happens to the tracker on one goroutine's account leaves the others' as they are. *)
Lemma load_inv_sender n l1 i phase l2 f rs s es phase' events s' now latency :
  load_inv (LoadState n (l1 ++ (i, phase) :: l2) f rs s es) →
  sendOne_step cfg runID users i now latency phase s = Some (phase', events, s') →
  load_inv (LoadState n (l1 ++ (i, phase') :: l2) f rs s' (es ++ events)).
Proof.
  intros Hx Hstep. pose proof (ids_nodup _ Hx) as Hnd. destruct Hx as [Hids Hnext Hslots Hrun Hres Hfresh Habout]. cbn in *.
  apply Forall_app in Hrun as [Hrun1 [Hphase Hrun2]%Forall_cons]. cbn in Hphase.
  destruct (sendOne_step_ok _ _ _ _ _ _ _ _ _ Hphase Hstep) as (Hphase' & _ & Hev & Hexp).
  assert (∀ e j, e ∈ events → cid j ≠ cid i → about e ≠ Some (cid j)) as Hother by (intros e j He Hne; rewrite (Hev _ He); congruence).
  rewrite !fmap_app, fmap_cons in Hnd, Hids. cbn in Hnd, Hids.
  assert (cid i ∉ (clientMessageID <$> rs) ++ (cid ∘ fst <$> l1 ++ l2)) as Hout.
  { eapply NoDup_cons_1_1, NoDup_Permutation_proper; [|exact Hnd]. rewrite fmap_app. solve_Permutation. }
  rewrite elem_of_app, !list_elem_of_fmap in Hout.
  assert (∀ l, (∀ p, p ∈ l → p ∈ l1 ++ l2) → Forall (λ p, phase_ok es p.1 p.2) l → Forall (λ p, phase_ok (es ++ events) p.1 p.2) l) as Hframe.
  { intros l Hl Hall. apply Forall_forall. intros p Hp. apply phase_frame; [|by apply (proj1 (Forall_forall _ _) Hall)].
    intros e He. apply Hother; [done|]. intros Heq. apply Hout. right. exists p. split; [done|]. by apply Hl. }
  split; cbn.
  - by rewrite fmap_app.
  - done.
  - rewrite length_app in *. done.
  - apply Forall_app. split; [apply Hframe; [intros p Hp; apply elem_of_app; auto|done]|].
    constructor; [done|]. apply Hframe; [intros p Hp; apply elem_of_app; auto|done].
  - apply Forall_forall. intros r Hr. destruct (proj1 (Forall_forall _ _) Hres r Hr) as [j Hj]. exists j. apply result_frame; [|done].
    intros e He. apply Hother; [done|]. intros Heq. apply Hout. left. exists r. split; [|done]. destruct Hj as [-> _]. done.
  - rewrite omap_of_app. destruct Hexp as [-> | [-> ->]]; [by rewrite app_nil_r|]. apply NoDup_app. split; [done|].
    split; [|apply NoDup_singleton]. intros id (e & He & Hid)%expect_about ->%list_elem_of_singleton. by apply (Hphase e).
  - intros e id [He|He]%elem_of_app Hid; [by eapply Habout|]. rewrite (Hev _ He) in Hid. injection Hid as <-.
    assert (cid i ∈ cid <$> seq 0 n) as (j & Hj & Hseq)%list_elem_of_fmap; [|apply (inj cid) in Hj as ->; exists j; apply elem_of_seq in Hseq; split; [lia|done]].
    rewrite <-Hids. rewrite !elem_of_app, elem_of_cons. auto.
Qed.

Lemma load_inv_step x y : load_inv x → lstep x y → load_inv y.
Proof.
  intros Hx. destruct 1 as [n l f rs s es Hn Hs|n l f rs s es Hn Hrate Hs|n l f rs s es Hc Hn|n l1 i phase l2 f rs s es now latency phase' events s' Hstep
    |n l1 i r l2 f rs s es|n l f rs s es].
  - eapply load_inv_turn; [exact Hx|done| | | |].
    + cbn. solve_Permutation.
    + cbn. lia.
    + intros p [-> | ?]%elem_of_cons; auto.
    + auto.
  - eapply load_inv_turn; [exact Hx|done|done|apply Hx|auto|]. intros r [-> | ?]%elem_of_cons; [right; apply dropped_ok|auto].
  - eapply load_inv_turn; [exact Hx|done|done|apply Hx|auto|]. intros r [-> | ?]%elem_of_cons; [right; apply dropped_ok|auto].
  - by eapply load_inv_sender.
  - destruct Hx as [Hids Hnext Hslots Hrun Hres Hfresh Habout]. cbn in *.
    apply Forall_app in Hrun as [Hrun1 [Hphase Hrun2]%Forall_cons]. cbn in Hphase. split; cbn; [|done| | | |done|done].
    + rewrite <-Hids, !fmap_app, fmap_cons. cbn. destruct Hphase as [-> _]. solve_Permutation.
    + unfold slots in *. cbn in *. rewrite length_app in *. cbn in *. lia.
    + by apply Forall_app.
    + constructor; [by exists i|done].
  - destruct Hx as [Hids Hnext Hslots Hrun Hres Hfresh Habout]. unfold slots in *. cbn in *. split; cbn; unfold slots; cbn; auto; lia.
Qed.

Lemma load_inv_other x y : load_inv x → load_meanwhile x y → load_inv y.
Proof.
  intros [Hids Hnext Hslots Hrun Hres Hfresh Habout] Hm. destruct Hm as [n l f rs s es s'|n l f rs s es e He]; cbn in *; [done|].
  assert (about e = None ∧ omap expect_id [e] = []) as [Hab Hexp] by by destruct e.
  assert (∀ i e', e' ∈ [e] → about e' ≠ Some (cid i)) as Hne by (intros i e' ->%list_elem_of_singleton; by rewrite Hab).
  split; cbn; [done|done|done| | | |].
  - eapply Forall_impl; [exact Hrun|]. intros p. apply phase_frame, Hne.
  - eapply Forall_impl; [exact Hres|]. intros r [i Hr]. exists i. apply result_frame; [apply Hne|done].
  - rewrite omap_of_app, Hexp, app_nil_r. done.
  - intros e' id [He' | ->%list_elem_of_singleton]%elem_of_app Hid; [by eapply Habout|congruence].
Qed.

Lemma load_inv_begin s : load_inv (load_begin s).
Proof. split; cbn; [done|lia|unfold slots; cbn; lia|done|done|constructor|by intros ? ? ?%elem_of_nil]. Qed.

(** ** How long it takes *)

Definition running_weight (l : list (nat * send_phase)) : nat := sum_nat ((phase_weight ∘ snd) <$> l).

Definition load_weight x : nat := 7 * (Z.to_nat (messages_count cfg) - next_index x) + running_weight (running x) + finishing x.

Lemma running_weight_app l1 l2 : running_weight (l1 ++ l2) = (running_weight l1 + running_weight l2)%nat.
Proof. unfold running_weight. induction l1 as [|p l1 IH]; cbn; [done|]. cbn in IH. lia. Qed.

Lemma load_weight_step x y : load_inv x → lstep x y → (load_weight y < load_weight x)%nat.
Proof.
  intros Hx Hstep. destruct Hstep as [n l f rs s es Hn Hs|n l f rs s es Hn Hrate Hs|n l f rs s es Hc Hn|n l1 i phase l2 f rs s es now latency phase' events s' Hstep
    |n l1 i r l2 f rs s es|n l f rs s es]; unfold load_weight; cbn [running next_index finishing].
  - change ((n, Begun) :: l) with ([(n, Begun)] ++ l). rewrite running_weight_app. unfold running_weight at 1. cbn. lia.
  - lia.
  - lia.
  - pose proof (proj1 (Forall_forall _ _) (li_running _ Hx) (i, phase)) as Hp. cbn in Hp.
    destruct (sendOne_step_ok _ _ _ _ _ _ _ _ _ (Hp ltac:(set_solver)) Hstep) as (_ & Hw & _).
    change ((i, phase') :: l2) with ([(i, phase')] ++ l2). change ((i, phase) :: l2) with ([(i, phase)] ++ l2).
    rewrite !running_weight_app. assert (∀ p, running_weight [p] = phase_weight p.2) as Hone by (intros p; unfold running_weight; cbn; lia).
    rewrite !Hone. cbn [snd]. lia.
  - change ((i, Returned r) :: l2) with ([(i, Returned r)] ++ l2). rewrite !running_weight_app. unfold running_weight at 4. cbn. lia.
  - lia.
Qed.

Lemma load_run_inv k s x :
  load_run cfg runID users cancellable k (load_begin s) x → load_inv x ∧ (k + load_weight x ≤ 7 * Z.to_nat (messages_count cfg))%nat.
Proof.
  remember (load_begin s) as x0 eqn:H0. intros Hrun. induction Hrun as [x|k x y z _ IH Hs|k x y z _ IH Ho]; subst.
  - split; [apply load_inv_begin|]. unfold load_weight. cbn. lia.
  - destruct IH as [Hy Hk]; [done|]. pose proof (load_weight_step _ _ Hy Hs). split; [by eapply load_inv_step|lia].
  - destruct IH as [Hy Hk]; [done|]. split; [by eapply load_inv_other|]. by destruct Ho.
Qed.

(** ** It does not get stuck *)

Lemma sendOne_goes i phase s now latency :
  logged_in users → (∀ r, phase ≠ Returned r) → is_Some (sendOne_step cfg runID users i now latency phase s).
Proof.
  intros Hlog Hne. unfold sendOne_step. destruct (load_parties_total cfg users i Hlog) as [[[[a b] token] id] ->]. cbn.
  destruct phase as [|k r|r|r]; [by eexists| | |by destruct (Hne r)].
  - destruct (post_message _ _ _ _ _) as [reply s1]. destruct (after_attempt k reply r). by eexists.
  - destruct (without_message latency r). by eexists.
Qed.

Lemma load_goes_on x : logged_in users → 1 ≤ concurrency cfg → load_over cfg x ∨ ∃ y, lstep x y.
Proof.
  intros Hlog Hc. destruct x as [n l f rs s es]. destruct f as [|f]; [|right; eexists; rewrite <-Nat.add_1_r; apply LoadReleased].
  destruct l as [|[i phase] l].
  - destruct (decide (messages_count cfg ≤ Z.of_nat n)); [by left|]. right. eexists. apply LoadStart; cbn; lia.
  - right. assert ((∃ r, phase = Returned r) ∨ ∀ r, phase ≠ Returned r) as [[r ->]|Hne].
    { destruct phase; [right..|left; by eexists]; done. }
    + eexists. apply (LoadAnswered _ _ _ _ _ []).
    + destruct (sendOne_goes i phase s 0 0 Hlog) as [[[phase' events] s'] Hs]; [done|]. eexists. eapply (LoadSender _ _ _ _ _ []), Hs.
Qed.
End invariant.

(** * Set-up *)

Section setup.
Context {T : Type} `{!LoadUsers T}.

Lemma seed_from_length runID index n users s users' s' :
  seed_from runID index n users s = (Ok users', s') → List.length users' = (List.length users + n)%nat.
Proof.
  revert index users s. induction n as [|n IH]; intros index users s; cbn [seed_from]; [intros [= <- <-]; lia|].
  destruct (hashPassword _ s) as [[e|hash] s1]; [done|]. destruct (insert_user _ _ _ s1) as [[e|id] s2]; [done|].
  intros H%IH. rewrite H, length_app. cbn. lia.
Qed.

Lemma login_devices_spec runID user device n u s u' s' :
  login_devices runID user device n u s = (Ok u', s') →
  user_ID u' = user_ID u ∧ List.length (Sessions u') = (List.length (Sessions u) + n)%nat.
Proof.
  revert device u s. induction n as [|n IH]; intros device u s; cbn [login_devices]; [intros [= <- <-]; split; [done|lia]|].
  destruct (post_login _ _ _ _ s) as [reply s1]. destruct (doJSON _ reply) as [[[status retryAfter] err] token].
  destruct (status =? 429); [done|]. destruct err; [done|]. destruct (negb _); [done|].
  intros [Hid Hlen]%IH. split; [done|]. rewrite Hlen. cbn. rewrite length_app. cbn. lia.
Qed.

Lemma login_users_spec cfg runID user users s users' s' :
  1 ≤ devicesPerUser cfg → login_users cfg runID user users s = (Ok users', s') →
  user_ID <$> users' = user_ID <$> users ∧ Forall (λ u, Sessions u ≠ []) users'.
Proof.
  intros Hd. revert user s users' s'. induction users as [|u users IH]; intros user s users' s'; cbn [login_users]; [by intros [= <- <-]|].
  destruct (login_devices _ _ _ _ u s) as [[e|u'] s1] eqn:Hu; [done|]. destruct (login_users _ _ _ users s1) as [[e|rest] s2] eqn:Hrest; [done|].
  intros [= <- <-]. apply login_devices_spec in Hu as [Hid Hlen]. apply IH in Hrest as [Hids Hall]. cbn. rewrite Hid, Hids.
  split; [done|]. constructor; [|done]. intros Hnil. rewrite Hnil in Hlen. cbn in Hlen. lia.
Qed.

(** A validated configuration and a successful set-up give users that have logged in. *)
Lemma load_users_logged_in `{URLSyntax} cfg runID s users s' :
  validateConfig cfg = Ok tt → load_users cfg runID s = (Ok users, s') → logged_in users.
Proof.
  intros Hcfg. assert (2 ≤ users_count cfg ∧ 1 ≤ devicesPerUser cfg) as [Hu Hd].
  { unfold validateConfig in Hcfg. repeat (case_match; [done|]).
    repeat match goal with H : _ || _ = false |- _ => apply orb_false_iff in H as [? ?] end. lia. }
  unfold load_users, seedUsers, loginDevices. destruct (seed_from _ _ _ _ s) as [[e|seeded] s1] eqn:Hseed; [done|].
  intros Hlogin. apply seed_from_length in Hseed. apply login_users_spec in Hlogin as [Hids Hall]; [|done]. split; [|done].
  rewrite <-(length_fmap user_ID), Hids, length_fmap, Hseed. cbn. lia.
Qed.
End setup.

(** A reader only brings arrivals. *)
Lemma reader_arrives label now r : Forall arrival_event (readWebSocket label now r).1.
Proof.
  destruct r as [cancelled st e|[e|envelope]]; cbn; [destruct (_ && _)| |]; [repeat constructor..|].
  case_bool_decide; [|constructor]. destruct (_ || _); repeat constructor.
Qed.
