(* ===== verification/LoadSync.v ===== *)
(** [cmd/im-loadtest/main.go], verification: every user's conversations are read page by
    page and compared with what was sent, and the verdict that decides the exit status. *)
From Stdlib Require Import Ascii String.
From S2P Require Import Prelude GoStd Text Numerals LoadTracker LoadSend.
Open Scope Z_scope.

(** * Pages *)

Inductive sync_error : Type :=
| CallFailed (err : string)
| BadStatus (status : Z)
| InvalidListCursor (conversationID : Z)
| ListDidNotAdvance
| ListTooLong
| WrongConversation (conversationID : Z)
| InvalidMessageCursor (conversationID conversationSeq : Z)
| StreamDidNotAdvance
| StreamTooLong.

Definition zero_list_page : conversationListPage := ConversationListPage [] 0 0 false.
Definition zero_sync_page : conversationSyncPage := ConversationSyncPage 0 [] 0 0 false.

Definition page_limit : nat := Z.to_nat 10000.

(** The page of a reply with status 200. *)
Definition read_page {A} (zero : A) (reply : load_reply A) : result sync_error A :=
  let '(status, _, err, page) := doJSON zero reply in
  match err with
  | Some text => Err (CallFailed text)
  | None => if status =? 200 then Ok page else Err (BadStatus status)
  end.

(** The identifiers of one page, which grow from [last] up to the snapshot. *)
Fixpoint list_page_ids (snapshot last : Z) (conversations : list (Z * Z)) : result sync_error (list Z) :=
  match conversations with
  | [] => Ok []
  | (id, _) :: conversations =>
      if (id <=? last) || (snapshot <? id) then Err (InvalidListCursor id)
      else match list_page_ids snapshot id conversations with Ok ids => Ok (id :: ids) | Err e => Err e end
  end.

(** The messages of one page, which follow [last] without a gap up to the snapshot. *)
Fixpoint stream_page_messages (conversationID snapshot last : Z) (messages : list apiMessage) : result sync_error (list apiMessage) :=
  match messages with
  | [] => Ok []
  | m :: messages =>
      if negb (api_ConversationID m =? conversationID) || negb (api_ConversationSeq m =? last + 1) || (snapshot <? api_ConversationSeq m)
      then Err (InvalidMessageCursor (api_ConversationID m) (api_ConversationSeq m))
      else match stream_page_messages conversationID snapshot (api_ConversationSeq m) messages with
           | Ok ms => Ok (m :: ms) | Err e => Err e
           end
  end.

Section pages.
Context {T : Type} `{!LoadTarget T}.

(** [n] pages at most; [snapshot] is the first page's, [None] before it. *)
Fixpoint list_pages (n : nat) (token : string) (after : Z) (snapshot : option Z) (conversationIDs : list Z) (s : T) :
    result sync_error (list Z) * T :=
  match n with
  | O => (Err ListTooLong, s)
  | S n =>
      let '(reply, s) := get_conversations token after snapshot s in
      match read_page zero_list_page reply with
      | Err e => (Err e, s)
      | Ok page =>
          let limit := default (lp_SnapshotCursor page) snapshot in
          match list_page_ids limit after (lp_Conversations page) with
          | Err e => (Err e, s)
          | Ok ids =>
              let conversationIDs := conversationIDs ++ ids in
              if negb (lp_HasMore page) then (Ok conversationIDs, s)
              else if lp_NextCursor page <=? after then (Err ListDidNotAdvance, s)
              else list_pages n token (lp_NextCursor page) (Some limit) conversationIDs s
          end
      end
  end.

Definition listConversationIDs (token : string) (s : T) : result sync_error (list Z) * T :=
  list_pages page_limit token 0 None [] s.

Fixpoint stream_pages (n : nat) (token : string) (conversationID after : Z) (snapshot : option Z) (messages : list apiMessage) (s : T) :
    result sync_error (list apiMessage) * T :=
  match n with
  | O => (Err StreamTooLong, s)
  | S n =>
      let '(reply, s) := get_stream token conversationID after snapshot s in
      match read_page zero_sync_page reply with
      | Err e => (Err e, s)
      | Ok page =>
          if negb (sp_ConversationID page =? conversationID) then (Err (WrongConversation (sp_ConversationID page)), s)
          else
            let limit := default (sp_SnapshotCursor page) snapshot in
            match stream_page_messages conversationID limit after (sp_Messages page) with
            | Err e => (Err e, s)
            | Ok ms =>
                let messages := messages ++ ms in
                if negb (sp_HasMore page) then (Ok messages, s)
                else if sp_NextCursor page <=? after then (Err StreamDidNotAdvance, s)
                else stream_pages n token conversationID (sp_NextCursor page) (Some limit) messages s
            end
      end
  end.

Definition syncOneConversation (token : string) (conversationID : Z) (s : T) : result sync_error (list apiMessage) * T :=
  stream_pages page_limit token conversationID 0 None [] s.

(** * A user *)

(** The error names the conversation, if it is one's. *)
Fixpoint sync_conversations (token prefix : string) (conversationIDs : list Z) (seen : gset Z) (s : T) :
    result (option Z * sync_error) (gset Z) * T :=
  match conversationIDs with
  | [] => (Ok seen, s)
  | id :: conversationIDs =>
      let '(r, s) := syncOneConversation token id s in
      match r with
      | Err e => (Err (Some id, e), s)
      | Ok messages =>
          let ours := base.filter (λ m, String.prefix prefix (api_ClientMessageID m) = true) messages in
          sync_conversations token prefix conversationIDs (seen ∪ list_to_set (api_ID <$> ours)) s
      end
  end.

Definition syncUser (token prefix : string) (s : T) : result (option Z * sync_error) (gset Z) * T :=
  let '(r, s) := listConversationIDs token s in
  match r with
  | Err e => (Err (None, e), s)
  | Ok conversationIDs => sync_conversations token prefix conversationIDs ∅ s
  end.

(** * Everything sent *)

(** A user's set of messages; a user that is not a key has a nil map, and writing to it
    is a panic. *)
Definition expect_message (user messageID : Z) (expected : gmap Z (gset Z)) : option (gmap Z (gset Z)) :=
  ids ← expected !! user; Some (<[user := {[messageID]} ∪ ids]> expected).

Fixpoint expected_messages (results : list sendResult) (expected : gmap Z (gset Z)) : option (gmap Z (gset Z)) :=
  match results with
  | [] => Some expected
  | r :: results =>
      if negb (bool_decide (err r = EmptyString)) then expected_messages results expected
      else
        expected ← expect_message (api_SenderID (message r)) (api_ID (message r)) expected;
        expected ← expect_message (api_ReceiverID (message r)) (api_ID (message r)) expected;
        expected_messages results expected
  end.

Definition no_messages (users : list testUser) : gmap Z (gset Z) := list_to_map ((λ u, (user_ID u, ∅)) <$> users).

Definition countExpected (values : gmap Z (gset Z)) : nat := sum_nat ((size ∘ snd) <$> map_to_list values).

Definition missing_label (user messageID : Z) : string :=
  "user=" +:+ FormatInt user +:+ " message=" +:+ FormatInt messageID.

(** What was found of a user's set, and what is missing. *)
Definition compare_seen (user : Z) (expected seen : gset Z) : nat * list string :=
  (size (expected ∩ seen), missing_label user <$> elements (expected ∖ seen)).

(** One user after the other, up to the first whose synchronisation fails; the first
    session is used, and without one it is a panic. *)
Fixpoint verify_users (prefix : string) (expected : gmap Z (gset Z)) (users : list testUser) (observed : nat) (missing : list string) (s : T) :
    option (nat * list string * option (Z * (option Z * sync_error)) * T) :=
  match users with
  | [] => Some (observed, sort_strings missing, None, s)
  | user :: users =>
      token ← head (Sessions user);
      let '(r, s) := syncUser token prefix s in
      match r with
      | Err e => Some (observed, missing, Some (user_ID user, e), s)
      | Ok seen =>
          let '(found, absent) := compare_seen (user_ID user) (default ∅ (expected !! user_ID user)) seen in
          verify_users prefix expected users (observed + found) (missing ++ absent) s
      end
  end.

Record sync_report : Type := SyncReport {
  sync_expected : nat; sync_observed : nat; sync_missing : list string; sync_failed : option (Z * (option Z * sync_error))
}.

Definition verifySync (runID : string) (users : list testUser) (results : list sendResult) (s : T) : option (sync_report * T) :=
  expected ← expected_messages results (no_messages users);
  '(observed, missing, failed, s) ← verify_users ("msg_" +:+ runID +:+ "_") expected users 0 [] s;
  Some (SyncReport (countExpected expected) observed missing failed, s).
End pages.

(** * The verdict *)

(** At most [limit] texts, and how many more there were. *)
Definition capStrings (values : list string) (limit : nat) : list string :=
  if (List.length values <=? limit)%nat then values
  else take limit values ++ ["... " +:+ FormatInt (Z.of_nat (List.length values - limit)) +:+ " more"].

Record load_report : Type := LoadReport {
  MessagesAttempted : Z; MessagesSucceeded : Z; MessagesFailed : Z; DroppedStarts : Z; IdempotentRecovered : Z;
  Realtime_Passed : bool; Sync_Passed : bool; DuplicateRealtime : Z; UnexpectedRealtime : Z;
  Realtime_Missing : list string; Sync_Missing : list string; RequestErrors : list string; ReaderErrors : list string
}.

(** [sync_text] is what the verification's error says. *)
Definition make_report (cfg : config) (sends : send_summary) (realtime : tracker_report) (sync : sync_report) (sync_text : string)
    (metrics_err : option string) : load_report :=
  let requestErrors := sum_errors sends ++
    (if sync_failed sync then ["sync verification: " +:+ sync_text] else []) ++
    (if metrics_err is Some text then ["metrics after load: " +:+ text] else []) in
  LoadReport (messages_count cfg) (Z.of_nat (sum_successful sends)) (messages_count cfg - Z.of_nat (sum_successful sends))
    (Z.of_nat (sum_dropped sends)) (Z.of_nat (sum_recovered sends))
    (expectedCount realtime =? receivedCount realtime)%nat
    (negb (if sync_failed sync then true else false) && (sync_expected sync =? sync_observed sync)%nat)
    (duplicates realtime) (unexpecteds realtime)
    (capStrings (LoadTracker.missing realtime) 100) (capStrings (sync_missing sync) 100)
    (capStrings requestErrors 100) (capStrings (reader_errors realtime) 100).

(** The status [main] exits with. *)
Definition exit_status (r : load_report) : Z :=
  if (0 <? MessagesFailed r) || negb (Sync_Passed r) || negb (Realtime_Passed r) || negb (bool_decide (RequestErrors r = [])) ||
     negb (bool_decide (ReaderErrors r = [])) || (0 <? UnexpectedRealtime r)
  then 1 else 0.
