(* ===== verification/LoadPromises.v ===== *)
(** What the load test promises: its verification misses nothing, all messages come to a
    result without more requests in flight than allowed, and an exit status of 0 means
    that every message was sent, stored for both participants and delivered to every
    device; and a test of one message. *)
From Stdlib Require Import Ascii String.
From S2P Require Import Prelude GoStd Text Numerals LoadTracker LoadTrackerOk LoadSend LoadSendOk LoadSync.
Open Scope Z_scope.

(** * Counting *)

Lemma sum_nat_app l1 l2 : sum_nat (l1 ++ l2) = (sum_nat l1 + sum_nat l2)%nat.
Proof. unfold sum_nat. induction l1 as [|n l1 IH]; simpl in *; lia. Qed.

Definition of_user (expected : gmap Z (gset Z)) (u : testUser) : gset Z := default ∅ (expected !! user_ID u).

Lemma countExpected_users (expected : gmap Z (gset Z)) (users : list testUser) :
  NoDup (user_ID <$> users) → dom expected = list_to_set (user_ID <$> users) →
  countExpected expected = sum_nat ((λ u, size (of_user expected u)) <$> users).
Proof.
  intros Hnd Hdom.
  assert (map_to_list expected ≡ₚ (λ u, (user_ID u, of_user expected u)) <$> users) as Hperm.
  { apply NoDup_Permutation; [apply NoDup_map_to_list| |].
    - apply (NoDup_fmap_1 fst). rewrite <-list_fmap_compose. done.
    - intros [id ids]. rewrite elem_of_map_to_list, list_elem_of_fmap. split.
      + intros Hid. assert (id ∈ dom expected) as Hin by by apply elem_of_dom_2 in Hid.
        rewrite Hdom, elem_of_list_to_set in Hin. apply list_elem_of_fmap in Hin as (u & -> & Hu). exists u. unfold of_user. by rewrite Hid.
      + intros (u & [= -> ->] & Hu). unfold of_user. assert (user_ID u ∈ dom expected) as [ids Hids]%elem_of_dom.
        { rewrite Hdom, elem_of_list_to_set. apply list_elem_of_fmap. by exists u. }
        by rewrite Hids. }
  unfold countExpected. rewrite Hperm. f_equal. by rewrite <-list_fmap_compose.
Qed.

Lemma sums_equal {A} (f g : A → nat) (l : list A) :
  (∀ x, x ∈ l → (g x ≤ f x)%nat) → sum_nat (f <$> l) = sum_nat (g <$> l) → ∀ x, x ∈ l → g x = f x.
Proof.
  intros Hle Heq. assert (∀ l', (∀ x, x ∈ l' → (g x ≤ f x)%nat) → (sum_nat (g <$> l') ≤ sum_nat (f <$> l'))%nat) as Hsum.
  { induction l' as [|y l' IH]; intros H; cbn; [done|]. pose proof (H y ltac:(by left)). pose proof (IH ltac:(intros x Hx; apply H; by right)) as Hl. cbn in Hl. lia. }
  induction l as [|y l IH]; [by intros x ?%elem_of_nil|]. cbn in Heq. pose proof (Hle y ltac:(by left)).
  pose proof (Hsum l ltac:(intros x Hx; apply Hle; by right)) as Hrest. cbn in Hrest.
  intros x [-> | Hx]%elem_of_cons; [lia|]. apply IH; [intros z Hz; apply Hle; by right| |done]. cbn. lia.
Qed.

(** * What is expected *)

Lemma expect_message_spec user id expected expected' :
  expect_message user id expected = Some expected' →
  dom expected' = dom expected ∧ user ∈ dom expected ∧
  (∀ v, default ∅ (expected' !! v) = if decide (v = user) then {[id]} ∪ default ∅ (expected !! v) else default ∅ (expected !! v)).
Proof.
  unfold expect_message. destruct (expected !! user) as [ids|] eqn:Hu; [|done]. intros [= <-].
  assert (user ∈ dom expected) by by apply elem_of_dom_2 in Hu.
  split; [rewrite dom_insert_L; set_solver|]. split; [done|]. intros v. destruct (decide (v = user)) as [->|Hne].
  - by rewrite lookup_insert_eq, Hu.
  - by rewrite lookup_insert_ne.
Qed.

Lemma expected_messages_spec results expected expected' :
  expected_messages results expected = Some expected' →
  dom expected' = dom expected ∧ (∀ v, default ∅ (expected !! v) ⊆ default ∅ (expected' !! v)) ∧
  (∀ r v, r ∈ results → err r = EmptyString → v = api_SenderID (message r) ∨ v = api_ReceiverID (message r) →
    v ∈ dom expected ∧ api_ID (message r) ∈ default ∅ (expected' !! v)).
Proof.
  revert expected. induction results as [|r results IH]; intros expected; cbn [expected_messages].
  { intros [= <-]. split; [done|]. split; [done|]. by intros r v ?%elem_of_nil. }
  case_bool_decide as Herr; cbn [negb].
  2: { intros (Hd & Hsub & Hin)%IH. split; [done|]. split; [done|]. intros r' v [-> | Hr]%elem_of_cons He; [done|]. by apply Hin. }
  destruct (expect_message (api_SenderID (message r)) _ expected) as [e1|] eqn:H1; [|done]. cbn.
  destruct (expect_message (api_ReceiverID (message r)) _ e1) as [e2|] eqn:H2; [|done]. cbn. intros (Hd & Hsub & Hin)%IH.
  apply expect_message_spec in H1 as (Hd1 & Hu1 & Hv1). apply expect_message_spec in H2 as (Hd2 & Hu2 & Hv2).
  rewrite Hd2, Hd1 in Hd. rewrite Hd1 in Hu2. split; [done|]. split.
  - intros v. etrans; [|apply Hsub]. rewrite Hv2, Hv1. repeat case_decide; intros x Hx; rewrite ?elem_of_union; auto.
  - intros r' v [-> | Hr]%elem_of_cons He Hv; [|rewrite Hd2, Hd1 in Hin; by apply Hin]. split; [by destruct Hv as [-> | ->]|].
    apply Hsub. rewrite Hv2, Hv1. destruct Hv as [-> | ->]; repeat case_decide; rewrite ?elem_of_union, ?elem_of_singleton; first [congruence|auto].
Qed.

Lemma no_messages_spec users : NoDup (user_ID <$> users) → dom (no_messages users) = list_to_set (user_ID <$> users).
Proof. intros _. unfold no_messages. rewrite dom_list_to_map_L. f_equal. by rewrite <-list_fmap_compose. Qed.

(** * What is seen *)

Section seeing.
Context {T : Type} `{!LoadTarget T}.

(** A user's synchronisation, at some moment, showed these messages. *)
Definition synced (prefix : string) (u : testUser) (seen : gset Z) : Prop :=
  ∃ token s s', head (Sessions u) = Some token ∧ syncUser token prefix s = (Ok seen, s').

Lemma verify_users_spec prefix expected users observed missing (s : T) observed' missing' s' :
  verify_users prefix expected users observed missing s = Some (observed', missing', None, s') →
  ∃ sets : list (gset Z), Forall2 (synced prefix) users sets ∧
    observed' = (observed + sum_nat (zip_with (λ u seen, size (of_user expected u ∩ seen)) users sets))%nat ∧
    missing' ≡ₚ missing ++ mjoin (zip_with (λ u seen, missing_label (user_ID u) <$> elements (of_user expected u ∖ seen)) users sets).
Proof.
  revert observed missing s. induction users as [|u users IH]; intros observed missing s; cbn [verify_users].
  { intros [= <- <- <-]. exists []. split; [constructor|]. cbn. split; [lia|]. rewrite app_nil_r. apply merge_sort_Permutation. }
  destruct (head (Sessions u)) as [token|] eqn:Htok; [|done]. cbn. destruct (syncUser token prefix s) as [[e|seen] s1] eqn:Hsync; [done|].
  intros (sets & Hsets & -> & Hmiss)%IH. exists (seen :: sets). split; [|split].
  - constructor; [|done]. by exists token, s, s1.
  - by rewrite <-Nat.add_assoc.
  - rewrite Hmiss. cbn. by rewrite <-app_assoc.
Qed.
End seeing.

Lemma forall2_elem {A B} (P : A → B → Prop) l k x : Forall2 P l k → x ∈ l → ∃ y, (x, y) ∈ zip l k ∧ P x y.
Proof.
  induction 1 as [|a b l k Hab _ IH]; [by intros ?%elem_of_nil|]. intros [-> | Hx]%elem_of_cons; [exists b; split; [by left|done]|].
  destruct (IH Hx) as (y & ? & ?). exists y. split; [by right|done].
Qed.

(** Equal counts mean that nothing is missing. *)
Lemma verified_all {T} `{!LoadTarget T} runID users results (s : T) report s' r v :
  NoDup (user_ID <$> users) → verifySync runID users results s = Some (report, s') →
  sync_failed report = None → sync_expected report = sync_observed report →
  r ∈ results → err r = EmptyString → v = api_SenderID (message r) ∨ v = api_ReceiverID (message r) →
  ∃ u seen, u ∈ users ∧ user_ID u = v ∧ synced ("msg_" +:+ runID +:+ "_") u seen ∧ api_ID (message r) ∈ seen.
Proof.
  intros Hnd Hrun Hfailed Heq Hr Herr Hv. unfold verifySync in Hrun.
  destruct (expected_messages results (no_messages users)) as [expected|] eqn:He; [|done]. cbn in Hrun.
  destruct (verify_users _ expected users 0 [] s) as [[[[observed missing] failed] s1]|] eqn:Hver; [|done]. cbn in Hrun.
  injection Hrun as <- <-. cbn in Hfailed, Heq. subst failed.
  apply expected_messages_spec in He as (Hdom & _ & Hin). rewrite (no_messages_spec _ Hnd) in Hdom.
  destruct (Hin r v Hr Herr Hv) as [Hdv Hid]. rewrite (no_messages_spec _ Hnd), elem_of_list_to_set in Hdv.
  apply list_elem_of_fmap in Hdv as (u & -> & Hu).
  apply verify_users_spec in Hver as (sets & Hsets & Hobs & _). rewrite (countExpected_users _ _ Hnd Hdom), Hobs in Heq.
  assert ((λ u, size (of_user expected u)) <$> users = (λ p, size (of_user expected p.1)) <$> zip users sets) as Hfst.
  { rewrite <-(fst_zip users sets) at 1 by by rewrite (Forall2_length _ _ _ Hsets). by rewrite <-list_fmap_compose. }
  assert (zip_with (λ u seen, size (of_user expected u ∩ seen)) users sets = (λ p, size (of_user expected p.1 ∩ p.2)) <$> zip users sets) as Hzip.
  { clear. revert sets. induction users as [|u users IH]; intros [|x sets]; cbn; [done..|]. by rewrite IH. }
  rewrite Hfst, Hzip in Heq. destruct (forall2_elem _ _ _ _ Hsets Hu) as (seen & Hz & Hs). exists u, seen.
  split; [done|]. split; [done|]. split; [done|].
  pose proof (sums_equal _ (λ p, size (of_user expected p.1 ∩ p.2)) _ (λ p _, subseteq_size _ _ (intersection_subseteq_l _ _)) Heq _ Hz) as Hsize.
  cbn in Hsize. assert (of_user expected u ∩ seen = of_user expected u) as Hall.
  { apply set_subseteq_size_eq; [apply intersection_subseteq_l|lia]. }
  apply (elem_of_weaken _ (of_user expected u ∩ seen)); [by rewrite Hall|apply intersection_subseteq_r].
Qed.

(** * The verdict *)

Lemma summarize_errors rs acc :
  sum_errors (foldl summarize_one acc rs) = sum_errors acc ++ omap (λ r, if bool_decide (err r = EmptyString) then None else Some (clientMessageID r +:+ ": " +:+ err r)) rs.
Proof.
  revert acc. induction rs as [|r rs IH]; intros acc; cbn; [by rewrite app_nil_r|]. rewrite IH. unfold summarize_one.
  case_bool_decide; cbn; [done|]. by rewrite <-app_assoc.
Qed.

Lemma summary_without_errors rs : sum_errors (summarizeSends rs) = [] → ∀ r, r ∈ rs → err r = EmptyString.
Proof.
  unfold summarizeSends. rewrite summarize_errors. cbn. intros Hnil r Hr. destruct (decide (err r = EmptyString)) as [|Hne]; [done|].
  exfalso. apply (not_elem_of_nil (clientMessageID r +:+ ": " +:+ err r)). rewrite <-Hnil. apply list_elem_of_omap. exists r.
  split; [done|]. by rewrite bool_decide_eq_false_2.
Qed.

Lemma capStrings_nil values limit : (0 < limit)%nat → capStrings values limit = [] → values = [].
Proof. intros Hl. unfold capStrings. destruct (Nat.leb_spec (List.length values) limit); [done|]. by intros [_ ?]%app_nil. Qed.

(** Exit status 0 means all of these. *)
Lemma exit_status_zero cfg sends realtime sync text metrics :
  exit_status (make_report cfg sends realtime sync text metrics) = 0 →
  (messages_count cfg ≤ Z.of_nat (sum_successful sends)) ∧ sync_failed sync = None ∧ sync_expected sync = sync_observed sync ∧
  expectedCount realtime = receivedCount realtime ∧ sum_errors sends = [] ∧ metrics = None ∧ reader_errors realtime = [] ∧
  unexpecteds realtime ≤ 0.
Proof.
  unfold exit_status. destruct (_ || _) eqn:H; [done|]. intros _. rewrite !orb_false_iff in H. cbn in H.
  destruct H as (((((Hfail & Hsync) & Hreal) & Herrs) & Hread) & Hunexp). apply negb_false_iff, andb_true_iff in Hsync as [Hsf Hse].
  apply negb_false_iff in Hreal. apply negb_false_iff, bool_decide_eq_true, capStrings_nil in Herrs; [|lia].
  apply negb_false_iff, bool_decide_eq_true, capStrings_nil in Hread; [|lia].
  apply app_nil in Herrs as [Hs [Hsy Hm]%app_nil]. apply Z.ltb_ge in Hfail, Hunexp. apply Nat.eqb_eq in Hse, Hreal.
  split; [lia|]. split; [by destruct (sync_failed sync)|]. split; [done|]. split; [done|]. split; [done|]. split; [by destruct metrics|]. done.
Qed.

(** * The whole test *)

(** * Sending ends *)

Section sending.
Context {T : Type} `{!LoadTarget T}.
Context (cfg : config) (runID : string) (users : list testUser) (cancellable : bool).

Lemma collected_perm rs : collected rs ≡ₚ rs.
Proof. apply merge_sort_Permutation. Qed.

(** C39: However the goroutines, the target and the arriving deliveries
    interleave, sending stays within its slots, never stands still before it is over,
    takes at most seven steps a message, and then has exactly one result for every
    message; this needs no cancellation, only a configuration that was validated and
    users that have logged in. *)
Theorem sendLoad_ends `{URLSyntax} k s (x : load_state T) :
  validateConfig cfg = Ok tt → logged_in users → load_run cfg runID users cancellable k (load_begin s) x →
  Z.of_nat (slots x) ≤ concurrency cfg ∧ Z.of_nat k ≤ 7 * messages_count cfg ∧
  (load_over cfg x ∨ ∃ y, load_step cfg runID users false x y) ∧
  (load_over cfg x →
    clientMessageID <$> collected (results x) ≡ₚ client_message_id runID <$> seq 0 (Z.to_nat (messages_count cfg))).
Proof.
  intros Hcfg Hlog Hrun. apply load_run_inv in Hrun as [Hx Hk].
  assert (1 ≤ concurrency cfg ∧ 1 ≤ messages_count cfg) as [Hc Hm].
  { unfold validateConfig in Hcfg. repeat (case_match; [done|]). 
    repeat match goal with H : _ || _ = false |- _ => apply orb_false_iff in H as [? ?] end. lia. }
  pose proof (li_slots _ _ _ _ Hx). pose proof (li_next _ _ _ _ Hx). split; [lia|]. split; [lia|]. split; [by apply load_goes_on|].
  intros (Hn & Hr & Hf). rewrite collected_perm. pose proof (li_ids _ _ _ _ Hx) as Hids. rewrite Hr, app_nil_r in Hids. rewrite Hids.
  by replace (next_index x) with (Z.to_nat (messages_count cfg)) by lia.
Qed.

(** * A passing run *)

(** The tracker has seen the message arrive on the connection. *)
Definition delivered (t : tracker) (id label : string) : Prop :=
  ∃ latency, received (shard_at (shard id) t) !! id ≫= lookup label = Some latency.

Lemma arrived_delivered t l id label : tracks t l → is_Some (latency l id label) → delivered t id label.
Proof.
  intros Ht [a Ha]. exists a. rewrite (shard_received _ _ Ht). unfold latency in Ha. destruct (entries l !! id) as [y|]; [|done].
  cbn in *. unfold arrivals. case_bool_decide as He; [by rewrite He in Ha|done].
Qed.

(** What is expected once and not dropped is awaited. *)
Lemma expected_awaited es id at_ labels label :
  NoDup (omap expect_id es) → Expect id at_ labels ∈ es → Drop id ∉ es → label ∈ labels → awaited (ledger_run es empty_ledger) id label.
Proof.
  intros Hf Hin Hd Hl.
  assert (∃ y, entries (ledger_run es empty_ledger) !! id = Some y ∧ e_labels y = list_to_set labels) as (y & Hy & Hlab).
  2: { exists y. split; [done|]. rewrite Hlab. by apply elem_of_list_to_set. }
  clear Hl. induction es as [|e es IH] using rev_ind; [by apply elem_of_nil in Hin|].
  rewrite omap_of_app in Hf. apply NoDup_app in Hf as (Hf & Hdis & _). rewrite elem_of_app in Hd. rewrite ledger_run_snoc.
  apply elem_of_app in Hin as [Hin | <-%list_elem_of_singleton]; [|cbn; eexists; split; [apply lookup_insert_eq|done]].
  destruct IH as (y & Hy & Hlab); [done|done|auto|].
  assert (id ∈ omap expect_id es) as Hold by (apply list_elem_of_omap; by exists (Expect id at_ labels)).
  destruct e as [id' at' labels'|id'|label' id' now|label' err]; cbn.
  - destruct (decide (id' = id)) as [->|Hne]; [exfalso; apply (Hdis id Hold); by left|].
    exists y. by rewrite lookup_insert_ne.
  - destruct (decide (id' = id)) as [->|Hne]; [exfalso; apply Hd; right; by left|]. exists y. by rewrite lookup_delete_ne.
  - destruct (entries (ledger_run es empty_ledger) !! id') as [z|] eqn:Hz; [|by exists y]. destruct (negb _); [by exists y|].
    destruct (e_latencies z !! label'); [by exists y|]. cbn. destruct (decide (id' = id)) as [->|Hne].
    + rewrite Hy in Hz. injection Hz as <-. eexists. split; [apply lookup_insert_eq|done].
    + exists y. by rewrite lookup_insert_ne.
  - by exists y.
Qed.

(** C38: When the load test exits with status 0, after sending was
    over, deliveries went on arriving while it waited and made its report, and every
    user's conversations were read: each message was answered with a stored message by
    its own sender's request, that message was found in the conversations of the users
    its reply names, and it had arrived on every device of its sender and its receiver. *)
Theorem passing_run_delivered k s (x : load_state T) es before realtime t sync text metrics s1 s2 :
  NoDup (user_ID <$> users) → load_run cfg runID users cancellable k (load_begin s) x → load_over cfg x →
  Forall arrival_event es → (∀ i, Forall arrival_event (before i)) →
  snapshot before (tracker_run (history x ++ es) newTracker) = (realtime, t) →
  verifySync runID users (collected (results x)) s1 = Some (sync, s2) →
  exit_status (make_report cfg (summarizeSends (collected (results x))) realtime sync text metrics) = 0 →
  ∀ index, Z.of_nat index < messages_count cfg →
  ∃ r sender receiver token receiverID,
    r ∈ results x ∧ clientMessageID r = client_message_id runID index ∧ dropped r = false ∧ api_ID (message r) ≠ 0 ∧
    load_parties cfg users index = Some (sender, receiver, token, receiverID) ∧
    (∀ label, label ∈ delivery_labels cfg sender receiver → delivered t (client_message_id runID index) label) ∧
    (∀ user, user = api_SenderID (message r) ∨ user = api_ReceiverID (message r) →
       ∃ u seen, u ∈ users ∧ user_ID u = user ∧ synced ("msg_" +:+ runID +:+ "_") u seen ∧ api_ID (message r) ∈ seen).
Proof.
  intros Hnd Hrun (Hn & Hrunning & _) Hes Hbefore Hsnap Hsync Hexit index Hindex.
  apply load_run_inv in Hrun as [Hx _]. apply exit_status_zero in Hexit as (_ & Hsf & Hse & Hreal & Herrs & _).
  pose proof (summary_without_errors _ Herrs) as Hall.
  assert (client_message_id runID index ∈ clientMessageID <$> results x) as (r & Hid & Hr)%list_elem_of_fmap.
  { pose proof (li_ids _ _ _ _ Hx) as Hids. rewrite Hrunning, app_nil_r in Hids. rewrite Hids. apply list_elem_of_fmap.
    exists index. split; [done|]. apply elem_of_seq. lia. }
  assert (r ∈ collected (results x)) as Hrc by by rewrite collected_perm.
  pose proof (Hall r Hrc) as Herr. destruct (proj1 (Forall_forall _ _) (li_results _ _ _ _ Hx) r Hr) as (i & Hcid & Hok).
  assert (i = index) as -> by (apply (inj (client_message_id runID)); congruence).
  destruct (Hok Herr) as (Hdrop & Hmid & at_ & a & b & token & id & Hp & Hexp & Hnodrop).
  exists r, a, b, token, id. do 5 (split; [done|]).
  assert (omap expect_id es = []) as Hnone.
  { clear -Hes. induction Hes as [|e es He _ IH]; [done|]. by destruct e. }
  assert (NoDup (omap expect_id (history x ++ es))) as Hfresh.
  { rewrite omap_of_app, Hnone, app_nil_r. apply (li_fresh _ _ _ _ Hx). }
  destruct (report_accounts_for_deliveries _ _ _ _ Hfresh Hbefore Hsnap) as (Htr & _ & _ & _ & _ & Hfull).
  destruct (Hfull Hreal) as [_ Harr]. split.
  - intros label Hl. eapply arrived_delivered; [exact Htr|]. apply Harr.
    assert (awaited (ledger_run (history x ++ es) empty_ledger) (client_message_id runID index) label) as Haw.
    { eapply (expected_awaited _ _ at_); [done|apply elem_of_app; by left| |done].
      rewrite elem_of_app. intros [?|H]; [done|]. by apply (proj1 (Forall_forall _ _) Hes) in H. }
    assert (grows (ledger_run (history x ++ es) empty_ledger) (ledger_run ((history x ++ es) ++ (seq 0 trackerShardCount ≫= before)) empty_ledger)) as Hg.
    { unfold ledger_run at 2. rewrite (foldl_app _ (history x ++ es)). apply arrivals_grow, Forall_bind, Forall_true, Hbefore. }
    by apply (grows_awaited _ _ _ _ Hg).
  - intros user Huser. by eapply verified_all.
Qed.
End sending.

(** * A test of one message *)

(** * A target *)

Definition alice_user : testUser := TestUser 11 "lt_1_01" "secret" ["alice"%string].
Definition bob_user : testUser := TestUser 12 "lt_1_02" "secret" ["bob"%string].

#[local] Instance plain_target : LoadTarget (list apiMessage) := {
  post_message token clientID receiver content log :=
    let sender := if bool_decide (token = "alice"%string) then 11 else 12 in
    let n := Z.of_nat (List.length log) + 1 in
    let m := MkApiMessage (100 + n) 1 n clientID sender receiver content in
    (Answered 201 EmptyString EmptyString (Some m), log ++ [m]);
  get_conversations _ after _ log :=
    (Answered 200 EmptyString EmptyString (Some (ConversationListPage (if after =? 0 then [(1, Z.of_nat (List.length log))] else []) 1 1 false)), log);
  get_stream _ id after _ log :=
    (Answered 200 EmptyString EmptyString
       (Some (ConversationSyncPage id (skipn (Z.to_nat after) log) (Z.of_nat (List.length log)) (Z.of_nat (List.length log)) false)), log)
}.

#[local] Instance any_url : URLSyntax := λ s, negb (bool_decide (s = EmptyString)).

Definition one_config : config :=
  Config "http://api" "http://metrics" "postgres://db" "im_test" 2 1 1 1 0 trafficPatternRing 10 30 1 true.

Definition one_id : string := client_message_id "r" 0.
Definition one_message : apiMessage := MkApiMessage 101 1 1 one_id 11 12 "load test r message 1".
Definition one_result : sendResult := SendResult one_id one_message 5 201 1 false false EmptyString.

Definition one_end : load_state (list apiMessage) :=
  LoadState 1 [] 0 [one_result] [one_message]
    [Expect one_id 3 ["u01-d01"; "u02-d01"]%string; Observe "u02-d01" one_id 9; Observe "u01-d01" one_id 8].

Definition blank : sendResult := SendResult one_id zero_message 0 0 0 false false EmptyString.
Definition expecting : tracker_event := Expect one_id 3 ["u01-d01"; "u02-d01"]%string.

(** The goroutine's four operations on its own. *)
Lemma one_sender phase now latency s phase' events s' rest es :
  sendOne_step one_config "r" [alice_user; bob_user] 0 now latency phase s = Some (phase', events, s') → es = rest ++ events →
  load_step one_config "r" [alice_user; bob_user] false (LoadState 1 [(0%nat, phase)] 0 [] s rest) (LoadState 1 [(0%nat, phase')] 0 [] s' es).
Proof. intros Hs ->. by eapply (LoadSender _ _ _ _ _ [] _ _ []). Qed.

Lemma one_run : load_run one_config "r" [alice_user; bob_user] false 6 (load_begin []) one_end.
Proof.
  set (posted := SendResult one_id one_message 0 201 1 false false EmptyString).
  apply (LoadOwn _ _ _ _ 5 _ (LoadState 1 [] (0 + 1) [one_result] [one_message] (history one_end))); [|apply LoadReleased].
  apply (LoadOwn _ _ _ _ 4 _ (LoadState 1 [(0%nat, Returned one_result)] 0 [] [one_message] (history one_end)));
    [|apply (LoadAnswered _ _ _ _ _ [])].
  apply (LoadOther _ _ _ _ _ _ (LoadState 1 [(0%nat, Returned one_result)] 0 [] [one_message] [expecting; Observe "u02-d01" one_id 9]));
    [|by apply (Arrival _ _ _ _ _ [expecting; Observe "u02-d01" one_id 9])].
  apply (LoadOwn _ _ _ _ 3 _ (LoadState 1 [(0%nat, Posted posted)] 0 [] [one_message] [expecting; Observe "u02-d01" one_id 9]));
    [|apply (one_sender _ 0 5 _ _ []); reflexivity].
  apply (LoadOther _ _ _ _ _ _ (LoadState 1 [(0%nat, Posted posted)] 0 [] [one_message] [expecting])); [|by apply (Arrival _ _ _ _ _ [expecting])].
  apply (LoadOwn _ _ _ _ 2 _ (LoadState 1 [(0%nat, Posting 1 blank)] 0 [] [] [expecting])); [|apply (one_sender _ 0 0 _ _ []); reflexivity].
  apply (LoadOwn _ _ _ _ 1 _ (LoadState 1 [(0%nat, Begun)] 0 [] [] [])); [|apply (one_sender _ 3 0 _ _ [expecting]); reflexivity].
  apply (LoadOwn _ _ _ _ 0 _ (load_begin [])); [apply LoadDone|apply (LoadStart _ _ _ _ 0 [])]; done.
Qed.

(** * Witnesses *)

Lemma users_logged_in : logged_in [alice_user; bob_user].
Proof. split; [done|]. repeat constructor; done. Qed.

Lemma one_valid : validateConfig one_config = Ok tt.
Proof. vm_compute. reflexivity. Qed.

Lemma sendLoad_ends_witness :
  load_over one_config one_end ∧
  clientMessageID <$> collected (results one_end) ≡ₚ client_message_id "r" <$> seq 0 (Z.to_nat (messages_count one_config)).
Proof.
  assert (load_over one_config one_end) as Hover by done. split; [done|].
  by apply (sendLoad_ends one_config "r" [alice_user; bob_user] false 6 [] one_end one_valid users_logged_in one_run).
Defined.

Definition one_report : tracker_report * tracker := Eval vm_compute in snapshot (λ _, []) (tracker_run (history one_end ++ []) newTracker).

Lemma one_snapshot : snapshot (λ _, []) (tracker_run (history one_end ++ []) newTracker) = (one_report.1, one_report.2).
Proof. vm_compute. reflexivity. Qed.

Lemma one_verified :
  verifySync "r" [alice_user; bob_user] (collected (results one_end)) [one_message] = Some (SyncReport 2 2 [] None, [one_message]).
Proof. vm_compute. reflexivity. Qed.

Lemma one_passes :
  exit_status (make_report one_config (summarizeSends (collected (results one_end))) one_report.1 (SyncReport 2 2 [] None) EmptyString None) = 0.
Proof. vm_compute. reflexivity. Qed.

Lemma passing_run_delivered_witness :
  delivered one_report.2 one_id "u02-d01" ∧ ∃ u seen, u ∈ [alice_user; bob_user] ∧ user_ID u = 12 ∧ synced "msg_r_" u seen ∧ 101 ∈ seen.
Proof.
  assert (NoDup (user_ID <$> [alice_user; bob_user])) as Hnd by (apply (bool_decide_unpack _); reflexivity).
  destruct (passing_run_delivered one_config "r" [alice_user; bob_user] false 6 [] one_end [] (λ _, []) _ _ _ _ _ _ _
    Hnd one_run ltac:(done) ltac:(done) ltac:(done) one_snapshot one_verified one_passes 0%nat ltac:(done))
    as (r & a & b & token & id & Hr & Hid & _ & _ & Hp & Hdel & Hseen).
  apply list_elem_of_singleton in Hr as ->. split; [|by apply (Hseen 12); right].
  apply Hdel. vm_compute in Hp. injection Hp as <- <- _ _. right. by left.
Defined.

(** Both deliveries come while the test sleeps. *)
Definition two_turns : list turn :=
  [Turn (λ _, []) [Observe "u02-d01" one_id 9; Observe "u01-d01" one_id 8] Changed; Turn (λ _, []) [] TimedOut].

Lemma wait_is_sound_witness :
  (wait two_turns (tracker_run [expecting] newTracker)).1 = Complete ∧
  ∃ l, all_arrived l ∧ awaited l one_id "u02-d01".
Proof.
  assert ((wait two_turns (tracker_run [expecting] newTracker)).1 = Complete) as Hend by (vm_compute; reflexivity). split; [done|].
  assert (fresh_history [expecting]) as Hfresh by apply NoDup_singleton.
  destruct (wait_is_sound two_turns _ _ _ _ (tracks_run _ _ [expecting] empty_tracks) (fresh_history_ok _ Hfresh)
    ltac:(repeat constructor) (surjective_pairing _)) as (l & _ & Hg & Hall & _).
  exists l. split; [by apply Hall|]. apply (grows_awaited _ _ _ _ Hg). eexists. split; [apply lookup_insert_eq|]. cbn. set_solver.
Defined.

(** * A refusal that the next attempt overturns *)

(** The target is busy once. *)
#[local] Instance busy_target : LoadTarget (bool * list apiMessage) := {
  post_message token clientID receiver content s :=
    if s.1 then (Answered 429 "1" "too many requests" None, (false, s.2))
    else let '(reply, log) := post_message token clientID receiver content s.2 in (reply, (false, log));
  get_conversations token after snap s := let '(reply, log) := get_conversations token after snap s.2 in (reply, (s.1, log));
  get_stream token id after snap s := let '(reply, log) := get_stream token id after snap s.2 in (reply, (s.1, log))
}.

(** The message is stored and answered, yet its result carries the first attempt's error;
    the summary counts it as failed, and it is still expected to be delivered. *)
Lemma refused_then_sent_fails :
  ∃ r, sendOne one_config "r" [alice_user; bob_user] 0 3 5 (true, []) = Some (r, [expecting], (false, [one_message])) ∧
    message r = one_message ∧ status r = 201 ∧ attempts r = 2 ∧ recovered r = true ∧ err r = "too many requests"%string ∧
    sum_successful (summarizeSends [r]) = 0%nat.
Proof. eexists. split; [vm_compute; reflexivity|]. vm_compute. split_and!; reflexivity. Qed.
