(* ===== verification/SqlScript.v ===== *)
(** [unwrapTransaction] and [splitSQLStatements] of [internal/migrate/migrate.go]:
    how a migration file is cut into what is sent to the database, against a
    reference grammar of SQL text. *)
From Stdlib Require Import Ascii String.
From S2P Require Import Prelude GoStd Text.
Open Scope Z_scope.

Inductive script_error : Type :=
| NoSQL | UnbalancedTransaction | UnterminatedSyntax | NoStatements.
#[global] Instance script_error_eq_dec : EqDecision script_error.
Proof. solve_decision. Defined.

(** * The BEGIN/COMMIT wrapper *)

Definition word (s : string) : text := bytes_of s.

Definition significant_line (line : text) : bool :=
  let trimmed := TrimSpace line in
  negb (bool_decide (trimmed = []) || has_prefix (word "--") trimmed).

Fixpoint significant_from (index : nat) (lines : list text) : list nat :=
  match lines with
  | [] => []
  | line :: lines =>
      if significant_line line then index :: significant_from (S index) lines
      else significant_from (S index) lines
  end.

Definition is_begin (line : text) : bool :=
  upper_is (word "BEGIN;") (TrimSpace line) || upper_is (word "BEGIN") (TrimSpace line).
Definition is_commit (line : text) : bool :=
  upper_is (word "COMMIT;") (TrimSpace line) || upper_is (word "COMMIT") (TrimSpace line).

Definition unwrapTransaction (sql : text) : result script_error (text * bool) :=
  let lines := split_at newline sql in
  let significant := significant_from 0 lines in
  match significant, last significant with
  | first :: _, Some last =>
      let hasBegin := is_begin (nth first lines []) in
      let hasCommit := is_commit (nth last lines []) in
      if negb (Bool.eqb hasBegin hasCommit) then Err UnbalancedTransaction
      else if negb hasBegin then Ok (sql, false)
      else Ok (join newline (<[last:=[]]> (<[first:=[]]> lines)), true)
  | _, _ => Err NoSQL
  end.

(** * The statement splitter *)

(** The flags of the loop: at most one is set.  [Quoted 39] is [inSingleQuote],
    [Quoted 34] is [inDoubleQuote]. *)
Inductive lex_mode : Type :=
| Normal | Quoted (q : Z) | LineComment | BlockComment | DollarQuoted (dollarTag : text).

Definition tag_byte (b : Z) : bool :=
  (b =? 95) || in_range 97 122 b || in_range 65 90 b || in_range 48 57 b.

Fixpoint tag_end (bs : text) : nat :=
  match bs with
  | b :: bs => if tag_byte b then S (tag_end bs) else 0%nat
  | [] => 0%nat
  end.

(** After a dollar sign: the tag that it opens, if any. *)
Definition dollar_tag (bs : text) : option text :=
  match drop (tag_end bs) bs with
  | 36 :: _ => Some (36 :: take (tag_end bs) bs ++ [36])
  | _ => None
  end.

(** One turn of the loop at [rest]: the bytes it passes, the flags after it, and
    whether a statement ends there. *)
Definition lex_step (mode : lex_mode) (rest : text) : nat * lex_mode * bool :=
  match rest with
  | [] => (0%nat, mode, false)
  | b :: tl =>
      match mode with
      | LineComment => (1%nat, if b =? 10 then Normal else LineComment, false)
      | BlockComment => if has_prefix (word "*/") rest then (2%nat, Normal, false) else (1%nat, BlockComment, false)
      | DollarQuoted tag =>
          if has_prefix tag rest then (List.length tag, Normal, false) else (1%nat, DollarQuoted tag, false)
      | Quoted q =>
          if b =? q then if has_prefix [q] tl then (2%nat, Quoted q, false) else (1%nat, Normal, false)
          else (1%nat, Quoted q, false)
      | Normal =>
          if has_prefix (word "--") rest then (2%nat, LineComment, false)
          else if has_prefix (word "/*") rest then (2%nat, BlockComment, false)
          else if b =? 39 then (1%nat, Quoted 39, false)
          else if b =? 34 then (1%nat, Quoted 34, false)
          else if b =? 36 then
            match dollar_tag tl with
            | Some tag => (List.length tag, DollarQuoted tag, false)
            | None => (1%nat, Normal, false)
            end
          else if b =? 59 then (1%nat, Normal, true)
          else (1%nat, Normal, false)
      end
  end.

Definition add_statement (statements : list text) (piece : text) : list text :=
  let statement := TrimSpace piece in
  if bool_decide (statement = []) then statements else statements ++ [statement].

(** The loop; [current] is [sql[start:index]].  Each turn passes a byte, so the
    length of the text is fuel enough. *)
Fixpoint split_loop (fuel : nat) (mode : lex_mode) (current rest : text) (statements : list text) :
    lex_mode * text * list text :=
  match fuel, rest with
  | S fuel, _ :: _ =>
      let '(n, mode', ends) := lex_step mode rest in
      let current := current ++ take n rest in
      if ends then split_loop fuel mode' [] (drop n rest) (add_statement statements current)
      else split_loop fuel mode' current (drop n rest) statements
  | _, _ => (mode, current ++ rest, statements)
  end.

Definition unterminated (mode : lex_mode) : bool :=
  match mode with Normal | LineComment => false | _ => true end.

Definition splitSQLStatements (sql : text) : result script_error (list text) :=
  let '(mode, current, statements) := split_loop (List.length sql) Normal [] sql [] in
  if unterminated mode then Err UnterminatedSyntax
  else match add_statement statements current with
       | [] => Err NoStatements
       | statements => Ok statements
       end.

Example split_dollar :
  splitSQLStatements (word "CREATE F AS $a$ x; '$a$; SELECT ';--' -- ;") =
    Ok [word "CREATE F AS $a$ x; '$a$;"; word "SELECT ';--' -- ;"].
Proof. vm_compute. reflexivity. Qed.
Example unwrap_plain : unwrapTransaction (word "-- x
begin;
A;
Commit") = Ok (word "-- x

A;
", true).
Proof. vm_compute. reflexivity. Qed.
