(* ===== verification/SqlSplitting.v ===== *)
(** What the script functions guarantee: [unwrapTransaction] removes exactly the outer
    BEGIN and COMMIT, [splitSQLStatements] splits as the reference grammar says. *)
From Stdlib Require Import Ascii String.
From S2P Require Import Prelude GoStd Text SqlScript.
Open Scope Z_scope.

(** * The wrapper *)

Definition insignificant (line : text) : Prop := significant_line line = false.

Lemma significant_from_nil i lines : significant_from i lines = [] ↔ Forall insignificant lines.
Proof.
  revert i. induction lines as [|line lines IH]; intros i; simpl; [by split|]. rewrite Forall_cons. unfold insignificant at 1.
  destruct (significant_line line); [by split; [|intros [? _]]|]. rewrite IH. tauto.
Qed.

Lemma significant_from_cons i lines k ks :
  significant_from i lines = k :: ks →
  ∃ before line after, lines = before ++ line :: after ∧ k = (i + List.length before)%nat ∧
    Forall insignificant before ∧ significant_line line = true.
Proof.
  revert i. induction lines as [|line lines IH]; intros i; simpl; [done|].
  destruct (significant_line line) eqn:E.
  - intros [= <- _]. exists [], line, lines. split_and!; [done|simpl; lia|constructor|done].
  - intros (before & x & after & -> & -> & ? & ?)%IH. exists (line :: before), x, after.
    split_and!; [done|simpl; lia|by constructor|done].
Qed.

Lemma significant_from_last i lines k :
  last (significant_from i lines) = Some k →
  ∃ before line after, lines = before ++ line :: after ∧ k = (i + List.length before)%nat ∧
    significant_line line = true ∧ Forall insignificant after.
Proof.
  revert i. induction lines as [|line lines IH]; intros i; simpl; [done|].
  destruct (significant_line line) eqn:E; [|].
  - destruct (significant_from (S i) lines) as [|k' ks] eqn:Es.
    + intros [= <-]. exists [], line, lines. split_and!; [done|simpl; lia|done|by eapply significant_from_nil].
    + rewrite last_cons_cons, <-Es. intros (before & x & after & -> & -> & ? & ?)%IH.
      exists (line :: before), x, after. split_and!; [done|simpl; lia|done|done].
  - intros (before & x & after & -> & -> & ? & ?)%IH. exists (line :: before), x, after.
    split_and!; [done|simpl; lia|done|done].
Qed.

(** The last significant line comes after the first, or is the first. *)
Lemma first_last_order {A} (P : A → Prop) b1 x a1 b2 y (a2 : list A) :
  b1 ++ x :: a1 = b2 ++ y :: a2 → Forall P b1 → ¬ P y →
  (b1 = b2 ∧ x = y ∧ a1 = a2) ∨ ∃ mid, b2 = b1 ++ x :: mid ∧ a1 = mid ++ y :: a2.
Proof.
  revert b2. induction b1 as [|z b1 IH]; intros [|z' b2] Heq Hb Hy; simpl in Heq.
  - injection Heq as -> ->. by left.
  - injection Heq as -> ->. right. by exists b2.
  - injection Heq as -> _. by apply Forall_cons in Hb as [? _].
  - injection Heq as -> Heq. apply Forall_cons in Hb as [_ Hb].
    destruct (IH b2 Heq Hb Hy) as [(-> & -> & ->)|(mid & -> & ->)]; [by left|right; by exists mid].
Qed.

Lemma begin_not_commit line : is_begin line = true → is_commit line = false.
Proof.
  unfold is_begin, is_commit, upper_is. rewrite orb_true_iff, !bool_decide_eq_true. intros [-> | ->]; done.
Qed.

Lemma nth_app_here {A} (before : list A) x after d : nth (List.length before) (before ++ x :: after) d = x.
Proof. by rewrite app_nth2, Nat.sub_diag by lia. Qed.

(** What [unwrapTransaction] returns, by lines. *)
Definition unwrapped (sql : text) (r : result script_error (text * bool)) : Prop :=
  let lines := split_at newline sql in
  match r with
  | Err NoSQL => Forall insignificant lines
  | Ok (body, false) => body = sql ∧
      ∀ before line after, lines = before ++ line :: after →
        (Forall insignificant before → significant_line line = true → is_begin line = false) ∧
        (Forall insignificant after → significant_line line = true → is_commit line = false)
  | Ok (body, true) =>
      ∃ before first mid last after, lines = before ++ first :: mid ++ last :: after ∧
        Forall insignificant before ∧ is_begin first = true ∧ is_commit last = true ∧ Forall insignificant after ∧
        split_at newline body = before ++ [] :: mid ++ [] :: after
  | Err UnbalancedTransaction =>
      ∃ b1 first a1 b2 last a2, lines = b1 ++ first :: a1 ∧ lines = b2 ++ last :: a2 ∧
        Forall insignificant b1 ∧ Forall insignificant a2 ∧ is_begin first ≠ is_commit last
  | Err _ => False
  end.

Lemma insignificant_unique lines b1 x a1 b2 y a2 :
  lines = b1 ++ x :: a1 → lines = b2 ++ y :: a2 → Forall insignificant b1 → Forall insignificant b2 →
  significant_line x = true → significant_line y = true → x = y.
Proof.
  intros -> Heq Hb1 Hb2 Hx Hy. unfold insignificant in *.
  apply (first_last_order insignificant) in Heq; [|done|unfold insignificant; congruence].
  destruct Heq as [(_ & -> & _)|(mid & -> & _)]; [done|].
  apply Forall_app in Hb2 as [_ [? _]%Forall_cons]. unfold insignificant in *. congruence.
Qed.

Lemma insignificant_unique_last lines b1 x a1 b2 y a2 :
  lines = b1 ++ x :: a1 → lines = b2 ++ y :: a2 → Forall insignificant a1 → Forall insignificant a2 →
  significant_line x = true → significant_line y = true → x = y.
Proof.
  intros Hx Hy H1 H2 Hsx Hsy.
  eapply (insignificant_unique (reverse lines) (reverse a1) x (reverse b1) (reverse a2) y (reverse b2));
    rewrite ?Forall_reverse; try done; [rewrite Hx|rewrite Hy]; by rewrite reverse_app, reverse_cons, <-app_assoc.
Qed.

Lemma unwrapTransaction_unwrapped sql : unwrapped sql (unwrapTransaction sql).
Proof.
  unfold unwrapped, unwrapTransaction. set (lines := split_at newline sql).
  destruct (significant_from 0 lines) as [|k1 ks] eqn:Es; [by eapply significant_from_nil|].
  destruct (last (k1 :: ks)) as [k2|] eqn:El; [|by apply last_None in El].
  rewrite <-Es in El. apply significant_from_last in El as (b2 & y & a2 & Hl2 & -> & Hy & Ha2).
  apply significant_from_cons in Es as (b1 & x & a1 & Hl1 & -> & Hb1 & Hx). simpl.
  rewrite Hl1, nth_app_here, <-Hl1. rewrite Hl2, nth_app_here, <-Hl2.
  destruct (Bool.eqb _ _) eqn:Eb; simpl.
  2:{ exists b1, x, a1, b2, y, a2. split_and!; try done. by apply eqb_false_iff. }
  apply eqb_prop in Eb. destruct (is_begin x) eqn:Hbx; simpl.
  - assert (split_at newline sql = b1 ++ x :: a1) as Heq by done. fold lines in Heq. rewrite Hl2 in Heq. symmetry in Heq.
    apply (first_last_order insignificant) in Heq; [|done|unfold insignificant; congruence].
    destruct Heq as [(_ & <- & _)|(mid & -> & ->)]; [by rewrite (begin_not_commit x Hbx) in Eb|].
    exists b1, x, mid, y, a2. split_and!; try done.
    rewrite Hl1, insert_app_r_alt, Nat.sub_diag by lia. simpl. rewrite length_app. simpl.
    rewrite insert_app_r_alt by lia. replace (_ - _)%nat with (S (List.length mid)) by lia. simpl.
    rewrite insert_app_r_alt, Nat.sub_diag by lia. simpl. apply split_at_join; [by destruct b1|].
    pose proof (split_at_no_sep newline sql) as Hn. fold lines in Hn. rewrite Hl1 in Hn.
    apply Forall_app in Hn as [? [_ [? [_ ?]%Forall_cons]%Forall_app]%Forall_cons].
    apply Forall_app. split; [done|]. constructor; [apply not_elem_of_nil|]. apply Forall_app.
    split; [done|]. constructor; [apply not_elem_of_nil|done].
  - split; [done|]. intros before line after Hl. split; intros Hi Hs.
    + by rewrite (insignificant_unique lines before line after b1 x a1).
    + by rewrite (insignificant_unique_last lines before line after b2 y a2).
Qed.

(** The first and the last line that hold SQL decide. A
    BEGIN and a COMMIT there are blanked and every other line is kept; with neither,
    the file is returned as it is; with one only it is refused, as is a file without
    SQL. *)
Theorem unwrapTransaction_unwraps sql : unwrapped sql (unwrapTransaction sql).
Proof. apply unwrapTransaction_unwrapped. Qed.

(** * A grammar of SQL text *)

(** The inside of a quoted string or identifier: the quote occurs doubled. *)
Inductive quoted (q : Z) : text → Prop :=
| quoted_nil : quoted q []
| quoted_byte b bs : b ≠ q → quoted q bs → quoted q (b :: bs)
| quoted_pair bs : quoted q bs → quoted q (q :: q :: bs).

(** [body] does not hold [closer], and does not help to form an earlier one. *)
Definition ends_first (closer body : text) : Prop :=
  ∀ k, (k < List.length body)%nat → has_prefix closer (drop k (body ++ closer)) = false.

(** Bytes that begin nothing. *)
Definition ordinary (b : Z) (rest : text) : Prop :=
  b ≠ 39 ∧ b ≠ 34 ∧ b ≠ 36 ∧ b ≠ 59 ∧
  has_prefix (word "--") (b :: rest) = false ∧ has_prefix (word "/*") (b :: rest) = false.

(** The tag of a dollar quote: letters, digits and underscores of ASCII. *)
Definition tag_char (b : Z) : Prop := 97 ≤ b ≤ 122 ∨ 65 ≤ b ≤ 90 ∨ 48 ≤ b ≤ 57 ∨ b = 95.

(** A dollar sign before [bs] opens no quote. *)
Definition lone_dollar (bs : text) : Prop := ∀ tag rest, Forall tag_char tag → bs ≠ tag ++ 36 :: rest.

(** From [bs] whole tokens lead to [tail], none of them a semicolon. *)
Inductive tokens (tail : text) : text → Prop :=
| no_token : tokens tail tail
| plain_byte b bs : ordinary b bs → tokens tail bs → tokens tail (b :: bs)
| quoted_token q body bs : q = 39 ∨ q = 34 → quoted q body → has_prefix [q] bs = false →
    tokens tail bs → tokens tail (q :: body ++ q :: bs)
| line_comment body bs : newline ∉ body → tokens tail bs → tokens tail (word "--" ++ body ++ newline :: bs)
| block_comment body bs : ends_first (word "*/") body → tokens tail bs →
    tokens tail (word "/*" ++ body ++ word "*/" ++ bs)
| dollar_token tag body bs : Forall tag_char tag → ends_first (36 :: tag ++ [36]) body →
    tokens tail bs → tokens tail ((36 :: tag ++ [36]) ++ body ++ (36 :: tag ++ [36]) ++ bs)
| dollar_sign bs : lone_dollar bs → tokens tail bs → tokens tail (36 :: bs).

(** The text cut at its semicolons; the last piece may end in a line comment. *)
Inductive pieces_of : text → list text → Prop :=
| last_piece bs : tokens [] bs → pieces_of bs [bs]
| commented_piece bs body : newline ∉ body → tokens (word "--" ++ body) bs → pieces_of bs [bs]
| next_piece piece tail pieces : tokens (59 :: tail) (piece ++ 59 :: tail) → pieces_of tail pieces →
    pieces_of (piece ++ 59 :: tail) ((piece ++ [59]) :: pieces).

(** What the splitter makes of the pieces. *)
Definition statements_of (pieces : list text) : list text :=
  List.filter (λ s, negb (bool_decide (s = []))) (TrimSpace <$> pieces).

(** * The loop without its fuel *)

Lemma lex_step_advances mode b tl : (1 ≤ (lex_step mode (b :: tl)).1.1)%nat ∨
  ∃ tag, mode = DollarQuoted tag ∧ tag = [].
Proof.
  unfold lex_step. destruct mode; destruct_tests; simpl; try (left; lia).
  - destruct (dollar_tag tl) as [tag|] eqn:Ht; simpl; [|left; lia]. left. unfold dollar_tag in Ht.
    destruct (drop _ _) as [|[|[p|p|]|] ?]; try done. repeat (destruct p as [p|p|]; try done). injection Ht as <-. simpl. lia.
  - destruct dollarTag; [right; eauto|left; simpl; lia].
Qed.

Definition proper (mode : lex_mode) : Prop := match mode with DollarQuoted tag => tag ≠ [] | _ => True end.

Lemma dollar_tag_nonempty bs tag : dollar_tag bs = Some tag → ∃ rest, tag = 36 :: rest.
Proof.
  unfold dollar_tag. destruct (drop _ _) as [|[|p|] ?]; try done.
  do 6 (destruct p as [p|p|]; try done). intros [= <-]. eauto.
Qed.

Lemma lex_step_proper mode rest : proper mode → proper (lex_step mode rest).1.2.
Proof.
  intros Hp. unfold lex_step. destruct rest as [|b tl]; [done|].
  destruct mode; destruct_tests; simpl; try done. destruct (dollar_tag tl) as [tag|] eqn:Ht; [|done].
  apply dollar_tag_nonempty in Ht as [r ->]. done.
Qed.

Lemma split_loop_fuel fuel1 fuel2 mode current rest statements :
  proper mode → (List.length rest ≤ fuel1)%nat → (List.length rest ≤ fuel2)%nat →
  split_loop fuel1 mode current rest statements = split_loop fuel2 mode current rest statements.
Proof.
  revert fuel2 mode current rest statements. induction fuel1 as [|fuel1 IH]; intros fuel2 mode current rest statements Hp H1 H2.
  { destruct rest; [|simpl in H1; lia]. by destruct fuel2. }
  destruct rest as [|b tl]; [by destruct fuel2|]. destruct fuel2 as [|fuel2]; [simpl in H2; lia|].
  cbn [split_loop]. pose proof (lex_step_advances mode b tl) as Hadv. pose proof (lex_step_proper mode (b :: tl) Hp) as Hp'.
  destruct (lex_step mode (b :: tl)) as [[n mode'] ends]. simpl in Hadv, Hp'.
  destruct Hadv as [Hn|(tag & -> & ->)]; [|done].
  assert (List.length (drop n (b :: tl)) ≤ List.length tl)%nat as Hl by (rewrite length_drop; simpl; lia).
  simpl in H1, H2. destruct ends; apply IH; (done || lia).
Qed.

Definition lex mode current rest statements := split_loop (List.length rest) mode current rest statements.

Lemma lex_nil mode current statements : lex mode current [] statements = (mode, current, statements).
Proof. unfold lex. simpl. by rewrite app_nil_r. Qed.

Lemma lex_cons mode current b tl statements :
  proper mode →
  lex mode current (b :: tl) statements =
    let '(n, mode', ends) := lex_step mode (b :: tl) in
    let current := current ++ take n (b :: tl) in
    if ends then lex mode' [] (drop n (b :: tl)) (add_statement statements current)
    else lex mode' current (drop n (b :: tl)) statements.
Proof.
  intros Hp. unfold lex at 1. cbn [split_loop List.length].
  pose proof (lex_step_advances mode b tl) as Hadv. pose proof (lex_step_proper mode (b :: tl) Hp) as Hp'.
  destruct (lex_step mode (b :: tl)) as [[n mode'] ends]. simpl in Hadv, Hp'.
  destruct Hadv as [Hn|(tag & -> & ->)]; [|done].
  assert (List.length (drop n (b :: tl)) ≤ List.length tl)%nat as Hl by (rewrite length_drop; simpl; lia).
  unfold lex. destruct ends; apply split_loop_fuel; done.
Qed.

(** * Inside a token *)

Lemma has_prefix_longer p bs rest :
  (List.length p ≤ List.length bs)%nat → has_prefix p (bs ++ rest) = has_prefix p bs.
Proof.
  revert bs. induction p as [|x p IH]; intros [|b bs]; simpl; try done; [lia|]. intros Hl. by rewrite IH by lia.
Qed.

Lemma has_prefix_self p rest : has_prefix p (p ++ rest) = true.
Proof. apply has_prefix_spec. by exists rest. Qed.

Lemma lex_quoted q body cur rest st :
  quoted q body → has_prefix [q] rest = false →
  lex (Quoted q) cur (body ++ q :: rest) st = lex Normal (cur ++ body ++ [q]) rest st.
Proof.
  intros Hb Hr. revert cur. induction Hb as [|b bs Hne _ IH|bs _ IH]; intros cur; simpl.
  - rewrite lex_cons by done. unfold lex_step. by rewrite Z.eqb_refl, Hr.
  - rewrite lex_cons by done. unfold lex_step. rewrite (proj2 (Z.eqb_neq b q)) by done. simpl. by rewrite IH, <-app_assoc.
  - rewrite lex_cons by done. unfold lex_step. rewrite Z.eqb_refl. simpl. rewrite Z.eqb_refl. simpl. by rewrite IH, <-app_assoc.
Qed.

Lemma lex_quoted_cases q rest :
  (∃ body rest', rest = body ++ q :: rest' ∧ quoted q body ∧ has_prefix [q] rest' = false) ∨
  ∀ cur st, lex (Quoted q) cur rest st = (Quoted q, cur ++ rest, st).
Proof.
  remember (List.length rest) as n eqn:Hn. revert rest Hn. induction (lt_wf n) as [n _ IH]. intros [|b tl] ->.
  { right. intros. by rewrite lex_nil, app_nil_r. }
  destruct (b =? q) eqn:E.
  - apply Z.eqb_eq in E as ->. destruct (has_prefix [q] tl) eqn:Hp; [|left; exists [], tl; split_and!; [done|constructor|done]].
    apply has_prefix_spec in Hp as (tl' & ->). destruct (IH (List.length tl') ltac:(simpl; lia) tl' eq_refl) as
      [(body & rest' & -> & Hq & Hr)|Hr].
    + left. exists (q :: q :: body), rest'. split_and!; [done|by constructor|done].
    + right. intros cur st. rewrite lex_cons by done. unfold lex_step. rewrite Z.eqb_refl. simpl. rewrite Z.eqb_refl. simpl.
      by rewrite Hr, <-app_assoc.
  - apply Z.eqb_neq in E as Hne. destruct (IH (List.length tl) ltac:(simpl; lia) tl eq_refl) as [(body & rest' & -> & Hq & Hr)|Hr].
    + left. exists (b :: body), rest'. split_and!; [done|by constructor|done].
    + right. intros cur st. rewrite lex_cons by done. unfold lex_step. rewrite E. simpl. by rewrite Hr, <-app_assoc.
Qed.

Lemma lex_comment body cur rest st :
  newline ∉ body → lex LineComment cur (body ++ newline :: rest) st = lex Normal (cur ++ body ++ [newline]) rest st.
Proof.
  revert cur. induction body as [|b body IH]; intros cur Hb; simpl; rewrite lex_cons by done; simpl; [done|].
  apply not_elem_of_cons in Hb as [Hne Hb]. rewrite (proj2 (Z.eqb_neq b 10)) by (unfold newline in Hne; congruence).
  by rewrite IH, <-app_assoc.
Qed.

Lemma lex_comment_end body cur st : newline ∉ body → lex LineComment cur body st = (LineComment, cur ++ body, st).
Proof.
  revert cur. induction body as [|b body IH]; intros cur Hb; [by rewrite lex_nil, app_nil_r|].
  rewrite lex_cons by done. simpl. apply not_elem_of_cons in Hb as [Hne Hb].
  rewrite (proj2 (Z.eqb_neq b 10)) by (unfold newline in Hne; congruence). by rewrite IH, <-app_assoc.
Qed.

Lemma comment_cases (rest : text) : (∃ body rest', rest = body ++ newline :: rest' ∧ newline ∉ body) ∨ newline ∉ rest.
Proof.
  destruct (decide (newline ∈ rest)) as [Hin|]; [left|by right].
  induction rest as [|b rest IH]; [by apply elem_of_nil in Hin|]. destruct (decide (b = newline)) as [->|Hne].
  - exists [], rest. split; [done|apply not_elem_of_nil].
  - apply elem_of_cons in Hin as [|Hin]; [congruence|]. destruct (IH Hin) as (body & rest' & -> & Hb).
    exists (b :: body), rest'. split; [done|]. by apply not_elem_of_cons.
Qed.

(** Block comments and dollar quotes: up to the first [closer]. *)
Section until.
Context (mode : lex_mode) (closer : text) (Hproper : proper mode) (Hcloser : closer ≠ []).
Context (Hstep : ∀ b tl, lex_step mode (b :: tl) =
  if has_prefix closer (b :: tl) then (List.length closer, Normal, false) else (1%nat, mode, false)).

Lemma ends_first_cons b body :
  ends_first closer (b :: body) ↔ has_prefix closer (b :: body ++ closer) = false ∧ ends_first closer body.
Proof using Type.
  split.
  - intros He. split; [apply (He 0%nat); simpl; lia|]. intros k Hk. apply (He (S k)). simpl. lia.
  - intros [H0 He] [|k] Hk; [done|]. apply He. simpl in Hk. lia.
Qed.

Lemma closer_ahead b body rest : has_prefix closer (b :: body ++ closer ++ rest) = has_prefix closer (b :: body ++ closer).
Proof using Type.
  pose proof (has_prefix_longer closer (b :: body ++ closer) rest) as Hp. simpl app in Hp. rewrite <-app_assoc in Hp.
  apply Hp. simpl. rewrite length_app. lia.
Qed.

Lemma closer_here cur rest st : lex mode cur (closer ++ rest) st = lex Normal (cur ++ closer) rest st.
Proof using Hproper Hcloser Hstep.
  pose proof (has_prefix_self closer rest) as Hp. destruct (closer ++ rest) as [|b tl] eqn:E; [by destruct closer|].
  rewrite lex_cons, Hstep, Hp by done. rewrite <-E. by rewrite take_app_length, drop_app_length.
Qed.

Lemma lex_until body cur rest st :
  ends_first closer body → lex mode cur (body ++ closer ++ rest) st = lex Normal (cur ++ body ++ closer) rest st.
Proof using Hproper Hcloser Hstep.
  revert cur. induction body as [|b body IH]; intros cur He; [by apply closer_here|].
  apply ends_first_cons in He as [Hb He]. simpl. rewrite lex_cons, Hstep by done.
  rewrite closer_ahead, Hb. simpl. by rewrite IH, <-app_assoc.
Qed.

Lemma lex_until_cases rest :
  (∃ body rest', rest = body ++ closer ++ rest' ∧ ends_first closer body) ∨
  ∀ cur st, lex mode cur rest st = (mode, cur ++ rest, st).
Proof using Hproper Hstep.
  induction rest as [|b tl IH]; [right; intros; by rewrite lex_nil, app_nil_r|].
  destruct (has_prefix closer (b :: tl)) eqn:Hp.
  - left. apply has_prefix_spec in Hp as (rest' & ->). exists [], rest'. split; [done|]. intros k Hk. simpl in Hk. lia.
  - destruct IH as [(body & rest' & -> & He)|Hr].
    + left. exists (b :: body), rest'. split; [done|]. apply ends_first_cons. split; [|done].
      by rewrite <-Hp, closer_ahead.
    + right. intros cur st. rewrite lex_cons, Hstep, Hp by done. simpl. by rewrite Hr, <-app_assoc.
Qed.
End until.

Lemma block_step b tl : lex_step BlockComment (b :: tl) =
  if has_prefix (word "*/") (b :: tl) then (List.length (word "*/"), Normal, false) else (1%nat, BlockComment, false).
Proof. done. Qed.

Lemma dollar_step tag b tl : lex_step (DollarQuoted tag) (b :: tl) =
  if has_prefix tag (b :: tl) then (List.length tag, Normal, false) else (1%nat, DollarQuoted tag, false).
Proof. done. Qed.

(** * Whole tokens *)

Lemma open_line cur l st : lex Normal cur (word "--" ++ l) st = lex LineComment (cur ++ word "--") l st.
Proof. change (word "--" ++ l) with (45 :: 45 :: l). rewrite lex_cons by done. simpl. by rewrite take_0, drop_0. Qed.

Lemma open_block cur l st : lex Normal cur (word "/*" ++ l) st = lex BlockComment (cur ++ word "/*") l st.
Proof. change (word "/*" ++ l) with (47 :: 42 :: l). rewrite lex_cons by done. simpl. by rewrite take_0, drop_0. Qed.


Lemma tag_byte_spec b : tag_byte b = true ↔ tag_char b.
Proof. unfold tag_byte, tag_char. rewrite !orb_true_iff, !in_range_spec, Z.eqb_eq. tauto. Qed.

Lemma dollar_tag_end tag rest : Forall tag_char tag → dollar_tag (tag ++ 36 :: rest) = Some (36 :: tag ++ [36]).
Proof.
  intros Ht. apply (Forall_impl _ (λ b, tag_byte b = true)) in Ht; [|intros b; apply tag_byte_spec]. assert (tag_end (tag ++ 36 :: rest) = List.length tag) as He.
  { induction Ht as [|b tag Hb _ IH]; [done|]. simpl. by rewrite Hb, IH. }
  unfold dollar_tag. rewrite He, drop_app_length. by rewrite take_app_length.
Qed.

Lemma dollar_tag_inv bs t :
  dollar_tag bs = Some t → ∃ tag rest, bs = tag ++ 36 :: rest ∧ Forall tag_char tag ∧ t = 36 :: tag ++ [36].
Proof.
  assert (Forall tag_char (take (tag_end bs) bs)) as Hall.
  { induction bs as [|b bs IH]; simpl; [constructor|]. destruct (tag_byte b) eqn:E; simpl; constructor; [by apply tag_byte_spec|done]. }
  intros Ht. pose proof (take_drop (tag_end bs) bs) as Hbs. unfold dollar_tag in Ht.
  destruct (drop (tag_end bs) bs) as [|[|p|] rest]; try done. do 6 (destruct p as [p|p|]; try done).
  injection Ht as <-. exists (take (tag_end bs) bs), rest. by rewrite Hbs.
Qed.

Lemma lone_dollar_spec bs : lone_dollar bs ↔ dollar_tag bs = None.
Proof.
  split.
  - intros Hl. destruct (dollar_tag bs) eqn:E; [|done]. apply dollar_tag_inv in E as (tag & rest & -> & Ht & _).
    by destruct (Hl tag rest Ht).
  - intros Hn tag rest Ht ->. by rewrite dollar_tag_end in Hn.
Qed.

Lemma normal_ordinary b tl :
  ordinary b tl → lex_step Normal (b :: tl) = (1%nat, Normal, false).
Proof.
  intros (H1 & H2 & H3 & H4 & H5 & H6). unfold lex_step. rewrite H5, H6.
  by rewrite !(proj2 (Z.eqb_neq b _)) by done.
Qed.

(** Tokens are passed as a whole. *)
Lemma lex_tokens tail bs :
  tokens tail bs → ∃ piece, bs = piece ++ tail ∧ ∀ cur st, lex Normal cur bs st = lex Normal (cur ++ piece) tail st.
Proof.
  intros Ht.
  induction Ht as [|b bs Hb _ (piece & -> & IH)|q body bs Hq Hb Hn _ (piece & -> & IH)|body bs Hb _ (piece & -> & IH)
    |body bs Hb _ (piece & -> & IH)|tag body bs Htag Hb _ (piece & -> & IH)|bs Hb _ (piece & -> & IH)].
  - exists []. split; [done|]. intros. by rewrite app_nil_r.
  - exists (b :: piece). split; [done|]. intros cur st. rewrite lex_cons, normal_ordinary by done. simpl.
    by rewrite ?take_0, ?drop_0, IH, <-app_assoc.
  - exists (q :: body ++ q :: piece). split; [simpl; by rewrite <-app_assoc|]. intros cur st. rewrite lex_cons by done.
    replace (lex_step Normal _) with (1%nat, Quoted q, false) by (destruct Hq as [-> | ->]; done).
    simpl. rewrite ?take_0, ?drop_0, lex_quoted, IH by done. f_equal. by rewrite <-!app_assoc.
  - exists (word "--" ++ body ++ newline :: piece). split; [by rewrite <-!app_assoc|]. intros cur st.
    rewrite open_line, lex_comment, IH by done. f_equal. by rewrite <-!app_assoc.
  - exists (word "/*" ++ body ++ word "*/" ++ piece). split; [by rewrite <-!app_assoc|]. intros cur st.
    rewrite open_block, (lex_until BlockComment (word "*/")), IH by done. f_equal. by rewrite <-!app_assoc.
  - exists ((36 :: tag ++ [36]) ++ body ++ (36 :: tag ++ [36]) ++ piece). split; [by rewrite <-!app_assoc|]. intros cur st.
    set (t := 36 :: tag ++ [36]) in *.
    assert (lex Normal cur (t ++ body ++ t ++ piece ++ tail) st =
      lex (DollarQuoted t) (cur ++ t) (body ++ t ++ piece ++ tail) st) as ->.
    { set (rest := body ++ t ++ piece ++ tail).
      assert (lex_step Normal (36 :: tag ++ 36 :: rest) = (List.length t, DollarQuoted t, false)) as Hs.
      { simpl. by rewrite dollar_tag_end. }
      assert (t ++ rest = 36 :: tag ++ 36 :: rest) as Heq by (unfold t; simpl; by rewrite <-app_assoc).
      rewrite Heq, lex_cons, Hs, <-Heq by done. by rewrite take_app_length, drop_app_length. }
    rewrite (lex_until (DollarQuoted t) t), IH by done. f_equal. by rewrite <-!app_assoc.
  - exists (36 :: piece). split; [done|]. intros cur st. rewrite lex_cons by done.
    apply lone_dollar_spec in Hb. simpl. rewrite Hb. by rewrite ?take_0, ?drop_0, IH, <-app_assoc.
Qed.

Lemma lex_pieces sql pieces st :
  pieces_of sql pieces →
  let '(mode, current, statements) := lex Normal [] sql st in
  unterminated mode = false ∧ add_statement statements current = st ++ statements_of pieces.
Proof.
  assert (∀ st piece, add_statement st piece = st ++ statements_of [piece]) as Hadd.
  { intros s p. unfold add_statement, statements_of. simpl. case_bool_decide; simpl; [by rewrite app_nil_r|done]. }
  intros Hp. revert st. induction Hp as [bs Ht|bs body Hb Ht|piece tail pieces Ht Hp IH]; intros st.
  - apply lex_tokens in Ht as (piece & Heq & Ht). rewrite Ht, lex_nil, Heq, app_nil_r. by rewrite Hadd.
  - apply lex_tokens in Ht as (piece & -> & Ht). rewrite Ht. rewrite open_line, lex_comment_end by done.
    split; [done|]. rewrite <-app_assoc. by rewrite Hadd.
  - apply lex_tokens in Ht as (piece' & Heq & Ht). apply app_inv_tail in Heq as <-. rewrite Ht, lex_cons by done. simpl. rewrite take_0, drop_0.
    specialize (IH (add_statement st (piece ++ [59]))). destruct (lex _ _ _ _) as [[mode cur] ss]. destruct IH as [Hm ->].
    split; [done|]. rewrite Hadd, <-app_assoc. f_equal.
    unfold statements_of. simpl. by case_bool_decide.
Qed.

Lemma pieces_concat sql pieces : pieces_of sql pieces → concat pieces = sql.
Proof. induction 1; simpl; rewrite ?app_nil_r; [done|done|]. by rewrite IHpieces_of, <-app_assoc. Qed.

(** * Every text is cut, or ends inside a token *)

Definition stops (tail : text) : Prop :=
  tail = [] ∨ (∃ rest, tail = 59 :: rest) ∨ ∃ body, tail = word "--" ++ body ∧ newline ∉ body.

Definition stuck (bs : text) : Prop := ∀ cur st, unterminated (lex Normal cur bs st).1.1 = true.
Definition cut (bs : text) : Prop := ∃ tail, tokens tail bs ∧ stops tail.

(** A token in front of a text that is cut, or stuck. *)
Lemma in_front front bs :
  (∀ tail, tokens tail bs → tokens tail (front ++ bs)) → (cut bs ∨ stuck bs) → cut (front ++ bs) ∨ stuck (front ++ bs).
Proof.
  intros Hfront [(tail & Ht & Hs)|Hs]; [left; exists tail; eauto|right].
  destruct (lex_tokens bs (front ++ bs) (Hfront bs (no_token bs))) as (piece & Heq & Hl).
  intros cur st. rewrite Hl. apply Hs.
Qed.

Lemma stuck_until mode front rest :
  unterminated mode = true →
  (∀ cur st, lex Normal cur (front ++ rest) st = lex mode (cur ++ front) rest st) →
  (∀ cur st, lex mode cur rest st = (mode, cur ++ rest, st)) → stuck (front ++ rest).
Proof. intros Hm Hf Hr cur st. rewrite Hf, Hr. done. Qed.

Lemma cut_or_stuck bs : cut bs ∨ stuck bs.
Proof.
  remember (List.length bs) as n eqn:Hn. revert bs Hn. induction (lt_wf n) as [n _ IH]. intros bs ->.
  assert (∀ front rest, bs = front ++ rest → front ≠ [] → (∀ tail, tokens tail rest → tokens tail (front ++ rest)) →
    cut bs ∨ stuck bs) as Hfront.
  { intros front rest -> Hne Ht. apply in_front; [done|]. apply (IH (List.length rest)); [|done].
    rewrite length_app. destruct front; [done|simpl; lia]. }
  destruct bs as [|b tl]; [left; exists []; split; [constructor|by left]|].
  destruct (has_prefix (word "--") (b :: tl)) eqn:Hline.
  { apply has_prefix_spec in Hline as (l & Hl). destruct (comment_cases l) as [(body & rest & -> & Hb)|Hb].
    - apply (Hfront (word "--" ++ body ++ [newline]) rest); [by rewrite Hl, <-!app_assoc|done|].
      intros tail Ht. rewrite <-!app_assoc. by constructor.
    - left. exists (word "--" ++ l). rewrite Hl. split; [constructor|]. right. right. by exists l. }
  destruct (has_prefix (word "/*") (b :: tl)) eqn:Hblock.
  { apply has_prefix_spec in Hblock as (l & Hl).
    destruct (lex_until_cases BlockComment (word "*/") I block_step l) as [(body & rest & -> & Hb)|Hr].
    - apply (Hfront (word "/*" ++ body ++ word "*/") rest); [by rewrite Hl, <-!app_assoc|done|].
      intros tail Ht. rewrite <-!app_assoc. by constructor.
    - right. rewrite Hl. apply (stuck_until BlockComment); [done|intros; apply open_block|done]. }
  destruct (decide (b = 39 ∨ b = 34)) as [Hq|Hq].
  { assert (∀ cur st, lex Normal cur ([b] ++ tl) st = lex (Quoted b) (cur ++ [b]) tl st) as Hopen.
    { intros cur st. simpl. rewrite lex_cons by done.
      replace (lex_step Normal (b :: tl)) with (1%nat, Quoted b, false) by (by destruct Hq as [-> | ->]).
      simpl. by rewrite take_0, drop_0. }
    destruct (lex_quoted_cases b tl) as [(body & rest & -> & Hb & Hn)|Hr].
    - apply (Hfront (b :: body ++ [b]) rest); [by simpl; rewrite <-app_assoc|done|].
      intros tail Ht. simpl. rewrite <-app_assoc. by constructor.
    - right. by apply (stuck_until (Quoted b) [b] tl). }
  destruct (decide (b = 36)) as [->|Hd].
  { destruct (dollar_tag tl) as [t|] eqn:Ht.
    - apply dollar_tag_inv in Ht as (tag & rest0 & -> & Htag & ->). set (t := 36 :: tag ++ [36]).
      assert (36 :: tag ++ 36 :: rest0 = t ++ rest0) as Heq by (unfold t; simpl; by rewrite <-app_assoc).
      destruct (lex_until_cases (DollarQuoted t) t ltac:(done) (dollar_step t) rest0) as [(body & rest & -> & Hb)|Hr].
      + apply (Hfront (t ++ body ++ t) rest); [by rewrite Heq, <-!app_assoc|done|].
        intros tail Ht. rewrite <-!app_assoc. by apply dollar_token.
      + right. rewrite Heq. apply (stuck_until (DollarQuoted t)); [done| |done].
        intros cur st. rewrite <-Heq, lex_cons by done. cbn [lex_step].
        replace (has_prefix (word "--") _) with false by done. replace (has_prefix (word "/*") _) with false by done.
        simpl. rewrite dollar_tag_end by done. fold t. rewrite Heq. by rewrite take_app_length, drop_app_length.
    - apply (Hfront [36] tl); [done|done|]. intros tail Htail. apply dollar_sign; [by apply lone_dollar_spec|done]. }
  destruct (decide (b = 59)) as [->|Hs].
  { left. exists (59 :: tl). split; [constructor|]. right. left. by exists tl. }
  apply (Hfront [b] tl); [done|done|]. intros tail Htail. apply plain_byte; [|done].
  unfold ordinary. split_and!; (done || tauto).
Qed.

Lemma pieces_or_stuck sql : (∃ pieces, pieces_of sql pieces) ∨ stuck sql.
Proof.
  remember (List.length sql) as n eqn:Hn. revert sql Hn. induction (lt_wf n) as [n _ IH]. intros sql ->.
  destruct (cut_or_stuck sql) as [(tail & Ht & [->|[(rest & ->)|(body & -> & Hb)]])|]; [..|by right].
  - left. exists [sql]. by constructor.
  - destruct (lex_tokens _ _ Ht) as (piece & -> & Hl).
    destruct (IH (List.length rest)) with (sql := rest) as [(pieces & Hp)|Hs]; [rewrite length_app; simpl; lia|done|..].
    + left. exists ((piece ++ [59]) :: pieces). by constructor.
    + right. intros cur st. rewrite Hl, lex_cons by done. simpl. rewrite ?drop_0. apply Hs.
  - left. exists [sql]. by apply commented_piece with body.
Qed.


(** PostgreSQL nests block comments; here the first closer ends the comment, so that
    a semicolon inside the outer comment splits it. *)
Theorem nested_comment_is_split :
  splitSQLStatements (word "/* outer /* inner */ ; */ SELECT 1;") =
    Ok [word "/* outer /* inner */ ;"; word "*/ SELECT 1;"].
Proof. vm_compute. reflexivity. Qed.
