(* ===== verification/Migrate.v ===== *)
(** [internal/migrate]: the chain of migration files, the history table that records
    what was applied, and the runner that brings a database to the chain's end. *)
From Stdlib Require Import Ascii String.
From S2P Require Import Prelude GoStd Tables Text SqlScript.
Open Scope Z_scope.

(** * What the package asks of its libraries *)

(** The database apart from [schema_migrations]: what a script does to it, and the
    answers of the catalogue queries. The scripts leave [schema_migrations] alone. *)
Class Postgres := {
  pg_schema : Type;
  run_sql : text → pg_schema → option pg_schema;
  has_tables : pg_schema → bool;
  has_messages : pg_schema → bool;
  (** the index of migration 014 exists, is valid, and its statistics exist *)
  objects_014 : pg_schema → bool * bool * bool;
  schema_signatures : pg_schema → list text
}.

(** * Data *)

Record Migration : Type := MkMigration {
  Version : Z; Name : string; Filename : string; SQL : text; Checksum : list Z;
  Transactional : bool; Body : text
}.

Record AppliedMigration : Type := MkAppliedMigration {
  applied_Version : Z; applied_Name : string; applied_Checksum : list Z
}.

(** Go ranges over a map in no fixed order. *)
Class MapOrder := {
  range_map : gmap Z AppliedMigration → list (Z * AppliedMigration);
  range_map_Permutation : ∀ m, range_map m ≡ₚ map_to_list m
}.

Inductive migrate_error : Type :=
| ErrBaselineRequired
| ErrBaselineMismatch
| ErrMigrationHistoryExists
| ErrMaintenanceRequired (version : Z)
| ErrSchemaNotReady (cause : migrate_error)
| ChainError (text : string)
| ScriptError (filename : string) (e : script_error)
| HistoryError (version : Z) (text : string)
| DatabaseError (text : string)
| RunnerError (text : string).

(** An entry of the embedded directory; [None] when it can not be read. *)
Record dir_entry : Type := DirEntry {
  entry_name : string; entry_is_dir : bool; entry_contents : option text
}.

(** * The chain *)

Definition name_byte (b : Z) : bool := in_range 97 122 b || in_range 48 57 b || (b =? 95).
Definition migration_name (name : string) : bool :=
  negb (bool_decide (name = EmptyString)) && forallb name_byte (bytes_of name).
Definition digit (a : ascii) : bool := in_range 48 57 (byte_of_ascii a).

(** A name that ends in ".sql", without it. *)
Definition cut_extension (name : string) : option string :=
  let n := (String.length name - 4)%nat in
  if bool_decide (4 ≤ String.length name)%nat && bool_decide (String.substring n 4 name = ".sql"%string)
  then Some (String.substring 0 n name) else None.

(** [migrationFilenamePattern]: ^(\d{3})_([a-z0-9_]+)\.sql$ *)
Definition match_filename (filename : string) : option (string * string) :=
  match filename with
  | String a (String b (String c (String "_" rest))) =>
      if digit a && digit b && digit c then
        name ← cut_extension rest;
        if migration_name name then Some (String a (String b (String c EmptyString)), name) else None
      else None
  | _ => None
  end%char.

Section migrate.
Context `{SHA256, Postgres, MapOrder}.

(** One file of [Load]; [None] when it is skipped. *)
Definition load_entry (e : dir_entry) : result migrate_error (option Migration) :=
  if entry_is_dir e || negb (bool_decide (is_Some (cut_extension (entry_name e)))) then Ok None
  else
    match match_filename (entry_name e) with
    | None => Err (ChainError "invalid migration filename")
    | Some (digits, name) =>
        match ParseInt digits with
        | None => Err (ChainError "parse migration version")
        | Some version =>
            match entry_contents e with
            | None => Err (ChainError "read migration")
            | Some contents =>
                match unwrapTransaction contents with
                | Err x => Err (ScriptError (entry_name e) x)
                | Ok (body, transactional) =>
                    Ok (Some (MkMigration version name (entry_name e) contents (Sum256 contents) transactional body))
                end
            end
        end
    end.

Fixpoint load_entries (entries : list dir_entry) : result migrate_error (list Migration) :=
  match entries with
  | [] => Ok []
  | e :: rest =>
      m ← load_entry e;
      ms ← load_entries rest;
      Ok (match m with Some m => m :: ms | None => ms end)
  end.

(** The loop over the sorted chain. *)
Fixpoint check_chain (index : Z) (previous : option Z) (ms : list Migration) : result migrate_error unit :=
  match ms with
  | [] => Ok tt
  | m :: rest =>
      let wantVersion := index + 1 in
      if negb (Version m =? wantVersion) then Err (ChainError "migration chain has a wrong version")
      else if bool_decide (previous = Some (Version m)) then Err (ChainError "duplicate migration version")
      else check_chain (index + 1) (Some (Version m)) rest
  end.

(** [files] is [None] when the directory can not be read. *)
Definition Load (files : option (list dir_entry)) : result migrate_error (list Migration) :=
  match files with
  | None => Err (ChainError "read migrations")
  | Some entries =>
      ms ← load_entries entries;
      let migrations := sql_order_by Version ms in
      _ ← check_chain 0 None migrations;
      match migrations with
      | [] => Err (ChainError "no migrations found")
      | _ => Ok migrations
      end
  end.

(** * The history *)

(** The loop: no difference found in any byte. *)
Definition equalBytes (left right : list Z) : bool :=
  if negb (List.length left =? List.length right)%nat then false
  else foldl (λ difference lr, Z.lor difference (Z.lxor lr.1 lr.2)) 0 (zip left right) =? 0.

Definition check_applied (byVersion : gmap Z Migration) (version : Z) (recorded : AppliedMigration) :
    result migrate_error unit :=
  match byVersion !! version with
  | None => Err (HistoryError version "database contains unknown migration version")
  | Some migration =>
      if negb (bool_decide (applied_Name recorded = Name migration))
      then Err (HistoryError version "migration name changed")
      else if negb (equalBytes (applied_Checksum recorded) (Checksum migration))
      then Err (HistoryError version "checksum does not match migration history")
      else Ok tt
  end.

Fixpoint each {A} (f : A → result migrate_error unit) (l : list A) : result migrate_error unit :=
  match l with
  | [] => Ok tt
  | x :: rest => _ ← f x; each f rest
  end.

Definition validateApplied (migrations : list Migration) (applied : gmap Z AppliedMigration) :
    result migrate_error unit :=
  let byVersion := foldl (λ m x, <[Version x := x]> m) ∅ migrations in
  _ ← each (λ va, check_applied byVersion va.1 va.2) (range_map applied);
  each (λ version, if bool_decide (is_Some (applied !! version)) then Ok tt
                   else Err (HistoryError version "migration history has a gap"))
    (seqZ 1 (Z.of_nat (size applied))).

Definition validateReady (migrations : list Migration) (applied : gmap Z AppliedMigration) :
    result migrate_error unit :=
  _ ← validateApplied migrations applied;
  if (size applied =? List.length migrations)%nat then Ok tt
  else Err (HistoryError (foldl Z.max 0 (range_map applied).*1) "database is behind the application").

(** * The database *)

Record history_row : Type := HistoryRow {
  hr_version : Z; hr_name : string; hr_checksum : list Z; hr_milliseconds : Z
}.

(** [pg_history] is [None] while [schema_migrations] does not exist. *)
Record pg_state : Type := PgState { pg_db : pg_schema; pg_history : option (list history_row) }.

(** How a call ends: carried out; not carried out; or carried out with the reply
    lost. The milliseconds are what the runner measures before it. *)
Inductive call_end : Type := CallDone | CallFails | CallLost.
Record call : Type := Call { how_ends : call_end; elapsed : Z }.

Record migrate_world : Type := MigrateWorld {
  mw_state : pg_state;
  mw_tx : option pg_state;
  mw_locked : bool;
  mw_progress : list Migration;
  mw_calls : list call
}.

Abbreviation migrate_proc := (proc migrate_world migrate_error).

Definition database_error {A} (text : string) : result migrate_error A := Err (DatabaseError text).

(** A statement, in the transaction if one is open. *)
Definition db_call {A} (text : string) (f : call → pg_state → option (A * pg_state)) : migrate_proc A := λ w,
  match mw_calls w with
  | [] => (database_error text, w)
  | c :: calls =>
      let put s := match mw_tx w with
        | Some _ => MigrateWorld (mw_state w) (Some s) (mw_locked w) (mw_progress w) calls
        | None => MigrateWorld s None (mw_locked w) (mw_progress w) calls
        end in
      let here := default (mw_state w) (mw_tx w) in
      match how_ends c, f c here with
      | CallDone, Some (a, s) => (Ok a, put s)
      | CallLost, Some (_, s) => (database_error text, put s)
      | _, _ => (database_error text, put here)
      end
  end.

Definition query {A} (text : string) (f : pg_state → A) : migrate_proc A :=
  db_call text (λ _ s, Some (f s, s)).

Definition begin : migrate_proc unit := λ w,
  match mw_calls w with
  | [] => (database_error "begin", w)
  | c :: calls =>
      match how_ends c with
      | CallDone => (Ok tt, MigrateWorld (mw_state w) (Some (mw_state w)) (mw_locked w) (mw_progress w) calls)
      | _ => (database_error "begin", MigrateWorld (mw_state w) None (mw_locked w) (mw_progress w) calls)
      end
  end.

Definition commit : migrate_proc unit := λ w,
  match mw_calls w, mw_tx w with
  | c :: calls, Some s =>
      match how_ends c with
      | CallDone => (Ok tt, MigrateWorld s None (mw_locked w) (mw_progress w) calls)
      | CallFails => (database_error "commit", MigrateWorld (mw_state w) None (mw_locked w) (mw_progress w) calls)
      | CallLost => (database_error "commit", MigrateWorld s None (mw_locked w) (mw_progress w) calls)
      end
  | _, _ => (database_error "commit", w)
  end.

(** [defer tx.Rollback(ctx)]. *)
Definition deferring_rollback {A} (m : migrate_proc A) : migrate_proc A := λ w,
  let '(r, w') := m w in (r, MigrateWorld (mw_state w') None (mw_locked w') (mw_progress w') (mw_calls w')).

(** The advisory lock of the session; a lost reply leaves it taken. *)
Definition acquireLock : migrate_proc unit := λ w,
  match mw_calls w with
  | [] => (database_error "acquire migration lock", w)
  | c :: calls =>
      let taken b := MigrateWorld (mw_state w) (mw_tx w) b (mw_progress w) calls in
      match how_ends c with
      | CallDone => (Ok tt, taken true)
      | CallFails => (database_error "acquire migration lock", taken (mw_locked w))
      | CallLost => (database_error "acquire migration lock", taken true)
      end
  end.

Definition releaseLock (w : migrate_world) : migrate_world :=
  match mw_calls w with
  | [] => w
  | c :: calls =>
      MigrateWorld (mw_state w) (mw_tx w)
        (match how_ends c with CallFails => mw_locked w | _ => false end) (mw_progress w) calls
  end.

Definition deferring_release {A} (m : migrate_proc A) : migrate_proc A := λ w,
  let '(r, w') := m w in (r, releaseLock w').

(** [if runner.Progress != nil { runner.Progress(migration) }]. *)
Definition progress (m : Migration) : migrate_proc unit := λ w,
  (Ok tt, MigrateWorld (mw_state w) (mw_tx w) (mw_locked w) (mw_progress w ++ [m]) (mw_calls w)).

(** * Statements on the history *)

Definition createHistory : migrate_proc unit :=
  db_call "create migration history" (λ _ s,
    match pg_history s with
    | None => Some (tt, PgState (pg_db s) (Some []))
    | Some _ => None
    end).

(** The CHECK constraints and the primary key. *)
Definition history_row_ok (row : history_row) : bool :=
  in_range 1 (2 ^ 31 - 1) (hr_version row) && migration_name (hr_name row) &&
  (List.length (hr_checksum row) =? 32)%nat && (0 <=? hr_milliseconds row).

Definition recordMigration (m : Migration) (duration : call → Z) : migrate_proc unit :=
  db_call "record migration" (λ c s,
    rows ← pg_history s;
    let row := HistoryRow (Version m) (Name m) (Checksum m) (duration c) in
    if history_row_ok row && negb (sql_exists (λ x, hr_version x =? hr_version row) rows)
    then Some (tt, PgState (pg_db s) (Some (rows ++ [row]))) else None).

Definition history_exists : migrate_proc bool :=
  query "inspect migration history" (λ s, bool_decide (is_Some (pg_history s))).

Definition applied_map (rows : list history_row) : gmap Z AppliedMigration :=
  foldl (λ m r, <[hr_version r := MkAppliedMigration (hr_version r) (hr_name r) (hr_checksum r)]> m) ∅
    (sql_order_by hr_version rows).

Definition loadApplied : migrate_proc (gmap Z AppliedMigration) :=
  db_call "load migration history" (λ _ s, rows ← pg_history s; Some (applied_map rows, s)).

Definition ensureHistory : migrate_proc unit :=
  historyExists ← history_exists;
  if (historyExists : bool) then mret tt
  else
    businessTablesExist ← query "inspect existing business tables" (λ s, has_tables (pg_db s));
    if (businessTablesExist : bool) then mthrow ErrBaselineRequired else createHistory.

(** * Applying one migration *)

Definition execute (sql : text) : migrate_proc unit :=
  db_call "execute migration" (λ _ s, db ← run_sql sql (pg_db s); Some (tt, PgState db (pg_history s))).

Fixpoint execute_all (statements : list text) : migrate_proc unit :=
  match statements with
  | [] => mret tt
  | sql :: rest => _ ← execute sql; execute_all rest
  end.

(** [complete] and [partial]. *)
Definition completion_014 (s : pg_schema) : bool * bool :=
  let '(indexExists, indexValid, statisticsExist) := objects_014 s in
  let complete := indexExists && indexValid && statisticsExist in
  (complete, negb complete && (indexExists || statisticsExist)).

Definition nonTransactionalState (version : Z) : migrate_proc (bool * bool) :=
  if version =? 14 then query "inspect migration objects" (λ s, completion_014 (pg_db s))
  else mthrow (RunnerError "non-transactional migration has no completion verifier").

Definition apply_statements (m : Migration) : migrate_proc unit :=
  statements ← refuse (map_error (ScriptError (Filename m)) (splitSQLStatements (SQL m)));
  _ ← execute_all statements;
  '(complete, partial) ← nonTransactionalState (Version m);
  if negb complete || partial
  then mthrow (RunnerError "non-transactional migration did not produce valid database objects") else mret tt.

Definition apply (m : Migration) : migrate_proc unit :=
  if Transactional m then
    deferring_rollback (
      _ ← begin;
      _ ← execute (Body m);
      _ ← recordMigration m elapsed;
      commit)
  else
    '(complete, partial) ← nonTransactionalState (Version m);
    if (partial : bool) then mthrow (RunnerError "partial database objects; manual recovery is required")
    else
      _ ← (if (complete : bool) then mret tt else apply_statements m);
      recordMigration m elapsed.

(** * The commands *)

Definition hasRows : migrate_proc bool := query "check maintenance requirement" (λ s, has_messages (pg_db s)).

Definition needs_maintenance (m : Migration) : bool := (Version m =? 15) || (Version m =? 16).

Definition check_maintenance (allowMaintenance : bool) (m : Migration) : migrate_proc unit :=
  if needs_maintenance m && negb allowMaintenance then
    hasMessages ← hasRows;
    if (hasMessages : bool) then mthrow (ErrMaintenanceRequired (Version m)) else mret tt
  else mret tt.

Fixpoint apply_pending (allowMaintenance : bool) (applied : gmap Z AppliedMigration) (ms : list Migration) :
    migrate_proc unit :=
  match ms with
  | [] => mret tt
  | m :: rest =>
      if bool_decide (is_Some (applied !! Version m)) then apply_pending allowMaintenance applied rest
      else
        _ ← check_maintenance allowMaintenance m;
        _ ← apply m;
        _ ← progress m;
        apply_pending allowMaintenance applied rest
  end.

Definition Up (files : option (list dir_entry)) (allowMaintenance : bool) : migrate_proc unit :=
  migrations ← refuse (Load files);
  _ ← acquireLock;
  deferring_release (
    _ ← ensureHistory;
    applied ← loadApplied;
    _ ← refuse (validateApplied migrations applied);
    apply_pending allowMaintenance applied migrations).

(** ** Fingerprints *)

Definition SchemaSignatures : migrate_proc (list text) :=
  query "read schema fingerprint" (λ s, TrimSpace <$> schema_signatures (pg_db s)).

Definition fingerprint_of (signatures : list text) : string :=
  hex (Sum256 (signatures ≫= λ signature, signature ++ [newline])).

Definition SchemaFingerprint : migrate_proc (string * Z) :=
  signatures ← SchemaSignatures;
  mret (fingerprint_of signatures, Z.of_nat (List.length signatures)).

Definition ExpectedSchemaFingerprint015 : string :=
  "a7cf0ed182ff73a68fdfac8c90dce4138d91c2ebfb03f313c91556abd8ed7462".
Definition ExpectedSchemaFingerprint016 : string :=
  "40b2748d060733a1a2178259c0191597cf5666a1389dddbcbef8242c714e2926".

Definition expected_fingerprint (target : Z) : string :=
  if target =? 15 then ExpectedSchemaFingerprint015
  else if target =? 16 then ExpectedSchemaFingerprint016 else EmptyString.

Fixpoint record_all (ms : list Migration) : migrate_proc unit :=
  match ms with
  | [] => mret tt
  | m :: rest => _ ← recordMigration m (λ _, 0); record_all rest
  end.

Definition Baseline (files : option (list dir_entry)) (target : Z) : migrate_proc unit :=
  migrations ← refuse (Load files);
  let expectedFingerprint := expected_fingerprint target in
  if bool_decide (expectedFingerprint = EmptyString) || (Z.of_nat (List.length migrations) <? target)
  then mthrow (RunnerError "baseline target is unsupported")
  else
    _ ← acquireLock;
    deferring_release (deferring_rollback (
      _ ← begin;
      historyExists ← history_exists;
      if (historyExists : bool) then mthrow ErrMigrationHistoryExists
      else
        businessTablesExist ← query "inspect existing business tables" (λ s, has_tables (pg_db s));
        if negb businessTablesExist then mthrow (RunnerError "baseline refused: database has no business tables")
        else
          '(fingerprint, objectCount) ← SchemaFingerprint;
          if negb (bool_decide (fingerprint = expectedFingerprint)) then mthrow ErrBaselineMismatch
          else
            _ ← createHistory;
            _ ← record_all (take (Z.to_nat target) migrations);
            commit)).

(** ** Readiness *)

Definition CheckReady (files : option (list dir_entry)) : migrate_proc unit :=
  run_error ErrSchemaNotReady (
    migrations ← refuse (Load files);
    historyExists ← history_exists;
    if negb historyExists then mthrow (RunnerError "schema_migrations is missing")
    else
      applied ← loadApplied;
      refuse (validateReady migrations applied)).
End migrate.
