(* ===== verification/MigrateRun.v ===== *)
(** The chain of migrations and when a history is the beginning of it; then what the
    runner does with it, whatever call fails. *)
From Stdlib Require Import Ascii String.
From S2P Require Import Prelude GoStd Text Tables SqlScript Migrate.
Open Scope Z_scope.

(** * Maps built by a loop *)

Lemma lookup_foldl_insert {A B} (key : A → Z) (val : A → B) l (m : gmap Z B) k v :
  NoDup (key <$> l) →
  (foldl (λ m x, <[key x := val x]> m) m l) !! k = Some v ↔
    (∃ x, x ∈ l ∧ key x = k ∧ val x = v) ∨ (¬ k ∈ (key <$> l) ∧ m !! k = Some v).
Proof.
  revert m. induction l as [|x l IH]; intros m Hnd; simpl.
  - split; [intros ?; right; split; [apply not_elem_of_nil|done]|].
    intros [(y & Hy & _)|[_ ?]]; [by apply elem_of_nil in Hy|done].
  - apply NoDup_cons in Hnd as [Hx Hnd]. rewrite IH by done. rewrite lookup_insert_Some, not_elem_of_cons. split.
    + intros [(y & Hy & <- & <-)|[Hk [[<- <-]|[Hne Hm]]]].
      * left. exists y. split_and!; [by right|done|done].
      * left. exists x. split_and!; [by left|done|done].
      * right. done.
    + intros [(y & [->|Hy]%elem_of_cons & <- & <-)|[[Hne Hk] Hm]].
      * right. split; [done|by left].
      * left. by exists y.
      * right. split; [done|]. right. split; [congruence|done].
Qed.

Lemma each_ok {A} (f : A → result migrate_error unit) l : each f l = Ok tt ↔ Forall (λ x, f x = Ok tt) l.
Proof.
  induction l as [|x l IH]; simpl; [by split|]. rewrite Forall_cons. split.
  - intros ([] & ? & ?)%result_bind_ok. by rewrite <-IH.
  - intros [-> Hl]. simpl. by apply IH.
Qed.

Lemma equalBytes_spec left right : equalBytes left right = true ↔ left = right.
Proof.
  unfold equalBytes. destruct (_ =? _)%nat eqn:E; simpl.
  2:{ apply Nat.eqb_neq in E. split; [done|]. by intros ->. }
  apply Nat.eqb_eq in E. rewrite Z.eqb_eq.
  assert (∀ acc, foldl (λ d lr, Z.lor d (Z.lxor lr.1 lr.2)) acc (zip left right) = 0 ↔ acc = 0 ∧ left = right) as Hfold.
  { revert right E. induction left as [|a left IH]; intros [|b right] E acc; try done; simpl; [tauto|].
    injection E as E. rewrite IH by done. rewrite Z.lor_eq_0_iff, Z.lxor_eq_0_iff. split.
    - by intros [[-> ->] ->].
    - by intros [-> [= -> ->]]. }
  rewrite Hfold. tauto.
Qed.

(** * Loading *)
Section chain.
Context `{SHA256, Postgres, MapOrder}.

Definition chain (ms : list Migration) : Prop := Version <$> ms = seqZ 1 (Z.of_nat (List.length ms)).

(** [m] is what file [e] holds. *)
Record file_of (e : dir_entry) (m : Migration) : Prop := FileOf {
  fl_dir : entry_is_dir e = false;
  fl_contents : entry_contents e = Some (SQL m);
  fl_name : ∃ digits, match_filename (entry_name e) = Some (digits, Name m) ∧ ParseInt digits = Some (Version m);
  fl_filename : Filename m = entry_name e;
  fl_checksum : Checksum m = Sum256 (SQL m);
  fl_body : unwrapTransaction (SQL m) = Ok (Body m, Transactional m)
}.

Definition is_migration_file (e : dir_entry) : Prop :=
  entry_is_dir e = false ∧ is_Some (cut_extension (entry_name e)).

Lemma load_entry_ok e o :
  load_entry e = Ok o → match o with Some m => file_of e m | None => ¬ is_migration_file e end.
Proof.
  unfold load_entry, is_migration_file. destruct (entry_is_dir e) eqn:Hd; simpl; [intros [= <-]; by intros [? _]|].
  case_bool_decide; simpl; [|intros [= <-]; tauto].
  destruct (match_filename _) as [[digits name]|] eqn:Hm; [|done].
  destruct (ParseInt digits) as [v|] eqn:Hv; [|done]. destruct (entry_contents e) as [c|] eqn:Hc; [|done].
  destruct (unwrapTransaction c) as [|[body tx]] eqn:Hu; [done|]. intros [= <-].
  constructor; simpl; [done|done| |done|done|done]. by exists digits.
Qed.

Lemma load_entries_ok es ms :
  load_entries es = Ok ms →
  (∀ m, m ∈ ms → ∃ e, e ∈ es ∧ file_of e m) ∧
  (∀ e, e ∈ es → is_migration_file e → ∃ m, m ∈ ms ∧ load_entry e = Ok (Some m)) ∧
  ms = omap (λ e, if load_entry e is Ok o then o else None) es ∧ Forall (λ e, is_ok (load_entry e) = true) es.
Proof.
  revert ms. induction es as [|e es IH]; intros ms; simpl.
  { intros [= <-]. split_and!; [intros m Hm; by apply elem_of_nil in Hm|intros e He; by apply elem_of_nil in He|done|done]. }
  intros (o & Ho & Hms)%result_bind_ok. apply result_bind_ok in Hms as (ms' & Hms & [= <-]).
  destruct (IH ms' Hms) as (Hin & Hall & -> & Hok). pose proof (load_entry_ok e o Ho) as Hfile. split_and!.
  - intros m Hm. assert (m ∈ omap (λ e, if load_entry e is Ok o then o else None) es ∨ o = Some m) as [Hm'| ->].
    { destruct o as [m'|]; [apply elem_of_cons in Hm as [->|]|]; auto. }
    + destruct (Hin m Hm') as (e' & ? & ?). exists e'. split; [by right|done].
    + exists e. split; [by left|done].
  - intros e' [->|He']%elem_of_cons Hf.
    + destruct o as [m|]; [|done]. exists m. split; [by left|done].
    + destruct (Hall e' He' Hf) as (m & Hm & ?). exists m. split; [|done]. destruct o; [by right|done].
  - rewrite Ho. by destruct o.
  - constructor; [by rewrite Ho|done].
Qed.

Lemma check_chain_ok i previous ms :
  check_chain i previous ms = Ok tt → Version <$> ms = seqZ (i + 1) (Z.of_nat (List.length ms)).
Proof.
  revert i previous. induction ms as [|m ms IH]; intros i previous; simpl; [done|].
  destruct (Version m =? i + 1) eqn:E; simpl; [|done]. apply Z.eqb_eq in E. case_bool_decide; [done|].
  intros Hc%IH. change (Version m :: (Version <$> ms) = seqZ (i + 1) (Z.of_nat (S (List.length ms)))).
  rewrite Hc, E. rewrite (seqZ_cons (i + 1)) by lia. f_equal. f_equal; lia.
Qed.

Lemma chain_check ms i previous :
  (∀ v, previous = Some v → v ≤ i) → Version <$> ms = seqZ (i + 1) (Z.of_nat (List.length ms)) →
  check_chain i previous ms = Ok tt.
Proof.
  revert i previous. induction ms as [|m ms IH]; intros i previous Hp Hc; simpl; [done|].
  rewrite seqZ_cons in Hc by (simpl; lia). csimpl in Hc. injection Hc as Hv Hc. rewrite Hv, Z.eqb_refl. simpl.
  rewrite bool_decide_eq_false_2 by (intros ->; specialize (Hp _ eq_refl); lia).
  apply IH; [intros v [= <-]; lia|]. rewrite Hc. f_equal; lia.
Qed.

Lemma chain_NoDup ms : chain ms → NoDup (Version <$> ms).
Proof. intros ->. apply NoDup_seqZ. Qed.

Lemma chain_lookup ms i m : chain ms → ms !! i = Some m → Version m = Z.of_nat i + 1.
Proof.
  intros Hc Hi. apply (f_equal (λ l, l !! i)) in Hc. rewrite list_lookup_fmap, Hi in Hc. simpl in Hc.
  symmetry in Hc. apply lookup_seqZ in Hc as [-> _]. lia.
Qed.

Lemma chain_unique ms x y : chain ms → x ∈ ms → y ∈ ms → Version x = Version y → x = y.
Proof. intros Hc. apply unique_key_inj. by apply chain_NoDup. Qed.

Lemma Load_ok files ms :
  Load files = Ok ms → ∃ entries loaded, files = Some entries ∧ load_entries entries = Ok loaded ∧
    ms ≡ₚ loaded ∧ chain ms ∧ ms ≠ [].
Proof.
  unfold Load. destruct files as [entries|]; [|done]. intros (loaded & Hl & Hms)%result_bind_ok.
  apply result_bind_ok in Hms as ([] & Hc & Hms). apply check_chain_ok in Hc.
  exists entries, loaded. split; [done|]. split; [done|].
  destruct (sql_order_by Version loaded) as [|m rest] eqn:E; [done|]. injection Hms as <-.
  split_and!; [|done|done]. rewrite <-E. apply order_by_Permutation.
Qed.

(** Two chains of the same migrations are the same list. *)
Lemma chain_Permutation ms ms' : chain ms → chain ms' → ms ≡ₚ ms' → ms = ms'.
Proof.
  intros Hc Hc' Hp. apply list_eq_same_length with (n := List.length ms); [by rewrite Hp|done|].
  intros i x y Hi Hx Hy. apply (chain_unique ms'); [done| | |].
  - rewrite <-Hp. by eapply list_elem_of_lookup_2.
  - by eapply list_elem_of_lookup_2.
  - rewrite (chain_lookup ms i x), (chain_lookup ms' i y) by done. done.
Qed.

(** An accepted directory gives migrations 1, 2, 3, ... in
    order, without a gap or a duplicate, one for each file *.sql and each with that
    file's name, text, SHA-256 checksum and unwrapped body, and the order in which
    the directory is listed does not matter. *)
Theorem Load_builds_the_chain entries ms :
  Load (Some entries) = Ok ms →
  ms ≠ [] ∧ Version <$> ms = seqZ 1 (Z.of_nat (List.length ms)) ∧
  (∀ m, m ∈ ms → ∃ e, e ∈ entries ∧ file_of e m) ∧
  (∀ e, e ∈ entries → is_migration_file e → ∃ m, m ∈ ms ∧ file_of e m) ∧
  ∀ entries', entries' ≡ₚ entries → Load (Some entries') = Ok ms.
Proof.
  intros (es & loaded & [= <-] & Hl & Hp & Hc & Hne)%Load_ok.
  destruct (load_entries_ok _ _ Hl) as (Hin & Hall & Hloaded & Hok). split_and!; [done|done| | |].
  - intros m Hm. apply Hin. by rewrite <-Hp.
  - intros e He Hf. destruct (Hall e He Hf) as (m & Hm & Ho%load_entry_ok). exists m. by rewrite Hp.
  - intros entries' Hp'. unfold Load.
    assert (load_entries entries' = Ok (omap (λ e, if load_entry e is Ok o then o else None) entries')) as ->.
    { rewrite <-Hp' in Hok. clear -Hok. induction Hok as [|e es He _ IH]; [done|]. simpl.
      destruct (load_entry e) as [|o]; [done|]. rewrite ok_bind, IH. by destruct o. }
    rewrite ok_bind. set (loaded' := omap _ entries').
    assert (loaded' ≡ₚ ms) as Hperm by (unfold loaded'; rewrite Hp, Hloaded, Hp'; done).
    assert (Version <$> sql_order_by Version loaded' = seqZ 1 (Z.of_nat (List.length ms))) as Hs.
    { apply (order_by_range Version).
      - rewrite Hperm. by apply chain_NoDup.
      - intros k. rewrite Hperm. rewrite Hc, elem_of_seqZ. lia. }
    assert (sql_order_by Version loaded' = ms) as ->.
    { apply chain_Permutation; [|done|by rewrite order_by_Permutation].
      unfold chain. by rewrite Hs, order_by_Permutation, Hperm. }
    rewrite (chain_check ms 0 None) by done. rewrite ok_bind. by destruct ms.
Qed.
End chain.

(** * Histories *)
Section history.
Context `{SHA256, Postgres, MapOrder}.

(** What identifies a migration, in the chain and in the history. *)
Definition migration_id (m : Migration) : Z * string * list Z := (Version m, Name m, Checksum m).
Definition row_id (r : history_row) : Z * string * list Z := (hr_version r, hr_name r, hr_checksum r).

Definition history_keys (rows : list history_row) : Prop := unique_key hr_version rows.

(** The history records exactly these migrations. *)
Definition records (ms : list Migration) (rows : list history_row) : Prop := row_id <$> rows ≡ₚ migration_id <$> ms.

Lemma applied_map_lookup rows v a :
  history_keys rows →
  applied_map rows !! v = Some a ↔
    ∃ r, r ∈ rows ∧ hr_version r = v ∧ MkAppliedMigration (hr_version r) (hr_name r) (hr_checksum r) = a.
Proof.
  intros Hk. unfold applied_map. rewrite lookup_foldl_insert by (by rewrite order_by_Permutation).
  rewrite lookup_empty. setoid_rewrite elem_of_order_by. split; [intros [?|[_ ?]]; done|by left].
Qed.

Lemma applied_map_is_Some rows v : history_keys rows → is_Some (applied_map rows !! v) ↔ v ∈ hr_version <$> rows.
Proof.
  intros Hk. rewrite list_elem_of_fmap. split.
  - intros [a (r & Hr & Hv & _)%applied_map_lookup]; [by exists r|done].
  - intros (r & -> & Hr). eexists. apply applied_map_lookup; [done|]. by exists r.
Qed.

Lemma applied_map_size rows : history_keys rows → size (applied_map rows) = List.length rows.
Proof.
  intros Hk. rewrite <-size_dom, <-(length_fmap hr_version rows).
  rewrite <-(size_list_to_set (C := gset Z) (hr_version <$> rows)) by done. f_equal. apply set_eq. intros v.
  by rewrite elem_of_dom, applied_map_is_Some, elem_of_list_to_set.
Qed.

Lemma by_version_lookup ms v m :
  chain ms → foldl (λ acc x, <[Version x := x]> acc) (∅ : gmap Z Migration) ms !! v = Some m ↔ m ∈ ms ∧ Version m = v.
Proof.
  intros Hc. rewrite (lookup_foldl_insert Version id) by (by apply chain_NoDup). rewrite lookup_empty. split.
  - intros [(x & Hx & <- & <-)|[_ ?]]; done.
  - intros [Hm Hv]. left. by exists m.
Qed.

Lemma check_applied_ok ms v a :
  chain ms → check_applied (foldl (λ acc x, <[Version x := x]> acc) ∅ ms) v a = Ok tt ↔
    ∃ m, m ∈ ms ∧ Version m = v ∧ applied_Name a = Name m ∧ applied_Checksum a = Checksum m.
Proof.
  intros Hc. unfold check_applied. destruct (_ !! v) as [m|] eqn:Hl.
  - apply by_version_lookup in Hl as [Hm Hv]; [|done].
    case_bool_decide as Hn; simpl; [destruct (equalBytes _ _) eqn:E; simpl|].
    + apply equalBytes_spec in E. split; [|done]. intros _. by exists m.
    + split; [done|]. intros (m' & Hm' & Hv' & _ & Hck).
      assert (m' = m) as -> by (apply (chain_unique ms); congruence).
      rewrite Hck, (proj2 (equalBytes_spec _ _)) in E by done. done.
    + split; [done|]. intros (m' & Hm' & Hv' & Hn' & _).
      assert (m' = m) as -> by (apply (chain_unique ms); congruence). done.
  - split; [done|]. intros (m & Hm & Hv & _).
    by rewrite (proj2 (by_version_lookup ms v m Hc) (conj Hm Hv)) in Hl.
Qed.

Lemma validateApplied_ok ms rows :
  chain ms → history_keys rows →
  validateApplied ms (applied_map rows) = Ok tt ↔
    (∀ r, r ∈ rows → ∃ m, m ∈ ms ∧ migration_id m = row_id r) ∧
    ∀ v, 1 ≤ v ≤ Z.of_nat (List.length rows) → v ∈ hr_version <$> rows.
Proof.
  intros Hc Hk. unfold validateApplied. rewrite applied_map_size by done. split.
  - intros ([] & Hall%each_ok & Hgap%each_ok)%result_bind_ok. rewrite Forall_forall in Hall. rewrite Forall_forall in Hgap. split.
    + intros r Hr. destruct (check_applied_ok ms (hr_version r) (MkAppliedMigration (hr_version r) (hr_name r) (hr_checksum r)) Hc)
        as [(m & Hm & Hv & Hn & Hck) _]; [|exists m; unfold migration_id, row_id; simpl in *; split; [done|congruence]].
      apply (Hall (_, _)). rewrite range_map_Permutation. apply elem_of_map_to_list, applied_map_lookup; [done|]. by exists r.
    + intros v Hv. specialize (Hgap v ltac:(apply elem_of_seqZ; lia)). case_bool_decide; [|done].
      by apply applied_map_is_Some.
  - intros [Hall Hgap]. assert (each (λ va, check_applied (foldl (λ m x, <[Version x := x]> m) ∅ ms) va.1 va.2)
      (range_map (applied_map rows)) = Ok tt) as ->; [|rewrite ok_bind].
    + apply each_ok, Forall_forall. intros [v a]. rewrite range_map_Permutation, elem_of_map_to_list. simpl.
      intros (r & Hr & <- & <-)%applied_map_lookup; [|done]. apply check_applied_ok; [done|].
      destruct (Hall r Hr) as (m & Hm & [= ? ? ?]). by exists m.
    + apply each_ok, Forall_forall. intros v [? ?]%elem_of_seqZ.
      rewrite bool_decide_eq_true_2; [done|]. apply applied_map_is_Some; [done|]. apply Hgap. lia.
Qed.

Lemma migration_id_inj ms x y : chain ms → x ∈ ms → y ∈ ms → migration_id x = migration_id y → x = y.
Proof. intros Hc Hx Hy [= Hv _ _]. by apply (chain_unique ms). Qed.

Lemma chain_ids_NoDup ms : chain ms → NoDup (migration_id <$> ms).
Proof.
  intros Hc. apply NoDup_fmap_2_strong; [by intros x y Hx Hy; apply (migration_id_inj ms)|].
  eapply NoDup_fmap_1. by apply chain_NoDup.
Qed.

Lemma row_ids_NoDup rows : history_keys rows → NoDup (row_id <$> rows).
Proof.
  intros Hk. apply NoDup_fmap_2_strong; [|by eapply NoDup_fmap_1].
  intros x y Hx Hy [= Hv _ _]. by apply (unique_key_inj hr_version rows).
Qed.

Lemma chain_take ms n : chain ms → chain (take n ms).
Proof.
  unfold chain. intros Hc. rewrite fmap_take, Hc, length_take. apply list_eq. intros i.
  apply option_eq. intros v. rewrite lookup_take_Some, !lookup_seqZ. lia.
Qed.

Lemma elem_of_chain_take ms n m : chain ms → m ∈ take n ms ↔ m ∈ ms ∧ Version m ≤ Z.of_nat n.
Proof.
  intros Hc. split.
  - intros (i & Hi)%list_elem_of_lookup. apply lookup_take_Some in Hi as [Hi ?].
    split; [by eapply list_elem_of_lookup_2|]. rewrite (chain_lookup ms i m) by done. lia.
  - intros [(i & Hi)%list_elem_of_lookup Hv]. rewrite (chain_lookup ms i m) in Hv by done.
    apply list_elem_of_lookup. exists i. apply lookup_take_Some. split; [done|lia].
Qed.

Lemma validate_records ms rows :
  chain ms → history_keys rows →
  validateApplied ms (applied_map rows) = Ok tt ↔
    (List.length rows ≤ List.length ms)%nat ∧ records (take (List.length rows) ms) rows.
Proof.
  intros Hc Hk. rewrite validateApplied_ok by done. split.
  - intros [Hall Hgap]. set (n := List.length rows) in *.
    assert (∀ r, r ∈ rows → hr_version r ≤ Z.of_nat n) as Hle.
    { intros r Hr. destruct (decide (hr_version r ≤ Z.of_nat n)) as [|Hgt]; [done|exfalso].
      assert (hr_version r :: seqZ 1 (Z.of_nat n) ⊆+ hr_version <$> rows) as Hsub.
      { apply NoDup_submseteq.
        - apply NoDup_cons. split; [rewrite elem_of_seqZ; lia|apply NoDup_seqZ].
        - intros v [->|[? ?]%elem_of_seqZ]%elem_of_cons; [by apply list_elem_of_fmap_2|apply Hgap; lia]. }
      apply submseteq_length in Hsub. rewrite length_fmap in Hsub. simpl in Hsub. rewrite length_seqZ in Hsub. lia. }
    assert (row_id <$> rows ≡ₚ migration_id <$> take n ms) as Hperm.
    { apply NoDup_Permutation; [by apply row_ids_NoDup|by apply chain_ids_NoDup, chain_take|].
      intros i. rewrite !list_elem_of_fmap. split.
      - intros (r & -> & Hr). destruct (Hall r Hr) as (m & Hm & Hid). exists m. split; [done|].
        apply elem_of_chain_take; [done|]. split; [done|]. specialize (Hle r Hr). by injection Hid as -> _ _.
      - intros (m & -> & [Hm Hv]%elem_of_chain_take); [|done].
        assert (1 ≤ Version m) as H1v.
        { apply list_elem_of_lookup in Hm as (i & Hi). rewrite (chain_lookup ms i m) by done. lia. }
        pose proof (Hgap (Version m) ltac:(lia)) as Hin. apply list_elem_of_fmap in Hin as (r & Hrv & Hr). exists r. split; [|done].
        destruct (Hall r Hr) as (m' & Hm' & Hid). rewrite <-Hid. f_equal. apply (chain_unique ms); try done.
        by injection Hid as -> _ _. }
    split; [|done]. apply Permutation_length in Hperm. rewrite !length_fmap, length_take in Hperm. lia.
  - intros [Hlen Hrec]. unfold records in Hrec. split.
    + intros r Hr. assert (row_id r ∈ migration_id <$> take (List.length rows) ms) as Hin.
      { rewrite <-Hrec. by apply list_elem_of_fmap_2. }
      apply list_elem_of_fmap in Hin as (m & -> & Hm). exists m. split; [|done]. by apply subseteq_take in Hm.
    + intros v Hv. destruct (lookup_lt_is_Some_2 ms (Z.to_nat (v - 1))) as [m Hm]; [lia|].
      assert (Version m = v) as <- by (rewrite (chain_lookup ms _ m) by done; lia).
      assert (migration_id m ∈ row_id <$> rows) as Hin.
      { rewrite Hrec. apply list_elem_of_fmap_2, elem_of_chain_take; [done|]. split; [by eapply list_elem_of_lookup_2|lia]. }
      apply list_elem_of_fmap in Hin as (r & [= -> _ _] & Hr). by apply list_elem_of_fmap_2.
Qed.

(** A recorded history is accepted exactly when it records the
    first migrations of the chain, each under its name and checksum, in whatever
    order the rows come and the map is iterated; it is ready exactly when it records
    them all. *)
Theorem validateApplied_prefix ms rows :
  chain ms → history_keys rows →
  (validateApplied ms (applied_map rows) = Ok tt ↔
     ∃ n, (n ≤ List.length ms)%nat ∧ row_id <$> rows ≡ₚ migration_id <$> take n ms) ∧
  (validateReady ms (applied_map rows) = Ok tt ↔ row_id <$> rows ≡ₚ migration_id <$> ms).
Proof.
  intros Hc Hk. pose proof (validate_records ms rows Hc Hk) as Hv. unfold records in Hv. split.
  - rewrite Hv. split; [intros [? ?]; by exists (List.length rows)|]. intros (n & Hn & Hp).
    assert (List.length rows = n) as ->; [|done]. pose proof (Permutation_length Hp) as Hl.
    rewrite !length_fmap, length_take in Hl. lia.
  - unfold validateReady. rewrite applied_map_size by done. split.
    + intros ([] & [Hle Hp]%Hv & Hsz)%result_bind_ok. destruct (_ =? _)%nat eqn:E; [|done].
      apply Nat.eqb_eq in E. by rewrite E, firstn_all in Hp.
    + intros Hp. pose proof (Permutation_length Hp) as Hl. rewrite !length_fmap in Hl.
      rewrite (proj2 Hv), ok_bind; [by rewrite Hl, Nat.eqb_refl|]. split; [lia|]. by rewrite Hl, firstn_all.
Qed.
End history.

(** * Runs *)

Section calls.
Context `{SHA256, Postgres, MapOrder}.
Implicit Types (w : migrate_world) (s : pg_schema) (ms : list Migration).

Abbreviation migrate_proc := (proc migrate_world migrate_error).

(** * Single calls *)

(** What a procedure run outside a transaction leaves: no transaction is open. *)
Lemma db_call_auto {A} what (f : call → pg_state → option (A * pg_state)) w r w' :
  mw_tx w = None → db_call what f w = (r, w') →
  mw_tx w' = None ∧
  ((∃ a c, r = Ok a ∧ f c (mw_state w) = Some (a, mw_state w')) ∨
   (is_ok r = false ∧ (mw_state w' = mw_state w ∨ ∃ a c, f c (mw_state w) = Some (a, mw_state w')))).
Proof.
  intros Htx Hrun. unfold db_call in Hrun. rewrite Htx in Hrun. simpl in Hrun.
  destruct (mw_calls w) as [|c calls]; [injection Hrun as <- <-; split; [done|right; split; [done|by left]]|].
  destruct (how_ends c), (f c (mw_state w)) as [[a s]|] eqn:Hf; injection Hrun as <- <-; (split; [done|]);
    [left; by exists a, c|right..]; (split; [done|]); try (by left). right. by exists a, c.
Qed.

Lemma db_call_tx {A} what (f : call → pg_state → option (A * pg_state)) w st r w' :
  mw_tx w = Some st → db_call what f w = (r, w') →
  mw_state w' = mw_state w ∧ ∃ st', mw_tx w' = Some st' ∧
    ((∃ a c, r = Ok a ∧ f c st = Some (a, st')) ∨ is_ok r = false).
Proof.
  intros Htx Hrun. unfold db_call in Hrun. rewrite Htx in Hrun. simpl in Hrun.
  destruct (mw_calls w) as [|c calls]; [injection Hrun as <- <-; split; [done|exists st; split; [done|by right]]|].
  destruct (how_ends c), (f c st) as [[a st']|] eqn:Hf; injection Hrun as <- <-; (split; [done|]);
    (eexists; split; [done|]); [left; by exists a, c|by right..].
Qed.

Lemma query_auto {A} what (f : pg_state → A) w r w' :
  mw_tx w = None → query what f w = (r, w') →
  mw_tx w' = None ∧ mw_state w' = mw_state w ∧ ∀ a, r = Ok a → a = f (mw_state w).
Proof.
  intros Htx Hrun. apply db_call_auto in Hrun as [Htx' Hr]; [|done]. split; [done|].
  destruct Hr as [(a & c & -> & [= <- <-])|[Hr [->|(a & c & [= <- <-])]]]; (split; [done|]); intros b Hb.
  - by injection Hb.
  - by rewrite Hb in Hr.
  - by rewrite Hb in Hr.
Qed.

Lemma query_tx {A} what (f : pg_state → A) w st r w' :
  mw_tx w = Some st → query what f w = (r, w') →
  mw_state w' = mw_state w ∧ (∀ a, r = Ok a → a = f st ∧ mw_tx w' = Some st).
Proof.
  intros Htx Hrun. apply (db_call_tx _ _ _ st) in Hrun as (Hst & st' & Htx' & Hr); [|done]. split; [done|].
  intros a ->. destruct Hr as [(a' & c & [= ->] & [= -> ->])|[=]]. done.
Qed.

Lemma deferring_rollback_inv {A} (m : migrate_proc A) w r w' :
  deferring_rollback m w = (r, w') →
  ∃ w1, m w = (r, w1) ∧ mw_state w' = mw_state w1 ∧ mw_tx w' = None.
Proof. unfold deferring_rollback. destruct (m w) as [r1 w1]. intros [= <- <-]. by exists w1. Qed.

Lemma releaseLock_frame w : mw_state (releaseLock w) = mw_state w ∧ mw_tx (releaseLock w) = mw_tx w.
Proof. unfold releaseLock. by destruct (mw_calls w). Qed.

Lemma deferring_release_inv {A} (m : migrate_proc A) w r w' :
  deferring_release m w = (r, w') → ∃ w1, m w = (r, w1) ∧ mw_state w' = mw_state w1 ∧ mw_tx w' = mw_tx w1.
Proof.
  unfold deferring_release. destruct (m w) as [r1 w1]. intros [= <- <-]. exists w1.
  destruct (releaseLock_frame w1). done.
Qed.

Lemma acquireLock_inv w r w' : acquireLock w = (r, w') → mw_state w' = mw_state w ∧ mw_tx w' = mw_tx w.
Proof.
  unfold acquireLock. destruct (mw_calls w) as [|c calls]; [by intros [= <- <-]|].
  by destruct (how_ends c); intros [= <- <-].
Qed.

Lemma begin_inv w r w' :
  mw_tx w = None → begin w = (r, w') →
  mw_state w' = mw_state w ∧ (r = Ok tt → mw_tx w' = Some (mw_state w)) ∧ (is_ok r = false → mw_tx w' = None).
Proof.
  intros Htx. unfold begin. destruct (mw_calls w) as [|c calls]; [by intros [= <- <-]|].
  by destruct (how_ends c); intros [= <- <-].
Qed.

Lemma commit_inv w st r w' :
  mw_tx w = Some st → commit w = (r, w') →
  mw_state w' = st ∨ (is_ok r = false ∧ mw_state w' = mw_state w).
Proof.
  intros Htx. unfold commit. rewrite Htx. destruct (mw_calls w) as [|c calls]; [intros [= <- <-]; by right|].
  destruct (how_ends c); intros [= <- <-]; [by left|by right|by left].
Qed.

(** * The history table *)

(** [row] records [m]. *)
Definition row_of (m : Migration) (row : history_row) : Prop := row_id row = migration_id m.

Lemma row_of_ids ms rows : Forall2 row_of ms rows → row_id <$> rows = migration_id <$> ms.
Proof. induction 1 as [|m row ms rows Hrow _ IH]; [done|]. by rewrite !fmap_cons, Hrow, IH. Qed.

Definition rows_of (st : pg_state) : list history_row := default [] (pg_history st).

Lemma record_function m duration (c : call) st a st' :
  (rows ← pg_history st;
   let row := HistoryRow (Version m) (Name m) (Checksum m) (duration c) in
   if history_row_ok row && negb (sql_exists (λ x, hr_version x =? hr_version row) rows)
   then Some (tt, PgState (pg_db st) (Some (rows ++ [row]))) else None) = Some (a, st') →
  ∃ row, row_of m row ∧ pg_history st' = Some (rows_of st ++ [row]) ∧ pg_db st' = pg_db st ∧
    is_Some (pg_history st) ∧ (history_keys (rows_of st) → history_keys (rows_of st ++ [row])).
Proof.
  intros (rows & Hrows & Hf)%bind_Some. cbv zeta in Hf. destruct (_ && _) eqn:E; [|done]. injection Hf as _ <-.
  apply andb_true_iff in E as [_ Hex%negb_true_iff]. rewrite sql_exists_false in Hex.
  exists (HistoryRow (Version m) (Name m) (Checksum m) (duration c)). unfold rows_of. rewrite Hrows. simpl.
  split_and!; [done|done|done|by eexists|]. intros Hk. apply unique_key_app; [done|].
  intros y Hy Heq. specialize (Hex y Hy). simpl in *. lia.
Qed.

(** * Scripts *)

Fixpoint run_all (statements : list text) s : option pg_schema :=
  match statements with
  | [] => Some s
  | sql :: rest => s' ← run_sql sql s; run_all rest s'
  end.

(** The statements of a script, outside a transaction. *)
Lemma execute_all_run statements w r w' :
  mw_tx w = None → execute_all statements w = (r, w') →
  mw_tx w' = None ∧ pg_history (mw_state w') = pg_history (mw_state w) ∧
  ∃ k, run_all (take k statements) (pg_db (mw_state w)) = Some (pg_db (mw_state w')) ∧
    (r = Ok tt → take k statements = statements).
Proof.
  revert w r w'. induction statements as [|sql rest IH]; intros w r w' Htx Hrun; simpl in Hrun.
  { apply proc_ret_inv in Hrun as [-> ->]. split_and!; [done|done|]. exists 0%nat. done. }
  apply proc_bind_inv in Hrun as [(e & Hx & ->)|([] & w1 & Hx & Hrun)];
    apply db_call_auto in Hx as [Htx1 Hr]; try done.
  - split; [done|]. destruct Hr as [(? & ? & [=] & _)|[_ [->|(a & c & Hf)]]].
    + split; [done|]. by exists 0%nat.
    + apply bind_Some in Hf as (db & Hdb & [= _ <-]). split; [done|]. exists 1%nat. simpl. by rewrite Hdb, take_0.
  - destruct Hr as [(a & c & _ & Hf)|[[=] _]]. apply bind_Some in Hf as (db & Hdb & [= _ Hst]).
    apply IH in Hrun as (Htx' & Hh & k & Hk & Hall); [|done]. rewrite <-Hst in Hh, Hk. simpl in Hh, Hk.
    split_and!; [done|done|]. exists (S k). simpl. rewrite Hdb. split; [done|]. intros Hok. by rewrite Hall.
Qed.

(** * One migration *)

(** A migration carried out. *)
Definition applies (m : Migration) s s' : Prop :=
  if Transactional m then run_sql (Body m) s = Some s'
  else Version m = 14 ∧
    ((completion_014 s = (true, false) ∧ s' = s) ∨
     (completion_014 s = (false, false) ∧ completion_014 s' = (true, false) ∧
      ∃ statements, splitSQLStatements (SQL m) = Ok statements ∧ run_all statements s = Some s')).

(** A migration that was not recorded leaves nothing, or a part of a
    non-transactional script. *)
Definition leaves (m : Migration) s s' : Prop :=
  s' = s ∨ (Transactional m = false ∧ Version m = 14 ∧ completion_014 s = (false, false) ∧
    ∃ statements k, splitSQLStatements (SQL m) = Ok statements ∧ run_all (take k statements) s = Some s').

Lemma completion_complete s p : completion_014 s = (true, p) → p = false.
Proof. unfold completion_014. destruct (objects_014 s) as [[a b] c]. destruct a, b, c; simpl; by intros [= <-]. Qed.

Lemma nonTransactionalState_inv version w r w' :
  mw_tx w = None → nonTransactionalState version w = (r, w') →
  mw_tx w' = None ∧ mw_state w' = mw_state w ∧
  ∀ a, r = Ok a → version = 14 ∧ a = completion_014 (pg_db (mw_state w)).
Proof.
  intros Htx. unfold nonTransactionalState. destruct (version =? 14) eqn:E.
  - apply Z.eqb_eq in E. intros (? & ? & Hr)%query_auto; [|done]. split_and!; [done|done|]. intros a ->. by split; [|apply Hr].
  - intros [-> ->]%proc_throw_inv. done.
Qed.

Lemma recordMigration_auto m duration w r w' :
  mw_tx w = None → recordMigration m duration w = (r, w') →
  mw_tx w' = None ∧ pg_db (mw_state w') = pg_db (mw_state w) ∧
  ((is_ok r = false ∧ mw_state w' = mw_state w) ∨
   ∃ row, row_of m row ∧ pg_history (mw_state w') = Some (rows_of (mw_state w) ++ [row]) ∧
     is_Some (pg_history (mw_state w)) ∧
     (history_keys (rows_of (mw_state w)) → history_keys (rows_of (mw_state w) ++ [row]))).
Proof.
  intros Htx Hrun. apply db_call_auto in Hrun as [Htx' Hr]; [|done]. split; [done|].
  destruct Hr as [(a & c & -> & (row & ? & ? & ? & ? & ?)%record_function)|
    [Hr [->|(a & c & (row & ? & ? & ? & ? & ?)%record_function)]]].
  - split; [done|]. right. by exists row.
  - split; [done|]. by left.
  - split; [done|]. right. by exists row.
Qed.

(** The statements of a non-transactional migration. *)
Lemma apply_statements_run m w r w' :
  mw_tx w = None → Version m = 14 → Transactional m = false → completion_014 (pg_db (mw_state w)) = (false, false) →
  apply_statements m w = (r, w') →
  mw_tx w' = None ∧ pg_history (mw_state w') = pg_history (mw_state w) ∧
  leaves m (pg_db (mw_state w)) (pg_db (mw_state w')) ∧
  (r = Ok tt → applies m (pg_db (mw_state w)) (pg_db (mw_state w'))).
Proof.
  intros Htx Hv Htr Hc Hrun. unfold apply_statements in Hrun.
  apply proc_bind_inv in Hrun as [(e & Hs & ->)|(statements & w1 & Hs & Hrun)];
    apply refuse_inv in Hs as [-> Hs]; [split_and!; [done|done|by left|done]|].
  destruct (splitSQLStatements (SQL m)) as [|ss] eqn:Hsplit; [done|]. injection Hs as ->.
  apply proc_bind_inv in Hrun as [(e & Hx & ->)|([] & w1 & Hx & Hrun)];
    apply execute_all_run in Hx as (Htx1 & Hh1 & k & Hk & Hall); try done.
  { split_and!; [done|done|right|done]. split_and!; [done|done|done|]. by exists ss, k. }
  assert (leaves m (pg_db (mw_state w)) (pg_db (mw_state w1))) as Hleaves.
  { right. split_and!; [done|done|done|]. by exists ss, k. }
  apply proc_bind_inv in Hrun as [(e & Hn & ->)|([complete partial] & w2 & Hn & Hrun)];
    apply nonTransactionalState_inv in Hn as (Htx2 & Hst2 & Hcomp); try done.
  { rewrite Hst2. done. }
  destruct (Hcomp _ eq_refl) as [_ Hcp].
  destruct (negb complete || partial) eqn:E; [apply proc_throw_inv in Hrun as [-> ->]|apply proc_ret_inv in Hrun as [-> ->]];
    rewrite Hst2; (split_and!; [done|done|done|]); [done|].
  intros _. unfold applies. rewrite Htr. split; [done|]. right. rewrite <-Hcp.
  apply orb_false_iff in E as [->%negb_false_iff ->]. split_and!; [done|done|]. exists ss. split; [done|].
  by rewrite <-(Hall eq_refl).
Qed.

(** A transactional migration and its record are committed together. *)
Lemma apply_transactional m w r w' :
  mw_tx w = None → Transactional m = true → apply m w = (r, w') →
  mw_tx w' = None ∧
  ((is_ok r = false ∧ mw_state w' = mw_state w) ∨
   ∃ row, row_of m row ∧ pg_history (mw_state w') = Some (rows_of (mw_state w) ++ [row]) ∧
     applies m (pg_db (mw_state w)) (pg_db (mw_state w')) ∧
     (history_keys (rows_of (mw_state w)) → history_keys (rows_of (mw_state w) ++ [row]))).
Proof.
  intros Htx Htr Hrun. unfold apply in Hrun. rewrite Htr in Hrun.
  apply deferring_rollback_inv in Hrun as (w1 & Hrun & Hst' & Htx'). split; [done|]. rewrite Hst'. clear Hst' Htx' w'.
  apply proc_bind_inv in Hrun as [(e & Hb & ->)|([] & wb & Hb & Hrun)];
    apply begin_inv in Hb as (Hst1 & Htx1 & _); try done; [by left|]. specialize (Htx1 eq_refl).
  apply proc_bind_inv in Hrun as [(e & Hx & ->)|([] & wx & Hx & Hrun)];
    apply (db_call_tx _ _ _ (mw_state w)) in Hx as (Hst2 & stx & Htx2 & Hx); try done;
    [left; split; [done|congruence]|].
  destruct Hx as [(a & c & _ & Hx)|[=]]. apply bind_Some in Hx as (db & Hdb & [= _ Hstx]).
  apply proc_bind_inv in Hrun as [(e & Hx & ->)|([] & wr & Hx & Hrun)];
    apply (db_call_tx _ _ _ stx) in Hx as (Hst3 & str & Htx3 & Hx); try done;
    [left; split; [done|congruence]|].
  destruct Hx as [(a' & c' & _ & Hx)|[=]]. apply record_function in Hx as (row & Hrow & Hh & Hd & Hsome & Hk).
  apply (commit_inv _ str) in Hrun as [Hst4|[Hr Hst4]]; [|left; split; [done|congruence]|done].
  right. exists row. rewrite Hst4, Hh, Hd, <-Hstx. unfold rows_of in *. rewrite <-Hstx in Hk. simpl in *.
  split_and!; try done. unfold applies. by rewrite Htr.
Qed.

Lemma apply_run m w r w' :
  mw_tx w = None → apply m w = (r, w') →
  mw_tx w' = None ∧
  ((is_ok r = false ∧ pg_history (mw_state w') = pg_history (mw_state w) ∧
      leaves m (pg_db (mw_state w)) (pg_db (mw_state w'))) ∨
   ∃ row, row_of m row ∧ pg_history (mw_state w') = Some (rows_of (mw_state w) ++ [row]) ∧
     applies m (pg_db (mw_state w)) (pg_db (mw_state w')) ∧
     (history_keys (rows_of (mw_state w)) → history_keys (rows_of (mw_state w) ++ [row]))).
Proof.
  intros Htx Hrun. destruct (Transactional m) eqn:Htr.
  { apply apply_transactional in Hrun as [Htx' [[Hr Hst]|Hrow]]; [..|done|done]; split; try done; [left|by right].
    rewrite Hst. split_and!; [done|done|by left]. }
  unfold apply in Hrun. rewrite Htr in Hrun.
  apply proc_bind_inv in Hrun as [(e & Hn & ->)|([complete partial] & w1 & Hn & Hrun)];
    apply nonTransactionalState_inv in Hn as (Htx1 & Hst1 & Hcomp); try done.
  { split; [done|]. left. rewrite Hst1. split_and!; [done|done|by left]. }
  destruct (Hcomp _ eq_refl) as [Hv Hcp]. symmetry in Hcp.
  destruct partial.
  { apply proc_throw_inv in Hrun as [-> ->]. split; [done|]. left. rewrite Hst1. split_and!; [done|done|by left]. }
  assert (∀ r0 w2, (if complete then mret tt else apply_statements m) w1 = (r0, w2) →
    mw_tx w2 = None ∧ pg_history (mw_state w2) = pg_history (mw_state w) ∧
    leaves m (pg_db (mw_state w)) (pg_db (mw_state w2)) ∧
    (r0 = Ok tt → applies m (pg_db (mw_state w)) (pg_db (mw_state w2)))) as Hscript.
  { intros r0 w2 Hs. destruct complete.
    - apply proc_ret_inv in Hs as [_ ->]. rewrite Hst1. split_and!; [done|done|by left|]. intros _.
      unfold applies. rewrite Htr. split; [done|]. by left.
    - rewrite <-Hst1 in Hcp |- *. by apply apply_statements_run in Hs. }
  apply proc_bind_inv in Hrun as [(e & Hs & ->)|([] & w2 & Hs & Hrun)];
    destruct (Hscript _ _ Hs) as (Htx2 & Hh2 & Hl2 & Ha2).
  { split; [done|]. left. done. }
  apply recordMigration_auto in Hrun as (Htx' & Hd & Hcase); [|done]. split; [done|].
  assert (rows_of (mw_state w2) = rows_of (mw_state w)) as Hrows by (unfold rows_of; by rewrite Hh2).
  rewrite Hd. destruct Hcase as [[Hr Hst]|(row & Hrow & Hh & _ & Hk)].
  - left. rewrite Hst. done.
  - right. exists row. rewrite Hrows in *. split_and!; [done|done|by apply Ha2|done].
Qed.

(** * The chain *)

Definition allowed (allowMaintenance : bool) (m : Migration) s : Prop :=
  needs_maintenance m = true → allowMaintenance = true ∨ has_messages s = false.

Inductive applies_all (allowMaintenance : bool) : list Migration → pg_schema → pg_schema → Prop :=
| applies_none s : applies_all allowMaintenance [] s s
| applies_more m ms s1 s2 s3 :
    allowed allowMaintenance m s1 → applies m s1 s2 → applies_all allowMaintenance ms s2 s3 →
    applies_all allowMaintenance (m :: ms) s1 s3.

Lemma check_maintenance_run allow m w r w' :
  mw_tx w = None → check_maintenance allow m w = (r, w') →
  mw_tx w' = None ∧ mw_state w' = mw_state w ∧ (r = Ok tt → allowed allow m (pg_db (mw_state w))).
Proof.
  intros Htx. unfold check_maintenance, allowed. destruct (needs_maintenance m && negb allow) eqn:E.
  - intros [(e & Hq & ->)|(b & w1 & Hq & Hrun)]%proc_bind_inv;
      apply query_auto in Hq as (Htx1 & Hst1 & Hb); try done. specialize (Hb b eq_refl).
    destruct b; [apply proc_throw_inv in Hrun as [-> ->]; done|apply proc_ret_inv in Hrun as [-> ->]].
    split_and!; [done|done|]. intros _ _. by right.
  - intros [-> ->]%proc_ret_inv. split_and!; [done|done|]. intros _ Hn. rewrite Hn in E. left.
    by destruct allow.
Qed.

(** What a run of the loop does: it applies and records the first of the pending
    migrations, each completely and in order. *)
Definition advanced (allow : bool) (pending : list Migration) (rows : list history_row) s (r : result migrate_error unit) w' : Prop :=
  mw_tx w' = None ∧ ∃ done rest new s1,
    pending = done ++ rest ∧ Forall2 row_of done new ∧ pg_history (mw_state w') = Some (rows ++ new) ∧
    (history_keys rows → history_keys (rows ++ new)) ∧
    applies_all allow done s s1 ∧
    (r = Ok tt → rest = [] ∧ pg_db (mw_state w') = s1) ∧
    match rest with
    | [] => pg_db (mw_state w') = s1
    | m :: _ => leaves m s1 (pg_db (mw_state w'))
    end.

Lemma advanced_none allow pending rows s r w' :
  mw_tx w' = None → pg_history (mw_state w') = Some rows → is_ok r = false →
  match pending with [] => pg_db (mw_state w') = s | m :: _ => leaves m s (pg_db (mw_state w')) end →
  advanced allow pending rows s r w'.
Proof.
  intros Htx Hrows Hr Hl. split; [done|]. exists [], pending, [], s.
  rewrite app_nil_r. split_and!; try done; [constructor|]. by intros ->.
Qed.

Lemma apply_pending_run allow applied pending w rows r w' :
  mw_tx w = None → pg_history (mw_state w) = Some rows → Forall (λ m, applied !! Version m = None) pending →
  apply_pending allow applied pending w = (r, w') →
  advanced allow pending rows (pg_db (mw_state w)) r w'.
Proof.
  intros Htx Hrows Hall. revert w rows Htx Hrows.
  induction Hall as [|m pending Hm Hall IH]; intros w rows Htx Hrows Hrun; cbn [apply_pending] in Hrun.
  { apply proc_ret_inv in Hrun as [-> ->]. split; [done|]. exists [], [], [], (pg_db (mw_state w)).
    rewrite (app_nil_r rows). split_and!; try done; constructor. }
  rewrite Hm, bool_decide_eq_false_2 in Hrun by (by apply is_Some_None).
  apply proc_bind_inv in Hrun as [(e & Hc & ->)|([] & w1 & Hc & Hrun)];
    apply check_maintenance_run in Hc as (Htx1 & Hst1 & Hal); try done.
  { apply advanced_none; [done|by rewrite Hst1|done|]. rewrite Hst1. by left. }
  specialize (Hal eq_refl).
  apply proc_bind_inv in Hrun as [(e & Ha & ->)|([] & w2 & Ha & Hrun)];
    apply apply_run in Ha as [Htx2 Hcase]; try done; rewrite Hst1 in Hcase;
    unfold rows_of in Hcase; rewrite Hrows in Hcase; simpl in Hcase.
  - destruct Hcase as [(_ & Hh & Hl)|(row & Hrow & Hh & Happ & Hk)].
    + by apply advanced_none.
    + split; [done|]. exists [m], pending, [row], (pg_db (mw_state w')).
      split_and!; try done; [by repeat constructor|by econstructor; [done..|constructor]|].
      destruct pending; [done|by left].
  - destruct Hcase as [([=] & _)|(row & Hrow & Hh & Happ & Hk)].
    apply proc_bind_inv in Hrun as [(e & [=] & _)|([] & w3 & [= <-] & Hrun)].
    apply (IH _ (rows ++ [row])) in Hrun as [Htx' (done_ & rest & new & s1 & -> & Hnew & Hrows' & Hkeys & Hsteps & Hok & Hl)]; [|done|done].
    simpl in *. split; [done|]. exists (m :: done_), rest, (row :: new), s1.
    rewrite <-app_assoc in Hrows', Hkeys. simpl in Hrows', Hkeys.
    split_and!; try done; [by constructor|by auto|by econstructor].
Qed.

Lemma apply_pending_skip allow applied l1 l2 w :
  Forall (λ m, is_Some (applied !! Version m)) l1 →
  apply_pending allow applied (l1 ++ l2) w = apply_pending allow applied l2 w.
Proof. induction 1 as [|m l1 Hm _ IH]; [done|]. cbn [app apply_pending]. by rewrite bool_decide_eq_true_2. Qed.

(** What is recorded is skipped, the rest is pending. *)
Lemma pending_of ms rows :
  chain ms → history_keys rows → (List.length rows ≤ List.length ms)%nat → records (take (List.length rows) ms) rows →
  Forall (λ m, is_Some (applied_map rows !! Version m)) (take (List.length rows) ms) ∧
  Forall (λ m, applied_map rows !! Version m = None) (drop (List.length rows) ms).
Proof.
  intros Hc Hk Hlen Hrec. unfold records in Hrec. split; apply Forall_forall; intros m Hm.
  - apply applied_map_is_Some; [done|].
    assert (migration_id m ∈ row_id <$> rows) as Hin by (rewrite Hrec; by apply list_elem_of_fmap_2).
    apply list_elem_of_fmap in Hin as (row & [= -> _ _] & Hr). by apply list_elem_of_fmap_2.
  - apply eq_None_not_Some. rewrite applied_map_is_Some by done.
    intros (row & Hv & Hr)%list_elem_of_fmap.
    assert (row_id row ∈ migration_id <$> take (List.length rows) ms) as Hin by (rewrite <-Hrec; by apply list_elem_of_fmap_2).
    apply list_elem_of_fmap in Hin as (m' & [= Hv' _ _] & Hm').
    apply list_elem_of_lookup in Hm as (i & Hi). rewrite lookup_drop in Hi.
    apply list_elem_of_lookup in Hm' as (j & Hj). apply lookup_take_Some in Hj as [Hj ?].
    pose proof (chain_lookup ms _ m Hc Hi). pose proof (chain_lookup ms _ m' Hc Hj). lia.
Qed.

Lemma ensureHistory_run w r w' :
  mw_tx w = None → ensureHistory w = (r, w') →
  mw_tx w' = None ∧ pg_db (mw_state w') = pg_db (mw_state w) ∧ rows_of (mw_state w') = rows_of (mw_state w).
Proof.
  intros Htx Hrun. unfold ensureHistory in Hrun.
  apply proc_bind_inv in Hrun as [(e & Hq & ->)|(b & w1 & Hq & Hrun)];
    apply query_auto in Hq as (Htx1 & Hst1 & _); try done; [by rewrite Hst1|].
  destruct b; [apply proc_ret_inv in Hrun as [-> ->]; by rewrite Hst1|].
  apply proc_bind_inv in Hrun as [(e & Hq & ->)|(b & w2 & Hq & Hrun)];
    apply query_auto in Hq as (Htx2 & Hst2 & _); try done; [by rewrite Hst2, Hst1|].
  destruct b; [apply proc_throw_inv in Hrun as [-> ->]; by rewrite Hst2, Hst1|].
  apply db_call_auto in Hrun as [Htx' Hr]; [|done]. split; [done|]. rewrite Hst2, Hst1 in Hr.
  assert (∀ a st', (if pg_history (mw_state w) is None then Some (tt, PgState (pg_db (mw_state w)) (Some [])) else None)
    = Some (a, st') → pg_db st' = pg_db (mw_state w) ∧ rows_of st' = rows_of (mw_state w)) as Hcreate.
  { intros a st'. unfold rows_of. destruct (pg_history (mw_state w)); [done|]. by intros [= _ <-]. }
  destruct Hr as [(a & c & _ & Hf)|[_ [->|(a & c & Hf)]]]; [|done|]; apply (Hcreate a); by destruct (pg_history _).
Qed.

Lemma loadApplied_run w r w' :
  mw_tx w = None → loadApplied w = (r, w') →
  mw_tx w' = None ∧ mw_state w' = mw_state w ∧
  ∀ applied, r = Ok applied → pg_history (mw_state w) = Some (rows_of (mw_state w)) ∧ applied = applied_map (rows_of (mw_state w)).
Proof.
  intros Htx Hrun. apply db_call_auto in Hrun as [Htx' Hr]; [|done]. split; [done|].
  assert (∀ a st', (rows ← pg_history (mw_state w); Some (applied_map rows, mw_state w)) = Some (a, st') →
    st' = mw_state w ∧ pg_history (mw_state w) = Some (rows_of (mw_state w)) ∧ a = applied_map (rows_of (mw_state w))) as Hload.
  { intros a st'. unfold rows_of. destruct (pg_history (mw_state w)); [|done]. by intros [= <- <-]. }
  destruct Hr as [(a & c & -> & (-> & ? & ->)%Hload)|[Hr [->|(a & c & (-> & _)%Hload)]]]; (split; [done|]); intros b Hb;
    [by injection Hb as <-|by rewrite Hb in Hr..].
Qed.

Lemma Up_run files allow w r w' :
  mw_tx w = None → history_keys (rows_of (mw_state w)) → Up files allow w = (r, w') →
  let rows := rows_of (mw_state w) in
  (is_ok r = false ∧ mw_tx w' = None ∧ pg_db (mw_state w') = pg_db (mw_state w) ∧ rows_of (mw_state w') = rows) ∨
  ∃ ms, Load files = Ok ms ∧ (List.length rows ≤ List.length ms)%nat ∧ records (take (List.length rows) ms) rows ∧
    advanced allow (drop (List.length rows) ms) rows (pg_db (mw_state w)) r w'.
Proof.
  intros Htx Hk Hrun. simpl. unfold Up in Hrun.
  apply proc_bind_inv in Hrun as [(e & Hl & ->)|(ms & w1 & Hl & Hrun)]; apply refuse_inv in Hl as [-> Hl]; [by left|].
  apply proc_bind_inv in Hrun as [(e & Ha & ->)|([] & w1 & Ha & Hrun)]; apply acquireLock_inv in Ha as [Hst1 Htx1].
  { left. rewrite Hst1, Htx1. done. }
  apply deferring_release_inv in Hrun as (w2 & Hrun & Hst' & Htx').
  rewrite Htx in Htx1. enough (let rows := rows_of (mw_state w) in
    (is_ok r = false ∧ mw_tx w2 = None ∧ pg_db (mw_state w2) = pg_db (mw_state w) ∧ rows_of (mw_state w2) = rows) ∨
    ∃ ms, Load files = Ok ms ∧ (List.length rows ≤ List.length ms)%nat ∧ records (take (List.length rows) ms) rows ∧
      advanced allow (drop (List.length rows) ms) rows (pg_db (mw_state w)) r w2) as Hw2.
  { simpl in Hw2. unfold advanced in *. by rewrite Hst', Htx'. }
  simpl. clear Hst' Htx' w'.
  apply proc_bind_inv in Hrun as [(e & He & ->)|([] & w3 & He & Hrun)];
    apply ensureHistory_run in He as (Htx3 & Hd3 & Hr3); try done; rewrite Hst1 in Hd3, Hr3; [by left|].
  apply proc_bind_inv in Hrun as [(e & He & ->)|(applied & w4 & He & Hrun)];
    apply loadApplied_run in He as (Htx4 & Hst4 & Happ); try done; [left; by rewrite Hst4|].
  destruct (Happ _ eq_refl) as [Hhist ->]. rewrite Hr3 in Hrun, Hhist.
  apply proc_bind_inv in Hrun as [(e & Hv & ->)|([] & w5 & Hv & Hrun)]; apply refuse_inv in Hv as [-> Hv];
    [left; by rewrite Hst4|].
  pose proof (Load_ok _ _ (eq_sym Hl)) as (entries & loaded & -> & _ & _ & Hc & _).
  symmetry in Hv. apply validate_records in Hv as [Hlen Hrec]; [|done|done].
  destruct (pending_of ms (rows_of (mw_state w)) Hc Hk Hlen Hrec) as [Hskip Hpend].
  right. exists ms. split_and!; [done|done|done|].
  rewrite <-(take_drop (List.length (rows_of (mw_state w))) ms), apply_pending_skip in Hrun by done.
  apply (apply_pending_run _ _ _ _ (rows_of (mw_state w))) in Hrun; [|done|by rewrite Hst4|done].
  by rewrite Hst4, Hd3 in Hrun.
Qed.

(** * Readiness *)

Definition ready (files : option (list dir_entry)) (st : pg_state) : Prop :=
  ∃ ms rows, Load files = Ok ms ∧ pg_history st = Some rows ∧ records ms rows.

Lemma CheckReady_run files w r w' :
  mw_tx w = None → history_keys (rows_of (mw_state w)) → CheckReady files w = (r, w') →
  mw_state w' = mw_state w ∧ mw_tx w' = None ∧ (r = Ok tt → ready files (mw_state w)).
Proof.
  intros Htx Hk Hrun. unfold CheckReady in Hrun. apply run_error_inv in Hrun as (r0 & Hrun & ->).
  enough (mw_state w' = mw_state w ∧ mw_tx w' = None ∧ (r0 = Ok tt → ready files (mw_state w))) as (? & ? & Hr0).
  { split_and!; [done|done|]. destruct r0 as [|[]]; [done|]. intros _. by apply Hr0. }
  apply proc_bind_inv in Hrun as [(e & Hl & ->)|(ms & w1 & Hl & Hrun)]; apply refuse_inv in Hl as [-> Hl]; [done|].
  apply proc_bind_inv in Hrun as [(e & Hq & ->)|(b & w1 & Hq & Hrun)];
    apply query_auto in Hq as (Htx1 & Hst1 & _); try done.
  destruct b; simpl in Hrun; [|by apply proc_throw_inv in Hrun as [-> ->]].
  apply proc_bind_inv in Hrun as [(e & Hq & ->)|(applied & w2 & Hq & Hrun)];
    apply loadApplied_run in Hq as (Htx2 & Hst2 & Happ); try done; [by rewrite Hst2|].
  destruct (Happ _ eq_refl) as [Hhist ->]. rewrite Hst1 in Hhist, Hrun.
  apply refuse_inv in Hrun as [-> ->]. split_and!; [congruence|done|]. intros Hv.
  exists ms, (rows_of (mw_state w)). split_and!; [done|done|].
  destruct (Load_ok _ _ (eq_sym Hl)) as (entries & loaded & _ & _ & _ & Hc & _).
  by apply (validateApplied_prefix ms _ Hc Hk).
Qed.

Lemma ready_accepted files st locked progress_ c1 c2 calls :
  history_keys (rows_of st) → ready files st → how_ends c1 = CallDone → how_ends c2 = CallDone →
  (CheckReady files (MigrateWorld st None locked progress_ (c1 :: c2 :: calls))).1 = Ok tt.
Proof.
  intros Hk (ms & rows & Hl & Hh & Hrec) Hc1 Hc2. unfold rows_of in Hk. rewrite Hh in Hk. simpl in Hk.
  set (w0 := MigrateWorld st None locked progress_ (c1 :: c2 :: calls)).
  set (w1 := MigrateWorld st None locked progress_ (c2 :: calls)).
  assert (refuse (Load files) w0 = (Ok ms, w0)) as Hload by (by rewrite Hl).
  assert (history_exists w0 = (Ok true, w1)) as Hexists.
  { unfold history_exists, query, db_call, w0. simpl. by rewrite Hc1, Hh. }
  assert (loadApplied w1 = (Ok (applied_map rows), MigrateWorld st None locked progress_ calls)) as Happlied.
  { unfold loadApplied, db_call, w1. simpl. by rewrite Hc2, Hh. }
  unfold CheckReady, run_error. rewrite (proc_bind_run _ _ _ _ _ Hload), (proc_bind_run _ _ _ _ _ Hexists).
  simpl. rewrite (proc_bind_run _ _ _ _ _ Happlied).
  destruct (Load_ok _ _ Hl) as (entries & loaded & _ & _ & _ & Hc & _).
  by rewrite (proj2 (proj2 (validateApplied_prefix ms rows Hc Hk)) Hrec).
Qed.

(** * Baseline *)

Lemma record_all_run ms w st r w' :
  mw_tx w = Some st → record_all ms w = (r, w') →
  mw_state w' = mw_state w ∧ (r = Ok tt → ∃ st' new, mw_tx w' = Some st' ∧ pg_db st' = pg_db st ∧
    Forall2 row_of ms new ∧ rows_of st' = rows_of st ++ new ∧
    (history_keys (rows_of st) → history_keys (rows_of st')) ∧ (is_Some (pg_history st) → is_Some (pg_history st'))).
Proof.
  revert w st r w'. induction ms as [|m ms IH]; intros w st r w' Htx Hrun; simpl in Hrun.
  { apply proc_ret_inv in Hrun as [-> ->]. split; [done|]. intros _. exists st, [].
    rewrite app_nil_r. split_and!; (done || constructor). }
  apply proc_bind_inv in Hrun as [(e & Hx & ->)|([] & w1 & Hx & Hrun)];
    apply (db_call_tx _ _ _ st) in Hx as (Hst1 & st1 & Htx1 & Hr); try done.
  destruct Hr as [(a & c & _ & Hf)|[=]]. apply (record_function _ (λ _, 0) c) in Hf as (row & Hrow & Hh & Hd & Hsome & Hk).
  apply (IH _ st1) in Hrun as [Hst' Hok]; [|done]. split; [congruence|]. intros Hr.
  destruct (Hok Hr) as (st' & new & Htx' & Hd' & Hnew & Hrows & Hk' & Hs').
  assert (rows_of st1 = rows_of st ++ [row]) as HR by (unfold rows_of at 1; by rewrite Hh).
  exists st', (row :: new). rewrite HR, <-app_assoc in Hrows. rewrite HR in Hk'.
  split_and!; [done|congruence|by constructor|done|by auto|]. intros _. apply Hs'. by rewrite Hh.
Qed.

Lemma Baseline_run files target w r w' :
  mw_tx w = None → Baseline files target w = (r, w') →
  (is_ok r = false ∧ mw_state w' = mw_state w) ∨
  ∃ ms rows, Load files = Ok ms ∧ (target = 15 ∨ target = 16) ∧ target ≤ Z.of_nat (List.length ms) ∧
    pg_history (mw_state w) = None ∧ has_tables (pg_db (mw_state w)) = true ∧
    fingerprint_of (TrimSpace <$> schema_signatures (pg_db (mw_state w))) = expected_fingerprint target ∧
    pg_db (mw_state w') = pg_db (mw_state w) ∧ pg_history (mw_state w') = Some rows ∧
    history_keys rows ∧ Forall2 row_of (take (Z.to_nat target) ms) rows.
Proof.
  intros Htx Hrun. unfold Baseline in Hrun.
  apply proc_bind_inv in Hrun as [(e & Hl & ->)|(ms & w1 & Hl & Hrun)]; apply refuse_inv in Hl as [-> Hl]; [by left|].
  destruct (_ || _) eqn:Et; [apply proc_throw_inv in Hrun as [-> ->]; by left|].
  apply orb_false_iff in Et as [Et%bool_decide_eq_false Elen%Z.ltb_ge].
  apply proc_bind_inv in Hrun as [(e & Ha & ->)|([] & w1 & Ha & Hrun)]; apply acquireLock_inv in Ha as [Hst1 Htx1]; [by left|].
  rewrite Htx in Htx1. apply deferring_release_inv in Hrun as (w2 & Hrun & Hst2 & _).
  apply deferring_rollback_inv in Hrun as (w3 & Hrun & Hst3 & _). rewrite Hst2, Hst3. clear Hst2 Hst3 w2 w'.
  rewrite <-Hst1. assert (∀ x, mw_state w3 = mw_state w1 ∧ r = Err x → (is_ok r = false ∧ mw_state w3 = mw_state w1) ∨
    ∃ ms rows, Load files = Ok ms ∧ (target = 15 ∨ target = 16) ∧ target ≤ Z.of_nat (List.length ms) ∧
    pg_history (mw_state w1) = None ∧ has_tables (pg_db (mw_state w1)) = true ∧
    fingerprint_of (TrimSpace <$> schema_signatures (pg_db (mw_state w1))) = expected_fingerprint target ∧
    pg_db (mw_state w3) = pg_db (mw_state w1) ∧ pg_history (mw_state w3) = Some rows ∧
    history_keys rows ∧ Forall2 row_of (take (Z.to_nat target) ms) rows) as Hfail by (intros x [? ->]; by left).
  apply proc_bind_inv in Hrun as [(e & Hb & ->)|([] & wb & Hb & Hrun)];
    apply begin_inv in Hb as (Hstb & Htxb & _); try done; [by eapply Hfail|]. specialize (Htxb eq_refl).
  apply proc_bind_inv in Hrun as [(e & Hq & ->)|(b & wq & Hq & Hrun)];
    apply (query_tx _ _ _ _ _ _ Htxb) in Hq as [Hstq Hb]; [eapply Hfail; split; [congruence|done]|].
  destruct (Hb b eq_refl) as [-> Htxq].
  destruct (pg_history (mw_state w1)) as [rows0|] eqn:Hh; simpl in Hrun.
  { apply proc_throw_inv in Hrun as [-> ->]. eapply Hfail. split; [congruence|done]. }
  apply proc_bind_inv in Hrun as [(e & Hq2 & ->)|(b2 & wq2 & Hq2 & Hrun)];
    apply (query_tx _ _ _ _ _ _ Htxq) in Hq2 as [Hstq2 Hb2]; [eapply Hfail; split; [congruence|done]|].
  destruct (Hb2 b2 eq_refl) as [-> Htxq2].
  destruct (has_tables (pg_db (mw_state w1))) eqn:Htab; simpl in Hrun.
  2:{ apply proc_throw_inv in Hrun as [-> ->]. eapply Hfail. split; [congruence|done]. }
  apply proc_bind_inv in Hrun as [(e & Hq3 & ->)|([fp n] & wq3 & Hq3 & Hrun)].
  { apply proc_bind_inv in Hq3 as [(e' & Hq3 & _)|(sg & wq3 & Hq3 & [? _]%proc_ret_inv)]; [|done].
    apply (query_tx _ _ _ _ _ _ Htxq2) in Hq3 as [Hstq3 _]. eapply Hfail. split; [congruence|done]. }
  apply proc_bind_inv in Hq3 as [(? & _ & [=])|(sg & wq4 & Hq3 & [[= -> ->] ->]%proc_ret_inv)].
  apply (query_tx _ _ _ _ _ _ Htxq2) in Hq3 as [Hstq3 Hb3]. destruct (Hb3 sg eq_refl) as [-> Htxq3].
  simpl in Hrun. destruct (bool_decide (fingerprint_of _ = _)) eqn:Hfp; simpl in Hrun; [apply bool_decide_eq_true in Hfp|].
  2:{ apply proc_throw_inv in Hrun as [-> ->]. eapply Hfail. split; [congruence|done]. }
  apply proc_bind_inv in Hrun as [(e & Hc & ->)|([] & wc & Hc & Hrun)];
    apply (db_call_tx _ _ _ (mw_state w1)) in Hc as (Hstc & stc & Htxc & Hrc); try done;
    [eapply Hfail; split; [congruence|done]|].
  destruct Hrc as [(a & c & _ & Hf)|[=]]. rewrite Hh in Hf. injection Hf as _ <-.
  apply proc_bind_inv in Hrun as [(e & Hr & ->)|([] & wr & Hr & Hrun)];
    apply (record_all_run _ _ (PgState (pg_db (mw_state w1)) (Some []))) in Hr as [Hstr Hok]; try done;
    [eapply Hfail; split; [congruence|done]|].
  destruct (Hok eq_refl) as (st' & new & Htxr & Hd & Hnew & Hrows & Hk & Hs). simpl in *.
  apply (commit_inv _ st') in Hrun as [Hst'|[Hr Hst']]; [|left; split; [done|congruence]|done].
  right. exists ms, new. rewrite Hst'. assert (pg_history st' = Some new) as Hnewh.
  { destruct Hs as [x Hx]; [by eexists|]. unfold rows_of in Hrows. rewrite Hx in Hrows. simpl in Hrows. by rewrite Hx, Hrows. }
  split_and!; try done.
  - unfold expected_fingerprint in Et. destruct (target =? 15) eqn:E1; [left; lia|].
    destruct (target =? 16) eqn:E2; [right; lia|done].
  - rewrite <-(app_nil_l new), <-Hrows. apply Hk. constructor.
Qed.
End calls.
