(* ===== verification/MigratePromises.v ===== *)
(** What the migration runner promises, and its properties at a small chain. *)
From Stdlib Require Import Ascii String.
From S2P Require Import Prelude GoStd Tables Text SqlScript SqlSplitting Migrate MigrateRun.
Open Scope Z_scope.

Section promises.
Context `{SHA256, Postgres, MapOrder}.
Implicit Types (w : migrate_world).

(** C35: whatever call fails or loses its reply, a run of Up finds the
    recorded history to be the beginning of the chain and then applies and records
    the following migrations in order, each completely before the next: the schema
    is the result of exactly the recorded scripts, except that a non-transactional
    script may have stopped half-way without being recorded. A migration that
    rewrites history is not applied while there are messages, unless allowed. Otherwise
    nothing changes. *)
Theorem Up_applies_in_order files allow w r w' :
  mw_tx w = None → history_keys (rows_of (mw_state w)) → Up files allow w = (r, w') →
  let rows := rows_of (mw_state w) in
  let rows' := rows_of (mw_state w') in
  mw_tx w' = None ∧ history_keys rows' ∧
  ((is_ok r = false ∧ rows' = rows ∧ pg_db (mw_state w') = pg_db (mw_state w)) ∨
   ∃ before done rest new s1, Load files = Ok (before ++ done ++ rest) ∧ records before rows ∧
     Forall2 row_of done new ∧ rows' = rows ++ new ∧ applies_all allow done (pg_db (mw_state w)) s1 ∧
     (r = Ok tt → rest = []) ∧
     match rest with
     | [] => pg_db (mw_state w') = s1
     | m :: _ => leaves m s1 (pg_db (mw_state w'))
     end).
Proof.
  intros Htx Hk Hrun rows rows'. pose proof (Up_run _ _ _ _ _ Htx Hk Hrun) as Hup. simpl in Hup. fold rows rows' in Hup.
  destruct Hup as [(Hr & Htx' & Hd & Hrows)|(ms & Hl & _ & Hrec & Htx' & done_ & rest & new & s1 & Hms & Hnew & Hh & Hk' & Ha & Hok & Hs)].
  { split_and!; [done|by rewrite Hrows|by left]. }
  assert (rows' = rows ++ new) as Hrows' by (unfold rows', rows_of; by rewrite Hh).
  split_and!; [done|rewrite Hrows'; by apply Hk'|]. right.
  exists (take (List.length rows) ms), done_, rest, new, s1. rewrite <-Hms, take_drop.
  split_and!; try done. by intros [? _]%Hok.
Qed.

(** When Up returns nil, a readiness check with working calls accepts the
    database, and a check only ever accepts a history that records every migration of
    the chain, without changing anything. *)
Lemma Up_makes_ready files allow w w' :
  mw_tx w = None → history_keys (rows_of (mw_state w)) → Up files allow w = (Ok tt, w') →
  ready files (mw_state w') ∧
  (∀ c1 c2 calls, how_ends c1 = CallDone → how_ends c2 = CallDone →
     (CheckReady files (MigrateWorld (mw_state w') None false [] (c1 :: c2 :: calls))).1 = Ok tt) ∧
  ∀ w1 r1 w2, mw_tx w1 = None → history_keys (rows_of (mw_state w1)) → CheckReady files w1 = (r1, w2) →
    mw_state w2 = mw_state w1 ∧ (r1 = Ok tt → ready files (mw_state w1)).
Proof.
  intros Htx Hk Hrun. pose proof (Up_run _ _ _ _ _ Htx Hk Hrun) as Hup. simpl in Hup.
  destruct Hup as [([=] & _)|(ms & Hl & Hlen & Hrec & Htx' & done_ & rest & new & s1 & Hms & Hnew & Hh & Hk' & _ & Hok & _)].
  destruct (Hok eq_refl) as [-> _]. rewrite app_nil_r in Hms. subst done_.
  assert (ready files (mw_state w')) as Hready.
  { exists ms, (rows_of (mw_state w) ++ new). split_and!; [done|done|]. unfold records in *.
    rewrite fmap_app, Hrec. rewrite <-(take_drop (List.length (rows_of (mw_state w))) ms) at 2. rewrite fmap_app.
    by rewrite (row_of_ids _ _ Hnew). }
  split_and!; [done| |].
  - intros c1 c2 calls. apply ready_accepted; [|done]. unfold rows_of at 1. rewrite Hh. simpl. by apply Hk'.
  - intros w1 r1 w2 Htx1 Hk1 Hc. by destruct (CheckReady_run _ _ _ _ Htx1 Hk1 Hc) as (? & _ & ?).
Qed.

(** A baseline only ever records the first 15 or 16 migrations,
    all or none of them, and only on a database without a history whose business
    tables have the reviewed fingerprint; the schema itself is never touched. *)
Theorem Baseline_records_verified files target w r w' :
  mw_tx w = None → Baseline files target w = (r, w') →
  (is_ok r = false ∧ mw_state w' = mw_state w) ∨
  ∃ ms rows, Load files = Ok ms ∧ (target = 15 ∨ target = 16) ∧
    pg_history (mw_state w) = None ∧ has_tables (pg_db (mw_state w)) = true ∧
    fingerprint_of (TrimSpace <$> schema_signatures (pg_db (mw_state w))) = expected_fingerprint target ∧
    pg_db (mw_state w') = pg_db (mw_state w) ∧ pg_history (mw_state w') = Some rows ∧
    history_keys rows ∧ records (take (Z.to_nat target) ms) rows.
Proof.
  intros Htx Hrun. apply Baseline_run in Hrun as [?|(ms & rows & ? & ? & _ & ? & ? & ? & ? & ? & ? & Hrec)]; [by left| |done].
  right. exists ms, rows. split_and!; try done. unfold records. by rewrite (row_of_ids _ _ Hrec).
Qed.
End promises.

(** * At a small chain: two transactional migrations and one without a wrapper. *)
Section examples.

(** The schema is the list of the scripts run on it. *)
#[local] Instance listed_schema : Postgres := {
  pg_schema := list text;
  run_sql sql s := Some (s ++ [sql]);
  has_tables s := bool_decide (s ≠ []);
  has_messages s := false;
  objects_014 s := (bool_decide (word "CREATE INDEX;" ∈ s), true, bool_decide (word "CREATE STATISTICS;" ∈ s));
  schema_signatures s := s
}.

Definition zeros : list Z := replicate 32 0.

(** The digest of one known text, and zeros. *)
Definition digest_015 : list Z :=
  [167; 207; 14; 209; 130; 255; 115; 166; 143; 223; 172; 140; 144; 220; 228; 19;
   141; 145; 194; 235; 251; 3; 243; 19; 201; 21; 86; 171; 216; 237; 116; 98].
#[local] Instance known_digest : SHA256.
Proof.
  refine {| Sum256 bs := if bool_decide (bs = word "the schema
") then digest_015 else zeros |}.
  intros bs. by case_bool_decide.
Defined.

#[local] Instance listed_order : MapOrder := {
  range_map := map_to_list; range_map_Permutation := λ m, Permutation_refl (map_to_list m)
}.

Definition file_001 : dir_entry := DirEntry "001_users.sql" false (Some (word "BEGIN;
CREATE TABLE users;
COMMIT;")).
Definition file_002 : dir_entry := DirEntry "002_messages.sql" false (Some (word "begin;
CREATE TABLE messages;
commit;")).
Definition embed_go : dir_entry := DirEntry "embed.go" false None.
Definition two_files : option (list dir_entry) := Some [file_002; embed_go; file_001].

Definition working (n : nat) : list call := replicate n (Call CallDone 3).
Definition empty_database : migrate_world := MigrateWorld (PgState [] None) None false [] (working 20).

Lemma Load_builds_the_chain_witness :
  ∃ ms, Load two_files = Ok ms ∧ Name <$> ms = ["users"; "messages"]%string ∧
    Version <$> ms = seqZ 1 (Z.of_nat (List.length ms)).
Proof.
  destruct (Load two_files) as [|ms] eqn:E; [vm_compute in E; discriminate|]. exists ms. split; [reflexivity|].
  split; [|exact (proj1 (proj2 (Load_builds_the_chain _ ms E)))].
  vm_compute in E. injection E as <-. reflexivity.
Defined.

Definition chain_of (files : option (list dir_entry)) : list Migration :=
  match Load files with Ok ms => ms | Err _ => [] end.

Definition one_row : list history_row := [HistoryRow 1 "users" zeros 5].

Lemma validateApplied_prefix_witness :
  validateApplied (chain_of two_files) (applied_map one_row) = Ok tt ∧
  validateReady (chain_of two_files) (applied_map one_row) ≠ Ok tt.
Proof.
  assert (history_keys one_row) as Hk by apply NoDup_singleton.
  assert (chain (chain_of two_files)) as Hc by (vm_compute; reflexivity).
  destruct (validateApplied_prefix (chain_of two_files) one_row Hc Hk) as [Happ Hready]. split.
  - apply Happ. exists 1%nat. split; [vm_compute; lia|]. vm_compute. reflexivity.
  - rewrite Hready. intros Hp. apply Permutation_length in Hp. vm_compute in Hp. discriminate.
Defined.

Lemma Up_applies_in_order_witness :
  (Up two_files false empty_database).1 = Ok tt ∧
  pg_db (mw_state (Up two_files false empty_database).2) =
    [word "
CREATE TABLE users;
"; word "
CREATE TABLE messages;
"] ∧
  history_keys (rows_of (mw_state (Up two_files false empty_database).2)).
Proof.
  split; [vm_compute; reflexivity|]. split; [vm_compute; reflexivity|].
  apply (Up_applies_in_order two_files false empty_database _ _ eq_refl NoDup_nil_2 (surjective_pairing _)).
Defined.

Lemma Up_makes_ready_witness :
  ready two_files (mw_state (Up two_files false empty_database).2) ∧
  (CheckReady two_files (MigrateWorld (mw_state (Up two_files false empty_database).2) None false [] (working 2))).1 = Ok tt.
Proof.
  assert (Up two_files false empty_database = (Ok tt, (Up two_files false empty_database).2)) as Hrun by (vm_compute; reflexivity).
  destruct (Up_makes_ready two_files false empty_database _ eq_refl NoDup_nil_2 Hrun) as (Hready & Hcheck & _).
  split; [exact Hready|]. exact (Hcheck (Call CallDone 3) (Call CallDone 3) [] eq_refl eq_refl).
Defined.

Definition numbered_file (version : string) : dir_entry :=
  DirEntry (version ++ "_step.sql") false (Some (word "BEGIN
x;
COMMIT")).
Definition fifteen_files : option (list dir_entry) := Some (numbered_file <$>
  ["001"; "002"; "003"; "004"; "005"; "006"; "007"; "008"; "009"; "010"; "011"; "012"; "013"; "014"; "015"]%string).
Definition built_database : migrate_world :=
  MigrateWorld (PgState [word " the schema"] None) None false [] (working 30).

Lemma Baseline_records_verified_witness :
  (Baseline fifteen_files 15 built_database).1 = Ok tt ∧
  ∃ ms rows, Load fifteen_files = Ok ms ∧
    pg_history (mw_state (Baseline fifteen_files 15 built_database).2) = Some rows ∧ records ms rows.
Proof.
  assert ((Baseline fifteen_files 15 built_database).1 = Ok tt) as Hok by (vm_compute; reflexivity).
  split; [exact Hok|].
  destruct (Baseline_records_verified fifteen_files 15 built_database _ _ eq_refl (surjective_pairing _))
    as [[Hr _]|(ms & rows & Hl & _ & _ & _ & _ & _ & Hh & _ & Hrec)]; [rewrite Hok in Hr; discriminate|].
  exists ms, rows. split; [exact Hl|]. split; [exact Hh|].
  replace (take (Z.to_nat 15) ms) with ms in Hrec; [exact Hrec|]. vm_compute in Hl. injection Hl as <-. reflexivity.
Defined.
End examples.
