(* ===== verification/MigrateCommand.v ===== *)
(** [cmd/im-migrate/main.go]: the command line, as Go's flag package reads it, and what the
    command does with the runner; then what its exit status says about the database. *)
From Stdlib Require Import Ascii String.
From S2P Require Import Prelude GoStd Text Tables Numerals SqlScript SqlSplitting Migrate MigrateRun MigratePromises.
Open Scope Z_scope.

(** * Numbers with a base prefix *)

(** A letter in lower case; Go's [lower]. *)
Definition lower (b : Z) : Z := Z.lor b 32.

(** [underscoreOK]: underscores separate digits, or a base prefix from a digit.  [saw] is
    the class of the last byte: a digit, an underscore, or neither. *)
Inductive saw_class : Type := SawDigit | SawUnderscore | SawOther.

Fixpoint underscores_ok (hex : bool) (saw : saw_class) (bs : list Z) : bool :=
  match bs with
  | [] => match saw with SawUnderscore => false | _ => true end
  | b :: bs =>
      if in_range 48 57 b || (hex && in_range 97 102 (lower b)) then underscores_ok hex SawDigit bs
      else if b =? 95 then match saw with SawDigit => underscores_ok hex SawUnderscore bs | _ => false end
      else match saw with SawUnderscore => false | _ => underscores_ok hex SawOther bs end
  end.

Definition base_prefix (bs : list Z) : option (Z * list Z) :=
  match bs with
  | 48 :: c :: rest =>
      if lower c =? 98 then Some (2, rest) else if lower c =? 111 then Some (8, rest)
      else if lower c =? 120 then Some (16, rest) else None
  | _ => None
  end.

Definition underscoreOK (bs : list Z) : bool :=
  let unsigned := match bs with b :: rest => if (b =? 43) || (b =? 45) then rest else bs | [] => [] end in
  match base_prefix unsigned with
  | Some (base, rest) => underscores_ok (base =? 16) SawDigit rest
  | None => underscores_ok false SawOther unsigned
  end.

Definition digit_of_base (base b : Z) : option Z :=
  let d := if in_range 48 57 b then b - 48 else if in_range 97 122 (lower b) then lower b - 97 + 10 else base in
  if d <? base then Some d else None.

Fixpoint base_digits (base acc : Z) (bs : list Z) : option Z :=
  match bs with
  | [] => Some acc
  | 95 :: bs => base_digits base acc bs
  | b :: bs => d ← digit_of_base base b; base_digits base (acc * base + d) bs
  end.

(** [strconv.ParseInt(s, 0, 64)]. *)
Definition ParseInt0 (s : string) : option Z :=
  let bs := bytes_of s in
  let '(sign, unsigned) := match bs with 43 :: rest => (1, rest) | 45 :: rest => (-1, rest) | _ => (1, bs) end in
  if bool_decide (unsigned = []) then None
  else
    let '(base, digits) :=
      match base_prefix unsigned, unsigned with
      | Some (base, b :: rest), _ => (base, b :: rest)
      | _, 48 :: rest => (8, rest)
      | _, _ => (10, unsigned)
      end in
    v ← base_digits base 0 digits;
    if bool_decide (95 ∈ unsigned) && negb (underscoreOK unsigned) then None else int64_check (sign * v).

Definition ParseBool (s : string) : option bool :=
  if bool_decide (s ∈ ["1"; "t"; "T"; "true"; "TRUE"; "True"]%string) then Some true
  else if bool_decide (s ∈ ["0"; "f"; "F"; "false"; "FALSE"; "False"]%string) then Some false
  else None.

(** * Flags *)

Inductive flag_value : Type :=
| BoolFlag (b : bool)
| IntFlag (z : Z)
| TextFlag (s : string).

Definition set_flag (old : flag_value) (s : string) : option flag_value :=
  match old with
  | BoolFlag _ => BoolFlag <$> ParseBool s
  | IntFlag _ => IntFlag <$> ParseInt0 s
  | TextFlag _ => Some (TextFlag s)
  end.

Abbreviation flag_set := (gmap string flag_value).

(** The name of an argument that is a flag, and its value after [=]. *)
Fixpoint split_equals (s : string) : string * option string :=
  match s with
  | EmptyString => (EmptyString, None)
  | String "=" rest => (EmptyString, Some rest)
  | String a rest => let '(name, value) := split_equals rest in (String a name, value)
  end%char.

Inductive argument : Type :=
| NotAFlag
| Terminator
| BadFlag
| Flag (name : string) (value : option string).

(** A flag's name is not empty and begins with neither of [-] and [=]. *)
Definition named_flag (rest : string) : argument :=
  match rest with
  | EmptyString | String "-" _ | String "=" _ => BadFlag
  | _ => let '(name, value) := split_equals rest in Flag name value
  end%char.

Definition classify (s : string) : argument :=
  match s with
  | String "-" EmptyString => NotAFlag
  | String "-" (String "-" EmptyString) => Terminator
  | String "-" (String "-" rest) => named_flag rest
  | String "-" rest => named_flag rest
  | _ => NotAFlag
  end%char.

(** [FlagSet.Parse]: the flags and the remaining arguments; an unknown flag, a value that
    does not read and a missing one are errors, as is the request for help. *)
Fixpoint parse_flags (flags : flag_set) (arguments : list string) : option (flag_set * list string) :=
  match arguments with
  | [] => Some (flags, [])
  | s :: rest =>
      match classify s with
      | NotAFlag => Some (flags, arguments)
      | Terminator => Some (flags, rest)
      | BadFlag => None
      | Flag name value =>
          old ← flags !! name;
          match old, value, rest with
          | BoolFlag _, None, _ => parse_flags (<[name := BoolFlag true]> flags) rest
          | _, Some text, _ => new ← set_flag old text; parse_flags (<[name := new]> flags) rest
          | _, None, text :: rest => new ← set_flag old text; parse_flags (<[name := new]> flags) rest
          | _, None, [] => None
          end
      end
  end.

(** * The command *)

Definition defaultMigrationDatabaseURL : string := "postgres://im:im@localhost:5433/im?sslmode=disable".

Definition migrationDatabaseURL (environment : string → string) : string :=
  let value := environment "DATABASE_URL"%string in
  if bool_decide (value = EmptyString) then defaultMigrationDatabaseURL else value.

Definition usage : list string :=
  ["usage:"; "  im-migrate up [-database-url URL] [-allow-maintenance]";
   "  im-migrate baseline -to VERSION [-database-url URL] (reviewed: 15, 16)"]%string.

(** [%03d] of a version. *)
Definition three_digits (n : Z) : string :=
  let digits := FormatInt n in String.concat EmptyString (replicate (3 - String.length digits) "0"%string) +:+ digits.

(** The exit status, what is printed, and the database, if it was reached. *)
Record command_end `{Postgres} : Type := CommandEnd {
  exit : Z; stdout : list string; stderr : list string; reached : option migrate_world
}.
Arguments CommandEnd {_} _ _ _ _.

Section command.
Context `{SHA256, Postgres, MapOrder}.
(** How an error reads, and what flag prints when it fails. *)
Context (describe : migrate_error → string) (flag_complaint : list string → list string).

Definition applied_line (m : Migration) : string := "applied " +:+ three_digits (Version m) +:+ "_" +:+ Name m.

Definition baseline_end (target : Z) (outcome : result migrate_error unit * migrate_world) : command_end :=
  let '(r, w) := outcome in
  match r with
  | Ok _ => CommandEnd 0 ["recorded verified baseline through " +:+ three_digits target] [] (Some w)
  | Err ErrBaselineMismatch => CommandEnd 1 [] ["baseline refused: " +:+ describe ErrBaselineMismatch] (Some w)
  | Err ErrMigrationHistoryExists => CommandEnd 1 [] ["baseline refused: database already has migration history; use up"%string] (Some w)
  | Err e => CommandEnd 1 [] ["baseline failed: " +:+ describe e] (Some w)
  end.

Definition up_end (outcome : result migrate_error unit * migrate_world) : command_end :=
  let '(r, w) := outcome in
  let applied := applied_line <$> mw_progress w in
  match r with
  | Ok _ => CommandEnd 0 (applied ++ ["database schema is current"%string]) [] (Some w)
  | Err ErrBaselineRequired =>
      CommandEnd 1 applied ["migration refused: existing database has no migration history; run a verified baseline before up"%string] (Some w)
  | Err (ErrMaintenanceRequired _) =>
      CommandEnd 1 applied ["migration refused: stop message writers and rerun with -allow-maintenance"%string] (Some w)
  | Err e => CommandEnd 1 applied ["migration failed: " +:+ describe e] (Some w)
  end.

Definition the_flags (up : bool) (url : string) : flag_set :=
  <["database-url"%string := TextFlag url]>
    (if up then {["allow-maintenance"%string := BoolFlag false]} else {["to"%string := IntFlag 0]}).

Definition text_flag (name : string) (flags : flag_set) : string := match flags !! name with Some (TextFlag s) => s | _ => EmptyString end.
Definition bool_flag (name : string) (flags : flag_set) : bool := match flags !! name with Some (BoolFlag b) => b | _ => false end.
Definition int_flag (name : string) (flags : flag_set) : Z := match flags !! name with Some (IntFlag z) => z | _ => 0 end.

(** [connect] gives the database of a URL, or an error's text. *)
Definition run (files : option (list dir_entry)) (environment : string → string) (connect : string → string + migrate_world)
    (arguments : list string) : command_end :=
  match arguments with
  | [] => CommandEnd 2 [] usage None
  | command :: rest =>
      let up := bool_decide (command = "up"%string) in
      if negb up && negb (bool_decide (command = "baseline"%string)) then CommandEnd 2 [] usage None
      else
        match parse_flags (the_flags up (migrationDatabaseURL environment)) rest with
        | None => CommandEnd 2 [] (flag_complaint rest) None
        | Some (flags, _ :: _) => CommandEnd 2 [] ["unexpected positional arguments"%string] None
        | Some (flags, []) =>
            match connect (text_flag "database-url" flags) with
            | inl e => CommandEnd 1 [] ["connect to migration database: " +:+ e] None
            | inr w =>
                if negb up then
                  let target := int_flag "to" flags in
                  if target =? 0 then CommandEnd 2 [] ["baseline requires an explicit -to version"%string] (Some w)
                  else baseline_end target (Baseline files target w)
                else up_end (Up files (bool_flag "allow-maintenance" flags) w)
            end
        end
  end.
End command.

(** * What the exit status says *)

Section promises.
Context `{SHA256, Postgres, MapOrder}.
Context (describe : migrate_error → string) (flag_complaint : list string → list string).
Context (files : option (list dir_entry)) (environment : string → string) (connect : string → string + migrate_world).

Abbreviation command := (run describe flag_complaint files environment connect).

(** A new connection has no transaction, and a history has its keys. *)
Definition connects_well : Prop := ∀ url w, connect url = inr w → mw_tx w = None ∧ history_keys (rows_of (mw_state w)).

(** What the flags select. *)
Definition selected (arguments : list string) (name : string) (flags : flag_set) (w : migrate_world) : Prop :=
  ∃ rest, arguments = name :: rest ∧
    parse_flags (the_flags (bool_decide (name = "up"%string)) (migrationDatabaseURL environment)) rest = Some (flags, []) ∧
    connect (text_flag "database-url" flags) = inr w.

(** The command ends before the runner, or with what the runner answers. *)
Lemma run_cases arguments :
  (exit (command arguments) ≠ 0 ∧ ∀ w, reached (command arguments) = Some w → ∃ url, connect url = inr w) ∨
  (∃ flags w, selected arguments "up" flags w ∧ command arguments = up_end describe (Up files (bool_flag "allow-maintenance" flags) w)) ∨
  (∃ flags w, selected arguments "baseline" flags w ∧
    command arguments = baseline_end describe (int_flag "to" flags) (Baseline files (int_flag "to" flags) w)).
Proof.
  unfold run. destruct arguments as [|name rest]; [by left|]. destruct (negb _ && _) eqn:Hname; [by left|].
  destruct (parse_flags _ rest) as [[flags [|s l]]|] eqn:Hparse; [|by left|by left].
  destruct (connect _) as [e|w] eqn:Hconn; [by left|].
  case_bool_decide as Hup; cbn [negb] in *.
  - right. left. exists flags, w. split; [|done]. exists rest. subst name. by rewrite bool_decide_eq_true_2.
  - apply andb_false_iff in Hname as [?|Hname]; [done|]. apply negb_false_iff, bool_decide_eq_true in Hname. subst name.
    destruct (_ =? 0); [left; split; [done|]; intros w' [= <-]; by eexists|].
    right. right. exists flags, w. split; [|done]. exists rest. by rewrite bool_decide_eq_false_2.
Qed.

Lemma up_end_exit outcome : (exit (up_end describe outcome) = 0 ↔ outcome.1 = Ok tt) ∧ exit (up_end describe outcome) ≠ 2 ∧ reached (up_end describe outcome) = Some outcome.2.
Proof. destruct outcome as [[e|[]] w]; [by destruct e|done]. Qed.

Lemma baseline_end_exit target outcome :
  (exit (baseline_end describe target outcome) = 0 ↔ outcome.1 = Ok tt) ∧ exit (baseline_end describe target outcome) ≠ 2 ∧
  reached (baseline_end describe target outcome) = Some outcome.2.
Proof. destruct outcome as [[e|[]] w]; [by destruct e|done]. Qed.

(** C36: The migration command exits with 0 only when it has reached the
    database that its flags name and it was told [up] and the database is ready
    afterwards, so that the server's readiness check accepts it, or [baseline] and the
    reviewed prefix of the chain has been recorded on an untouched schema that has the
    reviewed fingerprint; and an exit with 2, a misuse, leaves a database as it was. *)
Theorem exit_status_is_true arguments :
  connects_well →
  (exit (command arguments) = 2 → ∀ w, reached (command arguments) = Some w → ∃ url, connect url = inr w) ∧
  (exit (command arguments) = 0 → ∃ flags w w', reached (command arguments) = Some w' ∧
    ((selected arguments "up" flags w ∧ ready files (mw_state w') ∧
      ∀ c1 c2 calls, how_ends c1 = CallDone → how_ends c2 = CallDone →
        (CheckReady files (MigrateWorld (mw_state w') None false [] (c1 :: c2 :: calls))).1 = Ok tt) ∨
     (selected arguments "baseline" flags w ∧
      ∃ ms rows, Load files = Ok ms ∧ (int_flag "to" flags = 15 ∨ int_flag "to" flags = 16) ∧
        fingerprint_of (TrimSpace <$> schema_signatures (pg_db (mw_state w))) = expected_fingerprint (int_flag "to" flags) ∧
        pg_db (mw_state w') = pg_db (mw_state w) ∧ pg_history (mw_state w') = Some rows ∧
        Forall2 row_of (take (Z.to_nat (int_flag "to" flags)) ms) rows))).
Proof.
  intros Hwell. destruct (run_cases arguments) as [[Hne Hreach]|[(flags & w & Hsel & ->)|(flags & w & Hsel & ->)]]; [done| |].
  - destruct (up_end_exit (Up files (bool_flag "allow-maintenance" flags) w)) as (Hz & H2 & Hr). split; [done|]. intros Hexit.
    destruct (Up files _ w) as [r w'] eqn:Hrun. apply Hz in Hexit. cbn in Hexit. subst r. exists flags, w, w'. split; [done|]. left.
    destruct Hsel as (rest & Hargs & Hparse & Hconn). destruct (Hwell _ _ Hconn) as [Htx Hk].
    destruct (Up_makes_ready _ _ _ _ Htx Hk Hrun) as (Hready & Hcheck & _). split; [by exists rest|done].
  - destruct (baseline_end_exit (int_flag "to" flags) (Baseline files (int_flag "to" flags) w)) as (Hz & H2 & Hr). split; [done|]. intros Hexit.
    destruct (Baseline files _ w) as [r w'] eqn:Hrun. apply Hz in Hexit. cbn in Hexit. subst r. exists flags, w, w'. split; [done|]. right.
    split; [done|]. destruct Hsel as (rest & Hargs & Hparse & Hconn). destruct (Hwell _ _ Hconn) as [Htx Hk].
    apply Baseline_run in Hrun as [[[=] _]|(ms & rows & Hl & Ht & _ & _ & _ & Hf & Hd & Hh & _ & Hrec)]; [|done]. by exists ms, rows.
Qed.
End promises.

(** * Command lines *)

#[local] Existing Instance listed_schema.
#[local] Existing Instance known_digest.
#[local] Existing Instance listed_order.

Lemma numbers_with_bases :
  ParseInt0 "0x_1F" = Some 31 ∧ ParseInt0 "-0b101" = Some (-5) ∧ ParseInt0 "017" = Some 15 ∧ ParseInt0 "1_5" = Some 15 ∧
  ParseInt0 "1__5" = None ∧ ParseInt0 "0x" = None ∧ ParseInt0 "08" = None ∧ ParseInt0 "9223372036854775808" = None ∧
  ParseInt0 "+0" = Some 0 ∧ ParseInt0 EmptyString = None.
Proof. vm_compute. split_and!; reflexivity. Qed.

Definition here : string → string + migrate_world := λ url,
  if bool_decide (url = "postgres://here"%string) then inr (empty_database) else inl "no route"%string.

Definition no_text : migrate_error → string := λ _, "an error"%string.
Definition complaint : list string → list string := λ _, ["bad flag"%string].
Definition no_environment : string → string := λ _, EmptyString.

Lemma here_connects_well : connects_well here.
Proof.
  intros url w. unfold here. case_bool_decide; [|done]. intros [= <-]. split; [done|]. apply NoDup_nil_2.
Qed.

Definition up_here : list string := ["up"; "--allow-maintenance=false"; "-database-url"; "postgres://here"]%string.

Lemma exit_status_is_true_witness :
  exit (run no_text complaint two_files no_environment here up_here) = 0 ∧
  stdout (run no_text complaint two_files no_environment here up_here) = ["applied 001_users"; "applied 002_messages"; "database schema is current"]%string ∧
  ∃ w, reached (run no_text complaint two_files no_environment here up_here) = Some w ∧ ready two_files (mw_state w).
Proof.
  assert (exit (run no_text complaint two_files no_environment here up_here) = 0) as Hexit by (vm_compute; reflexivity).
  split; [exact Hexit|]. split; [vm_compute; reflexivity|].
  destruct (exit_status_is_true no_text complaint two_files no_environment here up_here here_connects_well) as [_ Hzero].
  destruct (Hzero Hexit) as (flags & w & w' & Hr & [(_ & Hready & _)|((rest & [=] & _) & _)]). exists w'. split; [exact Hr|exact Hready].
Defined.
