(* ===== verification/Startup.v ===== *)
(** [main.go]: what [main] makes of its environment before it serves, in the order of its
    checks, each of which ends the process; and the table of routes.  Then
    what a server that has started is known to have. *)
From Stdlib Require Import Ascii String.
From S2P Require Import Prelude GoStd Text Encoding Outbox RateLimit Presence Router Credentials CredentialsOk.
From S2P Require Import MigrateCommand.
Open Scope Z_scope.

(** * The environment *)

(** A variable that is not set is empty. *)
Definition environment : Type := string → string.

Definition environmentString (env : environment) (name fallback : string) : string :=
  if bool_decide (env name = EmptyString) then fallback else env name.

Definition environmentInt (env : environment) (name : string) (fallback : Z) : result string Z :=
  if bool_decide (env name = EmptyString) then Ok fallback
  else match ParseInt (env name) with Some z => Ok z | None => Err (name +:+ " must be an integer") end.

Definition environmentBool (env : environment) (name : string) (fallback : bool) : result string bool :=
  if bool_decide (env name = EmptyString) then Ok fallback
  else match ParseBool (env name) with Some b => Ok b | None => Err (name +:+ " must be true or false") end.

(** [strconv.ParseInt(s, 10, 32)]. *)
Definition ParseInt32 (s : string) : option Z :=
  z ← ParseInt s; if in_range (- 2 ^ 31) (2 ^ 31 - 1) z then Some z else None.

(** The size of the pool; [parsed] is what pgxpool makes of the URL, with its own size. *)
Definition databasePoolConfig (parsed : result string Z) (maximumConnections : string) : result string Z :=
  own ← parsed;
  if bool_decide (maximumConnections = EmptyString) then Ok own
  else
    match ParseInt32 maximumConnections with
    | Some z => if z <=? 0 then Err "DATABASE_MAX_CONNECTIONS must be a positive integer"%string else Ok z
    | None => Err "DATABASE_MAX_CONNECTIONS must be a positive integer"%string
    end.

(** * Starting *)

(** How what [main] calls answers: the URL's parse, the pools and their pings, the
    readiness check, Redis's URL, the host's name and the random token. *)
Record services : Type := Services {
  parse_database_url : string → result string Z; open_pool : result string unit; ping_database : result string unit;
  check_ready : result string unit; open_outbox_pool : result string unit; ping_outbox : result string unit;
  parse_redis_url : string → result string unit; host_name : result string string; random_token : result string string
}.

Record configuration `{NetIP} : Type := Configuration {
  max_connections : Z; outbox_connections : option Z; cipher : responseCipher; fail_open : bool;
  trusted_networks : list network; presence : redisWebSocketPresence; router : redisRealtimeRouter;
  worker : outboxWorker; http_address : string; metrics_address : string
}.
Arguments Configuration {_} _ _ _ _ _ _ _ _ _ _.

Section start.
Context `{NetIP} (Int64N : Z → Z).

Definition duration_seconds (n : Z) : Z := wrap64 (n * second).

(** The pool of the outbox worker, [None] when it shares the API's. *)
Definition outbox_pool (env : environment) (sv : services) (databaseURL : string) : result string (option Z) :=
  n ← environmentInt env "OUTBOX_DATABASE_MAX_CONNECTIONS" 0;
  if n <? 0 then Err "OUTBOX_DATABASE_MAX_CONNECTIONS must be zero or a positive integer"%string
  else if n =? 0 then Ok None
  else
    size ← databasePoolConfig (parse_database_url sv databaseURL) (FormatInt n);
    _ ← open_outbox_pool sv; _ ← ping_outbox sv; Ok (Some size).

Definition start_realtime (env : environment) (sv : services) : result string (redisWebSocketPresence * redisRealtimeRouter) :=
  instanceID ← newRealtimeInstanceID (env "REALTIME_INSTANCE_NAME"%string) (host_name sv) (random_token sv);
  let namespace := environmentString env "REALTIME_REDIS_NAMESPACE" defaultWebSocketPresenceNamespace in
  ttl_seconds ← environmentInt env "WEBSOCKET_PRESENCE_TTL_SECONDS" 30;
  renew_seconds ← environmentInt env "WEBSOCKET_PRESENCE_RENEW_SECONDS" 10;
  presence ← newRedisWebSocketPresence true namespace (duration_seconds ttl_seconds) (duration_seconds renew_seconds);
  router ← newRedisRealtimeRouter true (Some presence) true instanceID;
  Ok (presence, router).

Definition start_worker (env : environment) : result string outboxWorker :=
  let workerConfig := defaultOutboxWorkerConfig Int64N in
  batch ← environmentInt env "OUTBOX_BATCH_SIZE" (BatchSize workerConfig);
  concurrency ← environmentInt env "OUTBOX_CONCURRENCY" (Concurrency workerConfig);
  newOutboxWorker Int64N true true
    (OutboxWorkerConfig (EventTypes workerConfig) batch concurrency (LeaseDuration workerConfig) (AttemptTimeout workerConfig)
       (PollInterval workerConfig) (MaxAttempts workerConfig) (BaseBackoff workerConfig) (MaxBackoff workerConfig) (jitter workerConfig)).

(** Up to the servers; Redis may be unreachable. *)
Definition start (env : environment) (sv : services) : result string configuration :=
  let databaseURL := environmentString env "DATABASE_URL" defaultMigrationDatabaseURL in
  size ← databasePoolConfig (parse_database_url sv databaseURL) (env "DATABASE_MAX_CONNECTIONS"%string);
  _ ← open_pool sv; _ ← ping_database sv; _ ← check_ready sv;
  outbox ← outbox_pool env sv databaseURL;
  version ← environmentInt env "IDEMPOTENCY_KEY_VERSION" 1;
  cipher ← newResponseCipherKeyring (env "IDEMPOTENCY_KEY"%string) version (env "IDEMPOTENCY_PREVIOUS_KEYS"%string);
  _ ← parse_redis_url sv (environmentString env "REDIS_URL" "redis://localhost:6379/0");
  networks ← (match parseTrustedProxyNetworks (env "TRUSTED_PROXY_CIDRS"%string) with
              | Some networks => Ok networks | None => Err "configure trusted proxies"%string end);
  failOpen ← environmentBool env "AUTH_RATE_LIMIT_FAIL_OPEN" false;
  '(presence, router) ← start_realtime env sv;
  worker ← start_worker env;
  Ok (Configuration size outbox cipher failOpen networks presence router worker
        (environmentString env "HTTP_ADDR" ":8080") (environmentString env "METRICS_ADDR" "127.0.0.1:9090")).
End start.

(** * Routes *)

Inductive endpoint : Type :=
| Health | Register | Login | Refresh | Logout | LogoutAll | ListSessions | RevokeSession (sessionID : string) | ChangePassword
| CreateMessage | ListMessages | ListConversations | SyncConversationMessages (conversationID : string)
| AcknowledgeConversation (conversationID : string) | SyncMessages | AcknowledgeMessages | ServeWebSocket.

(** Whether [requireAuthentication] is put before the handler. *)
Definition authenticated (e : endpoint) : bool :=
  match e with Health | Register | Login | Refresh => false | _ => true end.

(** The patterns, for a path cut at its slashes; a wildcard matches one segment that is
    not empty, and GET patterns serve HEAD too. *)
Definition route (method : string) (path : list string) : option endpoint :=
  let get := bool_decide (method = "GET"%string) || bool_decide (method = "HEAD"%string) in
  let post := bool_decide (method = "POST"%string) in
  let delete := bool_decide (method = "DELETE"%string) in
  match path with
  | ["health"] => if get then Some Health else None
  | ["ws"] => if get then Some ServeWebSocket else None
  | ["auth"; "register"] => if post then Some Register else None
  | ["auth"; "login"] => if post then Some Login else None
  | ["auth"; "refresh"] => if post then Some Refresh else None
  | ["auth"; "logout"] => if post then Some Logout else None
  | ["auth"; "logout-all"] => if post then Some LogoutAll else None
  | ["auth"; "sessions"] => if get then Some ListSessions else None
  | ["auth"; "sessions"; id] => if delete && negb (bool_decide (id = EmptyString)) then Some (RevokeSession id) else None
  | ["auth"; "password"] => if post then Some ChangePassword else None
  | ["messages"] => if post then Some CreateMessage else if get then Some ListMessages else None
  | ["messages"; "sync"] => if get then Some SyncMessages else None
  | ["messages"; "ack"] => if post then Some AcknowledgeMessages else None
  | ["conversations"] => if get then Some ListConversations else None
  | ["conversations"; id; "messages"] =>
      if get && negb (bool_decide (id = EmptyString)) then Some (SyncConversationMessages id) else None
  | ["conversations"; id; "ack"] =>
      if post && negb (bool_decide (id = EmptyString)) then Some (AcknowledgeConversation id) else None
  | _ => None
  end%string.

(** * What a started server has *)

Section promises.
Context `{NetIP} (Int64N : Z → Z).
Implicit Types (c : configuration) (sv : services).

(** * Well-formed configurations *)

Definition pool_size (z : Z) : Prop := 1 ≤ z < 2 ^ 31.

(** The active version is positive and has a key, and every key is an AES-256 key under a
    positive version. *)
Definition keyring_ok (k : responseCipher) : Prop :=
  0 < keyVersion k ∧ is_Some (cipher_keys k !! keyVersion k) ∧
  ∀ version key, cipher_keys k !! version = Some key → 0 < version ∧ List.length key = 32%nat.

Record configuration_ok c : Prop := ConfigurationOk {
  cfg_pool : pool_size (max_connections c);
  cfg_outbox : ∀ z, outbox_connections c = Some z → pool_size z;
  cfg_keyring : keyring_ok (cipher c);
  cfg_presence : 0 < renewInterval (presence c) < ttl (presence c) ∧ namespace (presence c) ≠ EmptyString;
  cfg_router : router_presence (router c) = presence c ∧ instanceID (router c) ≠ EmptyString;
  cfg_worker : 1 ≤ claimLimit (worker c) ∧ 0 < AttemptTimeout (config (worker c)) < LeaseDuration (config (worker c)) ∧
    0 < BaseBackoff (config (worker c)) ≤ MaxBackoff (config (worker c)) ∧ 0 < PollInterval (config (worker c)) ∧
    EventTypes (config (worker c)) = ["message.created"%string];
  cfg_addresses : http_address c ≠ EmptyString ∧ metrics_address c ≠ EmptyString
}.

Lemma pool_config_size parsed text z :
  (∀ own, parsed = Ok own → pool_size own) → databasePoolConfig parsed text = Ok z → pool_size z.
Proof.
  intros Hown Hrun. unfold databasePoolConfig in Hrun. apply result_bind_ok in Hrun as (own & Ho & Hrun).
  case_bool_decide; [injection Hrun as <-; by apply Hown|]. unfold ParseInt32 in Hrun.
  destruct (ParseInt text) as [n|]; [|done]. cbn in Hrun. destruct (in_range _ _ n) eqn:Hr; [|done].
  destruct (Z.leb_spec n 0); [done|]. injection Hrun as <-. apply in_range_spec in Hr. unfold pool_size. lia.
Qed.

Lemma keyring_well_formed encodedKey version previous k :
  newResponseCipherKeyring encodedKey version previous = Ok k → keyring_ok k.
Proof.
  intros Hk. split; [by destruct (keyring_keys _ _ _ _ Hk) as (-> & ? & _)|]. split; [by eapply keyring_active|].
  revert Hk. unfold newResponseCipherKeyring. destruct (version <=? 0) eqn:E0; [done|]. apply Z.leb_gt in E0.
  intros (key & Hkey & (keys & Hks & [= <-])%result_bind_ok)%result_bind_ok. cbn [cipher_keys]. apply decoded_key_length in Hkey as Hlen.
  assert (∀ v (k' : list Z), ({[version := key]} : gmap Z (list Z)) !! v = Some k' → 0 < v ∧ List.length k' = 32%nat) as Hone.
  { intros v k' [<- <-]%lookup_singleton_Some. done. }
  case_bool_decide; [by injection Hks as <-|]. apply add_previous_keys_spec in Hks as (_ & _ & Honly); [|rewrite lookup_singleton_eq; eauto].
  intros v k' [Hold|(entry & _ & vt & kt & _ & _ & Hpos & Hdec)]%Honly; [by apply Hone|]. split; [done|by eapply decoded_key_length].
Qed.

Lemma environmentString_nonempty env name fallback : fallback ≠ EmptyString → environmentString env name fallback ≠ EmptyString.
Proof. intros Hf. unfold environmentString. by case_bool_decide. Qed.

Lemma realtime_well_formed env sv p r :
  start_realtime env sv = Ok (p, r) →
  (0 < renewInterval p < ttl p ∧ namespace p ≠ EmptyString) ∧ router_presence r = p ∧ instanceID r ≠ EmptyString.
Proof.
  unfold start_realtime. intros (id & _ & (ts & _ & (rs & _ & (p' & Hp & (r' & Hr & [= -> ->])%result_bind_ok)%result_bind_ok)%result_bind_ok)%result_bind_ok)%result_bind_ok.
  unfold newRedisWebSocketPresence in Hp. cbn [negb] in Hp. destruct (_ || _) eqn:E in Hp; [done|]. injection Hp as <-. cbn.
  apply orb_false_iff in E as [[E1 E2]%orb_false_iff E3]. split; [split; [lia|by case_bool_decide]|].
  unfold newRedisRealtimeRouter in Hr. cbn [negb orb] in Hr. case_bool_decide; [done|]. by injection Hr as <-.
Qed.

Lemma worker_well_formed env w :
  start_worker Int64N env = Ok w →
  1 ≤ claimLimit w ∧ 0 < AttemptTimeout (config w) < LeaseDuration (config w) ∧
  0 < BaseBackoff (config w) ≤ MaxBackoff (config w) ∧ 0 < PollInterval (config w) ∧ EventTypes (config w) = ["message.created"%string].
Proof.
  unfold start_worker. intros (b & _ & (n & _ & Hw)%result_bind_ok)%result_bind_ok.
  unfold newOutboxWorker in Hw. cbn [negb orb EventTypes defaultOutboxWorkerConfig] in Hw. rewrite bool_decide_eq_false_2 in Hw by done.
  cbn [BatchSize Concurrency MaxAttempts] in Hw. destruct ((b <=? 0) || (n <=? 0) || _) eqn:E; [done|].
  apply orb_false_iff in E as [[E1 E2]%orb_false_iff _]. injection Hw as <-. cbn. unfold claimLimit. cbn. split; [lia|].
  unfold second, millisecond. split_and!; done.
Qed.

(** C37: A server only starts with a configuration that is well-formed
    for every one of its parts, whatever its environment says: bounded pools, a keyring
    whose active version has a key and whose keys all have 32 bytes, a presence that is
    renewed before it lapses, a router of that presence with a name of its own, a worker
    that claims at least one event under a lease longer than an attempt; and only after
    its database answered and its schema was found ready. *)
Theorem start_is_well_formed env sv c :
  (∀ url own, parse_database_url sv url = Ok own → pool_size own) → start Int64N env sv = Ok c →
  configuration_ok c ∧ ping_database sv = Ok tt ∧ check_ready sv = Ok tt.
Proof.
  intros Hown Hrun. unfold start in Hrun.
  apply result_bind_ok in Hrun as (size & Hsize & Hrun). apply result_bind_ok in Hrun as ([] & _ & Hrun).
  apply result_bind_ok in Hrun as ([] & Hping & Hrun). apply result_bind_ok in Hrun as ([] & Hready & Hrun).
  apply result_bind_ok in Hrun as (outbox & Hout & Hrun). apply result_bind_ok in Hrun as (version & _ & Hrun).
  apply result_bind_ok in Hrun as (k & Hk & Hrun). apply result_bind_ok in Hrun as ([] & _ & Hrun).
  apply result_bind_ok in Hrun as (networks & _ & Hrun). apply result_bind_ok in Hrun as (b & _ & Hrun).
  apply result_bind_ok in Hrun as ([p r] & Hreal & Hrun). apply result_bind_ok in Hrun as (w & Hw & [= <-]).
  split; [|done]. apply realtime_well_formed in Hreal as [Hp Hr]. split; cbn; [|intros z ->| |done|done| |].
  - eapply pool_config_size; [|exact Hsize]. eauto.
  - unfold outbox_pool in Hout. apply result_bind_ok in Hout as (n & _ & Hout). destruct (n <? 0); [done|]. destruct (n =? 0); [done|].
    apply result_bind_ok in Hout as (z' & Hz & Hout). apply result_bind_ok in Hout as ([] & _ & Hout).
    apply result_bind_ok in Hout as ([] & _ & [= ->]). eapply pool_config_size; [|exact Hz]. eauto.
  - by eapply keyring_well_formed.
  - by eapply worker_well_formed.
  - split; by apply environmentString_nonempty.
Qed.
End promises.

(** * Routes *)

(** Everything but the health check, registration, login and refresh is behind
    authentication, whatever the request. *)
Lemma open_routes method path e :
  route method path = Some e → authenticated e = false →
  path ∈ [["health"]; ["auth"; "register"]; ["auth"; "login"]; ["auth"; "refresh"]]%string.
Proof.
  intros Hroute Hopen. unfold route in Hroute. repeat case_match; simplify_eq; try done; apply (bool_decide_unpack _); reflexivity.
Qed.

(** * An environment *)

#[local] Instance no_networks : NetIP.
Proof.
  refine {| ip := string; network := string; SplitHostPort := λ _, None; ParseIP := Some; ip_text := id;
            ParseCIDR := Some; network_contains := λ _ _, false |}.
Defined.

Definition small_environment : environment := λ name,
  if bool_decide (name = "IDEMPOTENCY_KEY"%string) then "AAAAAAAAAAAAAAAAAAAAAAAAAAAAAAAAAAAAAAAAAAA"%string
  else if bool_decide (name = "DATABASE_MAX_CONNECTIONS"%string) then "12"%string
  else if bool_decide (name = "OUTBOX_DATABASE_MAX_CONNECTIONS"%string) then "3"%string
  else EmptyString.

Definition good_services : services :=
  Services (λ _, Ok 4) (Ok tt) (Ok tt) (Ok tt) (Ok tt) (Ok tt) (λ _, Ok tt) (Ok "host"%string) (Ok "0123456789abcdef"%string).

Lemma start_is_well_formed_witness :
  ∃ c, start (λ _, 0) small_environment good_services = Ok c ∧ max_connections c = 12 ∧ outbox_connections c = Some 3 ∧
    instanceID (router c) = "host-0123456789ab"%string ∧ configuration_ok c.
Proof.
  assert (match start (λ _, 0) small_environment good_services with
          | Ok c => Some (max_connections c, outbox_connections c, instanceID (router c)) | Err _ => None
          end = Some (12, Some 3, "host-0123456789ab"%string)) as Hsome by (vm_compute; reflexivity).
  destruct (start (λ _, 0) small_environment good_services) as [e|c] eqn:Hstart; [discriminate Hsome|].
  injection Hsome as Hmax Hout Hid.
  exists c. refine (conj eq_refl (conj Hmax (conj Hout (conj Hid _)))).
  apply (start_is_well_formed (λ _, 0) small_environment good_services c); [|exact Hstart].
  intros url own [= <-]. unfold pool_size. lia.
Defined.
